(* ===== verification/_CoqProject ===== *)
-Q . S2P
Prelude.v
BitOps.v
SqlBitmap.v
ByteOrder.v
TypeInt.v
Privilege.v
DateMode.v
Memory.v
SqlList.v
BaseList.v
ListIter.v
SqlIList.v
DList.v
SqlPlist.v
PlistSpec.v
PlistSim.v
SqlIlink.v
IlinkSpec.v
IntrusiveList.v
IntrusiveSpec.v
IntrusiveSim.v
LifoBuffer.v
LifoSpec.v
LifoStack.v
RootArray.v
RootArraySpec.v
RootArrayProps.v
ArrayViews.v
FilesortBuffer.v
FilesortSpec.v
SqlLimit.v
ThreadCache.v
ThreadCacheProps.v
ThreadCacheMain.v
HashFilo.v
HashFiloSpec.v
HashFiloProps.v
TranxAlloc.v
TranxAllocSpec.v
TranxAllocProps.v
BoundedQueue.v
Tokenizer.v
SqlString.v
SqlStringProps.v
SqlStringMain.v
SqlStringExamples.v
RangeArg.v
RangeArgProps.v
RangeKeys.v
RangeExamples.v
Win32Api.v
RunnerUtils.v
Runner.v
RunnerSpec.v
RunnerMain.v
RunnerMessages.v
Rental.v
RentalServices.v
RentalProtocol.v
RentalRefine.v
RentalContracts.v
RentalApi.v
RentalProps.v
RentalExamples.v
RentalRace.v
Accounts.v
AccountsProps.v
AccountsExamples.v
