(* ===== verification/Prelude.v ===== *)
(** * A verification of the car rental system

    The system is a rental agency application: a Java service
    (src/bousselha-backend), a Flutter desktop client (src/bousselha-flutter)
    with a C++ Windows runner (windows/runner), and a bundled MariaDB server
    (src/standalone_bundle) whose headers carry inline code.  This library
    models the C and C++ code, that is the whole runner and the self-contained
    parts of the server headers (include/mysql/server/private, below "private"),
    and the services of the Java backend: cars, clients, contracts,
    maintenances, financial records, the dashboard and accounts.

    ** Conventions

    A w-bit integer is a [Z]; conversions are written out as [wrap] and [swrap]
    (here).  Widths are those of the Windows build: int and long have 32 bits,
    long long, pointers and size_t 64; the byte order is little endian.  Memory
    of linked structures (Memory.v) maps an object and a field to a value; code
    on it is a computation of a state and error monad in which undefined
    behaviour is [None], so that "returns [Some]" means "is defined".  A failed
    assertion of the source is undefined, too; SqlBitmap takes debug and release
    builds apart.  Code that is not in the
    repository (Win32, the Flutter embedder, allocators, qsort) is a parameter
    with the documented facts as hypotheses, in classes such as [Allocator],
    [LawfulRoot], [LawfulHash], [LawfulQueue] and [LawfulRealloc].

    ** Files

    - Prelude: integers, bits, lists, arrays, tactics.
    - BitOps: private/my_bit.h.  SWAR counts, logarithms, powers of two and the
      first set bit equal their arithmetic definitions on every word.
    - SqlBitmap: private/sql_bitmap.h, [Bitmap<width>] for every width.  The
      members implement finite sets of positions below the width, and fail no
      assertion of a debug build, but for [set_all] when the width is not a
      multiple of 64; the iterators enumerate the sets in order; [print] is
      undefined above position 63.
    - ByteOrder: private/myisampack.h and the byte_order_generic headers.  Stores
      and loads are inverse, high-byte-first keys compare like numbers, and all
      host configurations agree.
    - TypeInt: private/sql_type_int.h.  Nullable and hybrid-signed integers:
      exact overflow tests, numeric comparison, range checks.
    - Privilege: privilege.h.  Grant-table packing round trips.
    - DateMode: private/sql_basic_types.h.  The flag classes behave as sets
      whichever type the compiler gives their enumerations; a mixture of
      conversion and rounding flags can be taken apart.
    - Memory: the heap monad; DList: chains with back pointers.
    - SqlList (code), BaseList, ListIter, SqlIList (proofs): private/sql_list.h,
      [base_list], [List], the iterators, [bubble_sort], [SQL_I_List].  Lists of
      nodes implement sequences, also when [push_front] finds no memory, up to the
      first [push_back] that finds none; sorting sorts and ends; iterators
      tolerate removal.
    - SqlPlist, PlistSpec, PlistSim: private/sql_plist.h, [I_P_List] for every
      policy.  SqlIlink, IlinkSpec: [ilink], [base_ilist], [I_List] of
      sql_list.h.  IntrusiveList, IntrusiveSpec, IntrusiveSim: private/ilist.h.
      Successions of operations on intrusive lists return what a sequence
      returns and keep all links; iteration ends; [pop_back] and
      [move_elements_to] do not do what they promise.
    - LifoBuffer, LifoSpec, LifoStack: private/sql_lifo_buffer.h.  The forward
      and the backward buffer, behind one interface of virtual functions, are
      stacks of records; adjacent buffers share their space.
    - RootArray, RootArraySpec, RootArrayProps: private/mem_root_array.h.  A
      growing array refines a sequence with a capacity; overflow of the byte
      count and references into the array.
    - ArrayViews: private/span.h and [Bounds_checked_array] of
      private/sql_array.h.  Views read the sequence they are given, except where
      a bound test overflows or a count is ignored.
    - FilesortBuffer, FilesortSpec: [Filesort_buffer] of
      private/filesort_utils.h.  Records and the pointers to them share a buffer
      without meeting, and the pointers can be read as an array.
    - SqlLimit: private/sql_limit.h and the row sink of private/sql_class.h.
      Reachable counters keep the offset below the limit; the tests of the
      counters and the sink let through the rows of the window.
    - ThreadCache (code), ThreadCacheProps, ThreadCacheMain: private/thread_cache.h
      with any number of threads, one critical section of a member after the
      other, in any order, with the condition variables of POSIX.  Connections
      are taken in order and none is lost; with one flush at a time the threads
      come to rest; two flushes that overlap may leave one waiting for ever; what
      the final flush gives and how it can be undone.
    - HashFilo (code), HashFiloSpec, HashFiloProps: private/hash_filo.h.  The
      hash table, once [clear] has initialised it, and the chain of elements
      together are a cache that drops the element used least recently.
    - TranxAlloc (code), TranxAllocSpec, TranxAllocProps: [Tranx_node_allocator]
      of private/semisync_master.h.  A queue of nodes in a chain of blocks; nodes
      in use keep their contents, and how many blocks stay reserved.
    - BoundedQueue: private/bounded_queue.h and the macros of private/queues.h.
      The best elements of those pushed are kept.
    - Tokenizer: private/simple_tokenizer.h and the inline members of
      private/gstream.h.  Scanners stay inside of the buffer and return the
      longest identifier; identifiers written with spaces are read back.
    - SqlString (code), SqlStringProps, SqlStringMain, SqlStringExamples:
      [Binary_string] of private/sql_string.h.  A string holds the text that was
      appended, failures leave it, buffers are freed once; names of flags;
      collations across versions.
    - RangeArg (code), RangeArgProps, RangeKeys, RangeExamples: [SEL_ARG] of
      private/opt_range.h, with the field of each interval.  Operations on
      intervals are operations on sets of values; the keys stored for a graph
      bound the rows it selects when all parts have one direction; with an
      ascending part before a descending one the start key can come after them.
    - Win32Api, RunnerUtils, Runner (code), RunnerSpec, RunnerMain,
      RunnerMessages (proofs): windows/runner.  A call of the operating system
      may call the window procedure back while it is in progress; [wWinMain]
      ends on every documented system that makes finitely many callbacks: it
      releases what it obtained, or it calls through the null view controller
      because of a WM_FONTCHANGE or of a WM_DESTROY during the set-up.

    - Rental (data, database, transactions), RentalServices (code): the
      services of src/bousselha-backend, one module each.  Rows are entries of
      finite maps; a service method is a computation that reads and writes them,
      takes ids and readings of a clock, and throws; a call from outside undoes
      the writes of a failed method, a call between services marks the
      transaction.  RentalProtocol: the rules by which rows may change, their
      invariants and what they never take back.  RentalRefine, RentalContracts,
      RentalApi: every endpoint is a sequence of rules.  RentalProps: after any
      calls no car is double booked, a car is rented exactly when a contract is
      active, the books balance, due reservations are activated; the exact
      outcomes of creating a contract; which status a car has after reading the
      list of cars.  RentalExamples: calls on a small database, and what the
      service does not prevent.  RentalRace: two calls on the same snapshot of
      the rows; one that only reads is harmless, two reservations are not.
    - Accounts (code), AccountsProps, AccountsExamples: PasswordResetService,
      AdminService, AdminInitializer and their controllers.  The times of
      requests are kept in memory: they survive a failed transaction, and a
      restart forgets them; the rows do the opposite.  Three requests an hour
      between restarts, codes that work once, and failed attempts
      that are never counted.

    ** Bounds and fuel

    Loops whose recursion is not structural take fuel, and theorems say how much
    is enough: the length of the list plus one for iterations and for the loops
    of [bubble_sort], the number of records plus one, 16 rounds for the
    nibble scan of [my_find_first_bit], the number of events of the system plus
    one for the message loop, the distance of the sizes plus one in [resize].
    The loops over the blocks of the node allocator take the number of blocks
    plus one, scanners the number of characters left.
    [generateUniqueCode] draws codes until one is free; its theorems hold for
    every number of draws, and a call that has not ended leaves its transaction
    open.
    Running out of fuel is undefined or a distinct result and never satisfies a
    theorem; [ilist_pop_back_loses_sentinel] shows a loop for which no fuel is
    enough.

    ** Not modelled

    The Dart client, PDF documents, mail, settings, HTTP validation and session
    tokens of the backend; more than two transactions at the same time (the
    theorems take them one after the other); SQL scripts and shell scripts;
    headers that only declare classes implemented in files that are not in the
    repository (fields, items, sessions, handlers, log events);
    [base_list::copy] and [Dynamic_array] for the same reason; of sql_string.h
    what formats numbers or converts between character sets; of opt_range.h the
    trees that index interval lists and their reference counts. *)

From Stdlib Require Export ZArith Lia Bool Btauto.
From stdpp Require Export base option list gmap numbers.

Open Scope Z_scope.

(** * Lists *)

Section Filter.
Context {A B : Type}.

Lemma list_filter_ext_in (P Q : A -> Prop) `{!forall x, Decision (P x), !forall x, Decision (Q x)}
    (l : list A) :
  (forall x, x ∈ l -> P x <-> Q x) -> filter P l = filter Q l.
Proof.
  induction l as [|x l IH]; intros HPQ; [done|]. rewrite !filter_cons.
  rewrite IH by (intros; apply HPQ; by right). specialize (HPQ x ltac:(left)).
  destruct (decide (P x)), (decide (Q x)); tauto.
Qed.

Lemma fmap_filter_in (f : A -> B) (P : A -> Prop) (Q : B -> Prop)
    `{!forall x, Decision (P x), !forall x, Decision (Q x)} (l : list A) :
  (forall x, x ∈ l -> P x <-> Q (f x)) -> f <$> filter P l = filter Q (f <$> l).
Proof.
  induction l as [|x l IH]; intros HPQ; [done|]. cbn [fmap list_fmap].
  rewrite !filter_cons, <- IH by (intros; apply HPQ; by right).
  specialize (HPQ x ltac:(left)).
  destruct (decide (P x)), (decide (Q (f x))); tauto || done.
Qed.

Lemma filter_none (P : A -> Prop) `{!forall x, Decision (P x)} (l : list A) :
  (forall x, x ∈ l -> ~ P x) -> filter P l = [].
Proof.
  induction l as [|x l IH]; intros HPQ; [done|]. rewrite filter_cons.
  destruct (decide (P x)) as [Px|]; [by destruct (HPQ x ltac:(left))|].
  apply IH. intros; apply HPQ; by right.
Qed.
End Filter.

Lemma NoDup_cons_iff {A} (x : A) l : NoDup (x :: l) <-> x ∉ l /\ NoDup l.
Proof.
  split; [|intros [? ?]; by constructor]. intros H. by inversion_clear H.
Qed.

Lemma NoDup_app_iff {A} (l k : list A) :
  NoDup (l ++ k) <-> NoDup l /\ (forall x, x ∈ l -> x ∉ k) /\ NoDup k.
Proof.
  induction l as [|x l IH]; cbn [app].
  - split; [intros; split; [constructor|split; [set_solver|done]]|tauto].
  - rewrite !NoDup_cons_iff, IH, elem_of_app. set_solver.
Qed.

Lemma Forall_in {A} (P : A -> Prop) l x : Forall P l -> x ∈ l -> P x.
Proof. intros Hl Hx. rewrite List.Forall_forall in Hl. by apply Hl, list_elem_of_In. Qed.

Lemma Forall_by {A} (P : A -> Prop) l : (forall x, x ∈ l -> P x) -> Forall P l.
Proof. intros H. apply List.Forall_forall. intros x Hx. by apply H, list_elem_of_In. Qed.

(** * Arrays of integers

    A C array of integers is a list; [b.[i]] reads an element, and the stdpp
    insert [<[i := v]> b] writes one.  Both are used within bounds. *)

Definition get (b : list Z) (i : nat) : Z := nth i b 0.
Notation "b .[ i ]" := (get b i) (at level 1, left associativity, format "b .[ i ]").

Lemma get_lookup b i : b.[i] = default 0 (b !! i).
Proof. unfold get. rewrite nth_lookup. done. Qed.

Lemma get_insert b i j v :
  (i < length b)%nat ->
  (<[i := v]> b).[j] = if (i =? j)%nat then v else b.[j].
Proof.
  intros Hi. rewrite !get_lookup. destruct (Nat.eqb_spec i j) as [->|Hne].
  - by rewrite list_lookup_insert_eq.
  - by rewrite list_lookup_insert_ne.
Qed.

Lemma get_overflow b i : (length b <= i)%nat -> b.[i] = 0.
Proof. apply nth_overflow. Qed.

Lemma get_zip_with f a b i :
  length a = length b -> f 0 0 = 0 -> (zip_with f a b).[i] = f a.[i] b.[i].
Proof.
  intros Hl Hf. rewrite !get_lookup, lookup_zip_with.
  destruct (a !! i) as [x|] eqn:Ea; cbn.
  - destruct (lookup_lt_is_Some_2 b i) as [y Ey].
    { rewrite <- Hl. by eapply lookup_lt_Some. }
    by rewrite Ey.
  - rewrite (lookup_ge_None_2 b i); [done|]. rewrite <- Hl. by apply lookup_ge_None.
Qed.

(** Assign [v] to [buf[from]], ..., [buf[to - 1]]: the loop
    [for (i= from; i < to; i++) buf[i]= v]. *)
Definition assign_range (buf : list Z) (from to : nat) (v : Z) : list Z :=
  foldl (fun b i => <[i := v]> b) buf (seq from (to - from)).

Lemma length_assign_range b f t v : length (assign_range b f t v) = length b.
Proof.
  unfold assign_range. generalize (seq f (t - f)) as l. intros l. revert b.
  induction l as [|i l IH]; intros b; [done|]. cbn. by rewrite IH, length_insert.
Qed.

Lemma get_assign_range b f t v j :
  (t <= length b)%nat ->
  (assign_range b f t v).[j] = if (f <=? j)%nat && (j <? t)%nat then v else b.[j].
Proof.
  unfold assign_range. intros Ht. remember (t - f)%nat as n eqn:En.
  revert b f En Ht. induction n as [|n IH]; intros b f En Ht; cbn [seq foldl].
  - destruct (Nat.leb_spec f j), (Nat.ltb_spec j t); done || lia.
  - rewrite (IH _ (S f)) by (rewrite ?length_insert; lia).
    rewrite get_insert by lia.
    destruct (Nat.leb_spec (S f) j), (Nat.leb_spec f j), (Nat.ltb_spec j t),
      (Nat.eqb_spec f j); done || lia.
Qed.

(** * Fixed-width integers

    A C integer of width [w] is a [Z].  Unsigned values live in
    [[0, 2^w)], signed ones in [[-2^(w-1), 2^(w-1))]; a conversion is
    written out as [wrap] (to unsigned) or [swrap] (to signed).  The widths
    are those of my_config.h for the bundled Windows server: [int] and [long]
    have 32 bits, [long long], pointers and [size_t] have 64. *)

Definition wrap (w x : Z) : Z := x mod 2 ^ w.

Definition swrap (w x : Z) : Z :=
  let y := wrap w x in if y <? 2 ^ (w - 1) then y else y - 2 ^ w.

Abbreviation u8 := (wrap 8).
Abbreviation u16 := (wrap 16).
Abbreviation u32 := (wrap 32).
Abbreviation u64 := (wrap 64).
Abbreviation s8 := (swrap 8).
Abbreviation s16 := (swrap 16).
Abbreviation s32 := (swrap 32).
Abbreviation s64 := (swrap 64).

(** C's implicit conversion of an integer to a condition. *)
Definition truth (x : Z) : bool := negb (x =? 0).

(** Unsigned range of width [w]. *)
Definition in_u (w x : Z) : Prop := 0 <= x < 2 ^ w.

(** Signed range of width [w]. *)
Definition in_s (w x : Z) : Prop := - 2 ^ (w - 1) <= x < 2 ^ (w - 1).

(** Bitwise operators with C's precedence, in a scope of their own. *)
Declare Scope cint_scope.
Delimit Scope cint_scope with cint.
Notation "a .& b" := (Z.land a b) (at level 44, left associativity) : cint_scope.
Notation "a .| b" := (Z.lor a b) (at level 46, left associativity) : cint_scope.
Notation "a .^ b" := (Z.lxor a b) (at level 45, left associativity) : cint_scope.
Notation "a .<< b" := (Z.shiftl a b) (at level 42, left associativity) : cint_scope.
Notation "a .>> b" := (Z.shiftr a b) (at level 42, left associativity) : cint_scope.

(** ** Wrap-around lemmas *)

Lemma pow2_pos w : 0 <= w -> 0 < 2 ^ w.
Proof. intros. apply Z.pow_pos_nonneg; lia. Qed.

Lemma wrap_bound w x : 0 <= w -> in_u w (wrap w x).
Proof. intros H. apply Z.mod_pos_bound, pow2_pos, H. Qed.

Lemma wrap_small w x : in_u w x -> wrap w x = x.
Proof. apply Z.mod_small. Qed.

Lemma wrap_add_l w x y : wrap w (wrap w x + y) = wrap w (x + y).
Proof. apply Zplus_mod_idemp_l. Qed.

Lemma wrap_add_r w x y : wrap w (x + wrap w y) = wrap w (x + y).
Proof. apply Zplus_mod_idemp_r. Qed.

Lemma wrap_sub_r w x y : wrap w (x - wrap w y) = wrap w (x - y).
Proof. apply Zminus_mod_idemp_r. Qed.

Lemma wrap_mul_l w x y : wrap w (wrap w x * y) = wrap w (x * y).
Proof. apply Zmult_mod_idemp_l. Qed.

Lemma wrap_wrap w x : wrap w (wrap w x) = wrap w x.
Proof. apply Zmod_mod. Qed.

Lemma wrap_wrap_le v w x : 0 <= v <= w -> wrap v (wrap w x) = wrap v x.
Proof.
  intros H. unfold wrap. apply Z.mod_mod_divide.
  exists (2 ^ (w - v)). rewrite <- Z.pow_add_r by lia. f_equal. lia.
Qed.

Lemma swrap_small w x : 0 < w -> in_s w x -> swrap w x = x.
Proof.
  unfold in_s, swrap. intros Hw [H1 H2].
  assert (E : 2 ^ w = 2 * 2 ^ (w - 1))
    by (rewrite <- Z.pow_succ_r by lia; f_equal; lia).
  destruct (Z.leb_spec 0 x).
  - rewrite wrap_small by (unfold in_u; lia).
    destruct (Z.ltb_spec x (2 ^ (w - 1))); lia.
  - assert (Hx : wrap w x = x + 2 ^ w).
    { unfold wrap. rewrite <- (Z_mod_plus_full x 1 (2 ^ w)).
      rewrite Z.mod_small; lia. }
    rewrite Hx. destruct (Z.ltb_spec (x + 2 ^ w) (2 ^ (w - 1))); lia.
Qed.

Lemma swrap_bound w x : 0 < w -> in_s w (swrap w x).
Proof.
  unfold in_s, swrap. intros Hw.
  pose proof (wrap_bound w x ltac:(lia)) as [? ?].
  assert (E : 2 ^ w = 2 * 2 ^ (w - 1))
    by (rewrite <- Z.pow_succ_r by lia; f_equal; lia).
  destruct (Z.ltb_spec (wrap w x) (2 ^ (w - 1))); lia.
Qed.

Lemma wrap_swrap w x : 0 < w -> wrap w (swrap w x) = wrap w x.
Proof.
  intros Hw. unfold swrap. destruct (_ <? _); [apply wrap_wrap|].
  unfold wrap. rewrite Zminus_mod, Z_mod_same_full, Z.sub_0_r, !Zmod_mod. done.
Qed.

Lemma swrap_wrap w x : 0 < w -> swrap w (wrap w x) = swrap w x.
Proof. intros Hw. unfold swrap. by rewrite wrap_wrap. Qed.

(** ** Bits *)

Lemma testbit_wrap w x i :
  0 <= w -> Z.testbit (wrap w x) i = (i <? w) && Z.testbit x i.
Proof. apply Z.testbit_mod_pow2. Qed.

Lemma testbit_high w x i : in_u w x -> 0 <= w <= i -> Z.testbit x i = false.
Proof.
  intros Hx Hi. rewrite <- (wrap_small w x Hx).
  by apply Z.mod_pow2_bits_high.
Qed.

Lemma testbit_pow2 n i : 0 <= n -> Z.testbit (2 ^ n) i = (i =? n).
Proof.
  intros Hn. destruct (Z.eqb_spec i n) as [->|Hne].
  - by apply Z.pow2_bits_true.
  - apply Z.pow2_bits_false. lia.
Qed.

Lemma testbit_ones n i : 0 <= n -> Z.testbit (Z.ones n) i = (0 <=? i) && (i <? n).
Proof. intros Hn. apply Z.testbit_ones; lia. Qed.

Lemma land_bound w x y : 0 <= w -> in_u w x -> 0 <= y -> in_u w (Z.land x y).
Proof.
  intros Hw Hx Hy. split; [apply Z.land_nonneg; left; apply Hx|].
  eapply Z.le_lt_trans; [|apply Hx].
  apply Z.ldiff_le; [apply Hx|].
  apply Z.bits_inj'. intros i Hi.
  rewrite Z.ldiff_spec, Z.land_spec, Z.bits_0. btauto.
Qed.

Lemma lor_bound w x y : 0 <= w -> in_u w x -> in_u w y -> in_u w (Z.lor x y).
Proof.
  intros Hw Hx Hy.
  assert (E : Z.lor x y = wrap w (Z.lor x y)).
  { apply Z.bits_inj'. intros i Hi. rewrite testbit_wrap, Z.lor_spec by lia.
    destruct (Z.ltb_spec i w); [done|].
    by rewrite (testbit_high w x), (testbit_high w y) by (auto || lia). }
  rewrite E. by apply wrap_bound.
Qed.

Lemma land_ones_low w x : 0 <= w -> Z.land x (Z.ones w) = wrap w x.
Proof. intros. by apply Z.land_ones. Qed.

(** A value is zero exactly when it has no bit below its width. *)
Lemma no_bits_zero w x :
  0 <= w -> in_u w x -> (forall i, 0 <= i < w -> Z.testbit x i = false) -> x = 0.
Proof.
  intros Hw Hx H. apply Z.bits_inj'. intros i Hi. rewrite Z.bits_0.
  destruct (Z.ltb_spec i w); [apply H; lia|]. apply (testbit_high w); auto; lia.
Qed.

Lemma truth_pow2 x k : 0 <= k -> truth (Z.land x (2 ^ k)) = Z.testbit x k.
Proof.
  intros Hk. unfold truth.
  assert (E : Z.land x (2 ^ k) = if Z.testbit x k then 2 ^ k else 0).
  { apply Z.bits_inj'. intros i Hi. rewrite Z.land_spec, testbit_pow2 by lia.
    destruct (Z.eqb_spec i k) as [->|].
    - destruct (Z.testbit x k); [by rewrite testbit_pow2, Z.eqb_refl by lia|by rewrite Z.bits_0].
    - destruct (Z.testbit x k); rewrite ?testbit_pow2, ?Z.bits_0 by lia;
        rewrite andb_false_r; [|done]. by destruct (Z.eqb_spec i k). }
  rewrite E. destruct (Z.testbit x k); [|done].
  pose proof (pow2_pos k Hk). destruct (Z.eqb_spec (2 ^ k) 0); [lia|done].
Qed.

Lemma truth_false x : truth x = false <-> x = 0.
Proof. unfold truth. rewrite negb_false_iff. apply Z.eqb_eq. Qed.

Lemma truth_true x : truth x = true <-> x <> 0.
Proof. unfold truth. rewrite negb_true_iff. apply Z.eqb_neq. Qed.

Lemma shiftl_1 k : 0 <= k -> Z.shiftl 1 k = 2 ^ k.
Proof. intros. by rewrite Z.shiftl_mul_pow2, Z.mul_1_l. Qed.

(** Two values below [2^w] are equal when they agree on the bits below [w]. *)
Lemma bits_eq w x y :
  0 <= w -> in_u w x -> in_u w y ->
  (forall i, 0 <= i < w -> Z.testbit x i = Z.testbit y i) -> x = y.
Proof.
  intros Hw Hx Hy H. apply Z.bits_inj'. intros i Hi.
  destruct (Z.ltb_spec i w); [apply H; lia|].
  rewrite (testbit_high w x), (testbit_high w y) by (auto || lia). done.
Qed.

(** Concatenation of a low part below [2^n] with a high part. *)
Lemma add_shift_lor n x y :
  0 <= n -> in_u n x -> x + 2 ^ n * y = Z.lor x (Z.shiftl y n).
Proof.
  intros Hn Hx. rewrite Z.mul_comm, <- Z.shiftl_mul_pow2 by lia.
  rewrite Z.add_nocarry_lxor, Z.lxor_lor; [done|..];
    apply Z.bits_inj'; intros i Hi; rewrite Z.land_spec, Z.bits_0;
    (destruct (Z.ltb_spec i n);
     [rewrite (Z.shiftl_spec_low _ _ i) by lia; btauto
     |rewrite (testbit_high n x) by (auto || lia); done]).
Qed.

(** ** Automation *)

Create HintDb cint.
Create Rewrite HintDb cbits.
#[export] Hint Rewrite Z.land_spec Z.lor_spec Z.lxor_spec Z.ldiff_spec
  Z.bits_0 : cbits.
#[export] Hint Rewrite Z.shiftr_spec Z.shiftl_spec Z.lnot_spec testbit_wrap
  testbit_pow2 testbit_ones using lia : cbits.
#[export] Hint Resolve wrap_bound : cint.

(** Reduce an equation between integers to one on the bit [i] of each side. *)
Ltac bitwise i Hi :=
  apply Z.bits_inj'; intros i Hi; autorewrite with cbits.

(** [lia] with the divisions and remainders by constants axiomatised first. *)
Ltac dlia := Z.div_mod_to_equations; lia.

(** Case split on the comparisons left by [bitwise]. *)
Ltac zcases :=
  repeat match goal with
  | |- context [?a <? ?b] => destruct (Z.ltb_spec a b)
  | |- context [?a <=? ?b] => destruct (Z.leb_spec a b)
  | |- context [?a =? ?b] => destruct (Z.eqb_spec a b)
  end.

(** Enumerate a variable known to lie in a small concrete interval. *)
Ltac zenum i Hi n :=
  lazymatch n with
  | O => exfalso; lia
  | S ?k =>
      let v := eval vm_compute in (Z.of_nat k) in
      let E := fresh "E" in
      destruct (Z.eq_dec i v) as [E|E];
      [ subst i | zenum i Hi k ]
  end.
