(* ===== verification/BitOps.v ===== *)
(** Bit utilities of my_bit.h.

    [my_bit_log2_*], [my_count_bits*], [my_round_up_to_next_power],
    [my_clear_highest_bit], [my_reverse_bits], [my_set_bits],
    [last_byte_mask] and [my_find_first_bit], each at the width the header
    gives it, with the theorems that relate the bit tricks to the
    mathematical functions they compute: [Z.log2], the population count,
    [Z.log2_up], bit reversal and the least set bit. *)

From S2P Require Import Prelude.

Open Scope Z_scope.
Open Scope cint_scope.

(** * Definitions *)

Module MyBit.

(** ** Base-2 logarithm, by halving the width *)

Definition my_bit_log2_hex_digit (value : Z) : Z :=
  if truth (value .& 0x0C)
  then (if truth (value .& 0x08) then 3 else 2)
  else (if truth (value .& 0x02) then 1 else 0).

Definition my_bit_log2_uint8 (value : Z) : Z :=
  if truth (value .& 0xF0)
  then my_bit_log2_hex_digit (u8 (value .>> 4)) + 4
  else my_bit_log2_hex_digit value.

Definition my_bit_log2_uint16 (value : Z) : Z :=
  if truth (value .& 0xFF00)
  then my_bit_log2_uint8 (u8 (value .>> 8)) + 8
  else my_bit_log2_uint8 (u8 value).

Definition my_bit_log2_uint32 (value : Z) : Z :=
  if truth (value .& 0xFFFF0000)
  then my_bit_log2_uint16 (u16 (value .>> 16)) + 16
  else my_bit_log2_uint16 (u16 value).

Definition my_bit_log2_uint64 (value : Z) : Z :=
  if truth (value .& 0xFFFFFFFF00000000)
  then my_bit_log2_uint32 (u32 (value .>> 32)) + 32
  else my_bit_log2_uint32 (u32 value).

Definition my_bit_log2_size_t (value : Z) : Z := my_bit_log2_uint64 (u64 value).

(** ** Population count, in parallel on the fields of the word *)

Definition my_count_bits_uint32 (v : Z) : Z :=
  let v := u32 (v - ((v .>> 1) .& 0x55555555)) in
  let v := u32 ((v .& 0x33333333) + ((v .>> 2) .& 0x33333333)) in
  u32 ((u32 (v + (v .>> 4)) .& 0xF0F0F0F) * 0x1010101) .>> 24.

Definition my_count_bits (x : Z) : Z :=
  u32 (my_count_bits_uint32 (u32 x) + my_count_bits_uint32 (u32 (x .>> 32))).

(** ** Smearing the highest bit down *)

Definition my_round_up_to_next_power (v : Z) : Z :=
  let v := u32 (v - 1) in
  let v := v .| (v .>> 1) in
  let v := v .| (v .>> 2) in
  let v := v .| (v .>> 4) in
  let v := v .| (v .>> 8) in
  let v := v .| (v .>> 16) in
  u32 (v + 1).

Definition my_clear_highest_bit (v : Z) : Z :=
  let w := v .>> 1 in
  let w := w .| (w .>> 1) in
  let w := w .| (w .>> 2) in
  let w := w .| (w .>> 4) in
  let w := w .| (w .>> 8) in
  let w := w .| (w .>> 16) in
  v .& w.

(** [_my_bits_reverse_table] is defined in a source file that is not part of
    the bundle: it is an argument. *)
Definition my_reverse_bits (_my_bits_reverse_table : Z -> Z) (key : Z) : Z :=
  u32 (_my_bits_reverse_table (key .& 255) .<< 24)
  .| u32 (_my_bits_reverse_table ((key .>> 8) .& 255) .<< 16)
  .| u32 (_my_bits_reverse_table ((key .>> 16) .& 255) .<< 8)
  .| u32 (_my_bits_reverse_table (key .>> 24)).

(** ** Masks *)

Definition my_set_bits (n : Z) : Z :=
  u64 (u64 (u64 (1 .<< (n - 1)) - 1) .<< 1) .| 1.

Definition last_byte_mask (bits : Z) : Z :=
  let used := u32 (bits - 1) .& 7 in
  u8 (u32 (u32 (2 .<< used) - 1)).

(** ** First set bit: the portable branch, which scans four bits at a time *)

Definition last_bit : list Z := [32; 0; 1; 0; 2; 0; 1; 0; 3; 0; 1; 0; 2; 0; 1; 0].

(** The [while] loop.  [fuel] bounds the number of rounds; a word has 16
    hexadecimal digits, so 16 rounds are enough when one of them is not 0. *)
Fixpoint find_first_bit_loop (fuel : nat) (n shift : Z) : Z :=
  let bit := nth (Z.to_nat ((n .>> shift) .& 0xF)) last_bit 0 in
  match fuel with
  | S fuel =>
      if bit =? 32 then find_first_bit_loop fuel n (shift + 4) else shift + bit
  | O => shift + bit
  end.

Definition my_find_first_bit (n : Z) : Z :=
  if n =? 0 then 64 else find_first_bit_loop 16 n 0.

End MyBit.
Import MyBit.

(** * Reference definitions *)

(** Number of ones among the [n] low bits. *)
Fixpoint popcount (n : nat) (v : Z) : Z :=
  match n with O => 0 | S k => v mod 2 + popcount k (v / 2) end.

(** Some bit of [v] is set in the window of [n] positions from [i] up. *)
Definition any_bit (n : nat) (v i : Z) : bool :=
  existsb (fun j => Z.testbit v (i + Z.of_nat j)) (seq 0 n).

(** * Logarithm *)

Lemma truth_high_mask h v :
  0 <= h -> in_u (2 * h) v ->
  truth (v .& (Z.ones h .<< h)) = (2 ^ h <=? v).
Proof.
  intros Hh Hv. unfold truth.
  assert (E : v .& (Z.ones h .<< h) = (v .>> h) .<< h).
  { apply Z.bits_inj'. intros i Hi. destruct (Z.ltb_spec i h) as [Hlt|Hge].
    - rewrite Z.land_spec, !(Z.shiftl_spec_low _ _ i) by lia. btauto.
    - autorewrite with cbits. replace (i - h + h) with i by lia.
      destruct (Z.ltb_spec (i - h) h), (Z.leb_spec 0 (i - h)); try lia.
      + btauto.
      + rewrite (testbit_high (2 * h) v) by (auto || lia). done. }
  rewrite E, Z.shiftl_mul_pow2, Z.shiftr_div_pow2 by lia.
  pose proof (pow2_pos h Hh).
  destruct (Z.leb_spec (2 ^ h) v) as [Hle|Hlt].
  - assert (0 < v / 2 ^ h) by (apply Z.div_str_pos; lia).
    destruct (Z.eqb_spec (v / 2 ^ h * 2 ^ h) 0); [nia|done].
  - destruct Hv. rewrite Z.div_small by lia. done.
Qed.

Lemma log2_shift h v : 0 <= h -> 2 ^ h <= v -> Z.log2 v = Z.log2 (v .>> h) + h.
Proof. intros. rewrite Z.log2_shiftr; [|pose proof (pow2_pos h); lia].
  assert (h <= Z.log2 v) by (apply Z.log2_le_pow2; [pose proof (pow2_pos h)|]; lia).
  lia. Qed.

(** One halving step: from a correct logarithm at width [h] to one at [2h]. *)
Lemma log2_halving (f : Z -> Z) h mask v :
  0 <= h -> mask = (Z.ones h .<< h) ->
  (forall x, in_u h x -> f x = Z.log2 x) -> in_u (2 * h) v ->
  (if truth (v .& mask) then f (wrap h (v .>> h)) + h else f (wrap h v))
  = Z.log2 v.
Proof.
  intros Hh -> Hf Hv. rewrite truth_high_mask by auto.
  assert (Hs : in_u h (v .>> h)).
  { destruct Hv as [? Hv]. rewrite Z.shiftr_div_pow2 by lia. pose proof (pow2_pos h Hh).
    split; [apply Z.div_pos; lia|]. apply Z.div_lt_upper_bound; [lia|].
    rewrite <- Z.pow_add_r by lia. replace (h + h) with (2 * h) by lia. done. }
  destruct (Z.leb_spec (2 ^ h) v).
  - rewrite wrap_small, Hf, <- log2_shift by auto. done.
  - destruct Hv. rewrite wrap_small, Hf by (split; lia). done.
Qed.

Lemma log2_hex_digit_ok v : in_u 4 v -> my_bit_log2_hex_digit v = Z.log2 v.
Proof. intros [H1 H2]. assert (Hv : 0 <= v < 16) by lia. zenum v Hv 16%nat; reflexivity. Qed.

Lemma log2_uint8_ok v : in_u 8 v -> my_bit_log2_uint8 v = Z.log2 v.
Proof.
  intros [H1 H2].
  assert (E : forallb (fun k => my_bit_log2_uint8 (Z.of_nat k) =? Z.log2 (Z.of_nat k))
                      (seq 0 256) = true) by (vm_compute; reflexivity).
  rewrite forallb_forall in E.
  specialize (E (Z.to_nat v)). rewrite Z2Nat.id in E by lia.
  apply Z.eqb_eq, E, in_seq. lia.
Qed.

Lemma log2_uint16_ok v : in_u 16 v -> my_bit_log2_uint16 v = Z.log2 v.
Proof. intros. by apply (log2_halving my_bit_log2_uint8 8); [lia| |apply log2_uint8_ok|]. Qed.

Lemma log2_uint32_ok v : in_u 32 v -> my_bit_log2_uint32 v = Z.log2 v.
Proof. intros. by apply (log2_halving my_bit_log2_uint16 16); [lia| |apply log2_uint16_ok|]. Qed.

Lemma log2_uint64_ok v : in_u 64 v -> my_bit_log2_uint64 v = Z.log2 v.
Proof. intros. by apply (log2_halving my_bit_log2_uint32 32); [lia| |apply log2_uint32_ok|]. Qed.

(** * Population count *)

Lemma popcount_app m n v :
  popcount (m + n) v = popcount m v + popcount n (v .>> Z.of_nat m).
Proof.
  revert v. induction m as [|m IH]; intros v; [by rewrite Z.shiftr_0_r|].
  cbn [popcount Nat.add]. rewrite IH, Nat2Z.inj_succ.
  replace (Z.succ (Z.of_nat m)) with (1 + Z.of_nat m) by lia.
  rewrite <- Z.shiftr_shiftr by lia. change (v .>> 1) with (Z.div2 v).
  rewrite Z.div2_div. lia.
Qed.

Lemma popcount_wrap n v : popcount n (wrap (Z.of_nat n) v) = popcount n v.
Proof.
  revert v. induction n as [|n IH]; intros v; [done|].
  cbn [popcount]. f_equal.
  - apply (wrap_wrap_le 1). lia.
  - rewrite <- IH, <- (IH (v / 2)). f_equal.
    rewrite <- !(Z.shiftr_div_pow2 _ 1) by lia. rewrite Nat2Z.inj_succ.
    bitwise i Hi. zcases; try lia; btauto.
Qed.

(** Splitting a word into a low byte and the rest commutes with masking a
    right shift, provided the low mask leaves out the bits that cross over. *)
Lemma land_shiftr_split k a b m0 m1 :
  0 <= k <= 8 -> in_u 8 a -> in_u (8 - k) m0 ->
  ((a + 2 ^ 8 * b) .>> k) .& (m0 + 2 ^ 8 * m1)
  = ((a .>> k) .& m0) + 2 ^ 8 * ((b .>> k) .& m1).
Proof.
  intros Hk Ha Hm.
  assert (Hm8 : in_u 8 m0).
  { destruct Hm. split; [lia|]. eapply Z.lt_le_trans; [eassumption|].
    apply Z.pow_le_mono_r; lia. }
  rewrite !add_shift_lor; auto; try lia.
  2: { rewrite Z.land_comm. apply land_bound; auto; [lia|].
       apply Z.shiftr_nonneg, Ha. }
  apply Z.bits_inj'. intros i Hi. autorewrite with cbits.
  destruct (Z.ltb_spec i 8).
  - rewrite !(Z.testbit_neg_r _ (i - 8)) by lia. rewrite !andb_false_l, !orb_false_r.
    destruct (Z.ltb_spec i (8 - k)).
    + rewrite (Z.testbit_neg_r b) by lia. by rewrite orb_false_r.
    + rewrite (testbit_high (8 - k) m0 i) by (auto || lia). by rewrite !andb_false_r.
  - autorewrite with cbits.
    rewrite (testbit_high 8 a (i + k)) by (auto || lia).
    rewrite (testbit_high 8 m0 i) by (auto || lia).
    rewrite andb_false_r, !orb_false_l. do 2 f_equal. lia.
Qed.

(** A word as four bytes. *)
Definition word4 (a b c d : Z) : Z := a + 2 ^ 8 * (b + 2 ^ 8 * (c + 2 ^ 8 * d)).

(** Masking a shifted word with the same byte mask in every byte. *)
Lemma land_shiftr_word4 k a b c d m :
  0 <= k <= 8 -> in_u 8 a -> in_u 8 b -> in_u 8 c -> in_u 8 d -> in_u (8 - k) m ->
  (word4 a b c d .>> k) .& word4 m m m m
  = word4 ((a .>> k) .& m) ((b .>> k) .& m) ((c .>> k) .& m) ((d .>> k) .& m).
Proof. intros. unfold word4. by rewrite !land_shiftr_split by auto. Qed.

Lemma land_word4 a b c d m :
  in_u 8 a -> in_u 8 b -> in_u 8 c -> in_u 8 d -> in_u 8 m ->
  word4 a b c d .& word4 m m m m = word4 (a .& m) (b .& m) (c .& m) (d .& m).
Proof.
  intros. pose proof (land_shiftr_word4 0 a b c d m) as H'.
  rewrite !Z.shiftr_0_r in H'. apply H'; auto; lia.
Qed.

(** The steps on one byte. *)
Definition swar_pairs (a : Z) : Z := a - ((a .>> 1) .& 0x55).
Definition swar_nibbles (a : Z) : Z := (a .& 0x33) + ((a .>> 2) .& 0x33).

Definition swar_ok (a : Z) : bool :=
  let p := swar_pairs a in let q := swar_nibbles p in
  (0 <=? p) && (p <? 256) && (0 <=? q) && (q <? 137)
  && (((q + (q .>> 4)) .& 0x0F) =? popcount 8 a)
  && (q .& 0x0F <? 5) && (q .>> 4 <? 5).

Lemma swar_all a : in_u 8 a -> swar_ok a = true.
Proof.
  intros [H1 H2].
  assert (E : forallb (fun k => swar_ok (Z.of_nat k)) (seq 0 256) = true)
    by (vm_compute; reflexivity).
  rewrite forallb_forall in E. specialize (E (Z.to_nat a)).
  rewrite Z2Nat.id in E by lia. apply E, in_seq. lia.
Qed.

Lemma swar_facts a :
  in_u 8 a ->
  let p := swar_pairs a in let q := swar_nibbles p in
  in_u 8 p /\ 0 <= q < 137 /\ q mod 16 < 5 /\ q / 16 < 5 /\
  (q + q / 16) mod 16 = popcount 8 a.
Proof.
  intros Ha. pose proof (swar_all a Ha) as H. unfold swar_ok in H. cbv zeta in *.
  rewrite !andb_true_iff, !Z.leb_le, !Z.ltb_lt, Z.eqb_eq in H.
  change 15 with (Z.ones 4) in H. rewrite !Z.land_ones, !Z.shiftr_div_pow2 in H by lia.
  change (2 ^ 4) with 16 in H. unfold in_u. lia.
Qed.

(** The parallel count on four bytes is the sum of the counts of the bytes. *)
Lemma count_word4 a b c d :
  in_u 8 a -> in_u 8 b -> in_u 8 c -> in_u 8 d ->
  my_count_bits_uint32 (word4 a b c d)
  = popcount 8 a + popcount 8 b + popcount 8 c + popcount 8 d.
Proof.
  intros Ha Hb Hc Hd. unfold my_count_bits_uint32. cbv zeta.
  destruct (swar_facts a Ha) as (Pa & Qa & La & Ua & Ea).
  destruct (swar_facts b Hb) as (Pb & Qb & Lb & Ub & Eb).
  destruct (swar_facts c Hc) as (Pc & Qc & Lc & Uc & Ec).
  destruct (swar_facts d Hd) as (Pd & Qd & Ld & Ud & Ed).
  change 0x55555555 with (word4 0x55 0x55 0x55 0x55).
  change 0x33333333 with (word4 0x33 0x33 0x33 0x33).
  change 0xF0F0F0F with (word4 0xF 0xF 0xF 0xF).
  rewrite land_shiftr_word4 by (auto; unfold in_u; lia).
  assert (E1 : forall a' b' c' d', word4 a b c d - word4 a' b' c' d'
               = word4 (a - a') (b - b') (c - c') (d - d'))
    by (intros; unfold word4; lia).
  rewrite E1. fold (swar_pairs a) (swar_pairs b) (swar_pairs c) (swar_pairs d).
  rewrite (wrap_small 32 (word4 _ _ _ _)) by (unfold in_u, word4 in *; lia).
  remember (swar_pairs a) as pa; remember (swar_pairs b) as pb;
  remember (swar_pairs c) as pc; remember (swar_pairs d) as pd.
  rewrite land_word4, !land_shiftr_word4 by (auto; unfold in_u; lia).
  assert (E2 : forall a b c d a' b' c' d', word4 a b c d + word4 a' b' c' d'
               = word4 (a + a') (b + b') (c + c') (d + d'))
    by (intros; unfold word4; lia).
  rewrite E2. fold (swar_nibbles pa) (swar_nibbles pb) (swar_nibbles pc) (swar_nibbles pd).
  rewrite (wrap_small 32 (word4 _ _ _ _)) by (unfold in_u, word4 in *; lia).
  generalize dependent (swar_nibbles pa); intros qa Qa La Ua Ea.
  generalize dependent (swar_nibbles pb); intros qb Qb Lb Ub Eb.
  generalize dependent (swar_nibbles pc); intros qc Qc Lc Uc Ec.
  generalize dependent (swar_nibbles pd); intros qd Qd Ld Ud Ed.
  clear - Qa La Ua Ea Qb Lb Ub Eb Qc Lc Uc Ec Qd Ld Ud Ed E2.
  assert (E3 : word4 qa qb qc qd .>> 4
    = word4 (qa / 16 + 16 * (qb mod 16)) (qb / 16 + 16 * (qc mod 16))
            (qc / 16 + 16 * (qd mod 16)) (qd / 16)).
  { rewrite Z.shiftr_div_pow2 by lia. change (2 ^ 4) with 16.
    symmetry. apply Z.div_unique with (qa mod 16); [left; dlia|].
    unfold word4. change (2 ^ 8) with 256. clear - qa qb qc qd. dlia. }
  rewrite E3, E2, (wrap_small 32 (word4 _ _ _ _)) by (unfold in_u, word4; change (2 ^ 8) with 256; clear Ea Eb Ec Ed; dlia).
  rewrite land_word4 by (unfold in_u; clear Ea Eb Ec Ed; change (2 ^ 8) with 256; dlia).
  change 15 with (Z.ones 4).
  rewrite !Z.land_ones by lia. change (2 ^ 4) with 16.
  rewrite <- Ea, <- Eb, <- Ec, <- Ed.
  replace ((qa + (qa / 16 + 16 * (qb mod 16))) mod 16) with ((qa + qa / 16) mod 16) by (clear; dlia).
  replace ((qb + (qb / 16 + 16 * (qc mod 16))) mod 16) with ((qb + qb / 16) mod 16) by (clear; dlia).
  replace ((qc + (qc / 16 + 16 * (qd mod 16))) mod 16) with ((qc + qc / 16) mod 16) by (clear; dlia).
  remember ((qa + qa / 16) mod 16) as sa. remember ((qb + qb / 16) mod 16) as sb.
  remember ((qc + qc / 16) mod 16) as sc. remember ((qd + qd / 16) mod 16) as sd.
  assert (0 <= sa < 16 /\ 0 <= sb < 16 /\ 0 <= sc < 16 /\ 0 <= sd < 16) by (clear - Heqsa Heqsb Heqsc Heqsd; dlia).
  clear - H. rewrite Z.shiftr_div_pow2 by lia. unfold wrap, word4.
  change (2 ^ 8) with 256. change (2 ^ 24) with 16777216. change (2 ^ 32) with 4294967296.
  rewrite <- (Z.mod_unique _ 4294967296 (sb + sc + sd + 256 * (sc + sd + 256 * sd))
    (sa + 256 * (sa + sb + 256 * (sa + sb + sc + 256 * (sa + sb + sc + sd)))))
    by (try left; lia).
  symmetry. apply Z.div_unique with (sa + 256 * (sa + sb + 256 * (sa + sb + sc)));
    [left|]; lia.
Qed.

Lemma byte_split v : in_u 32 v ->
  exists a b c d, in_u 8 a /\ in_u 8 b /\ in_u 8 c /\ in_u 8 d /\
    v = word4 a b c d /\ a = v mod 2 ^ 8 /\ b = (v / 2 ^ 8) mod 2 ^ 8 /\
    c = (v / 2 ^ 16) mod 2 ^ 8 /\ d = v / 2 ^ 24.
Proof.
  intros [H1 H2].
  exists (v mod 2 ^ 8), ((v / 2 ^ 8) mod 2 ^ 8), ((v / 2 ^ 16) mod 2 ^ 8), (v / 2 ^ 24).
  unfold in_u, word4.
  change (2 ^ 8) with 256. change (2 ^ 16) with 65536. change (2 ^ 24) with 16777216.
  change (2 ^ 32) with 4294967296 in H2. repeat split; dlia.
Qed.

Lemma count_bits_uint32_ok v : in_u 32 v -> my_count_bits_uint32 v = popcount 32 v.
Proof.
  intros Hv. destruct (byte_split v Hv) as (a & b & c & d & Ha & Hb & Hc & Hd & E & Ea & Eb & Ec & Ed).
  rewrite E at 1. rewrite count_word4 by auto.
  change 32%nat with (8 + (8 + (8 + 8)))%nat. rewrite !popcount_app.
  rewrite !Z.shiftr_shiftr, !Z.shiftr_div_pow2 by lia.
  change (Z.of_nat 8) with 8. change (8 + 8 + 8) with 24. change (8 + 8) with 16.
  rewrite <- (popcount_wrap 8 v), <- (popcount_wrap 8 (v / 2 ^ 8)),
    <- (popcount_wrap 8 (v / 2 ^ 16)).
  unfold wrap. change (Z.of_nat 8) with 8.
  rewrite <- Ea, <- Eb, <- Ec, <- Ed. lia.
Qed.

Lemma popcount_bound n v : 0 <= popcount n v <= Z.of_nat n.
Proof.
  revert v. induction n as [|n IH]; intros v; [cbn; lia|].
  cbn [popcount]. specialize (IH (v / 2)). pose proof (Z.mod_pos_bound v 2). lia.
Qed.

Lemma count_bits_ok x : in_u 64 x -> my_count_bits x = popcount 64 x.
Proof.
  intros Hx. unfold my_count_bits.
  rewrite !count_bits_uint32_ok by (apply wrap_bound; lia).
  change 64%nat with (32 + 32)%nat. rewrite popcount_app.
  rewrite !(popcount_wrap 32). apply wrap_small.
  pose proof (popcount_bound 32 x). pose proof (popcount_bound 32 (x .>> 32)).
  unfold in_u. change (Z.of_nat 32) with 32 in *. lia.
Qed.

(** * Smearing *)

Lemma any_bit_step n x v :
  (forall i, 0 <= i -> Z.testbit x i = any_bit n v i) ->
  forall i, 0 <= i -> Z.testbit (x .| (x .>> Z.of_nat n)) i = any_bit (n + n) v i.
Proof.
  intros H i Hi. autorewrite with cbits. rewrite !H by lia.
  unfold any_bit. rewrite seq_app, existsb_app. f_equal.
  apply eq_true_iff_eq. rewrite !existsb_exists. setoid_rewrite in_seq. split.
  - intros (j & Hj & E). exists (n + j)%nat. split; [lia|].
    rewrite <- E. f_equal. lia.
  - intros (j & Hj & E). exists (j - n)%nat. split; [lia|].
    rewrite <- E. f_equal. lia.
Qed.

(** The five smearing rounds. *)
Definition smear (v : Z) : Z :=
  let v := v .| (v .>> 1) in
  let v := v .| (v .>> 2) in
  let v := v .| (v .>> 4) in
  let v := v .| (v .>> 8) in
  v .| (v .>> 16).

Lemma smear_bits v i : 0 <= i -> Z.testbit (smear v) i = any_bit 32 v i.
Proof.
  intros Hi. unfold smear.
  apply (any_bit_step 16), Hi. apply (any_bit_step 8).
  apply (any_bit_step 4). apply (any_bit_step 2). apply (any_bit_step 1).
  intros j Hj. unfold any_bit. cbn. rewrite orb_false_r. f_equal. lia.
Qed.

Lemma smear_ones v : 0 < v < 2 ^ 32 -> smear v = Z.ones (Z.log2 v + 1).
Proof.
  intros Hv. pose proof (Z.log2_nonneg v).
  assert (Hlog : Z.log2 v < 32) by (apply Z.log2_lt_pow2; lia).
  apply Z.bits_inj'. intros i Hi. rewrite smear_bits, testbit_ones by lia.
  destruct (Z.leb_spec 0 i); [|lia]. cbn [andb].
  destruct (Z.ltb_spec i (Z.log2 v + 1)).
  - unfold any_bit. apply existsb_exists. exists (Z.to_nat (Z.log2 v - i)).
    rewrite in_seq. split; [lia|].
    replace (i + _) with (Z.log2 v) by lia. apply Z.bit_log2. lia.
  - apply not_true_is_false. unfold any_bit. rewrite existsb_exists.
    intros (j & _ & E). rewrite Z.bits_above_log2 in E by lia. done.
Qed.

Lemma smear_0 : smear 0 = 0.
Proof. reflexivity. Qed.

Lemma round_up_zero : my_round_up_to_next_power 0 = 0.
Proof. reflexivity. Qed.

Lemma round_up_one : my_round_up_to_next_power 1 = 1.
Proof. reflexivity. Qed.

(** Below, the power of two is [2 ^ Z.log2_up v]; above [2^31] it needs 33 bits
    and the final increment wraps to 0. *)
Lemma round_up_big v :
  2 <= v < 2 ^ 32 -> my_round_up_to_next_power v = u32 (2 ^ Z.log2_up v).
Proof.
  intros Hv. unfold my_round_up_to_next_power. cbv zeta.
  rewrite (wrap_small 32 (v - 1)) by (unfold in_u; lia).
  change (u32 (smear (v - 1) + 1) = u32 (2 ^ Z.log2_up v)).
  rewrite smear_ones by lia. f_equal.
  rewrite Z.ones_equiv, Z.log2_up_eqn by lia.
  replace (Z.pred v) with (v - 1) by lia.
  replace (Z.succ (Z.log2 (v - 1))) with (Z.log2 (v - 1) + 1) by lia. lia.
Qed.

Lemma clear_highest_ok v :
  0 < v < 2 ^ 32 -> my_clear_highest_bit v = v - 2 ^ Z.log2 v.
Proof.
  intros Hv. unfold my_clear_highest_bit. cbv zeta. change (v .& smear (v .>> 1) = v - 2 ^ Z.log2 v).
  destruct (Z.eq_dec v 1) as [->|Hne]; [reflexivity|].
  assert (Hlog : 1 <= Z.log2 v) by (apply Z.log2_le_pow2; lia).
  assert (Hhalf : 0 < v .>> 1 < 2 ^ 32).
  { rewrite Z.shiftr_div_pow2 by lia. change (2 ^ 1) with 2.
    change (2 ^ 32) with 4294967296 in *. dlia. }
  rewrite smear_ones, Z.log2_shiftr by lia.
  replace (Z.max 0 (Z.log2 v - 1) + 1) with (Z.log2 v) by lia.
  rewrite Z.land_ones by lia.
  pose proof (Z.log2_spec v ltac:(lia)) as [Hlo Hhi].
  symmetry. apply Z.mod_unique with 1; [left|lia].
  rewrite Z.pow_succ_r in Hhi by lia. lia.
Qed.

Lemma my_set_bits_ok n : 1 <= n <= 64 -> my_set_bits n = Z.ones n.
Proof. intros Hn. zenum n Hn 65%nat; reflexivity || lia. Qed.

Lemma last_byte_mask_ok bits :
  0 < bits < 2 ^ 32 -> last_byte_mask bits = Z.ones ((bits - 1) mod 8 + 1).
Proof.
  intros Hb. unfold last_byte_mask. cbv zeta. rewrite (wrap_small 32 (bits - 1)) by (unfold in_u; lia).
  change 7 with (Z.ones 3). rewrite Z.land_ones by lia. change (2 ^ 3) with 8.
  pose proof (Z.mod_pos_bound (bits - 1) 8 ltac:(lia)) as Hm.
  generalize dependent ((bits - 1) mod 8). intros m Hm.
  zenum m Hm 8%nat; reflexivity.
Qed.

(** Bit reversal of a byte, as the table is documented to hold. *)
Definition reverses8 (table : Z -> Z) : Prop :=
  forall b, in_u 8 b ->
    in_u 8 (table b) /\
    forall i, 0 <= i < 8 -> Z.testbit (table b) i = Z.testbit b (7 - i).

Lemma reverse_bits_ok table key :
  reverses8 table -> in_u 32 key ->
  forall i, 0 <= i < 32 ->
  Z.testbit (my_reverse_bits table key) i = Z.testbit key (31 - i).
Proof.
  intros Ht Hk i Hi.
  assert (B : forall k, 0 <= k -> in_u 8 ((key .>> k) .& 255)).
  { intros k Hk'. rewrite Z.land_comm. apply land_bound; unfold in_u; try lia.
    apply Z.shiftr_nonneg, Hk. }
  assert (B3 : in_u 8 (key .>> 24)).
  { rewrite Z.shiftr_div_pow2 by lia. unfold in_u in *. change (2 ^ 24) with 16777216.
    change (2 ^ 32) with 4294967296 in Hk. dlia. }
  pose proof (B 0 ltac:(lia)) as B0. rewrite Z.shiftr_0_r in B0.
  destruct (Ht _ B0) as [R0 T0], (Ht _ (B 8 ltac:(lia))) as [R1 T1],
    (Ht _ (B 16 ltac:(lia))) as [R2 T2], (Ht _ B3) as [R3 T3].
  assert (M : forall x j, 0 <= j < 8 -> Z.testbit (x .& 255) j = Z.testbit x j).
  { intros x j Hj. change 255 with (Z.ones 8). autorewrite with cbits.
    destruct (Z.leb_spec 0 j), (Z.ltb_spec j 8); try lia. btauto. }
  assert (S : forall t s, 0 <= s -> in_u 8 t ->
     Z.testbit (u32 (t .<< s)) i = (s <=? i) && (i <? s + 8) && Z.testbit t (i - s)).
  { intros t s Hs Htb. autorewrite with cbits. destruct (Z.ltb_spec i 32); [|lia].
    destruct (Z.leb_spec s i); [|rewrite Z.testbit_neg_r by lia; done].
    destruct (Z.ltb_spec i (s + 8)); [done|].
    rewrite (testbit_high 8 t) by (auto || lia). done. }
  unfold my_reverse_bits. rewrite !Z.lor_spec, !S by (auto || lia).
  autorewrite with cbits. destruct (Z.ltb_spec i 32); [|lia].
  destruct (Z.ltb_spec i 8); [|rewrite (testbit_high 8 (table (key .>> 24))) by (auto || lia)];
  zcases; try lia; rewrite ?T0, ?T1, ?T2, ?T3, ?M by lia;
  autorewrite with cbits; rewrite ?andb_false_l, ?andb_true_l, ?orb_false_r, ?orb_false_l;
  f_equal; lia.
Qed.

(** * First set bit *)

(** [r] is the position of the least significant bit set in [n]. *)
Definition first_bit (n r : Z) : Prop :=
  0 <= r /\ Z.testbit n r = true /\ forall j, 0 <= j < r -> Z.testbit n j = false.

Lemma first_bit_unique n r s : first_bit n r -> first_bit n s -> r = s.
Proof.
  intros (Hr & Tr & Lr) (Hs & Ts & Ls).
  destruct (Z.lt_trichotomy r s) as [H|[H|H]]; [|done|].
  - rewrite Ls in Tr by lia. done.
  - rewrite Lr in Ts by lia. done.
Qed.

(** The table gives the first bit of a hexadecimal digit, or 32 for 0. *)
Lemma last_bit_digit d :
  0 <= d < 16 ->
  let b := nth (Z.to_nat d) last_bit 0 in
  (d = 0 /\ b = 32) \/ (b <> 32 /\ first_bit d b /\ b < 4).
Proof.
  intros Hd.
  zenum d Hd 16%nat;
    match goal with
    | |- context [nth ?i last_bit 0] =>
        let v := eval vm_compute in (nth i last_bit 0) in
        change (nth i last_bit 0) with v
    end; cbv zeta; clear;
  first [left; split; reflexivity
        |right; split; [discriminate|split; [split; [discriminate|split; [reflexivity|]]|reflexivity]]];
  intros j Hj; assert (Hj4 : 0 <= j < 4) by lia; zenum j Hj4 4%nat; reflexivity || lia.
Qed.

Lemma digit_bits n s j :
  0 <= s -> 0 <= j < 4 -> Z.testbit ((n .>> s) .& 15) j = Z.testbit n (s + j).
Proof.
  intros Hs Hj. change 15 with (Z.ones 4). autorewrite with cbits.
  destruct (Z.leb_spec 0 j), (Z.ltb_spec j 4); try lia.
  rewrite andb_true_r. f_equal. lia.
Qed.

Lemma find_first_bit_loop_ok fuel n s :
  0 <= s -> in_u (s + 4 * Z.of_nat fuel) n -> n <> 0 ->
  (forall j, 0 <= j < s -> Z.testbit n j = false) ->
  first_bit n (find_first_bit_loop fuel n s).
Proof.
  revert s. induction fuel as [|fuel IH]; intros s Hs Hn Hnz Hlow.
  { destruct Hnz. apply (no_bits_zero (s + 4 * Z.of_nat 0)); auto; lia || intros; apply Hlow; lia. }
  cbn [find_first_bit_loop].
  set (d := (n .>> s) .& 15).
  assert (Hd : 0 <= d < 16).
  { unfold d. change 15 with (Z.ones 4). rewrite Z.land_ones by lia.
    apply Z.mod_pos_bound. reflexivity. }
  destruct (last_bit_digit d Hd) as [[E0 Eb]|(Hne & (Hb0 & Hb1 & Hb2) & Hb4)].
  - rewrite Eb, Z.eqb_refl. apply IH; auto; [lia| |].
    + replace (s + 4 + 4 * Z.of_nat fuel) with (s + 4 * Z.of_nat (S fuel)) by lia. done.
    + intros j Hj. destruct (Z.ltb_spec j s); [apply Hlow; lia|].
      replace j with (s + (j - s)) by lia. rewrite <- digit_bits by lia.
      fold d. by rewrite E0, Z.bits_0.
  - apply Z.eqb_neq in Hne. rewrite Hne.
    remember (nth (Z.to_nat d) last_bit 0) as b.
    split; [lia|]. split; [by rewrite <- digit_bits by lia|].
    intros j Hj. destruct (Z.ltb_spec j s); [apply Hlow; lia|].
    replace j with (s + (j - s)) by lia. rewrite <- digit_bits by lia. apply Hb2. lia.
Qed.

Lemma find_first_bit_ok n :
  in_u 64 n -> n <> 0 -> first_bit n (my_find_first_bit n).
Proof.
  intros Hn Hnz. unfold my_find_first_bit. rewrite (proj2 (Z.eqb_neq _ _) Hnz).
  apply (find_first_bit_loop_ok 16); auto; intros; lia.
Qed.

Lemma find_first_bit_lt n : in_u 64 n -> n <> 0 -> 0 <= my_find_first_bit n < 64.
Proof.
  intros Hn Hnz. destruct (find_first_bit_ok n Hn Hnz) as (H0 & H1 & _).
  split; [done|]. destruct (Z.ltb_spec (my_find_first_bit n) 64); [done|].
  rewrite (testbit_high 64 n) in H1 by (auto || lia). done.
Qed.

(** * Properties *)

(** the halving logarithm of a 64-bit word is [Z.log2]: the position of
    the highest set bit, and 0 for 0; [my_bit_log2_size_t] is the same function.
    For a value that is not a power of two this is not the smallest [X] with
    [2^X >= value] (3 gives 1, not the 2 the header's comment lists). *)
Theorem my_bit_log2_uint64_spec (v : Z) (Hv : in_u 64 v) :
  my_bit_log2_uint64 v = Z.log2 v /\
  my_bit_log2_size_t v = Z.log2 v /\
  (0 < v -> 2 ^ my_bit_log2_uint64 v <= v < 2 ^ (my_bit_log2_uint64 v + 1)) /\
  (v = 3 -> my_bit_log2_uint64 v = 1 /\ Z.log2_up v = 2).
Proof.
  unfold my_bit_log2_size_t. rewrite wrap_small, log2_uint64_ok by done.
  repeat split; try done.
  - apply Z.log2_spec; lia.
  - apply Z.log2_spec; lia.
  - by subst.
  - by subst.
Qed.

Lemma my_bit_log2_uint64_witness :
  in_u 64 3 /\ my_bit_log2_uint64 3 = Z.log2 3.
Proof.
  assert (H : in_u 64 3) by (split; reflexivity || discriminate).
  split; [exact H|]. exact (proj1 (my_bit_log2_uint64_spec 3 H)).
Defined.

(** the parallel bit count of a 64-bit word is its population count, and
    so is the 32-bit one. *)
Theorem my_count_bits_spec (x : Z) (Hx : in_u 64 x) :
  my_count_bits x = popcount 64 x /\
  my_count_bits_uint32 (u32 x) = popcount 32 x.
Proof.
  split; [by apply count_bits_ok|].
  rewrite count_bits_uint32_ok by (apply wrap_bound; lia). apply (popcount_wrap 32).
Qed.

Lemma my_count_bits_witness :
  in_u 64 0xF0F1 /\ my_count_bits 0xF0F1 = popcount 64 0xF0F1.
Proof.
  assert (H : in_u 64 0xF0F1) by (split; reflexivity || discriminate).
  split; [exact H|]. exact (proj1 (my_count_bits_spec 0xF0F1 H)).
Defined.

(** [my_round_up_to_next_power] returns the least power of two that is at
    least its argument, for arguments 1 to [2^31]; 0 for 0; and 0 (the
    wrapped [2^32]) for larger arguments.  [my_clear_highest_bit] removes
    exactly the highest set bit. *)
Theorem my_round_up_to_next_power_spec (v : Z) (Hv : in_u 32 v) :
  my_round_up_to_next_power v
    = (if v =? 0 then 0 else if v <=? 2 ^ 31 then 2 ^ Z.log2_up v else 0) /\
  (0 < v -> my_clear_highest_bit v = v - 2 ^ Z.log2 v).
Proof.
  destruct Hv as [H1 H2]. split; [|intros; by apply clear_highest_ok].
  destruct (Z.eqb_spec v 0) as [->|]; [apply round_up_zero|].
  destruct (Z.eq_dec v 1) as [->|]; [reflexivity|].
  rewrite round_up_big by lia.
  destruct (Z.leb_spec v (2 ^ 31)).
  - apply wrap_small. split; [apply Z.pow_nonneg; lia|].
    apply Z.pow_lt_mono_r; [lia..|].
    apply Z.le_lt_trans with (Z.log2_up (2 ^ 31)); [by apply Z.log2_up_le_mono|].
    rewrite Z.log2_up_pow2; lia.
  - assert (E : Z.log2_up v = 32).
    { apply Z.log2_up_unique; [lia|]. change (Z.pred 32) with 31. lia. }
    by rewrite E.
Qed.

Lemma my_round_up_witness :
  in_u 32 1000 /\ my_round_up_to_next_power 1000 = 2 ^ Z.log2_up 1000.
Proof.
  assert (H : in_u 32 1000) by (split; reflexivity || discriminate).
  split; [exact H|]. exact (proj1 (my_round_up_to_next_power_spec 1000 H)).
Defined.

(** [my_find_first_bit] returns the position of the least significant bit
    set, the scan by hexadecimal digits ending within the 16 rounds, and 64
    for 0. *)
Theorem my_find_first_bit_spec (n : Z) (Hn : in_u 64 n) :
  if n =? 0 then my_find_first_bit n = 64
  else 0 <= my_find_first_bit n < 64 /\ first_bit n (my_find_first_bit n).
Proof.
  destruct (Z.eqb_spec n 0) as [->|Hnz]; [reflexivity|].
  split; [by apply find_first_bit_lt|by apply find_first_bit_ok].
Qed.

Lemma my_find_first_bit_witness :
  in_u 64 (2 ^ 63) /\ first_bit (2 ^ 63) (my_find_first_bit (2 ^ 63)).
Proof.
  assert (H : in_u 64 (2 ^ 63)) by (split; reflexivity || discriminate).
  split; [exact H|]. exact (proj2 (my_find_first_bit_spec (2 ^ 63) H)).
Defined.
