(* ===== verification/SqlBitmap.v ===== *)
(** The fixed-width bitmap of sql_bitmap.h.

    [Bitmap<width>] is an array of [ARRAY_ELEMENTS] 64-bit words; every member
    function is a definition over the list of those words, [width] being a
    section variable, and so is whether assertions are compiled in; [None] is an
    assertion that fails.  The abstraction [bits] maps a well-formed bitmap to the
    finite set of the positions it contains, and the theorems state each member
    function as an operation on that set.  [Table_map_iterator] and
    [Bitmap::Iterator] are state records with their [++] operator. *)

From S2P Require Import Prelude BitOps.
From stdpp Require Import sets fin_sets.
Import MyBit.

Open Scope Z_scope.
Open Scope cint_scope.

(** ** Table_map_iterator *)

Module Table_map_iterator.

Definition BITMAP_END : Z := 64.

(** [next_bit]: the bit found and the remaining bitmap. *)
Definition next_bit (bmp : Z) : Z * Z :=
  if bmp =? 0 then (BITMAP_END, bmp)
  else
    let bit := my_find_first_bit bmp in
    (bit, bmp .& u64 (Z.lnot (u64 (1 .<< bit)))).

End Table_map_iterator.

(** ** Bitmap<width> *)

Module Bitmap.
Section Bitmap.
(** [debug]: whether the program is compiled with assertions. *)
Variable debug : bool.
Variable width : Z.

(** [None]: the assertion fails. *)
Definition DBUG_ASSERT (condition : bool) : option unit :=
  if debug && negb condition then None else Some tt.

Definition BITS_PER_ELEMENT : Z := 64.
Definition ARRAY_ELEMENTS : nat :=
  Z.to_nat ((width + BITS_PER_ELEMENT - 1) / BITS_PER_ELEMENT).
Definition ALL_BITS_SET : Z := 2 ^ 64 - 1.

Definition bit_index (n : Z) : option nat :=
  _ ← DBUG_ASSERT (n <? width);
  Some (if (ARRAY_ELEMENTS =? 1)%nat then 0%nat else Z.to_nat (n / BITS_PER_ELEMENT)).

Definition bit_mask (n : Z) : option Z :=
  _ ← DBUG_ASSERT (n <? width);
  Some (if (ARRAY_ELEMENTS =? 1)%nat then u64 (1 .<< n) else u64 (1 .<< (n mod BITS_PER_ELEMENT))).

Definition last_element_mask (n : Z) : option Z :=
  _ ← DBUG_ASSERT (negb (n mod BITS_PER_ELEMENT =? 0));
  m ← bit_mask n; Some (u64 (m - 1)).

Definition bitmap_length : Z := width.

Definition set_bit (n : Z) (buffer : list Z) : option (list Z) :=
  i ← bit_index n; m ← bit_mask n; Some (<[i := buffer.[i] .| m]> buffer).

Definition clear_bit (n : Z) (buffer : list Z) : option (list Z) :=
  i ← bit_index n; m ← bit_mask n; Some (<[i := buffer.[i] .& u64 (Z.lnot m)]> buffer).

Definition is_set (n : Z) (buffer : list Z) : option bool :=
  i ← bit_index n; m ← bit_mask n; Some (truth (buffer.[i] .& m)).

Definition set_prefix (prefix_size : Z) (buffer : list Z) : option (list Z) :=
  let prefix_size := if width <? prefix_size then width else prefix_size in
  let idx := Z.to_nat (prefix_size / BITS_PER_ELEMENT) in
  let buffer := assign_range buffer 0 idx ALL_BITS_SET in
  if truth (prefix_size mod BITS_PER_ELEMENT) then
    m ← last_element_mask prefix_size;
    Some (assign_range (<[idx := m]> buffer) (S idx) ARRAY_ELEMENTS 0)
  else Some (assign_range buffer idx ARRAY_ELEMENTS 0).

Definition is_prefix (prefix_size : Z) (buffer : list Z) : option bool :=
  _ ← DBUG_ASSERT (prefix_size <=? width);
  let idx := Z.to_nat (prefix_size / BITS_PER_ELEMENT) in
  if negb (forallb (fun i => buffer.[i] =? ALL_BITS_SET) (seq 0 idx)) then Some false
  else if truth (prefix_size mod BITS_PER_ELEMENT) then
    m ← last_element_mask prefix_size;
    if negb (buffer.[idx] =? m) then Some false
    else Some (forallb (fun i => buffer.[i] =? 0) (seq (S idx) (ARRAY_ELEMENTS - S idx)))
  else Some (forallb (fun i => buffer.[i] =? 0) (seq idx (ARRAY_ELEMENTS - idx))).

(** The constructor from a prefix and [init]. *)
Definition init (prefix : Z) (buffer : list Z) : option (list Z) := set_prefix prefix buffer.

Definition set_all (buffer : list Z) : option (list Z) :=
  if truth (width mod BITS_PER_ELEMENT) then set_prefix width buffer
  else Some (if (1 <? ARRAY_ELEMENTS)%nat
             then assign_range buffer 0 ARRAY_ELEMENTS ALL_BITS_SET
             else <[0%nat := ALL_BITS_SET]> buffer).

Definition clear_all (buffer : list Z) : list Z :=
  if (1 <? ARRAY_ELEMENTS)%nat then assign_range buffer 0 ARRAY_ELEMENTS 0
  else <[0%nat := 0]> buffer.

(** The loops [for (i= 0; i < ARRAY_ELEMENTS; i++) buffer[i] op= map2.buffer[i]]. *)
Definition intersect (map2 buffer : list Z) : list Z :=
  zip_with (fun a b => a .& b) buffer map2.

Definition intersect_and_pad (map2buff : Z) (pad_with_ones : bool)
    (buffer : list Z) : option (list Z) :=
  let buffer := <[0%nat := buffer.[0] .& map2buff]> buffer in
  let buffer := assign_range buffer 1 ARRAY_ELEMENTS
                  (if pad_with_ones then ALL_BITS_SET else 0) in
  if (1 <? ARRAY_ELEMENTS)%nat && truth (width mod BITS_PER_ELEMENT) && pad_with_ones
  then m ← last_element_mask width; Some (<[(ARRAY_ELEMENTS - 1)%nat := m]> buffer)
  else Some buffer.

Definition intersect_ulonglong (map2buff : Z) (buffer : list Z) : option (list Z) :=
  intersect_and_pad map2buff false buffer.

Definition intersect_extended (map2buff : Z) (buffer : list Z) : option (list Z) :=
  intersect_and_pad map2buff (truth (map2buff .& u64 (1 .<< 63))) buffer.

Definition subtract (map2 buffer : list Z) : list Z :=
  zip_with (fun a b => a .& u64 (Z.lnot b)) buffer map2.

Definition merge (map2 buffer : list Z) : list Z :=
  zip_with (fun a b => a .| b) buffer map2.

Definition is_clear_all (buffer : list Z) : bool :=
  forallb (fun a => negb (truth a)) buffer.

Definition is_subset (map2 buffer : list Z) : bool :=
  forallb (fun '(a, b) => negb (truth (a .& u64 (Z.lnot b)))) (zip buffer map2).

Definition is_overlapping (map2 buffer : list Z) : bool :=
  existsb (fun '(a, b) => truth (a .& b)) (zip buffer map2).

Definition operator_eq (map2 buffer : list Z) : bool :=
  if (1 <? ARRAY_ELEMENTS)%nat
  then bool_decide (buffer = map2)
  else buffer.[0] =? map2.[0].

Definition operator_ne (map2 buffer : list Z) : bool := negb (operator_eq map2 buffer).

Definition to_ulonglong (buffer : list Z) : Z := buffer.[0].

Definition bits_set (buffer : list Z) : Z :=
  foldl (fun res a => if truth a then u32 (res + my_count_bits a) else res) 0 buffer.

Fixpoint find_first_bit_from (i : nat) (buffer : list Z) : Z :=
  match buffer with
  | [] => width
  | a :: rest =>
      if truth a then Z.of_nat i * BITS_PER_ELEMENT + my_find_first_bit a
      else find_first_bit_from (S i) rest
  end.

Definition find_first_bit (buffer : list Z) : Z := find_first_bit_from 0 buffer.

(** [print]: the hexadecimal digits of the elements below the last non-zero
    one, and then [longlong2str] of that one, written at the start of the
    character buffer.  A shift by 64 or more is undefined behaviour ([None]).
    [_dig_vec_upper] and [longlong2str] live outside the headers. *)
Section Print.
Variable _dig_vec_upper : Z -> Z.
Variable longlong2str : Z -> list Z.

(** Inner loop: [n] digits still to write, the next at [pos]. *)
Fixpoint print_digits (n : nat) (num shift : Z) (pos : nat) (buf : list Z) : option (list Z) :=
  match n with
  | O => Some buf
  | S n =>
      if 64 <=? shift then None
      else print_digits n num (u32 (shift + 4)) (S pos)
             (<[pos := _dig_vec_upper ((num .>> shift) .& 0xf)]> buf)
  end.

Definition HEX_DIGITS_PER_ELEMENT : nat := Z.to_nat (BITS_PER_ELEMENT / 4).

Fixpoint print_elements (n i : nat) (buffer buf : list Z) : option (list Z) :=
  match n with
  | O => Some buf
  | S n =>
      buf ← print_digits HEX_DIGITS_PER_ELEMENT buffer.[i] (BITS_PER_ELEMENT - 4)
              (i * HEX_DIGITS_PER_ELEMENT) buf;
      print_elements n (S i) buffer buf
  end.

(** The index of the last non-zero element, or 0. *)
Fixpoint last_nonzero (last : nat) (buffer : list Z) : nat :=
  match last with
  | O => 0
  | S l => if truth buffer.[last] then last else last_nonzero l buffer
  end.

Definition print (buffer buf : list Z) : option (list Z) :=
  let last := last_nonzero (ARRAY_ELEMENTS - 1) buffer in
  buf ← print_elements last 0 buffer buf;
  let s := longlong2str buffer.[last] in
  Some (s ++ drop (length s) buf).
End Print.

(** ** Bitmap::Iterator *)

Record Iterator := { offset : Z; tmi : Z }.

Definition Iterator_init (map : list Z) : Iterator :=
  {| offset := 0; tmi := map.[0] |}.

(** [operator++]: at most one round per element, so [ARRAY_ELEMENTS] rounds of
    fuel reach either a bit or the end. *)
Fixpoint Iterator_next_loop (fuel : nat) (map : list Z) (it : Iterator) : Z * Iterator :=
  let '(nextbit, bmp) := Table_map_iterator.next_bit (tmi it) in
  if negb (nextbit =? Table_map_iterator.BITMAP_END)
  then (offset it + nextbit, {| offset := offset it; tmi := bmp |})
  else if bitmap_length <=? offset it + BITS_PER_ELEMENT
       then (width, {| offset := offset it; tmi := bmp |})
       else
         let off := offset it + BITS_PER_ELEMENT in
         match fuel with
         | O => (width, it)
         | S fuel =>
             Iterator_next_loop fuel map
               {| offset := off; tmi := map.[Z.to_nat (off / BITS_PER_ELEMENT)] |}
         end.

Definition Iterator_next (map : list Z) (it : Iterator) : Z * Iterator :=
  Iterator_next_loop ARRAY_ELEMENTS map it.

End Bitmap.
End Bitmap.
Import Bitmap.

(** ** What the members with assertions compute when none fails *)

Section Values.
Variable width : Z.
Local Abbreviation ARRAY_ELEMENTS := (Bitmap.ARRAY_ELEMENTS width).

Definition bit_index_value (n : Z) : nat :=
  if (ARRAY_ELEMENTS =? 1)%nat then 0%nat else Z.to_nat (n / BITS_PER_ELEMENT).

Definition bit_mask_value (n : Z) : Z :=
  if (ARRAY_ELEMENTS =? 1)%nat then u64 (1 .<< n)
  else u64 (1 .<< (n mod BITS_PER_ELEMENT)).

Definition last_element_mask_value (n : Z) : Z := u64 (bit_mask_value n - 1).

Definition set_bit_value (n : Z) (buffer : list Z) : list Z :=
  <[bit_index_value n := buffer.[bit_index_value n] .| bit_mask_value n]> buffer.

Definition clear_bit_value (n : Z) (buffer : list Z) : list Z :=
  <[bit_index_value n := buffer.[bit_index_value n] .& u64 (Z.lnot (bit_mask_value n))]> buffer.

Definition is_set_value (n : Z) (buffer : list Z) : bool :=
  truth (buffer.[bit_index_value n] .& bit_mask_value n).

Definition set_prefix_value (prefix_size : Z) (buffer : list Z) : list Z :=
  let prefix_size := if width <? prefix_size then width else prefix_size in
  let idx := Z.to_nat (prefix_size / BITS_PER_ELEMENT) in
  let buffer := assign_range buffer 0 idx ALL_BITS_SET in
  if truth (prefix_size mod BITS_PER_ELEMENT) then
    let buffer := <[idx := last_element_mask_value prefix_size]> buffer in
    assign_range buffer (S idx) ARRAY_ELEMENTS 0
  else assign_range buffer idx ARRAY_ELEMENTS 0.

Definition is_prefix_value (prefix_size : Z) (buffer : list Z) : bool :=
  let idx := Z.to_nat (prefix_size / BITS_PER_ELEMENT) in
  forallb (fun i => buffer.[i] =? ALL_BITS_SET) (seq 0 idx)
  && (if truth (prefix_size mod BITS_PER_ELEMENT) then
        (buffer.[idx] =? last_element_mask_value prefix_size)
        && forallb (fun i => buffer.[i] =? 0) (seq (S idx) (ARRAY_ELEMENTS - S idx))
      else forallb (fun i => buffer.[i] =? 0) (seq idx (ARRAY_ELEMENTS - idx))).

(** The constructor from a prefix and [init_value]. *)
Definition set_all_value (buffer : list Z) : list Z :=
  if truth (width mod BITS_PER_ELEMENT) then set_prefix_value width buffer
  else if (1 <? ARRAY_ELEMENTS)%nat
       then assign_range buffer 0 ARRAY_ELEMENTS ALL_BITS_SET
       else <[0%nat := ALL_BITS_SET]> buffer.

Definition intersect_and_pad_value (map2buff : Z) (pad_with_ones : bool)
    (buffer : list Z) : list Z :=
  let buffer := <[0%nat := buffer.[0] .& map2buff]> buffer in
  let buffer := assign_range buffer 1 ARRAY_ELEMENTS
                  (if pad_with_ones then ALL_BITS_SET else 0) in
  if (1 <? ARRAY_ELEMENTS)%nat && truth (width mod BITS_PER_ELEMENT) && pad_with_ones
  then <[(ARRAY_ELEMENTS - 1)%nat := last_element_mask_value width]> buffer
  else buffer.

End Values.

(** * The set a bitmap stands for *)

Section Correct.
Variable width : Z.
Hypothesis Hwidth : 0 < width.

Local Abbreviation AE := (ARRAY_ELEMENTS width).

(** Bit number [n] of the array of words. *)
Definition bit (b : list Z) (n : Z) : bool :=
  Z.testbit b.[Z.to_nat (n / 64)] (n mod 64).

(** Well-formed bitmaps: the right number of 64-bit words, and no bit at or
    beyond [width]. *)
Definition wf (b : list Z) : Prop :=
  length b = AE /\ Forall (in_u 64) b /\ forall n, width <= n -> bit b n = false.

Definition bits (b : list Z) : gset Z :=
  list_to_set (filter (fun n => bit b n = true) (seqZ 0 width)).

Lemma elem_of_bits b n : n ∈ bits b <-> 0 <= n < width /\ bit b n = true.
Proof.
  unfold bits. rewrite elem_of_list_to_set, list_elem_of_filter, elem_of_seqZ. naive_solver lia.
Qed.

(** ** Arithmetic of positions *)

Lemma AE_pos : (0 < AE)%nat.
Proof. unfold ARRAY_ELEMENTS, BITS_PER_ELEMENT. dlia. Qed.

Lemma AE_width : 64 * Z.of_nat AE - 64 < width <= 64 * Z.of_nat AE.
Proof. unfold ARRAY_ELEMENTS, BITS_PER_ELEMENT. dlia. Qed.

Lemma index_lt n : 0 <= n < width -> (Z.to_nat (n / 64) < AE)%nat.
Proof. pose proof AE_width. intros. dlia. Qed.

Lemma bit_index_eq n : 0 <= n <= width -> n mod 64 <> 0 \/ n < width ->
  bit_index_value width n = Z.to_nat (n / 64).
Proof.
  intros Hn Hc. unfold bit_index_value, BITS_PER_ELEMENT. pose proof AE_width.
  destruct (Nat.eqb_spec AE 1) as [E|]; [|done]. rewrite E in *. dlia.
Qed.

Lemma bit_mask_eq n : 0 <= n <= width -> n mod 64 <> 0 \/ n < width ->
  bit_mask_value width n = 2 ^ (n mod 64).
Proof.
  intros Hn Hc. unfold bit_mask_value, BITS_PER_ELEMENT. pose proof AE_width.
  assert (Hm : 0 <= n mod 64 < 64) by (apply Z.mod_pos_bound; lia).
  assert (E : u64 (1 .<< (n mod 64)) = 2 ^ (n mod 64)).
  { rewrite shiftl_1 by lia. apply wrap_small. split; [apply Z.pow_nonneg; lia|].
    apply Z.pow_lt_mono_r; lia. }
  destruct (Nat.eqb_spec AE 1) as [EAE|]; [|done]. rewrite EAE in *.
  replace n with (n mod 64) at 1; [done|]. apply Z.mod_small.
  destruct (Z.eq_dec n 64) as [->|]; [|lia]. destruct Hc; [done|lia].
Qed.

Lemma last_element_mask_eq n : 0 <= n <= width -> n mod 64 <> 0 ->
  last_element_mask_value width n = Z.ones (n mod 64).
Proof.
  intros Hn Hc. unfold last_element_mask_value. rewrite bit_mask_eq by auto.
  assert (Hm : 0 <= n mod 64 < 64) by (apply Z.mod_pos_bound; lia).
  rewrite Z.ones_equiv, <- Z.sub_1_r. apply wrap_small.
  pose proof (pow2_pos (n mod 64) ltac:(lia)).
  split; [lia|]. assert (2 ^ (n mod 64) < 2 ^ 64) by (apply Z.pow_lt_mono_r; lia). lia.
Qed.

Lemma all_bits_set_eq : ALL_BITS_SET = Z.ones 64.
Proof. reflexivity. Qed.

(** A bit of a word is a bit of the array. *)
Lemma bit_at b i j : 0 <= j < 64 -> bit b (64 * Z.of_nat i + j) = Z.testbit b.[i] j.
Proof.
  intros Hj. unfold bit. f_equal.
  - f_equal. rewrite <- (Z.div_unique (64 * Z.of_nat i + j) 64 (Z.of_nat i) j); lia.
  - symmetry. apply Z.mod_unique with (Z.of_nat i); lia.
Qed.

Lemma in_u_get w b i : 0 <= w -> Forall (in_u w) b -> in_u w b.[i].
Proof.
  intros Hw H. rewrite get_lookup. destruct (b !! i) as [x|] eqn:E; cbn.
  - by eapply Forall_lookup_1.
  - split; [lia|]. by apply pow2_pos.
Qed.

Lemma word_eq b c i :
  Forall (in_u 64) b -> Forall (in_u 64) c ->
  (forall n, 0 <= n -> bit b n = bit c n) -> b.[i] = c.[i].
Proof.
  intros Hb Hc H. apply (bits_eq 64); try apply in_u_get; auto; [lia..|].
  intros j Hj. rewrite <- !bit_at by done. apply H. lia.
Qed.

(** Two well-formed bitmaps with the same set are the same array. *)
Lemma bits_inj b c : wf b -> wf c -> bits b = bits c -> b = c.
Proof.
  intros (Lb & Ub & Zb) (Lc & Uc & Zc) E.
  assert (H : forall n, 0 <= n -> bit b n = bit c n).
  { intros n Hn. destruct (Z.ltb_spec n width); [|by rewrite Zb, Zc].
    apply eq_true_iff_eq. pose proof (elem_of_bits b n). pose proof (elem_of_bits c n).
    rewrite E in *. naive_solver lia. }
  apply list_eq. intros i.
  pose proof (word_eq b c i Ub Uc H) as Hi. rewrite !get_lookup in Hi.
  destruct (decide (i < AE)%nat).
  - destruct (lookup_lt_is_Some_2 b i ltac:(lia)) as [x Ex].
    destruct (lookup_lt_is_Some_2 c i ltac:(lia)) as [y Ey].
    rewrite Ex, Ey in *. cbn in Hi. congruence.
  - rewrite !lookup_ge_None_2 by lia. done.
Qed.

(** ** Words of an array and their range *)

Lemma wf_intro b :
  length b = AE -> (forall i, (i < AE)%nat -> in_u 64 b.[i]) ->
  (forall n, width <= n -> bit b n = false) -> wf b.
Proof.
  intros Hl Hu Hz. split; [done|]. split; [|done].
  apply Forall_lookup_2. intros i x Hx. pose proof (lookup_lt_Some _ _ _ Hx).
  specialize (Hu i). rewrite get_lookup, Hx in Hu. cbn in Hu. apply Hu. lia.
Qed.

Lemma bit_beyond b n : length b = AE -> 64 * Z.of_nat AE <= n -> bit b n = false.
Proof.
  intros Hl Hn. unfold bit. rewrite get_overflow; [apply Z.bits_0|].
  rewrite Hl. dlia.
Qed.

(** The index and the offset of a position. *)
Lemma position n : 0 <= n ->
  exists i j, n = 64 * Z.of_nat i + j /\ 0 <= j < 64 /\ i = Z.to_nat (n / 64) /\ j = n mod 64.
Proof. intros Hn. exists (Z.to_nat (n / 64)), (n mod 64). dlia. Qed.

(** ** Operations, bit by bit *)

Lemma split_eqb i j i' j' :
  0 <= j < 64 -> 0 <= j' < 64 ->
  (64 * Z.of_nat i + j =? 64 * Z.of_nat i' + j') = (i =? i')%nat && (j =? j').
Proof. intros. zcases; destruct (Nat.eqb_spec i i'); cbn; done || lia. Qed.

Lemma bit_update b n f v m :
  length b = AE -> 0 <= n < width -> 0 <= m ->
  (forall j, 0 <= j < 64 ->
     Z.testbit v j = f (j =? n mod 64) (Z.testbit b.[Z.to_nat (n / 64)] j)) ->
  (forall x, f false x = x) ->
  bit (<[bit_index_value width n := v]> b) m = f (m =? n) (bit b m).
Proof.
  intros Hl Hn Hm Hv Hf. rewrite bit_index_eq by lia.
  destruct (position m Hm) as (i & j & -> & Hj & _ & _).
  destruct (position n ltac:(lia)) as (i' & j' & En & Hj' & Ei' & Ej').
  rewrite <- Ei', <- Ej' in *. rewrite !bit_at by done.
  rewrite En, split_eqb by done.
  assert (i' < AE)%nat by (rewrite Ei'; by apply index_lt).
  rewrite get_insert by lia. rewrite (Nat.eqb_sym i i').
  destruct (Nat.eqb_spec i' i) as [->|]; cbn; [by rewrite Hv|by rewrite Hf].
Qed.

Lemma update_wf b n f v :
  wf b -> 0 <= n < width -> in_u 64 v ->
  (forall j, 0 <= j < 64 ->
     Z.testbit v j = f (j =? n mod 64) (Z.testbit b.[Z.to_nat (n / 64)] j)) ->
  (forall x, f false x = x) ->
  wf (<[bit_index_value width n := v]> b).
Proof.
  intros (Hl & Hu & Hz) Hn Hv Hb Hf.
  split; [by rewrite length_insert|]. split; [by apply Forall_insert|].
  intros m Hm. rewrite (bit_update b n f) by (auto || lia).
  destruct (Z.eqb_spec m n); [lia|]. rewrite Hf. by apply Hz.
Qed.

Lemma set_bit_word b n j : 0 <= n < width -> 0 <= j < 64 ->
  Z.testbit (b.[bit_index_value width n] .| bit_mask_value width n) j
  = (j =? n mod 64) || Z.testbit b.[Z.to_nat (n / 64)] j.
Proof.
  intros Hn Hj. rewrite bit_index_eq, bit_mask_eq by lia.
  pose proof (Z.mod_pos_bound n 64 ltac:(lia)).
  autorewrite with cbits. btauto.
Qed.

Lemma clear_bit_word b n j : 0 <= n < width -> 0 <= j < 64 ->
  Z.testbit (b.[bit_index_value width n] .& u64 (Z.lnot (bit_mask_value width n))) j
  = negb (j =? n mod 64) && Z.testbit b.[Z.to_nat (n / 64)] j.
Proof.
  intros Hn Hj. rewrite bit_index_eq, bit_mask_eq by lia.
  pose proof (Z.mod_pos_bound n 64 ltac:(lia)).
  autorewrite with cbits. destruct (Z.ltb_spec j 64); [|lia]. btauto.
Qed.

Lemma bit_mask_u n : 0 <= n < width -> in_u 64 (bit_mask_value width n).
Proof. intros. unfold bit_mask_value. destruct (_ =? _)%nat; apply wrap_bound; lia. Qed.

Lemma set_bit_spec b n :
  wf b -> 0 <= n < width -> wf (set_bit_value width n b) /\ bits (set_bit_value width n b) = {[n]} ∪ bits b.
Proof.
  intros Hb Hn. split.
  - apply (update_wf b n orb); auto.
    + apply lor_bound; [lia| |by apply bit_mask_u]. apply in_u_get; [lia|apply Hb].
    + intros. by apply set_bit_word.
  - apply set_eq. intros m. rewrite elem_of_union, elem_of_singleton, !elem_of_bits.
    unfold set_bit_value. destruct (Z.leb_spec 0 m); [|naive_solver lia].
    rewrite (bit_update b n orb) by (auto using set_bit_word || apply Hb).
    rewrite orb_true_iff, Z.eqb_eq. naive_solver.
Qed.

Lemma clear_bit_spec b n :
  wf b -> 0 <= n < width -> wf (clear_bit_value width n b) /\ bits (clear_bit_value width n b) = bits b ∖ {[n]}.
Proof.
  intros Hb Hn. split.
  - apply (update_wf b n (fun x y => negb x && y)); auto.
    + apply land_bound; [lia| |apply wrap_bound; lia]. apply in_u_get; [lia|apply Hb].
    + intros. by apply clear_bit_word.
  - apply set_eq. intros m. rewrite elem_of_difference, elem_of_singleton, !elem_of_bits.
    unfold clear_bit_value. destruct (Z.leb_spec 0 m); [|naive_solver lia].
    rewrite (bit_update b n (fun x y => negb x && y)) by (auto using clear_bit_word || apply Hb).
    rewrite andb_true_iff, negb_true_iff, Z.eqb_neq. naive_solver.
Qed.

Lemma is_set_bit b n : 0 <= n < width -> is_set_value width n b = bit b n.
Proof.
  intros Hn. unfold is_set_value, bit. rewrite bit_index_eq, bit_mask_eq by lia.
  apply truth_pow2. apply Z.mod_pos_bound. lia.
Qed.

(** Pointwise operations on two bitmaps. *)
Lemma bit_zip_with f g a b n :
  0 <= n -> length a = length b -> f 0 0 = 0 ->
  (forall x y j, 0 <= j < 64 -> Z.testbit (f x y) j = g (Z.testbit x j) (Z.testbit y j)) ->
  bit (zip_with f a b) n = g (bit a n) (bit b n).
Proof.
  intros Hn Hl H0 Hf. unfold bit. rewrite get_zip_with by done.
  apply Hf, Z.mod_pos_bound. lia.
Qed.

Lemma zip_with_wf f g a b :
  wf a -> wf b -> f 0 0 = 0 -> g false false = false ->
  (forall x y, in_u 64 x -> in_u 64 y -> in_u 64 (f x y)) ->
  (forall x y j, 0 <= j < 64 -> Z.testbit (f x y) j = g (Z.testbit x j) (Z.testbit y j)) ->
  wf (zip_with f a b).
Proof.
  intros (La & Ua & Za) (Lb & Ub & Zb) H0 Hg Hu Hf. apply wf_intro.
  - rewrite length_zip_with. lia.
  - intros i _. rewrite get_zip_with by congruence.
    apply Hu; apply in_u_get; auto; lia.
  - intros n Hn. rewrite (bit_zip_with f g) by (auto || lia || congruence).
    rewrite Za, Zb by done. done.
Qed.

Lemma intersect_spec a b : wf a -> wf b ->
  wf (intersect b a) /\ bits (intersect b a) = bits a ∩ bits b.
Proof.
  intros Ha Hb. unfold intersect. split.
  - apply (zip_with_wf _ andb); auto.
    + intros x y Hx Hy. apply land_bound; [lia|done|apply Hy].
    + intros. apply Z.land_spec.
  - apply set_eq. intros n. rewrite elem_of_intersection, !elem_of_bits.
    destruct (Z.leb_spec 0 n); [|naive_solver lia].
    rewrite (bit_zip_with _ andb);
      [|done|destruct Ha, Hb; congruence|done|intros; apply Z.land_spec].
    rewrite andb_true_iff. naive_solver.
Qed.

Lemma subtract_word x y j : 0 <= j < 64 ->
  Z.testbit (x .& u64 (Z.lnot y)) j = Z.testbit x j && negb (Z.testbit y j).
Proof. intros. autorewrite with cbits. destruct (Z.ltb_spec j 64); [done|lia]. Qed.

Lemma subtract_spec a b : wf a -> wf b ->
  wf (subtract b a) /\ bits (subtract b a) = bits a ∖ bits b.
Proof.
  intros Ha Hb. unfold subtract. split.
  - apply (zip_with_wf _ (fun x y => x && negb y)); auto using subtract_word.
    intros x y Hx Hy. apply land_bound; [lia|done|apply wrap_bound; lia].
  - apply set_eq. intros n. rewrite elem_of_difference, !elem_of_bits.
    destruct (Z.leb_spec 0 n); [|naive_solver lia].
    rewrite (bit_zip_with _ (fun x y => x && negb y));
      [|done|destruct Ha, Hb; congruence|done|apply subtract_word].
    rewrite andb_true_iff, negb_true_iff, <- not_true_iff_false. naive_solver.
Qed.

Lemma merge_spec a b : wf a -> wf b ->
  wf (merge b a) /\ bits (merge b a) = bits a ∪ bits b.
Proof.
  intros Ha Hb. unfold merge. split.
  - apply (zip_with_wf _ orb); auto.
    + intros x y Hx Hy. by apply lor_bound.
    + intros. apply Z.lor_spec.
  - apply set_eq. intros n. rewrite elem_of_union, !elem_of_bits.
    destruct (Z.leb_spec 0 n); [|naive_solver lia].
    rewrite (bit_zip_with _ orb);
      [|done|destruct Ha, Hb; congruence|done|intros; apply Z.lor_spec].
    rewrite orb_true_iff. naive_solver.
Qed.

(** ** Prefixes *)

(** Word [i] of a prefix of [p] ones. *)
Definition prefix_word (p : Z) (i : nat) : Z :=
  if (i <? Z.to_nat (p / 64))%nat then ALL_BITS_SET
  else if (i =? Z.to_nat (p / 64))%nat then Z.ones (p mod 64) else 0.

Lemma prefix_word_bit p i j : 0 <= p -> 0 <= j < 64 ->
  Z.testbit (prefix_word p i) j = (64 * Z.of_nat i + j <? p).
Proof.
  intros Hp Hj. unfold prefix_word. rewrite all_bits_set_eq.
  pose proof (Z.mod_pos_bound p 64 ltac:(lia)).
  destruct (Nat.ltb_spec i (Z.to_nat (p / 64))).
  - rewrite testbit_ones by lia. zcases; try done; dlia.
  - destruct (Nat.eqb_spec i (Z.to_nat (p / 64))).
    + rewrite testbit_ones by lia. zcases; try done; dlia.
    + rewrite Z.bits_0. zcases; try done; dlia.
Qed.

Lemma prefix_word_u p i : in_u 64 (prefix_word p i).
Proof.
  unfold prefix_word. destruct (_ <? _)%nat; [split; reflexivity || discriminate|].
  destruct (_ =? _)%nat; [|split; reflexivity || discriminate].
  pose proof (Z.mod_pos_bound p 64 ltac:(lia)). rewrite Z.ones_equiv, <- Z.sub_1_r.
  pose proof (pow2_pos (p mod 64) ltac:(lia)).
  assert (2 ^ (p mod 64) < 2 ^ 64) by (apply Z.pow_lt_mono_r; lia). unfold in_u. lia.
Qed.

Lemma set_prefix_words p b i :
  length b = AE -> 0 <= p -> (i < AE)%nat ->
  (set_prefix_value width p b).[i] = prefix_word (Z.min p width) i.
Proof.
  intros Hl Hp Hi. unfold set_prefix_value, BITS_PER_ELEMENT.
  replace (if width <? p then width else p) with (Z.min p width) by (zcases; lia).
  set (q := Z.min p width). assert (Hq : 0 <= q <= width) by lia. clearbody q. cbv zeta.
  pose proof AE_width. unfold prefix_word.
  assert (Hidx : (Z.to_nat (q / 64) <= AE)%nat) by dlia.
  destruct (truth (q mod 64)) eqn:T.
  - apply truth_true in T. rewrite last_element_mask_eq by done.
    assert (Z.to_nat (q / 64) < AE)%nat by dlia.
    rewrite get_assign_range, get_insert, get_assign_range
      by (rewrite ?length_insert, ?length_assign_range; lia).
    destruct (Nat.leb_spec (S (Z.to_nat (q / 64))) i), (Nat.ltb_spec i AE),
      (Nat.eqb_spec (Z.to_nat (q / 64)) i), (Nat.leb_spec 0 i),
      (Nat.ltb_spec i (Z.to_nat (q / 64))), (Nat.eqb_spec i (Z.to_nat (q / 64)));
      done || lia.
  - apply truth_false in T. rewrite T.
    rewrite get_assign_range, get_assign_range by (rewrite ?length_assign_range; lia).
    destruct (Nat.leb_spec (Z.to_nat (q / 64)) i), (Nat.ltb_spec i AE), (Nat.leb_spec 0 i),
      (Nat.ltb_spec i (Z.to_nat (q / 64))), (Nat.eqb_spec i (Z.to_nat (q / 64)));
      done || lia.
Qed.

Lemma length_set_prefix p b : length (set_prefix_value width p b) = length b.
Proof.
  unfold set_prefix_value. cbv zeta.
  destruct (truth _); by rewrite !length_assign_range, ?length_insert, ?length_assign_range.
Qed.

(** An array whose words are those of a prefix stands for an initial segment. *)
Lemma prefix_words_spec p b :
  length b = AE -> 0 <= p <= width -> (forall i, (i < AE)%nat -> b.[i] = prefix_word p i) ->
  wf b /\ forall n, 0 <= n -> bit b n = (n <? p).
Proof.
  intros Hl Hp Hw.
  assert (B : forall n, 0 <= n -> bit b n = (n <? p)).
  { intros n Hn. destruct (Z.leb_spec (64 * Z.of_nat AE) n).
    - rewrite bit_beyond by done. pose proof AE_width. zcases; done || lia.
    - destruct (position n Hn) as (i & j & -> & Hj & _ & _). rewrite bit_at by done.
      rewrite Hw by lia. apply prefix_word_bit; lia. }
  split; [|done]. apply wf_intro; [done| |].
  - intros i Hi. rewrite Hw by done. apply prefix_word_u.
  - intros n Hn. rewrite B by lia. zcases; done || lia.
Qed.

Lemma set_prefix_spec p b : length b = AE -> 0 <= p ->
  wf (set_prefix_value width p b) /\ bits (set_prefix_value width p b) = list_to_set (seqZ 0 (Z.min p width)).
Proof.
  intros Hl Hp.
  destruct (prefix_words_spec (Z.min p width) (set_prefix_value width p b)) as [Hwf Hb].
  - by rewrite length_set_prefix.
  - lia.
  - intros. by apply set_prefix_words.
  - split; [done|]. apply set_eq. intros n. rewrite elem_of_list_to_set, elem_of_seqZ, elem_of_bits.
    destruct (Z.leb_spec 0 n); [|naive_solver lia].
    rewrite Hb, Z.ltb_lt by done. lia.
Qed.

Lemma set_all_spec b : length b = AE ->
  wf (set_all_value width b) /\ bits (set_all_value width b) = list_to_set (seqZ 0 width).
Proof.
  intros Hl. pose proof AE_pos. pose proof AE_width.
  unfold set_all_value, BITS_PER_ELEMENT.
  destruct (truth (width mod 64)) eqn:T.
  { pose proof (set_prefix_spec width b Hl ltac:(lia)) as P. by rewrite Z.min_id in P. }
  apply truth_false in T.
  assert (W : forall c, length c = AE -> (forall i, (i < AE)%nat -> c.[i] = ALL_BITS_SET) ->
    wf c /\ bits c = list_to_set (seqZ 0 width)).
  { intros c Hc Hw. destruct (prefix_words_spec width c Hc ltac:(lia)) as [Hwf Hb].
    - intros i Hi. rewrite Hw by done. unfold prefix_word.
      destruct (Nat.ltb_spec i (Z.to_nat (width / 64))); [done|dlia].
    - split; [done|]. apply set_eq. intros n.
      rewrite elem_of_list_to_set, elem_of_seqZ, elem_of_bits.
      destruct (Z.leb_spec 0 n); [|naive_solver lia]. rewrite Hb, Z.ltb_lt by done. lia. }
  destruct (Nat.ltb_spec 1 AE).
  - apply W; [by rewrite length_assign_range|]. intros i Hi.
    rewrite get_assign_range by lia. destruct (Nat.leb_spec 0 i), (Nat.ltb_spec i AE); done || lia.
  - apply W; [by rewrite length_insert|]. intros i Hi. rewrite get_insert by lia.
    destruct (Nat.eqb_spec 0 i); done || lia.
Qed.

Lemma clear_all_spec b : length b = AE -> wf (clear_all width b) /\ bits (clear_all width b) = ∅.
Proof.
  intros Hl. pose proof AE_pos.
  assert (W : forall c, length c = AE -> (forall i, (i < AE)%nat -> c.[i] = 0) -> wf c /\ bits c = ∅).
  { intros c Hc Hw. destruct (prefix_words_spec 0 c Hc ltac:(lia)) as [Hwf Hb].
    - intros i Hi. rewrite Hw by done. unfold prefix_word. cbn. by destruct i.
    - split; [done|]. apply set_eq. intros n. rewrite elem_of_bits.
      split; [|by intros ?%elem_of_empty].
      intros [Hn E]. rewrite Hb in E by lia. apply Z.ltb_lt in E. lia. }
  unfold clear_all. destruct (Nat.ltb_spec 1 AE).
  - apply W; [by rewrite length_assign_range|]. intros i Hi.
    rewrite get_assign_range by lia. destruct (Nat.leb_spec 0 i), (Nat.ltb_spec i AE); done || lia.
  - apply W; [by rewrite length_insert|]. intros i Hi. rewrite get_insert by lia.
    destruct (Nat.eqb_spec 0 i); done || lia.
Qed.

Lemma prefix_words_is_prefix p b : length b = AE -> 0 <= p <= width ->
  is_prefix_value width p b = true <-> (forall i, (i < AE)%nat -> b.[i] = prefix_word p i).
Proof.
  intros Hl Hp. unfold is_prefix_value, BITS_PER_ELEMENT, prefix_word. pose proof AE_width. cbv zeta.
  assert (Hidx : (Z.to_nat (p / 64) <= AE)%nat) by dlia.
  rewrite andb_true_iff, forallb_forall. setoid_rewrite in_seq. setoid_rewrite Z.eqb_eq.
  destruct (truth (p mod 64)) eqn:T.
  - apply truth_true in T. assert (Z.to_nat (p / 64) < AE)%nat by dlia.
    rewrite andb_true_iff, forallb_forall, Z.eqb_eq, last_element_mask_eq by done.
    setoid_rewrite in_seq. setoid_rewrite Z.eqb_eq. split.
    + intros (H1 & H2 & H3) i Hi.
      destruct (Nat.ltb_spec i (Z.to_nat (p / 64))); [apply H1; lia|].
      destruct (Nat.eqb_spec i (Z.to_nat (p / 64))) as [->|]; [done|]. apply H3. lia.
    + intros H'. repeat split.
      * intros i Hi. rewrite H' by lia. by destruct (Nat.ltb_spec i (Z.to_nat (p / 64))); [|lia].
      * rewrite H' by lia. by rewrite Nat.ltb_irrefl, Nat.eqb_refl.
      * intros i Hi. rewrite H' by lia. destruct (Nat.ltb_spec i (Z.to_nat (p / 64))); [lia|].
        destruct (Nat.eqb_spec i (Z.to_nat (p / 64))); [lia|done].
  - apply truth_false in T. rewrite forallb_forall. setoid_rewrite in_seq.
    setoid_rewrite Z.eqb_eq. rewrite T. split.
    + intros (H1 & H2) i Hi.
      destruct (Nat.ltb_spec i (Z.to_nat (p / 64))); [apply H1; lia|].
      rewrite H2 by lia. by destruct (_ =? _)%nat.
    + intros H'. split.
      * intros i Hi. rewrite H' by lia. by destruct (Nat.ltb_spec i (Z.to_nat (p / 64))); [|lia].
      * intros i Hi. rewrite H' by lia. destruct (Nat.ltb_spec i (Z.to_nat (p / 64))); [lia|].
        by destruct (_ =? _)%nat.
Qed.

Lemma is_prefix_spec p b : wf b -> 0 <= p <= width ->
  is_prefix_value width p b = true <-> bits b = list_to_set (seqZ 0 p).
Proof.
  intros Hb Hp. rewrite prefix_words_is_prefix by (apply Hb || done). split.
  - intros Hw. destruct (prefix_words_spec p b) as [_ B]; auto; [apply Hb|].
    apply set_eq. intros n. rewrite elem_of_list_to_set, elem_of_seqZ, elem_of_bits.
    destruct (Z.leb_spec 0 n); [|naive_solver lia]. rewrite B, Z.ltb_lt by done. lia.
  - intros E i Hi. apply (bits_eq 64); [lia|apply in_u_get; [lia|apply Hb]|apply prefix_word_u|].
    intros j Hj. rewrite prefix_word_bit, <- bit_at by lia.
    set (n := 64 * Z.of_nat i + j). apply eq_true_iff_eq. rewrite Z.ltb_lt.
    pose proof (elem_of_bits b n) as H1. rewrite E, elem_of_list_to_set, elem_of_seqZ in H1.
    assert (0 <= n) by lia. destruct (Z.ltb_spec n width).
    + split; intros; [|apply H1; lia].
      assert (0 <= n < 0 + p) by (apply H1; auto). lia.
    + split; [|lia]. intros H'. destruct Hb as (_ & _ & Hz). by rewrite Hz in H' by done.
Qed.

(** ** Intersection with a word *)

Lemma intersect_and_pad_bit w pad b n :
  wf b -> in_u 64 w -> 0 <= n ->
  bit (intersect_and_pad_value width w pad b) n
  = if n <? 64 then bit b n && Z.testbit w n else pad && (n <? width).
Proof.
  intros (Hl & Hu & Hz) Hw Hn. pose proof AE_width. pose proof AE_pos.
  assert (L1 : length (<[0%nat:=b.[0] .& w]> b) = AE) by by rewrite length_insert.
  assert (L2 : forall v, length (assign_range (<[0%nat:=b.[0] .& w]> b) 1 AE v) = AE)
    by (intros; by rewrite length_assign_range).
  destruct (Z.leb_spec (64 * Z.of_nat AE) n).
  { rewrite bit_beyond; [|unfold intersect_and_pad_value; cbv zeta; destruct (_ && _ && _);
      rewrite ?length_insert; apply L2|done].
    zcases; rewrite ?andb_false_r; try done; lia. }
  destruct (position n Hn) as (i & j & -> & Hj & _ & _). rewrite bit_at by done.
  assert (Hi : (i < AE)%nat) by lia.
  unfold intersect_and_pad_value, BITS_PER_ELEMENT. cbv zeta.
  destruct (Nat.eqb_spec i 0) as [->|Hi0].
  - replace (64 * Z.of_nat 0 + j) with j by lia. destruct (Z.ltb_spec j 64); [|lia].
    replace (bit b j) with (Z.testbit b.[0] j)
      by (rewrite <- (bit_at b 0) by done; f_equal; lia).
    destruct ((1 <? AE)%nat && truth (width mod 64) && pad) eqn:C.
    + rewrite !andb_true_iff, Nat.ltb_lt in C.
      rewrite get_insert by (rewrite L2; lia).
      destruct (Nat.eqb_spec (AE - 1) 0); [lia|].
      rewrite get_assign_range, get_insert by lia. cbn. apply Z.land_spec.
    + rewrite get_assign_range, get_insert by lia. cbn. apply Z.land_spec.
  - assert (R : (assign_range (<[0%nat:=b.[0] .& w]> b) 1 AE (if pad then ALL_BITS_SET else 0)).[i]
                = if pad then ALL_BITS_SET else 0).
    { rewrite get_assign_range by lia. destruct (Nat.leb_spec 1 i), (Nat.ltb_spec i AE); done || lia. }
    destruct (Z.ltb_spec (64 * Z.of_nat i + j) 64); [lia|].
    destruct ((1 <? AE)%nat && truth (width mod 64) && pad) eqn:C.
    + rewrite !andb_true_iff, Nat.ltb_lt, truth_true in C. destruct C as [[C1 C2] ->].
      rewrite get_insert by (rewrite L2; lia). rewrite last_element_mask_eq by (done || lia).
      pose proof (Z.mod_pos_bound width 64 ltac:(lia)).
      destruct (Nat.eqb_spec (AE - 1) i).
      * rewrite testbit_ones by lia. zcases; try done; dlia.
      * rewrite R, all_bits_set_eq, testbit_ones by lia. zcases; try done; lia.
    + rewrite R. destruct pad; [|apply Z.bits_0].
      rewrite andb_true_r in C. rewrite all_bits_set_eq, testbit_ones by lia.
      assert (Hm : width mod 64 = 0).
      { apply truth_false. destruct (Nat.ltb_spec 1 AE); [by rewrite andb_true_l in C|lia]. }
      zcases; try done; dlia.
Qed.

Lemma length_intersect_and_pad w pad b :
  length (intersect_and_pad_value width w pad b) = length b.
Proof.
  unfold intersect_and_pad_value. cbv zeta.
  destruct (_ && _ && _); by rewrite ?length_insert, length_assign_range, length_insert.
Qed.

Lemma intersect_and_pad_spec w pad b :
  wf b -> in_u 64 w ->
  wf (intersect_and_pad_value width w pad b) /\
  forall n, n ∈ bits (intersect_and_pad_value width w pad b) <->
    if n <? 64 then n ∈ bits b /\ Z.testbit w n = true
    else pad = true /\ n < width.
Proof.
  intros Hb Hw. split.
  - apply wf_intro.
    + rewrite length_intersect_and_pad. apply Hb.
    + intros i Hi. unfold intersect_and_pad_value. cbv zeta.
      assert (A : Forall (in_u 64) (assign_range (<[0%nat:=b.[0] .& w]> b) 1 AE
                                     (if pad then ALL_BITS_SET else 0))).
      { unfold assign_range. generalize (seq 1 (AE - 1)) as l.
        assert (F : Forall (in_u 64) (<[0%nat:=b.[0] .& w]> b)).
        { apply Forall_insert; [apply Hb|]. apply land_bound; [lia| |apply Hw].
          apply in_u_get; [lia|apply Hb]. }
        intros l. revert F. generalize (<[0%nat:=b.[0] .& w]> b) as c.
        induction l as [|k l IH]; intros c F; cbn; [done|]. apply IH.
        apply Forall_insert; [done|]. destruct pad; split; reflexivity || discriminate. }
      destruct (_ && _ && _); apply in_u_get; try lia; auto.
      apply Forall_insert; [done|]. unfold last_element_mask_value. apply wrap_bound. lia.
    + intros n Hn. rewrite intersect_and_pad_bit by (auto || lia).
      destruct Hb as (_ & _ & Hz). rewrite Hz by done. zcases; rewrite ?andb_false_r; done || lia.
  - intros n. rewrite elem_of_bits. destruct (Z.leb_spec 0 n).
    + rewrite intersect_and_pad_bit by auto.
      destruct (Z.ltb_spec n 64).
      * rewrite elem_of_bits, andb_true_iff. naive_solver.
      * rewrite andb_true_iff, Z.ltb_lt. naive_solver.
    + destruct (Z.ltb_spec n 64); [|lia]. rewrite elem_of_bits. naive_solver lia.
Qed.

(** ** Predicates *)

Lemma bit_in b n : wf b -> bit b n = true -> 0 <= n -> n ∈ bits b.
Proof.
  intros (_ & _ & Hz) E Hn. apply elem_of_bits. split; [|done].
  destruct (Z.ltb_spec n width); [lia|]. by rewrite Hz in E.
Qed.

(** A predicate that scans the words is one that scans the positions. *)
Lemma word_test (f : Z -> Z -> Z) (g : bool -> bool -> bool) a b i :
  wf a -> wf b -> (forall x y, in_u 64 x -> in_u 64 y -> in_u 64 (f x y)) ->
  (forall x y j, 0 <= j < 64 -> Z.testbit (f x y) j = g (Z.testbit x j) (Z.testbit y j)) ->
  truth (f a.[i] b.[i]) = true <->
  exists j, 0 <= j < 64 /\
    g (bit a (64 * Z.of_nat i + j)) (bit b (64 * Z.of_nat i + j)) = true.
Proof.
  intros (_ & Ua & _) (_ & Ub & _) Hu Hf.
  pose proof (Hu _ _ (in_u_get 64 a i ltac:(lia) Ua) (in_u_get 64 b i ltac:(lia) Ub)) as Hx.
  rewrite truth_true. split.
  - intros Hne. exists (my_find_first_bit (f a.[i] b.[i])).
    destruct (find_first_bit_ok _ Hx Hne) as (_ & T & _).
    pose proof (find_first_bit_lt _ Hx Hne) as Hlt. split; [done|].
    by rewrite !bit_at, <- Hf.
  - intros (j & Hj & T) E. rewrite !bit_at, <- Hf, E, Z.bits_0 in T by done. done.
Qed.

Lemma exists_word a b (g : bool -> bool -> bool) (f : Z -> Z -> Z) :
  wf a -> wf b -> g false false = false ->
  (forall x y, in_u 64 x -> in_u 64 y -> in_u 64 (f x y)) ->
  (forall x y j, 0 <= j < 64 -> Z.testbit (f x y) j = g (Z.testbit x j) (Z.testbit y j)) ->
  existsb (fun '(x, y) => truth (f x y)) (zip a b) = true <->
  exists n, 0 <= n < width /\ g (bit a n) (bit b n) = true.
Proof.
  intros Ha Hb Hg Hu Hf. rewrite existsb_exists. split.
  - intros ([x y] & Hin & T). apply list_elem_of_In, list_elem_of_lookup in Hin as [i Hi].
    rewrite lookup_zip_with in Hi.
    destruct (a !! i) as [x'|] eqn:Ea; [|done]. destruct (b !! i) as [y'|] eqn:Eb; [|done].
    cbn in Hi. injection Hi as -> ->.
    assert (T' : truth (f a.[i] b.[i]) = true) by by rewrite !get_lookup, Ea, Eb.
    apply (word_test f g) in T' as (j & Hj & E); auto.
    exists (64 * Z.of_nat i + j). split; [|done]. split; [lia|].
    destruct (Z.ltb_spec (64 * Z.of_nat i + j) width); [done|].
    destruct Ha as (_ & _ & Za), Hb as (_ & _ & Zb). by rewrite Za, Zb, Hg in E.
  - intros (n & Hn & E). destruct (position n ltac:(lia)) as (i & j & -> & Hj & Ei & _).
    assert (Hi : (i < AE)%nat) by (rewrite Ei; by apply index_lt).
    destruct (lookup_lt_is_Some_2 a i) as [x Ex]; [destruct Ha; lia|].
    destruct (lookup_lt_is_Some_2 b i) as [y Ey]; [destruct Hb; lia|].
    exists (x, y). split.
    + apply list_elem_of_In, list_elem_of_lookup. exists i. by rewrite lookup_zip_with, Ex, Ey.
    + assert (T : truth (f a.[i] b.[i]) = true) by (apply (word_test f g); eauto).
      by rewrite !get_lookup, Ex, Ey in T.
Qed.

Lemma is_overlapping_spec a b : wf a -> wf b ->
  is_overlapping b a = true <-> exists n, n ∈ bits a /\ n ∈ bits b.
Proof.
  intros Ha Hb. unfold is_overlapping.
  rewrite (exists_word a b andb); auto.
  - setoid_rewrite elem_of_bits. setoid_rewrite andb_true_iff. naive_solver.
  - intros x y Hx Hy. apply land_bound; [lia|done|apply Hy].
  - intros. apply Z.land_spec.
Qed.

Lemma is_subset_spec a b : wf a -> wf b ->
  is_subset b a = true <-> bits a ⊆ bits b.
Proof.
  intros Ha Hb. unfold is_subset.
  assert (E : forallb (fun '(x, y) => negb (truth (x .& u64 (Z.lnot y)))) (zip a b)
            = negb (existsb (fun '(x, y) => truth (x .& u64 (Z.lnot y))) (zip a b))).
  { induction (zip a b) as [|[x y] l IH]; [done|]. cbn. rewrite IH. by rewrite negb_orb. }
  rewrite E, negb_true_iff, <- not_true_iff_false.
  rewrite (exists_word a b (fun x y => x && negb y)); auto using subtract_word.
  - rewrite elem_of_subseteq. setoid_rewrite elem_of_bits. setoid_rewrite andb_true_iff.
    setoid_rewrite negb_true_iff. split.
    + intros H' n [Hn Ea]. split; [done|]. destruct (bit b n) eqn:Eb; [done|].
      destruct H'. eauto.
    + intros H' (n & Hn & Ea & Eb). destruct (H' n (conj Hn Ea)) as [_ Eb']. congruence.
  - intros x y Hx Hy. apply land_bound; [lia|done|apply wrap_bound; lia].
Qed.

Lemma is_clear_all_spec b : wf b -> is_clear_all b = true <-> bits b = ∅.
Proof.
  intros Hb. unfold is_clear_all. rewrite forallb_forall.
  setoid_rewrite negb_true_iff. setoid_rewrite truth_false. split.
  - intros H'. apply set_eq. intros n. rewrite elem_of_bits.
    split; [|by intros ?%elem_of_empty]. intros [Hn E]. exfalso.
    unfold bit in E. rewrite get_lookup in E.
    destruct (b !! Z.to_nat (n / 64)) as [x|] eqn:Ex; cbn in E; [|by rewrite Z.bits_0 in E].
    rewrite (H' x), Z.bits_0 in E; [done|].
    apply list_elem_of_In. by eapply list_elem_of_lookup_2.
  - intros E x Hin. apply list_elem_of_In, list_elem_of_lookup in Hin as [i Hi].
    pose proof Hb as (_ & Hu & _).
    apply (no_bits_zero 64); [lia|by eapply Forall_lookup_1|].
    intros j Hj. destruct (Z.testbit x j) eqn:T; [|done].
    assert (B : bit b (64 * Z.of_nat i + j) = true) by (rewrite bit_at, get_lookup, Hi; done).
    apply bit_in in B; [|done|lia]. rewrite E in B. by apply elem_of_empty in B.
Qed.

Lemma operator_eq_spec a b : wf a -> wf b ->
  operator_eq width b a = true <-> bits a = bits b.
Proof.
  intros Ha Hb. pose proof AE_pos.
  transitivity (a = b); [|split; [by intros ->|by apply bits_inj]].
  unfold operator_eq. destruct (Nat.ltb_spec 1 AE); [apply bool_decide_eq_true|].
  destruct Ha as [La _], Hb as [Lb _]. rewrite Z.eqb_eq.
  destruct a as [|x [|? ?]], b as [|y [|? ?]]; cbn in *; try lia. naive_solver.
Qed.

(** ** Enumeration, cardinality, first bit *)

(** The positions of a word, and of the whole bitmap, in ascending order. *)
Definition positions (a : Z) : list Z := filter (fun j => Z.testbit a j = true) (seqZ 0 64).

Definition enum (b : list Z) : list Z := filter (fun n => bit b n = true) (seqZ 0 width).

Fixpoint enum_from (i : nat) (l : list Z) : list Z :=
  match l with
  | [] => []
  | a :: l => (Z.add (64 * Z.of_nat i) <$> positions a) ++ enum_from (S i) l
  end.

Lemma elem_of_positions a j : j ∈ positions a <-> 0 <= j < 64 /\ Z.testbit a j = true.
Proof. unfold positions. rewrite list_elem_of_filter, elem_of_seqZ. naive_solver lia. Qed.

Lemma enum_from_filter i l :
  enum_from i l
  = filter (fun n => Z.testbit l.[Z.to_nat (n / 64) - i] (n mod 64) = true)
      (seqZ (64 * Z.of_nat i) (64 * Z.of_nat (length l))).
Proof.
  revert i. induction l as [|a l IH]; intros i; [done|]. cbn [enum_from].
  cbn [length]. rewrite Nat2Z.inj_succ.
  replace (64 * Z.succ (Z.of_nat (length l))) with (64 + 64 * Z.of_nat (length l)) by lia.
  rewrite seqZ_app, filter_app by lia. f_equal.
  - unfold positions. rewrite <- (Z.add_0_r (64 * Z.of_nat i)) at 2.
    rewrite <- (fmap_add_seqZ (64 * Z.of_nat i)).
    apply fmap_filter_in. intros x Hx%elem_of_seqZ.
    replace ((64 * Z.of_nat i + x) `div` 64) with (Z.of_nat i) by dlia.
    replace ((64 * Z.of_nat i + x) `mod` 64) with x by dlia.
    by rewrite Nat2Z.id, Nat.sub_diag.
  - rewrite IH. replace (64 * Z.of_nat (S i)) with (64 * Z.of_nat i + 64) by lia.
    apply list_filter_ext_in. intros x Hx%elem_of_seqZ.
    replace (Z.to_nat (x / 64) - i)%nat with (S (Z.to_nat (x / 64) - S i)) by dlia. done.
Qed.

Lemma enum_words b : wf b -> enum b = enum_from 0 b.
Proof.
  intros (Hl & Hu & Hz). rewrite enum_from_filter, Hl. unfold enum.
  pose proof AE_width. change (64 * Z.of_nat 0) with 0.
  replace (64 * Z.of_nat AE) with (width + (64 * Z.of_nat AE - width)) by lia.
  rewrite seqZ_app, filter_app by lia.
  rewrite (filter_none _ (seqZ (0 + width) _)), app_nil_r.
  - apply list_filter_ext_in. intros x _. unfold bit. by rewrite Nat.sub_0_r.
  - intros x Hx%elem_of_seqZ. rewrite Nat.sub_0_r. fold (bit b x). rewrite Hz by lia. done.
Qed.

Lemma popcount_filter n v :
  popcount n v = Z.of_nat (length (filter (fun j => Z.testbit v j = true) (seqZ 0 (Z.of_nat n)))).
Proof.
  revert v. induction n as [|n IH]; intros v; [done|].
  cbn [popcount]. rewrite IH, Nat2Z.inj_succ, (seqZ_cons 0 (Z.succ (Z.of_nat n))) by lia. rewrite Z.pred_succ.
  change (Z.succ 0) with (1 + 0). rewrite <- (fmap_add_seqZ 1).
  rewrite filter_cons, <- (fmap_filter_in (Z.add 1) (fun j => Z.testbit (v / 2) j = true)
    (fun j => Z.testbit v j = true)).
  - rewrite Zmod_odd, Z.bit0_odd. destruct (Z.odd v);
      [rewrite decide_True by done|rewrite decide_False by done];
      cbn [length]; rewrite length_fmap; lia.
  - intros x Hx%elem_of_seqZ. change 2 with (2 ^ 1).
    rewrite <- Z.shiftr_div_pow2, Z.shiftr_spec, Z.add_comm by lia. done.
Qed.

Lemma length_positions a : Z.of_nat (length (positions a)) = popcount 64 a.
Proof. by rewrite popcount_filter. Qed.

Lemma bits_set_words l i r :
  Forall (in_u 64) l -> 0 <= r -> r + Z.of_nat (length (enum_from i l)) < 2 ^ 32 ->
  foldl (fun res a => if truth a then u32 (res + my_count_bits a) else res) r l
  = r + Z.of_nat (length (enum_from i l)).
Proof.
  revert i r. induction l as [|a l IH]; intros i r Hu Hr Hlt; cbn [foldl enum_from] in *.
  { cbn. lia. }
  apply Forall_cons in Hu as [Ha Hu]. rewrite length_app, length_fmap in *.
  destruct (truth a) eqn:T.
  - rewrite count_bits_ok, <- length_positions by done.
    rewrite wrap_small by (unfold in_u; lia). rewrite (IH (S i)); auto; lia.
  - apply truth_false in T. subst a.
    assert (E : length (positions 0) = 0%nat) by reflexivity.
    rewrite E in *. rewrite (IH (S i)); auto; lia.
Qed.

Lemma NoDup_enum b : NoDup (enum b).
Proof. apply NoDup_filter, NoDup_seqZ. Qed.

Lemma size_bits b : Z.of_nat (size (bits b)) = Z.of_nat (length (enum b)).
Proof. unfold bits. f_equal. apply size_list_to_set, NoDup_enum. Qed.

Lemma length_enum b : Z.of_nat (length (enum b)) <= width.
Proof.
  unfold enum. pose proof (length_filter (fun n => bit b n = true) (seqZ 0 width)) as H'.
  rewrite length_seqZ in H'. lia.
Qed.

Lemma bits_set_spec b : wf b -> width < 2 ^ 32 -> bits_set b = Z.of_nat (size (bits b)).
Proof.
  intros Hb Hw. pose proof (length_enum b). rewrite size_bits, enum_words in * by done.
  unfold bits_set. rewrite (bits_set_words b 0 0); [lia|apply Hb|lia|lia].
Qed.

Lemma next_bit_zero : positions 0 = [].
Proof. reflexivity. Qed.

(** Taking the first bit off a word takes the head off its positions. *)
Lemma positions_next a :
  in_u 64 a -> a <> 0 ->
  positions a = my_find_first_bit a :: positions (a .& u64 (Z.lnot (u64 (1 .<< my_find_first_bit a)))).
Proof.
  intros Ha Hne. pose proof (find_first_bit_lt a Ha Hne) as Hf.
  destruct (find_first_bit_ok a Ha Hne) as (_ & T & Low).
  set (f := my_find_first_bit a) in *. clearbody f.
  assert (E : forall j, 0 <= j < 64 ->
    Z.testbit (a .& u64 (Z.lnot (u64 (1 .<< f)))) j = Z.testbit a j && negb (j =? f)).
  { intros j Hj. rewrite shiftl_1 by lia. autorewrite with cbits.
    destruct (Z.ltb_spec j 64); [|lia]. done. }
  remember (a .& u64 (Z.lnot (u64 (1 .<< f)))) as a' eqn:Ea'. clear Ea'.
  unfold positions. replace 64 with (f + (1 + (63 - f))) by lia.
  rewrite !seqZ_app, !filter_app by lia.
  rewrite !(filter_none _ (seqZ 0 f)); cbn [app].
  2, 3: intros j Hj%elem_of_seqZ; cbv beta; rewrite ?E, Low by lia; done.
  rewrite !(seqZ_cons (0 + f) 1) by lia. change (Z.pred 1) with 0. cbn [app].
  rewrite !filter_cons. replace (0 + f) with f by lia.
  rewrite decide_True by done. rewrite decide_False by (rewrite E, Z.eqb_refl, andb_false_r by lia; done).
  cbn. f_equal. apply list_filter_ext_in. intros j Hj%elem_of_seqZ.
  rewrite E by lia. destruct (Z.eqb_spec j f); [lia|]. by rewrite andb_true_r.
Qed.

Lemma find_first_bit_head i l :
  Forall (in_u 64) l ->
  find_first_bit_from width i l = default width (head (enum_from i l)).
Proof.
  revert i. induction l as [|a l IH]; intros i Hu; [done|].
  apply Forall_cons in Hu as [Ha Hu]. cbn [find_first_bit_from enum_from].
  destruct (truth a) eqn:T.
  - apply truth_true in T. rewrite positions_next by done. cbn.
    unfold BITS_PER_ELEMENT. lia.
  - apply truth_false in T. subst a. rewrite next_bit_zero. by apply IH.
Qed.

Lemma find_first_bit_spec b :
  wf b -> find_first_bit width b = default width (head (enum b)).
Proof. intros Hb. rewrite enum_words by done. apply find_first_bit_head, Hb. Qed.

(** ** The iterator *)

(** [it] stands at word [i] of [b] with the positions [R] still to come. *)
Definition iter_at (b : list Z) (it : Iterator) (R : list Z) : Prop :=
  exists i, (i < AE)%nat /\ offset it = 64 * Z.of_nat i /\ in_u 64 (tmi it) /\
    R = (Z.add (offset it) <$> positions (tmi it)) ++ enum_from (S i) (drop (S i) b).

Lemma Iterator_init_at b : wf b -> iter_at b (Iterator_init b) (enum b).
Proof.
  intros Hb. pose proof AE_pos. exists 0%nat. split; [done|]. split; [done|].
  split; [apply in_u_get; [lia|apply Hb]|]. rewrite enum_words by done.
  destruct Hb as (Hl & _ & _). destruct b as [|a b]; [cbn in *; lia|].
  done.
Qed.

Lemma Iterator_next_loop_ok fuel b it R :
  wf b -> iter_at b it R ->
  (AE <= fuel + S (Z.to_nat (offset it / 64)))%nat ->
  let '(n, it') := Iterator_next_loop width fuel b it in
  n = default width (head R) /\ iter_at b it' (tail R).
Proof.
  intros Hb. revert it R. induction fuel as [|fuel IH]; intros it R (i & Hi & Ho & Hu & ->) Hfuel;
  assert (Ei : Z.to_nat (offset it / 64) = i) by (rewrite Ho; dlia);
  rewrite Ei in Hfuel; pose proof AE_width;
  cbn [Iterator_next_loop]; unfold Table_map_iterator.next_bit, Table_map_iterator.BITMAP_END,
    bitmap_length, BITS_PER_ELEMENT;
  (destruct (Z.eqb_spec (tmi it) 0) as [Ez|Hnz];
   [ rewrite Ez, next_bit_zero; change (64 =? 64) with true; cbn [negb fmap list_fmap app]
   | rewrite positions_next by done; pose proof (find_first_bit_lt _ Hu Hnz);
     destruct (Z.eqb_spec (my_find_first_bit (tmi it)) 64); [lia|]; cbn [negb];
     split; [done|]; exists i; cbn [offset tmi tail fmap list_fmap app];
     split; [done|]; split; [done|]; split;
     [apply land_bound; [lia|done|apply wrap_bound; lia]|done] ]).
  - assert (Hlast : S i = AE) by lia.
    destruct (Z.leb_spec width (offset it + 64)); [|lia].
    rewrite drop_ge by (destruct Hb; lia). cbn [enum_from]. split; [done|].
    exists i. cbn [offset tmi]. rewrite drop_ge by (destruct Hb; lia).
    repeat split; auto; reflexivity || discriminate.
  - destruct (Z.leb_spec width (offset it + 64)).
    + assert (Hlast : S i = AE) by lia.
      rewrite drop_ge by (destruct Hb; lia). cbn [enum_from]. split; [done|].
      exists i. cbn [offset tmi]. rewrite drop_ge by (destruct Hb; lia).
      repeat split; auto; reflexivity || discriminate.
    + assert (Hnext : (S i < AE)%nat) by lia.
      assert (Eo : Z.to_nat ((offset it + 64) / 64) = S i) by (rewrite Ho; dlia).
      apply IH.
      * exists (S i). cbn [offset tmi]. split; [done|]. split; [lia|]. rewrite Eo.
        split; [apply in_u_get; [lia|apply Hb]|].
        destruct (lookup_lt_is_Some_2 b (S i)) as [a Ea]; [destruct Hb; lia|].
        rewrite (drop_S b a (S i)) by done. cbn [enum_from]. rewrite get_lookup, Ea. cbn [default].
        repeat f_equal. lia.
      * cbn [offset]. rewrite Eo. lia.
Qed.

Lemma Iterator_next_ok b it R :
  wf b -> iter_at b it R ->
  (Iterator_next width b it).1 = default width (head R) /\
  iter_at b (Iterator_next width b it).2 (tail R).
Proof.
  intros Hb Hit. unfold Iterator_next.
  pose proof (Iterator_next_loop_ok AE b it R Hb Hit ltac:(lia)) as H'.
  by destruct (Iterator_next_loop width AE b it) as [n it'].
Qed.

(** The results of [k] increments. *)
Fixpoint iterate (k : nat) (b : list Z) (it : Iterator) : list Z :=
  match k with
  | O => []
  | S k => let '(n, it) := Iterator_next width b it in n :: iterate k b it
  end.

Lemma iterate_ok k b it R :
  wf b -> iter_at b it R -> (length R <= k)%nat ->
  iterate k b it = R ++ replicate (k - length R) width.
Proof.
  intros Hb. revert it R. induction k as [|k IH]; intros it R Hit Hk.
  - destruct R; [done|cbn in Hk; lia].
  - cbn [iterate]. destruct (Iterator_next_ok b it R Hb Hit) as [E1 E2].
    destruct (Iterator_next width b it) as [n it']. cbn in E1, E2.
    rewrite (IH it' (tail R)); [|done|destruct R; cbn in *; lia].
    destruct R as [|r R]; cbn in *; [|by rewrite E1].
    by rewrite E1, Nat.sub_0_r.
Qed.

End Correct.

(** ** Printing *)

Lemma last_nonzero_pos l b i :
  (0 < i <= l)%nat -> truth b.[i] = true -> (0 < last_nonzero l b)%nat.
Proof.
  induction l as [|l IH]; intros Hi T; [lia|]. cbn [last_nonzero].
  destruct (truth b.[S l]) eqn:E; [lia|].
  destruct (Nat.eq_dec i (S l)) as [->|]; [congruence|]. apply IH; [lia|done].
Qed.

Lemma last_nonzero_zero l b :
  (forall i, (0 < i <= l)%nat -> truth b.[i] = false) -> last_nonzero l b = 0%nat.
Proof.
  induction l as [|l IH]; intros H; [done|]. cbn [last_nonzero].
  rewrite H by lia. apply IH. intros. apply H. lia.
Qed.

(** * Assertions *)

Section Assertions.
Variables (debug : bool) (width : Z).
Hypothesis Hwidth : 0 < width.

(** The assertion on the [n]-th position fails. *)
Definition fails (n : Z) : bool := debug && (width <=? n).

Lemma assert_position n : DBUG_ASSERT debug (n <? width) = if fails n then None else Some tt.
Proof. unfold DBUG_ASSERT, fails. rewrite (Z.leb_antisym n width). done. Qed.
Lemma fails_inside n : n < width -> fails n = false.
Proof. intros L. unfold fails. rewrite (proj2 (Z.leb_gt _ _) L). apply andb_false_r. Qed.

Lemma bit_index_run n : n < width -> bit_index debug width n = Some (bit_index_value width n).
Proof. intros L. unfold bit_index. by rewrite assert_position, fails_inside. Qed.
Lemma bit_mask_run n : bit_mask debug width n = if fails n then None else Some (bit_mask_value width n).
Proof. unfold bit_mask. rewrite assert_position. by destruct (fails n). Qed.
Lemma last_element_mask_run n : n mod 64 <> 0 ->
  last_element_mask debug width n = if fails n then None else Some (last_element_mask_value width n).
Proof.
  intros N. unfold last_element_mask, DBUG_ASSERT, BITS_PER_ELEMENT. rewrite (proj2 (Z.eqb_neq _ _) N), andb_false_r. cbn.
  rewrite bit_mask_run. by destruct (fails n).
Qed.

Lemma set_bit_run n b : n < width -> set_bit debug width n b = Some (set_bit_value width n b).
Proof. intros L. unfold set_bit. by rewrite bit_index_run, bit_mask_run, fails_inside. Qed.
Lemma clear_bit_run n b : n < width -> clear_bit debug width n b = Some (clear_bit_value width n b).
Proof. intros L. unfold clear_bit. by rewrite bit_index_run, bit_mask_run, fails_inside. Qed.
Lemma is_set_run n b : n < width -> is_set debug width n b = Some (is_set_value width n b).
Proof. intros L. unfold is_set. by rewrite bit_index_run, bit_mask_run, fails_inside. Qed.

(** A prefix that ends within an element asserts that it ends below [width]. *)
Lemma set_prefix_run p b : set_prefix debug width p b =
  if truth (Z.min p width mod 64) && fails p then None else Some (set_prefix_value width p b).
Proof.
  unfold set_prefix, set_prefix_value. cbv zeta.
  replace (if width <? p then width else p) with (Z.min p width) by (destruct (Z.ltb_spec width p); lia).
  destruct (truth (Z.min p width mod BITS_PER_ELEMENT)) eqn:T; unfold BITS_PER_ELEMENT in T; rewrite T; [|done].
  apply truth_true in T. rewrite last_element_mask_run by done.
  assert (E : fails (Z.min p width) = fails p).
  { unfold fails. f_equal. destruct (Z.leb_spec width (Z.min p width)), (Z.leb_spec width p); lia. }
  rewrite E. by destruct (fails p).
Qed.
Lemma set_all_run b : set_all debug width b =
  if truth (width mod 64) && debug then None else Some (set_all_value width b).
Proof.
  unfold set_all, set_all_value. unfold BITS_PER_ELEMENT. destruct (truth (width mod 64)) eqn:T; [|done].
  rewrite set_prefix_run, Z.min_id, T. unfold fails. by rewrite Z.leb_refl, andb_true_r.
Qed.
Lemma is_prefix_run p b : p < width -> is_prefix debug width p b = Some (is_prefix_value width p b).
Proof.
  intros L. unfold is_prefix, is_prefix_value, DBUG_ASSERT. rewrite (proj2 (Z.leb_le p width)) by lia.
  rewrite andb_false_r. cbn [mbind option_bind]. destruct (forallb _ (seq 0 _)); [|done]. cbn [negb andb].
  destruct (truth (p mod BITS_PER_ELEMENT)) eqn:T; [|done]. apply truth_true in T.
  rewrite last_element_mask_run, fails_inside by done. cbn. by destruct (_ =? _).
Qed.
Lemma intersect_and_pad_run w pad b : debug = false \/ pad = false \/ width mod 64 = 0 ->
  intersect_and_pad debug width w pad b = Some (intersect_and_pad_value width w pad b).
Proof.
  intros Hd. unfold intersect_and_pad, intersect_and_pad_value. cbv zeta.
  destruct (_ && _ && pad) eqn:T; [|done]. apply andb_prop in T as [[_ T]%andb_prop ->]. apply truth_true in T.
  rewrite last_element_mask_run by done. unfold fails. destruct Hd as [->|[?|?]]; done.
Qed.
End Assertions.

(** * Properties *)

(** C32: with and without assertions ([debug]), on well-formed bitmaps of any width,
    the updating members are the operations of finite sets: [set_bit] inserts and
    [clear_bit] removes a position below [width], [merge], [intersect] and
    [subtract] are union, intersection and difference, and [clear_all] gives the
    empty set; each keeps the bitmap well-formed (no bit at or beyond [width] ever
    appears).  [set_all] gives the full set, except that with assertions it fails
    one when [width] is not a multiple of 64. *)
Theorem bitmap_updates_refine_sets (debug : bool) (width n : Z) (a b : list Z)
    (Hw : 0 < width) (Hn : 0 <= n < width) (Ha : wf width a) (Hb : wf width b) :
  (exists c, set_bit debug width n a = Some c /\ wf width c /\ bits width c = {[n]} ∪ bits width a) /\
  (exists c, clear_bit debug width n a = Some c /\ wf width c /\ bits width c = bits width a ∖ {[n]}) /\
  (wf width (merge b a) /\ bits width (merge b a) = bits width a ∪ bits width b) /\
  (wf width (intersect b a) /\ bits width (intersect b a) = bits width a ∩ bits width b) /\
  (wf width (subtract b a) /\ bits width (subtract b a) = bits width a ∖ bits width b) /\
  (if truth (width mod 64) && debug then set_all debug width a = None
   else exists c, set_all debug width a = Some c /\ wf width c /\ bits width c = list_to_set (seqZ 0 width)) /\
  (wf width (clear_all width a) /\ bits width (clear_all width a) = ∅).
Proof.
  split; [eexists; split; [apply set_bit_run; lia|by apply set_bit_spec]|].
  split; [eexists; split; [apply clear_bit_run; lia|by apply clear_bit_spec]|].
  split; [by apply merge_spec|]. split; [by apply intersect_spec|].
  split; [by apply subtract_spec|]. split.
  - rewrite set_all_run. destruct (_ && debug); [done|]. eexists. split; [done|]. by apply set_all_spec; [|apply Ha].
  - by apply clear_all_spec; [|apply Ha].
Qed.

(** Prefix sets are well-formed; the witnesses below use two of width 70. *)
Lemma prefix_wf width p : 0 < width -> 0 <= p ->
  wf width (set_prefix_value width p (replicate (ARRAY_ELEMENTS width) 0)).
Proof. intros. apply set_prefix_spec; [done|by rewrite length_replicate|done]. Qed.

Definition first_66 : list Z := set_prefix_value 70 66 [0; 0].
Definition first_3 : list Z := set_prefix_value 70 3 [0; 0].
Lemma first_66_wf : wf 70 first_66.
Proof. apply (prefix_wf 70 66); lia. Qed.
Lemma first_3_wf : wf 70 first_3.
Proof. apply (prefix_wf 70 3); lia. Qed.

Lemma bitmap_updates_witness :
  bits 70 (subtract first_3 first_66) = bits 70 first_66 ∖ bits 70 first_3 /\ set_all true 70 first_66 = None.
Proof.
  destruct (bitmap_updates_refine_sets true 70 69 first_66 first_3 ltac:(lia) ltac:(lia) first_66_wf first_3_wf)
    as (_ & _ & _ & _ & [_ S] & A & _).
  exact (conj S A).
Defined.

(** C33: the querying members answer about the set, with and without assertions:
    membership, inclusion, overlap, equality, emptiness, cardinality and least
    element ([width] for the empty set). *)
Theorem bitmap_queries_refine_sets (debug : bool) (width n : Z) (a b : list Z)
    (Hw : 0 < width < 2 ^ 32) (Hn : 0 <= n < width) (Ha : wf width a) (Hb : wf width b) :
  is_set debug width n a = Some (bool_decide (n ∈ bits width a)) /\
  (is_subset b a = true <-> bits width a ⊆ bits width b) /\
  (is_overlapping b a = true <-> exists k, k ∈ bits width a /\ k ∈ bits width b) /\
  (operator_eq width b a = true <-> bits width a = bits width b) /\
  (operator_ne width b a = true <-> bits width a <> bits width b) /\
  (is_clear_all a = true <-> bits width a = ∅) /\
  bits_set a = Z.of_nat (size (bits width a)) /\
  find_first_bit width a = default width (head (enum width a)).
Proof.
  destruct Hw as [Hw Hw32].
  pose proof (operator_eq_spec width Hw a b Ha Hb) as Heq.
  split.
  { rewrite is_set_run by lia. f_equal. apply eq_true_iff_eq.
    rewrite bool_decide_eq_true, is_set_bit, elem_of_bits by done. tauto. }
  split; [by apply is_subset_spec|]. split; [by apply is_overlapping_spec|].
  split; [done|].
  split; [unfold operator_ne; rewrite negb_true_iff, <- not_true_iff_false; tauto|].
  split; [by apply is_clear_all_spec|].
  split; [by apply bits_set_spec|by apply find_first_bit_spec].
Qed.

Lemma bitmap_queries_witness : is_set true 70 65 first_66 = Some (bool_decide (65 ∈ bits 70 first_66)).
Proof.
  exact (proj1 (bitmap_queries_refine_sets true 70 65 first_66 first_3 ltac:(lia) ltac:(lia) first_66_wf first_3_wf)).
Defined.

(** Without assertions, [set_prefix p] (and the prefix constructor and [init])
    makes the set of the first [p] positions, capped at [width]; [is_prefix]
    recognises exactly those sets; intersecting with a word keeps the positions
    below 64 the word has, and replaces those from 64 on by none ([intersect]) or
    all up to [width] ([intersect_extended] with the word's top bit set).  With
    assertions the same holds as long as no element is cut at [width]. *)
Theorem bitmap_prefix_and_pad (debug : bool) (width p w : Z) (a : list Z)
    (Hw : 0 < width) (Hp : 0 <= p) (Ha : wf width a) (Hword : in_u 64 w)
    (Hdebug : debug = false \/ width mod 64 = 0) :
  (exists c, init debug width p a = Some c /\ wf width c /\
   bits width c = list_to_set (seqZ 0 (Z.min p width))) /\
  (p < width -> is_prefix debug width p a = Some (bool_decide (bits width a = list_to_set (seqZ 0 p)))) /\
  (exists c, intersect_ulonglong debug width w a = Some c /\ wf width c /\
   forall n, n ∈ bits width c <-> n < 64 /\ n ∈ bits width a /\ Z.testbit w n = true) /\
  (exists c, intersect_extended debug width w a = Some c /\ wf width c /\
   forall n, n ∈ bits width c <->
     if n <? 64 then n ∈ bits width a /\ Z.testbit w n = true
     else Z.testbit w 63 = true /\ n < width).
Proof.
  split; [|split; [|split]].
  - exists (set_prefix_value width p a). split; [|by apply set_prefix_spec; [|apply Ha|]].
    unfold init. rewrite set_prefix_run. unfold fails. destruct (Z.leb_spec width p).
    + rewrite Z.min_r by lia. destruct Hdebug as [->| ->]; [by rewrite andb_false_r|done].
    + by rewrite !andb_false_r.
  - intros L. rewrite is_prefix_run by done. f_equal. apply eq_true_iff_eq.
    rewrite bool_decide_eq_true. apply is_prefix_spec; [done..|lia].
  - eexists. split; [apply intersect_and_pad_run; tauto|].
    destruct (intersect_and_pad_spec width Hw w false a Ha Hword) as [H1 H2].
    split; [done|]. intros n. rewrite H2. destruct (Z.ltb_spec n 64); naive_solver lia.
  - eexists. split; [apply intersect_and_pad_run; tauto|].
    destruct (intersect_and_pad_spec width Hw w (truth (w .& u64 (1 .<< 63))) a Ha Hword) as [H1 H2].
    split; [done|]. intros n. rewrite H2.
    change (u64 (1 .<< 63)) with (2 ^ 63). by rewrite truth_pow2 by lia.
Qed.

(** A prefix that does not end on an element, with assertions. *)
Example prefix_asserts : set_prefix true 70 66 [0; 0] = Some first_66 /\ set_prefix true 70 70 [0; 0] = None
  /\ set_prefix false 70 70 [0; 0] = Some [2 ^ 64 - 1; 63].
Proof. split_and!; reflexivity. Qed.

(** iterating a bitmap with [Bitmap::Iterator] produces its elements in
    ascending order, each once, and then [BITMAP_END] (= [width]) on every
    further increment. *)
Theorem bitmap_iterator_enumerates (width : Z) (b : list Z) (k : nat)
    (Hw : 0 < width) (Hb : wf width b) (Hk : (length (enum width b) <= k)%nat) :
  iterate width k b (Iterator_init b)
    = enum width b ++ replicate (k - length (enum width b)) width /\
  (forall n, n ∈ enum width b <-> n ∈ bits width b) /\ NoDup (enum width b).
Proof.
  split; [|split].
  - by apply iterate_ok, Hk; [| |apply Iterator_init_at].
  - intros n. rewrite elem_of_bits. unfold enum. rewrite list_elem_of_filter, elem_of_seqZ.
    naive_solver lia.
  - apply NoDup_enum.
Qed.

Lemma bitmap_iterator_witness :
  iterate 70 5 first_3 (Iterator_init first_3)
  = [0; 1; 2; 70; 70].
Proof.
  exact (proj1 (bitmap_iterator_enumerates 70 first_3 5 ltac:(lia)
    first_3_wf ltac:(vm_compute; lia))).
Defined.

(** [print] of a bitmap with an element at or above 64 is undefined
    behaviour (the digit loop increments the shift count from 60, so its second
    digit shifts a 64-bit word by 64); only a bitmap whose elements are all
    below 64 is printed, as [longlong2str] of its first word. *)
Theorem bitmap_print_undefined (digit : Z -> Z) (l2s : Z -> list Z) (width : Z)
    (b buf : list Z) (Hw : 0 < width) (Hb : wf width b) :
  ((exists n, 64 <= n /\ n ∈ bits width b) -> print width digit l2s b buf = None) /\
  ((forall n, n ∈ bits width b -> n < 64) ->
   print width digit l2s b buf = Some (l2s b.[0] ++ drop (length (l2s b.[0])) buf)).
Proof.
  unfold print. cbv zeta. split.
  - intros (n & Hn & E). apply elem_of_bits in E as [Hr E].
    destruct (position n ltac:(lia)) as (i & j & -> & Hj & Ei & _).
    pose proof (index_lt width Hw (64 * Z.of_nat i + j) Hr) as Hi. rewrite <- Ei in Hi.
    rewrite bit_at in E by done.
    assert (T : truth b.[i] = true) by (apply truth_true; intros E0; by rewrite E0, Z.bits_0 in E).
    pose proof (last_nonzero_pos (ARRAY_ELEMENTS width - 1) b i ltac:(lia) T) as Hl.
    destruct (last_nonzero _ b); [lia|reflexivity].
  - intros Hlow. rewrite last_nonzero_zero; [done|].
    intros i Hi. destruct (truth b.[i]) eqn:T; [|done]. apply truth_true in T.
    pose proof (in_u_get 64 b i ltac:(lia) (proj1 (proj2 Hb))) as Hu.
    destruct (find_first_bit_ok _ Hu T) as (_ & F & _).
    pose proof (find_first_bit_lt _ Hu T).
    assert (B : bit b (64 * Z.of_nat i + my_find_first_bit b.[i]) = true) by by rewrite bit_at.
    apply (bit_in width) in B; [|done|lia]. apply Hlow in B. lia.
Qed.

Lemma bitmap_print_witness :
  print 70 (fun d => 48 + d) (fun _ => [48]) first_66 (replicate 32 0) = None.
Proof.
  apply (proj1 (bitmap_print_undefined (fun d => 48 + d) (fun _ => [48]) 70 first_66 (replicate 32 0)
    ltac:(lia) first_66_wf)).
  exists 65. split; [lia|]. vm_compute. reflexivity.
Defined.
