(* ===== verification/ByteOrder.v ===== *)
(** Storing integers in byte buffers in a fixed byte order.

    - [Module MyIsamPack]: myisampack.h, the high-byte-first format of MyISAM
      and Aria keys and file pointers ([mi_intNstore], [mi_uintNkorr],
      [mi_sintNkorr], the float and row-pointer variants);
    - [Module Generic]: byte_order_generic.h, the portable low-byte-first
      macros of the client protocol and of the record formats;
    - [Module X86_64]: byte_order_generic_x86_64.h, their replacements by
      unaligned machine accesses, and the [bswap] readers of the
      high-byte-first format.

    A buffer is a list of bytes.  A macro that reads takes the buffer its
    pointer argument points into from that position on; one that stores takes
    the buffer and the offset of its pointer, and returns the changed buffer.
    The value stored is an arbitrary integer: the macros convert it. *)
From S2P Require Import Prelude.
Open Scope Z_scope.
Open Scope cint_scope.

(** [((const uchar* ) A)[i]]. *)
Definition uchar (A : list Z) (i : nat) : Z := u8 A.[i].

(** [((uchar* ) T)[i]= (uchar) v] with [T] at offset [o] of its buffer. *)
Definition put (o i : nat) (v : Z) (T : list Z) : list Z := <[(o + i)%nat := u8 v]> T.

(** * myisampack.h *)

Module MyIsamPack.

Definition mi_sint1korr (A : list Z) : Z := s8 A.[0].
Definition mi_uint1korr (A : list Z) : Z := u8 A.[0].

Definition mi_sint2korr (A : list Z) : Z :=
  s16 (s16 (uchar A 1) .| (s16 (u16 (uchar A 0)) .<< 8)).

Definition mi_sint3korr (A : list Z) : Z :=
  s32 (if truth (uchar A 0 .& 128)
       then u32 (u32 255 .<< 24) .| u32 (u32 (uchar A 0) .<< 16) .|
            u32 (u32 (uchar A 1) .<< 8) .| u32 (uchar A 2)
       else u32 (u32 (uchar A 0) .<< 16) .| u32 (u32 (uchar A 1) .<< 8) .| u32 (uchar A 2)).

Definition mi_sint4korr (A : list Z) : Z :=
  s32 (u32 (uchar A 3) .| u32 (u32 (uchar A 2) .<< 8) .|
       u32 (u32 (uchar A 1) .<< 16) .| u32 (u32 (uchar A 0) .<< 24)).

Definition mi_uint2korr (A : list Z) : Z :=
  u16 (u16 (uchar A 1) .| (u16 (uchar A 0) .<< 8)).

Definition mi_uint3korr (A : list Z) : Z :=
  u32 (u32 (uchar A 2) .| u32 (u32 (uchar A 1) .<< 8) .| u32 (u32 (uchar A 0) .<< 16)).

Definition mi_uint4korr (A : list Z) : Z :=
  u32 (u32 (uchar A 3) .| u32 (u32 (uchar A 2) .<< 8) .|
       u32 (u32 (uchar A 1) .<< 16) .| u32 (u32 (uchar A 0) .<< 24)).

Definition mi_uint5korr (A : list Z) : Z :=
  u64 (u32 (uchar A 4) .| u32 (u32 (uchar A 3) .<< 8) .|
       u32 (u32 (uchar A 2) .<< 16) .| u32 (u32 (uchar A 1) .<< 24)) .|
  u64 (u64 (uchar A 0) .<< 32).

Definition mi_uint6korr (A : list Z) : Z :=
  u64 (u32 (uchar A 5) .| u32 (u32 (uchar A 4) .<< 8) .|
       u32 (u32 (uchar A 3) .<< 16) .| u32 (u32 (uchar A 2) .<< 24)) .|
  u64 (u64 (u32 (uchar A 1) .| u32 (u32 (uchar A 0) .<< 8)) .<< 32).

Definition mi_uint7korr (A : list Z) : Z :=
  u64 (u32 (uchar A 6) .| u32 (u32 (uchar A 5) .<< 8) .|
       u32 (u32 (uchar A 4) .<< 16) .| u32 (u32 (uchar A 3) .<< 24)) .|
  u64 (u64 (u32 (uchar A 2) .| u32 (u32 (uchar A 1) .<< 8) .|
            u32 (u32 (uchar A 0) .<< 16)) .<< 32).

Definition mi_uint8korr (A : list Z) : Z :=
  u64 (u32 (uchar A 7) .| u32 (u32 (uchar A 6) .<< 8) .|
       u32 (u32 (uchar A 5) .<< 16) .| u32 (u32 (uchar A 4) .<< 24)) .|
  u64 (u64 (u32 (uchar A 3) .| u32 (u32 (uchar A 2) .<< 8) .|
            u32 (u32 (uchar A 1) .<< 16) .| u32 (u32 (uchar A 0) .<< 24)) .<< 32).

Definition mi_sint8korr (A : list Z) : Z := s64 (mi_uint8korr A).

Definition mi_int1store (T : list Z) (o : nat) (A : Z) : list Z := put o 0 A T.

Definition mi_int2store (T : list Z) (o : nat) (A : Z) : list Z :=
  let def_temp := u32 A in
  let T := put o 1 def_temp T in
  put o 0 (def_temp .>> 8) T.

(** [ulong] has 32 bits in this build. *)
Definition mi_int3store (T : list Z) (o : nat) (A : Z) : list Z :=
  let def_temp := u32 A in
  let T := put o 2 def_temp T in
  let T := put o 1 (def_temp .>> 8) T in
  put o 0 (def_temp .>> 16) T.

Definition mi_int4store (T : list Z) (o : nat) (A : Z) : list Z :=
  let def_temp := u32 A in
  let T := put o 3 def_temp T in
  let T := put o 2 (def_temp .>> 8) T in
  let T := put o 1 (def_temp .>> 16) T in
  put o 0 (def_temp .>> 24) T.

Definition mi_int5store (T : list Z) (o : nat) (A : Z) : list Z :=
  let def_temp := u32 A in
  let def_temp2 := u32 (A .>> 32) in
  let T := put o 4 def_temp T in
  let T := put o 3 (def_temp .>> 8) T in
  let T := put o 2 (def_temp .>> 16) T in
  let T := put o 1 (def_temp .>> 24) T in
  put o 0 def_temp2 T.

Definition mi_int6store (T : list Z) (o : nat) (A : Z) : list Z :=
  let def_temp := u32 A in
  let def_temp2 := u32 (A .>> 32) in
  let T := put o 5 def_temp T in
  let T := put o 4 (def_temp .>> 8) T in
  let T := put o 3 (def_temp .>> 16) T in
  let T := put o 2 (def_temp .>> 24) T in
  let T := put o 1 def_temp2 T in
  put o 0 (def_temp2 .>> 8) T.

Definition mi_int7store (T : list Z) (o : nat) (A : Z) : list Z :=
  let def_temp := u32 A in
  let def_temp2 := u32 (A .>> 32) in
  let T := put o 6 def_temp T in
  let T := put o 5 (def_temp .>> 8) T in
  let T := put o 4 (def_temp .>> 16) T in
  let T := put o 3 (def_temp .>> 24) T in
  let T := put o 2 def_temp2 T in
  let T := put o 1 (def_temp2 .>> 8) T in
  put o 0 (def_temp2 .>> 16) T.

Definition mi_int8store (T : list Z) (o : nat) (A : Z) : list Z :=
  let def_temp3 := u32 A in
  let def_temp4 := u32 (A .>> 32) in
  let T := mi_int4store T o def_temp4 in
  mi_int4store T (o + 4) def_temp3.

(** Row numbers and file offsets.  [BIG_TABLES] is defined in this build, and
    [off_t] has 8 bytes; the variants of the other configurations are the
    [_small] ones. *)
Definition mi_rowstore (T : list Z) (o : nat) (A : Z) : list Z := mi_int8store T o A.
Definition mi_rowkorr (T : list Z) : Z := mi_uint8korr T.

Definition mi_rowstore_small (T : list Z) (o : nat) (A : Z) : list Z :=
  let T := mi_int4store T o 0 in
  mi_int4store T (o + 4) A.
Definition mi_rowkorr_small (T : list Z) : Z := mi_uint4korr (drop 4 T).

Definition mi_sizestore (T : list Z) (o : nat) (A : Z) : list Z := mi_int8store T o A.
Definition mi_sizekorr (T : list Z) : Z := mi_uint8korr T.

(** [~ (my_off_t) 0] with the 32-bit [my_off_t] of that configuration. *)
Definition HA_OFFSET_ERROR_small : Z := 2 ^ 32 - 1.

Definition mi_sizestore_small (T : list Z) (o : nat) (A : Z) : list Z :=
  if A =? HA_OFFSET_ERROR_small
  then foldl (fun T i => put o i 255 T) T (seq 0 8)
  else let T := mi_int4store T o 0 in mi_int4store T (o + 4) A.
Definition mi_sizekorr_small (T : list Z) : Z := mi_uint4korr (drop 4 T).

(** Floating-point values are copied byte by byte from and to their object
    representation ([V], a list of bytes), in the order the host calls for. *)
Definition copy_bytes (order : list nat) (o : nat) (V T : list Z) : list Z :=
  foldl (fun T '(i, j) => put o i (uchar V j) T) T (zip (seq 0 (length order)) order).

Inductive host := WORDS_BIGENDIAN | FLOAT_WORD_ORDER_BIG | LITTLE_ENDIAN_HOST.

Definition float4_order (h : host) : list nat :=
  match h with
  | WORDS_BIGENDIAN => [0; 1; 2; 3]%nat
  | FLOAT_WORD_ORDER_BIG | LITTLE_ENDIAN_HOST => [3; 2; 1; 0]%nat
  end.

Definition float8_order (h : host) : list nat :=
  match h with
  | WORDS_BIGENDIAN => [0; 1; 2; 3; 4; 5; 6; 7]%nat
  | FLOAT_WORD_ORDER_BIG => [3; 2; 1; 0; 7; 6; 5; 4]%nat
  | LITTLE_ENDIAN_HOST => [7; 6; 5; 4; 3; 2; 1; 0]%nat
  end.

Definition mi_float4store (h : host) (T : list Z) (o : nat) (V : list Z) : list Z :=
  copy_bytes (float4_order h) o V T.
Definition mi_float4get (h : host) (M : list Z) : list Z :=
  copy_bytes (float4_order h) 0 M (replicate 4 0).
Definition mi_float8store (h : host) (T : list Z) (o : nat) (V : list Z) : list Z :=
  copy_bytes (float8_order h) o V T.
Definition mi_float8get (h : host) (M : list Z) : list Z :=
  copy_bytes (float8_order h) 0 M (replicate 8 0).

End MyIsamPack.

(** * byte_order_generic.h *)

Module Generic.

Definition sint2korr (A : list Z) : Z :=
  s16 (s16 (uchar A 0) .| (s16 (uchar A 1) .<< 8)).

Definition sint3korr (A : list Z) : Z :=
  s32 (if truth (uchar A 2 .& 128)
       then u32 (u32 255 .<< 24) .| u32 (u32 (uchar A 2) .<< 16) .|
            u32 (u32 (uchar A 1) .<< 8) .| u32 (uchar A 0)
       else u32 (u32 (uchar A 2) .<< 16) .| u32 (u32 (uchar A 1) .<< 8) .| u32 (uchar A 0)).

Definition sint4korr (A : list Z) : Z :=
  s32 (u32 (uchar A 0) .| u32 (u32 (uchar A 1) .<< 8) .|
       u32 (u32 (uchar A 2) .<< 16) .| u32 (u32 (uchar A 3) .<< 24)).

Definition uint2korr (A : list Z) : Z :=
  u16 (u16 (uchar A 0) .| (u16 (uchar A 1) .<< 8)).

Definition uint3korr (A : list Z) : Z :=
  u32 (u32 (uchar A 0) .| u32 (u32 (uchar A 1) .<< 8) .| u32 (u32 (uchar A 2) .<< 16)).

Definition uint4korr (A : list Z) : Z :=
  u32 (u32 (uchar A 0) .| u32 (u32 (uchar A 1) .<< 8) .|
       u32 (u32 (uchar A 2) .<< 16) .| u32 (u32 (uchar A 3) .<< 24)).

Definition uint5korr (A : list Z) : Z :=
  u64 (u32 (uchar A 0) .| u32 (u32 (uchar A 1) .<< 8) .|
       u32 (u32 (uchar A 2) .<< 16) .| u32 (u32 (uchar A 3) .<< 24)) .|
  u64 (u64 (uchar A 4) .<< 32).

Definition uint6korr (A : list Z) : Z :=
  u64 (u32 (uchar A 0) .| u32 (u32 (uchar A 1) .<< 8) .|
       u32 (u32 (uchar A 2) .<< 16) .| u32 (u32 (uchar A 3) .<< 24)) .|
  u64 (u64 (uchar A 4) .<< 32) .| u64 (u64 (uchar A 5) .<< 40).

Definition uint8korr (A : list Z) : Z :=
  u64 (u32 (uchar A 0) .| u32 (u32 (uchar A 1) .<< 8) .|
       u32 (u32 (uchar A 2) .<< 16) .| u32 (u32 (uchar A 3) .<< 24)) .|
  u64 (u64 (u32 (uchar A 4) .| u32 (u32 (uchar A 5) .<< 8) .|
            u32 (u32 (uchar A 6) .<< 16) .| u32 (u32 (uchar A 7) .<< 24)) .<< 32).

Definition sint8korr (A : list Z) : Z := s64 (uint8korr A).

Definition int2store (T : list Z) (o : nat) (A : Z) : list Z :=
  let def_temp := u32 A in
  put o 1 (def_temp .>> 8) (put o 0 def_temp T).

Definition int3store (T : list Z) (o : nat) (A : Z) : list Z :=
  put o 2 (A .>> 16) (put o 1 (A .>> 8) (put o 0 A T)).

Definition int4store (T : list Z) (o : nat) (A : Z) : list Z :=
  put o 3 (A .>> 24) (put o 2 (A .>> 16) (put o 1 (A .>> 8) (put o 0 A T))).

Definition int5store (T : list Z) (o : nat) (A : Z) : list Z :=
  put o 4 (A .>> 32) (put o 3 (A .>> 24) (put o 2 (A .>> 16)
    (put o 1 (A .>> 8) (put o 0 A T)))).

Definition int6store (T : list Z) (o : nat) (A : Z) : list Z :=
  put o 5 (A .>> 40) (put o 4 (A .>> 32) (put o 3 (A .>> 24) (put o 2 (A .>> 16)
    (put o 1 (A .>> 8) (put o 0 A T))))).

Definition int8store (T : list Z) (o : nat) (A : Z) : list Z :=
  let def_temp := u32 A in
  let def_temp2 := u32 (A .>> 32) in
  let T := int4store T o def_temp in
  int4store T (o + 4) def_temp2.

(** my_byteorder.h: a 32-bit integer in network byte order. *)
Definition int4net (A : list Z) : Z :=
  s32 (u32 (uchar A 3) .| u32 (u32 (uchar A 2) .<< 8) .|
       u32 (u32 (uchar A 1) .<< 16) .| u32 (u32 (uchar A 0) .<< 24)).

End Generic.

(** * byte_order_generic_x86_64.h *)

Module X86_64.

(** An unaligned access of [n] bytes of the little-endian machine:
    [*(uintN* ) p] as a value and as the target of an assignment. *)
Fixpoint load (n : nat) (p : list Z) : Z :=
  match n with
  | O => 0
  | S n => uchar p 0 + 2 ^ 8 * load n (drop 1 p)
  end.

Fixpoint store (n : nat) (T : list Z) (o : nat) (v : Z) : list Z :=
  match n with
  | O => T
  | S n => store n (put o 0 v T) (o + 1) (v .>> 8)
  end.

Definition sint2korr (A : list Z) : Z := s16 (load 2 A).

Definition sint3korr (A : list Z) : Z :=
  s32 (if truth (uchar A 2 .& 128)
       then u32 (u32 255 .<< 24) .| u32 (u32 (uchar A 2) .<< 16) .|
            u32 (u32 (uchar A 1) .<< 8) .| u32 (uchar A 0)
       else u32 (u32 (uchar A 2) .<< 16) .| u32 (u32 (uchar A 1) .<< 8) .| u32 (uchar A 0)).

Definition sint4korr (A : list Z) : Z := s32 (load 4 A).
Definition uint2korr (A : list Z) : Z := u16 (load 2 A).

Definition uint3korr (A : list Z) : Z :=
  u32 (u32 (uchar A 0) .| u32 (u32 (uchar A 1) .<< 8) .| u32 (u32 (uchar A 2) .<< 16)).

Definition uint4korr (A : list Z) : Z := u32 (load 4 A).

Definition uint5korr (p : list Z) : Z :=
  let a := load 4 p in
  let b := uchar p 4 in
  a .| u64 (b .<< 32).

Definition uint6korr (p : list Z) : Z :=
  let a := load 4 p in
  let b := load 2 (drop 4 p) in
  a .| u64 (b .<< 32).

Definition uint8korr (A : list Z) : Z := u64 (load 8 A).
Definition sint8korr (A : list Z) : Z := s64 (load 8 A).

Definition int2store (T : list Z) (o : nat) (A : Z) : list Z := store 2 T o (u16 A).

Definition int3store (T : list Z) (o : nat) (A : Z) : list Z :=
  put o 2 (A .>> 16) (put o 1 (u32 A .>> 8) (put o 0 A T)).

Definition int4store (T : list Z) (o : nat) (A : Z) : list Z := store 4 T o (u32 A).

Definition int5store (T : list Z) (o : nat) (A : Z) : list Z :=
  put o 4 (A .>> 32) (store 4 T o (u32 A)).

Definition int6store (T : list Z) (o : nat) (A : Z) : list Z :=
  store 2 (store 4 T o (u32 A)) (o + 4) (u16 (A .>> 32)).

Definition int8store (T : list Z) (o : nat) (A : Z) : list Z := store 8 T o (u64 A).

(** The instruction [bswapq]: the eight bytes of a register reversed. *)
Definition bswapq (v : Z) : Z :=
  ((v .& 0xff) .<< 56) .| (((v .>> 8) .& 0xff) .<< 48) .|
  (((v .>> 16) .& 0xff) .<< 40) .| (((v .>> 24) .& 0xff) .<< 32) .|
  (((v .>> 32) .& 0xff) .<< 24) .| (((v .>> 40) .& 0xff) .<< 16) .|
  (((v .>> 48) .& 0xff) .<< 8) .| ((v .>> 56) .& 0xff).

Definition mi_uint5korr (p : list Z) : Z :=
  let a := load 4 p in
  let b := uchar p 4 in
  let v := u64 ((a .| u64 (b .<< 32)) .<< 24) in
  bswapq v.

Definition mi_uint6korr (p : list Z) : Z :=
  let a := load 4 p in
  let b := load 2 (drop 4 p) in
  let v := u64 ((a .| u64 (b .<< 32)) .<< 16) in
  bswapq v.

Definition mi_uint7korr (p : list Z) : Z :=
  let a := load 4 p in
  let b := load 2 (drop 4 p) in
  let c := uchar p 6 in
  let v := u64 ((a .| u64 (b .<< 32) .| u64 (c .<< 48)) .<< 8) in
  bswapq v.

Definition mi_uint8korr (p : list Z) : Z :=
  let v := load 8 p in
  bswapq v.

End X86_64.

(** * Reference formats

    [be n A] and [le n A] are the numbers written in the first [n] bytes of
    [A] in base 256, most and least significant digit first. *)

Definition digits_value (ds : list Z) : Z := foldl (fun acc d => 2 ^ 8 * acc + d) 0 ds.

Definition be (n : nat) (A : list Z) : Z := digits_value (uchar A <$> seq 0 n).
Definition le (n : nat) (A : list Z) : Z := digits_value (uchar A <$> reverse (seq 0 n)).

(** The byte a big-endian (little-endian) encoding of [v] on [n] bytes has at
    position [i]. *)
Definition be_digit (n : nat) (v : Z) (i : nat) : Z := u8 (v .>> (8 * Z.of_nat (n - 1 - i))).
Definition le_digit (v : Z) (i : nat) : Z := u8 (v .>> (8 * Z.of_nat i)).

(** [T'] is [T] with [n] bytes from [o] on replaced by those of [digit]. *)
Definition wrote (n : nat) (digit : nat -> Z) (T : list Z) (o : nat) (T' : list Z) : Prop :=
  length T' = length T /\
  forall j, T'.[j] = if (o <=? j)%nat && (j <? o + n)%nat then digit (j - o)%nat else T.[j].

(** * Reading *)

Lemma uchar_bound A i : in_u 8 (uchar A i).
Proof. apply wrap_bound. lia. Qed.

Lemma uchar_drop A k i : uchar (drop k A) i = uchar A (k + i)%nat.
Proof. unfold uchar. by rewrite !get_lookup, lookup_drop. Qed.

(** A value above the low [n] bits is added, not merged. *)
Lemma lor_high n x y : 0 <= n -> in_u n x -> Z.lor x (y * 2 ^ n) = x + y * 2 ^ n.
Proof.
  intros Hn Hx. rewrite (Z.mul_comm y), add_shift_lor by done.
  by rewrite Z.shiftl_mul_pow2, Z.mul_comm.
Qed.

(** Name the bytes of [A] and rewrite a merge of shifted bytes to a sum. *)
Ltac name_bytes A :=
  repeat match goal with
  | |- context [uchar A ?i] =>
      let H := fresh "Hb" in let b := fresh "b" in
      pose proof (uchar_bound A i) as H; unfold in_u in H;
      set (b := uchar A i) in *; clearbody b
  end.

Ltac merge_bytes :=
  unfold in_u in *; change (2 ^ 8) with 256 in *;
  repeat first
    [ rewrite Z.shiftl_mul_pow2 by lia
    | match goal with |- context [wrap ?w ?x] =>
        rewrite (wrap_small w x) by (unfold in_u; lia) end
    | match goal with |- context [Z.lor ?x (?y * 2 ^ ?n)] =>
        rewrite (lor_high n x y) by (unfold in_u; lia) end ].

Ltac read_bytes A := cbv [be le digits_value seq fmap list_fmap foldl reverse rev_append];
  name_bytes A; merge_bytes; lia.

(** Conversions of a byte and of a sign-extended three-byte number. *)
Lemma sint16_uchar A i : s16 (uchar A i) = uchar A i.
Proof. apply swrap_small; [lia|]. pose proof (uchar_bound A i). unfold in_u, in_s in *. lia. Qed.

Lemma sint3_merge a b c :
  in_u 8 a -> in_u 8 b -> in_u 8 c ->
  s32 (if truth (a .& 128)
       then u32 (u32 255 .<< 24) .| u32 (u32 a .<< 16) .| u32 (u32 b .<< 8) .| u32 c
       else u32 (u32 a .<< 16) .| u32 (u32 b .<< 8) .| u32 c)
  = swrap 24 (2 ^ 8 * (2 ^ 8 * (2 ^ 8 * 0 + a) + b) + c).
Proof.
  intros Ha Hb Hc.
  assert (E : truth (a .& 128) = (128 <=? a)).
  { change 128 with (2 ^ 7) at 1. rewrite truth_pow2, Z.testbit_eqb by lia.
    unfold in_u in Ha. destruct (Z.leb_spec 128 a); [apply Z.eqb_eq|apply Z.eqb_neq]; dlia. }
  rewrite E.
  assert (El : u32 (u32 a .<< 16) .| u32 (u32 b .<< 8) .| u32 c
               = c + b * 2 ^ 8 + a * 2 ^ 16).
  { rewrite (Z.lor_comm _ (u32 c)), (Z.lor_comm (u32 (u32 a .<< 16))), Z.lor_assoc.
    merge_bytes. lia. }
  assert (Eh : u32 (u32 255 .<< 24) .| u32 (u32 a .<< 16) .| u32 (u32 b .<< 8) .| u32 c
               = c + b * 2 ^ 8 + a * 2 ^ 16 + 255 * 2 ^ 24).
  { rewrite <- !Z.lor_assoc, (Z.lor_comm (u32 (u32 255 .<< 24))), !Z.lor_assoc, El.
    merge_bytes. lia. }
  rewrite Eh, El. unfold in_u in *. unfold swrap, wrap.
  destruct (Z.leb_spec 128 a); zcases; dlia.
Qed.

Section MiRead.
Import MyIsamPack.

Lemma mi_uint1korr_be A : mi_uint1korr A = be 1 A.
Proof. reflexivity. Qed.
Lemma mi_uint2korr_be A : mi_uint2korr A = be 2 A.
Proof. unfold mi_uint2korr. read_bytes A. Qed.
Lemma mi_uint3korr_be A : mi_uint3korr A = be 3 A.
Proof. unfold mi_uint3korr. read_bytes A. Qed.
Lemma mi_uint4korr_be A : mi_uint4korr A = be 4 A.
Proof. unfold mi_uint4korr. read_bytes A. Qed.
Lemma mi_uint5korr_be A : mi_uint5korr A = be 5 A.
Proof. unfold mi_uint5korr. read_bytes A. Qed.
Lemma mi_uint6korr_be A : mi_uint6korr A = be 6 A.
Proof. unfold mi_uint6korr. read_bytes A. Qed.
Lemma mi_uint7korr_be A : mi_uint7korr A = be 7 A.
Proof. unfold mi_uint7korr. read_bytes A. Qed.
Lemma mi_uint8korr_be A : mi_uint8korr A = be 8 A.
Proof. unfold mi_uint8korr. read_bytes A. Qed.

Lemma mi_sint1korr_be A : mi_sint1korr A = s8 (be 1 A).
Proof.
  change (be 1 A) with (u8 A.[0]). by rewrite swrap_wrap by lia.
Qed.
Lemma mi_sint2korr_be A : mi_sint2korr A = s16 (be 2 A).
Proof.
  unfold mi_sint2korr. rewrite swrap_wrap, !sint16_uchar by lia. f_equal. read_bytes A.
Qed.
Lemma mi_sint3korr_be A : mi_sint3korr A = swrap 24 (be 3 A).
Proof. apply sint3_merge; apply uchar_bound. Qed.
Lemma mi_sint4korr_be A : mi_sint4korr A = s32 (be 4 A).
Proof. unfold mi_sint4korr. f_equal. read_bytes A. Qed.
Lemma mi_sint8korr_be A : mi_sint8korr A = s64 (be 8 A).
Proof. unfold mi_sint8korr. by rewrite mi_uint8korr_be. Qed.
End MiRead.

Section LeRead.
Import Generic.
Lemma uint2korr_le A : uint2korr A = le 2 A.
Proof. unfold uint2korr. read_bytes A. Qed.
Lemma uint3korr_le A : uint3korr A = le 3 A.
Proof. unfold uint3korr. read_bytes A. Qed.
Lemma uint4korr_le A : uint4korr A = le 4 A.
Proof. unfold uint4korr. read_bytes A. Qed.
Lemma uint5korr_le A : uint5korr A = le 5 A.
Proof. unfold uint5korr. read_bytes A. Qed.
Lemma uint6korr_le A : uint6korr A = le 6 A.
Proof. unfold uint6korr. read_bytes A. Qed.
Lemma uint8korr_le A : uint8korr A = le 8 A.
Proof. unfold uint8korr. read_bytes A. Qed.
Lemma sint2korr_le A : sint2korr A = s16 (le 2 A).
Proof. unfold sint2korr. rewrite !sint16_uchar. f_equal. read_bytes A. Qed.
Lemma sint3korr_le A : sint3korr A = swrap 24 (le 3 A).
Proof. apply sint3_merge; apply uchar_bound. Qed.
Lemma sint4korr_le A : sint4korr A = s32 (le 4 A).
Proof. unfold sint4korr. f_equal. read_bytes A. Qed.
Lemma sint8korr_le A : sint8korr A = s64 (le 8 A).
Proof. unfold sint8korr. by rewrite uint8korr_le. Qed.
Lemma int4net_be A : int4net A = s32 (be 4 A).
Proof. unfold int4net. f_equal. read_bytes A. Qed.
End LeRead.

(** ** Digit lists *)

Lemma digits_value_app l d : digits_value (l ++ [d]) = 2 ^ 8 * digits_value l + d.
Proof. unfold digits_value. by rewrite foldl_app. Qed.

Lemma digits_value_cons d l :
  digits_value (d :: l) = d * 2 ^ (8 * Z.of_nat (length l)) + digits_value l.
Proof.
  induction l as [|e l IH] using rev_ind; [cbn; lia|].
  rewrite app_comm_cons, !digits_value_app, IH, length_app. cbn [length].
  replace (8 * Z.of_nat (length l + 1)) with (8 + 8 * Z.of_nat (length l)) by lia.
  rewrite Z.pow_add_r by lia. lia.
Qed.

Lemma digits_value_bound l : Forall (in_u 8) l -> in_u (8 * Z.of_nat (length l)) (digits_value l).
Proof.
  unfold in_u. induction l as [|d l IH] using rev_ind; [cbn; lia|].
  rewrite Forall_app, Forall_singleton. intros [Hl Hd]. specialize (IH Hl).
  rewrite digits_value_app, length_app. cbn [length].
  replace (8 * Z.of_nat (length l + 1)) with (8 + 8 * Z.of_nat (length l)) by lia.
  rewrite Z.pow_add_r by lia. lia.
Qed.

Lemma bytes_bound A ks : Forall (in_u 8) (uchar A <$> ks).
Proof. apply Forall_fmap, Forall_true. intros; apply uchar_bound. Qed.

Lemma be_bound n A : in_u (8 * Z.of_nat n) (be n A).
Proof.
  unfold be. pose proof (digits_value_bound _ (bytes_bound A (seq 0 n))) as H.
  by rewrite length_fmap, length_seq in H.
Qed.

Lemma le_bound n A : in_u (8 * Z.of_nat n) (le n A).
Proof.
  unfold le. pose proof (digits_value_bound _ (bytes_bound A (reverse (seq 0 n)))) as H.
  by rewrite length_fmap, length_reverse, length_seq in H.
Qed.

Lemma uchar_seq A n : uchar A <$> seq 1 n = uchar (drop 1 A) <$> seq 0 n.
Proof.
  rewrite <- fmap_S_seq, <- list_fmap_compose. apply list_fmap_ext. intros i x Hx. cbn.
  by rewrite uchar_drop.
Qed.

Lemma be_S n A : be (S n) A = uchar A 0 * 2 ^ (8 * Z.of_nat n) + be n (drop 1 A).
Proof.
  unfold be. cbn [seq fmap list_fmap].
  change (list_fmap _ _ (uchar A) (seq 1 n)) with (uchar A <$> seq 1 n).
  by rewrite digits_value_cons, length_fmap, length_seq, uchar_seq.
Qed.

Lemma le_S n A : le (S n) A = uchar A 0 + 2 ^ 8 * le n (drop 1 A).
Proof.
  unfold le. rewrite !fmap_reverse. cbn [seq fmap list_fmap].
  change (list_fmap _ _ (uchar A) (seq 1 n)) with (uchar A <$> seq 1 n).
  rewrite reverse_cons, digits_value_app, uchar_seq. lia.
Qed.

Lemma load_le n A : X86_64.load n A = le n A.
Proof. revert A. induction n as [|n IH]; intros A; [done|]. by rewrite le_S, <- IH. Qed.

(** ** Values written digit by digit *)

Lemma encode_be n v : digits_value (be_digit n v <$> seq 0 n) = wrap (8 * Z.of_nat n) v.
Proof.
  revert v. induction n as [|n IH]; intros v.
  { unfold wrap. by rewrite Z.mod_1_r. }
  rewrite seq_S, fmap_app. cbn [fmap list_fmap Nat.add]. rewrite digits_value_app.
  assert (E : be_digit (S n) v <$> seq 0 n = be_digit n (v .>> 8) <$> seq 0 n).
  { apply list_fmap_ext. intros j i Hi. apply lookup_seq in Hi as [-> Hi].
    unfold be_digit. rewrite Z.shiftr_shiftr by lia. f_equal. f_equal. lia. }
  rewrite E, IH. unfold be_digit. replace (S n - 1 - n)%nat with 0%nat by lia.
  rewrite Z.mul_0_r, Z.shiftr_0_r, Z.shiftr_div_pow2 by lia.
  unfold wrap. replace (8 * Z.of_nat (S n)) with (8 + 8 * Z.of_nat n) by lia.
  rewrite Z.pow_add_r by lia. pose proof (pow2_pos (8 * Z.of_nat n) ltac:(lia)).
  rewrite (Z.rem_mul_r v) by lia. lia.
Qed.

Lemma encode_le n v : digits_value (le_digit v <$> reverse (seq 0 n)) = wrap (8 * Z.of_nat n) v.
Proof.
  rewrite <- encode_be. f_equal. apply list_eq. intros i.
  rewrite !list_lookup_fmap. destruct (decide (i < n)%nat) as [Hi|Hi].
  - rewrite reverse_lookup by (rewrite length_seq; lia). rewrite length_seq.
    rewrite !lookup_seq_lt by lia. cbn. f_equal.
    unfold le_digit, be_digit. do 3 f_equal. lia.
  - rewrite !lookup_ge_None_2; rewrite ?length_reverse, ?length_seq; done || lia.
Qed.

Lemma wrote_uchar n d T o T' i :
  wrote n d T o T' -> (i < n)%nat -> (forall k, in_u 8 (d k)) -> uchar (drop o T') i = d i.
Proof.
  intros [_ H] Hi Hd. rewrite uchar_drop. unfold uchar. rewrite H.
  destruct (Nat.leb_spec o (o + i)); [|lia]. destruct (Nat.ltb_spec (o + i) (o + n)); [|lia].
  cbn. replace (o + i - o)%nat with i by lia. by apply wrap_small.
Qed.

(** Reading back what was written. *)
Lemma read_be n v T o T' :
  wrote n (be_digit n v) T o T' -> be n (drop o T') = wrap (8 * Z.of_nat n) v.
Proof.
  intros H. rewrite <- encode_be. unfold be. f_equal. apply list_fmap_ext.
  intros j i Hi. apply lookup_seq in Hi as [-> Hi].
  apply (wrote_uchar _ _ _ _ _ _ H); [lia|]. intros; apply wrap_bound; lia.
Qed.

Lemma read_le n v T o T' :
  wrote n (le_digit v) T o T' -> le n (drop o T') = wrap (8 * Z.of_nat n) v.
Proof.
  intros H. rewrite <- encode_le. unfold le. f_equal. apply list_fmap_ext.
  intros j i Hi. apply list_elem_of_lookup_2, elem_of_reverse, elem_of_seq in Hi.
  apply (wrote_uchar _ _ _ _ _ _ H); [lia|]. intros; apply wrap_bound; lia.
Qed.

Lemma wrote_det n d d' T o T1 T2 :
  wrote n d T o T1 -> wrote n d' T o T2 -> (forall i, (i < n)%nat -> d i = d' i) -> T1 = T2.
Proof.
  intros [L1 H1] [L2 H2] Hd. apply list_eq_same_length with (length T); [done|done|].
  intros i x y Hi Hx Hy. specialize (H1 i). specialize (H2 i).
  rewrite get_lookup, Hx in H1. rewrite get_lookup, Hy in H2. cbn [default from_option] in H1, H2.
  unfold id in H1, H2. rewrite H1, H2.
  destruct (Nat.leb_spec o i), (Nat.ltb_spec i (o + n)); cbn [andb]; try done. apply Hd. lia.
Qed.

(** * Storing *)

Lemma u8_shr32 x k : 0 <= k <= 24 -> u8 (u32 x .>> k) = u8 (x .>> k).
Proof.
  intros Hk. bitwise i Hi. destruct (Z.ltb_spec i 8); [|done].
  autorewrite with cbits. destruct (Z.ltb_spec (i + k) 32); [done|lia].
Qed.

Lemma u8_shr_shr x a b : 0 <= a -> 0 <= b -> u8 ((x .>> a) .>> b) = u8 (x .>> (a + b)).
Proof. intros. by rewrite Z.shiftr_shiftr. Qed.

Lemma u8_shr_0 x k : k = 0 -> u8 x = u8 (x .>> k).
Proof. intros ->. by rewrite Z.shiftr_0_r. Qed.

Create Rewrite HintDb bytes.
#[local] Hint Rewrite u8_shr32 u8_shr_shr using lia : bytes.
#[local] Hint Rewrite (fun x => wrap_wrap_le 8 32 x ltac:(lia)) : bytes.
#[local] Hint Rewrite (fun x => wrap_wrap_le 8 16 x ltac:(lia)) : bytes.

(** Decide where a position falls among the bytes written. *)
Ltac solve_digit :=
  autorewrite with bytes; unfold be_digit, le_digit;
  first [ apply u8_shr_0; lia | f_equal; f_equal; lia ].

Ltac write_bytes :=
  unfold put; split; [by rewrite !length_insert|];
  let j := fresh "j" in intros j;
  rewrite !get_insert by (rewrite ?length_insert; lia);
  repeat match goal with
  | |- context [if (?a =? j)%nat then _ else _] =>
      destruct (Nat.eqb_spec a j) as [<-|];
      [ rewrite (proj2 (Nat.leb_le _ _)), (proj2 (Nat.ltb_lt _ _)) by lia; cbn [andb];
        solve_digit | ]
  end;
  match goal with
  | |- context [(?a <=? j)%nat && (j <? ?b)%nat] =>
      destruct (Nat.leb_spec a j), (Nat.ltb_spec j b); cbn [andb]; done || lia
  end.

(** The same when every byte written is one value. *)
Ltac write_fill :=
  unfold put; split; [by rewrite !length_insert|];
  let j := fresh "j" in intros j;
  rewrite !get_insert by (rewrite ?length_insert; lia);
  repeat match goal with
  | |- context [(?a =? j)%nat] => destruct (Nat.eqb_spec a j)
  | |- context [(?a <=? j)%nat] => destruct (Nat.leb_spec a j)
  | |- context [(j <? ?b)%nat] => destruct (Nat.ltb_spec j b)
  end; cbn [andb]; done || lia.

Section Store.
Context (T : list Z) (o : nat) (A : Z).

Section Mi.
Import MyIsamPack.
Lemma mi_int1store_be : (o + 1 <= length T)%nat -> wrote 1 (be_digit 1 A) T o (mi_int1store T o A).
Proof. intros H. unfold mi_int1store. write_bytes. Qed.
Lemma mi_int2store_be : (o + 2 <= length T)%nat -> wrote 2 (be_digit 2 A) T o (mi_int2store T o A).
Proof. intros H. unfold mi_int2store. cbv zeta. write_bytes. Qed.
Lemma mi_int3store_be : (o + 3 <= length T)%nat -> wrote 3 (be_digit 3 A) T o (mi_int3store T o A).
Proof. intros H. unfold mi_int3store. cbv zeta. write_bytes. Qed.
Lemma mi_int4store_be : (o + 4 <= length T)%nat -> wrote 4 (be_digit 4 A) T o (mi_int4store T o A).
Proof. intros H. unfold mi_int4store. cbv zeta. write_bytes. Qed.
Lemma mi_int5store_be : (o + 5 <= length T)%nat -> wrote 5 (be_digit 5 A) T o (mi_int5store T o A).
Proof. intros H. unfold mi_int5store. cbv zeta. write_bytes. Qed.
Lemma mi_int6store_be : (o + 6 <= length T)%nat -> wrote 6 (be_digit 6 A) T o (mi_int6store T o A).
Proof. intros H. unfold mi_int6store. cbv zeta. write_bytes. Qed.
Lemma mi_int7store_be : (o + 7 <= length T)%nat -> wrote 7 (be_digit 7 A) T o (mi_int7store T o A).
Proof. intros H. unfold mi_int7store. cbv zeta. write_bytes. Qed.
Lemma mi_int8store_be : (o + 8 <= length T)%nat -> wrote 8 (be_digit 8 A) T o (mi_int8store T o A).
Proof. intros H. unfold mi_int8store, mi_int4store. cbv zeta. write_bytes. Qed.
End Mi.

Section Le.
Import Generic.
Lemma int2store_le : (o + 2 <= length T)%nat -> wrote 2 (le_digit A) T o (int2store T o A).
Proof. intros H. unfold int2store. cbv zeta. write_bytes. Qed.
Lemma int3store_le : (o + 3 <= length T)%nat -> wrote 3 (le_digit A) T o (int3store T o A).
Proof. intros H. unfold int3store. write_bytes. Qed.
Lemma int4store_le : (o + 4 <= length T)%nat -> wrote 4 (le_digit A) T o (int4store T o A).
Proof. intros H. unfold int4store. write_bytes. Qed.
Lemma int5store_le : (o + 5 <= length T)%nat -> wrote 5 (le_digit A) T o (int5store T o A).
Proof. intros H. unfold int5store. write_bytes. Qed.
Lemma int6store_le : (o + 6 <= length T)%nat -> wrote 6 (le_digit A) T o (int6store T o A).
Proof. intros H. unfold int6store. write_bytes. Qed.
Lemma int8store_le : (o + 8 <= length T)%nat -> wrote 8 (le_digit A) T o (int8store T o A).
Proof. intros H. unfold int8store, int4store. cbv zeta. write_bytes. Qed.
End Le.
End Store.

(** ** Machine accesses *)

Lemma store_le n T o v :
  (o + n <= length T)%nat -> wrote n (le_digit v) T o (X86_64.store n T o v).
Proof.
  revert T o v. induction n as [|n IH]; intros T o v H; cbn [X86_64.store].
  { split; [done|]. intros j. destruct (Nat.leb_spec o j), (Nat.ltb_spec j (o + 0)); done || lia. }
  destruct (IH (put o 0 v T) (o + 1)%nat (v .>> 8)) as [HL HD].
  { unfold put. rewrite length_insert. lia. }
  unfold put in *. rewrite length_insert in HL. split; [done|].
  intros j. rewrite HD, get_insert by lia.
  destruct (Nat.leb_spec o j), (Nat.ltb_spec j (o + S n)), (Nat.leb_spec (o + 1) j),
    (Nat.ltb_spec j (o + 1 + n)), (Nat.eqb_spec (o + 0) j); cbn [andb]; try done; try lia.
  - unfold le_digit. rewrite Z.shiftr_shiftr by lia. do 2 f_equal. lia.
  - unfold le_digit. apply u8_shr_0. lia.
Qed.

Lemma le_digit_wrap w v i : 8 * (Z.of_nat i + 1) <= w -> le_digit (wrap w v) i = le_digit v i.
Proof.
  intros Hi. unfold le_digit. bitwise j Hj. destruct (Z.ltb_spec j 8); [|done].
  cbn [andb]. autorewrite with cbits. destruct (Z.ltb_spec (j + 8 * Z.of_nat i) w); [done|lia].
Qed.

Lemma wrote_app n k d T o T1 T2 :
  wrote n d T o T1 -> wrote k (fun i => d (n + i)%nat) T1 (o + n) T2 -> wrote (n + k) d T o T2.
Proof.
  intros [L1 H1] [L2 H2]. split; [congruence|]. intros j. rewrite H2, H1.
  destruct (Nat.leb_spec o j), (Nat.ltb_spec j (o + n)), (Nat.leb_spec (o + n) j),
    (Nat.ltb_spec j (o + n + k)), (Nat.ltb_spec j (o + (n + k))); cbn [andb]; try done; try lia.
  f_equal. lia.
Qed.

Lemma wrote_ext n d d' T o T' :
  (forall i, (i < n)%nat -> d i = d' i) -> wrote n d T o T' -> wrote n d' T o T'.
Proof.
  intros Hd [L H]. split; [done|]. intros j. rewrite H.
  destruct (Nat.leb_spec o j), (Nat.ltb_spec j (o + n)); cbn [andb]; try done. apply Hd. lia.
Qed.

Lemma store_wrap_le n w T o v :
  8 * Z.of_nat n <= w -> (o + n <= length T)%nat ->
  wrote n (le_digit v) T o (X86_64.store n T o (wrap w v)).
Proof.
  intros Hw H. apply (wrote_ext _ (le_digit (wrap w v))); [|by apply store_le].
  intros i Hi. apply le_digit_wrap. lia.
Qed.

Lemma put_le T o v d : (o < length T)%nat -> u8 v = d 0%nat -> wrote 1 d T o (put o 0 v T).
Proof.
  intros H E. unfold put. split; [by rewrite length_insert|]. intros j.
  rewrite Nat.add_0_r, get_insert by lia.
  destruct (Nat.eqb_spec o j), (Nat.leb_spec o j), (Nat.ltb_spec j (o + 1)); cbn [andb];
    try lia; try done.
  subst j. by rewrite Nat.sub_diag.
Qed.

Section StoreX86.
Context (T : list Z) (o : nat) (A : Z).

Lemma x86_int2store : (o + 2 <= length T)%nat -> X86_64.int2store T o A = Generic.int2store T o A.
Proof.
  intros H. eapply (wrote_det 2); [apply store_wrap_le; lia|by apply int2store_le|done].
Qed.
Lemma x86_int3store : (o + 3 <= length T)%nat -> X86_64.int3store T o A = Generic.int3store T o A.
Proof.
  intros H. unfold X86_64.int3store, Generic.int3store, put. by rewrite u8_shr32.
Qed.
Lemma x86_int4store : (o + 4 <= length T)%nat -> X86_64.int4store T o A = Generic.int4store T o A.
Proof.
  intros H. eapply (wrote_det 4); [apply store_wrap_le; lia|by apply int4store_le|done].
Qed.
Lemma x86_int5store : (o + 5 <= length T)%nat -> X86_64.int5store T o A = Generic.int5store T o A.
Proof.
  intros H. eapply (wrote_det 5); [|by apply int5store_le|done].
  apply (wrote_app 4 1) with (X86_64.store 4 T o (u32 A)); [apply store_wrap_le; lia|].
  assert (L : length (X86_64.store 4 T o (u32 A)) = length T) by (apply (store_le 4); lia).
  unfold X86_64.int5store. replace (put o 4 (A .>> 32) (X86_64.store 4 T o (u32 A)))
    with (put (o + 4) 0 (A .>> 32) (X86_64.store 4 T o (u32 A)))
    by (unfold put; f_equal; lia).
  apply put_le; [lia|done].
Qed.
Lemma x86_int6store : (o + 6 <= length T)%nat -> X86_64.int6store T o A = Generic.int6store T o A.
Proof.
  intros H. eapply (wrote_det 6); [|by apply int6store_le|done].
  assert (L : length (X86_64.store 4 T o (u32 A)) = length T) by (apply (store_le 4); lia).
  apply (wrote_app 4 2) with (X86_64.store 4 T o (u32 A)); [apply store_wrap_le; lia|].
  apply (wrote_ext _ (le_digit (A .>> 32))); [|apply store_wrap_le; lia].
  intros i Hi. unfold le_digit. rewrite Z.shiftr_shiftr by lia. do 2 f_equal. lia.
Qed.
Lemma x86_int8store : (o + 8 <= length T)%nat -> X86_64.int8store T o A = Generic.int8store T o A.
Proof.
  intros H. eapply (wrote_det 8); [apply store_wrap_le; lia|by apply int8store_le|done].
Qed.
End StoreX86.

Lemma le_digit_le n A i : (i < n)%nat -> le_digit (le n A) i = uchar A i.
Proof.
  revert A i. induction n as [|n IH]; intros A i Hi; [lia|]. rewrite le_S.
  pose proof (uchar_bound A 0) as Hb. unfold in_u in Hb. destruct i as [|i].
  - unfold le_digit. cbn [Z.of_nat]. rewrite Z.shiftr_0_r. unfold wrap.
    rewrite Z.mul_comm, Z_mod_plus_full. by apply Z.mod_small.
  - rewrite <- (uchar_drop A 1 i : _ = uchar A (S i)), <- (IH (drop 1 A) i) by lia.
    unfold le_digit. f_equal.
    replace (8 * Z.of_nat (S i)) with (8 + 8 * Z.of_nat i) by lia.
    rewrite <- Z.shiftr_shiftr by lia. f_equal. rewrite Z.shiftr_div_pow2 by lia. dlia.
Qed.

(** ** Machine reads *)

Lemma lor8_rev a b c d e f g h :
  a .| b .| c .| d .| e .| f .| g .| h = h .| g .| f .| e .| d .| c .| b .| a.
Proof. bitwise i Hi. btauto. Qed.

Lemma bswapq_le p : X86_64.bswapq (le 8 p) = be 8 p.
Proof.
  assert (E : forall i, (i < 8)%nat -> u8 (le 8 p .>> (8 * Z.of_nat i)) = uchar p i)
    by (intros; by apply le_digit_le).
  pose proof (E 0%nat ltac:(lia)) as E0. rewrite Z.shiftr_0_r in E0.
  unfold X86_64.bswapq. change 0xff with (Z.ones 8). rewrite !land_ones_low by lia.
  rewrite E0, (E 1%nat ltac:(lia) : u8 (le 8 p .>> 8) = _),
    (E 2%nat ltac:(lia) : u8 (le 8 p .>> 16) = _), (E 3%nat ltac:(lia) : u8 (le 8 p .>> 24) = _),
    (E 4%nat ltac:(lia) : u8 (le 8 p .>> 32) = _), (E 5%nat ltac:(lia) : u8 (le 8 p .>> 40) = _),
    (E 6%nat ltac:(lia) : u8 (le 8 p .>> 48) = _), (E 7%nat ltac:(lia) : u8 (le 8 p .>> 56) = _).
  rewrite lor8_rev. clear E E0. read_bytes p.
Qed.

(** A number read after [k] zero bytes is shifted up by [k] bytes. *)
Lemma le_zeros k n p : le (k + n) (replicate k 0 ++ p) = le n p * 2 ^ (8 * Z.of_nat k).
Proof.
  induction k as [|k IH]; [cbn [Nat.add replicate app]; lia|].
  cbn [Nat.add replicate app]. rewrite le_S. cbn [drop]. rewrite drop_0, IH.
  change (uchar (0 :: replicate k 0 ++ p) 0) with 0.
  replace (8 * Z.of_nat (S k)) with (8 + 8 * Z.of_nat k) by lia.
  rewrite Z.pow_add_r by lia. lia.
Qed.

Lemma be_zeros k n p : be (k + n) (replicate k 0 ++ p) = be n p.
Proof.
  induction k as [|k IH]; [done|]. cbn [Nat.add replicate app]. rewrite be_S.
  cbn [drop]. rewrite drop_0, IH. change (uchar (0 :: replicate k 0 ++ p) 0) with 0. lia.
Qed.

(** The register after the shift, and the byte swap: [n] bytes read most
    significant first. *)
Lemma bswapq_shifted k n p v :
  (k + n = 8)%nat -> v = le n p ->
  X86_64.bswapq (u64 (v .<< (8 * Z.of_nat k))) = be n p.
Proof.
  intros Hkn ->. rewrite Z.shiftl_mul_pow2, <- le_zeros by lia.
  pose proof (le_bound (k + n) (replicate k 0 ++ p)) as Hb. rewrite Hkn in Hb |- *.
  rewrite wrap_small by exact Hb. rewrite bswapq_le, <- Hkn. apply be_zeros.
Qed.

Ltac read_machine p :=
  rewrite ?load_le; cbv [be le digits_value seq fmap list_fmap foldl reverse rev_append];
  rewrite ?uchar_drop; cbn [Nat.add]; name_bytes p; merge_bytes; lia.

Section ReadX86.
Context (A : list Z).

Lemma x86_uint2korr : X86_64.uint2korr A = le 2 A.
Proof. unfold X86_64.uint2korr. rewrite load_le. apply wrap_small, (le_bound 2). Qed.
Lemma x86_uint4korr : X86_64.uint4korr A = le 4 A.
Proof. unfold X86_64.uint4korr. rewrite load_le. apply wrap_small, (le_bound 4). Qed.
Lemma x86_uint5korr : X86_64.uint5korr A = le 5 A.
Proof. unfold X86_64.uint5korr. cbv zeta. read_machine A. Qed.
Lemma x86_uint6korr : X86_64.uint6korr A = le 6 A.
Proof. unfold X86_64.uint6korr. cbv zeta. read_machine A. Qed.
Lemma x86_uint8korr : X86_64.uint8korr A = le 8 A.
Proof. unfold X86_64.uint8korr. rewrite load_le. apply wrap_small, (le_bound 8). Qed.
Lemma x86_mi_uint5korr : X86_64.mi_uint5korr A = be 5 A.
Proof. apply (bswapq_shifted 3 5); [done|]. apply x86_uint5korr. Qed.
Lemma x86_mi_uint6korr : X86_64.mi_uint6korr A = be 6 A.
Proof. apply (bswapq_shifted 2 6); [done|]. apply x86_uint6korr. Qed.
Lemma x86_mi_uint7korr : X86_64.mi_uint7korr A = be 7 A.
Proof. apply (bswapq_shifted 1 7); [done|]. read_machine A. Qed.
Lemma x86_mi_uint8korr : X86_64.mi_uint8korr A = be 8 A.
Proof. unfold X86_64.mi_uint8korr. rewrite load_le. apply bswapq_le. Qed.
End ReadX86.

(** ** Order *)

(** [memcmp(A, B, n)], by the sign of its result. *)
Fixpoint memcmp (n : nat) (A B : list Z) : comparison :=
  match n with
  | O => Eq
  | S n =>
      match uchar A 0 ?= uchar B 0 with
      | Eq => memcmp n (drop 1 A) (drop 1 B)
      | c => c
      end
  end.

Lemma memcmp_be n A B : memcmp n A B = (be n A ?= be n B).
Proof.
  revert A B. induction n as [|n IH]; intros A B; [done|]. cbn [memcmp]. rewrite IH, !be_S.
  pose proof (be_bound n (drop 1 A)). pose proof (be_bound n (drop 1 B)). unfold in_u in *.
  pose proof (pow2_pos (8 * Z.of_nat n) ltac:(lia)) as Hp.
  destruct (Z.compare_spec (uchar A 0) (uchar B 0)) as [->| |].
  - by rewrite Z.add_compare_mono_l.
  - symmetry. apply Z.compare_lt_iff. nia.
  - symmetry. apply Z.compare_gt_iff. nia.
Qed.

(** ** The families of macros by width *)

Definition mi_uintkorr (n : nat) : list Z -> Z :=
  match n with
  | 1 => MyIsamPack.mi_uint1korr | 2 => MyIsamPack.mi_uint2korr
  | 3 => MyIsamPack.mi_uint3korr | 4 => MyIsamPack.mi_uint4korr
  | 5 => MyIsamPack.mi_uint5korr | 6 => MyIsamPack.mi_uint6korr
  | 7 => MyIsamPack.mi_uint7korr | _ => MyIsamPack.mi_uint8korr
  end%nat.

Definition mi_sintkorr (n : nat) : list Z -> Z :=
  match n with
  | 1 => MyIsamPack.mi_sint1korr | 2 => MyIsamPack.mi_sint2korr
  | 3 => MyIsamPack.mi_sint3korr | 4 => MyIsamPack.mi_sint4korr
  | _ => MyIsamPack.mi_sint8korr
  end%nat.

Definition mi_intstore (n : nat) : list Z -> nat -> Z -> list Z :=
  match n with
  | 1 => MyIsamPack.mi_int1store | 2 => MyIsamPack.mi_int2store
  | 3 => MyIsamPack.mi_int3store | 4 => MyIsamPack.mi_int4store
  | 5 => MyIsamPack.mi_int5store | 6 => MyIsamPack.mi_int6store
  | 7 => MyIsamPack.mi_int7store | _ => MyIsamPack.mi_int8store
  end%nat.

Lemma mi_uintkorr_be n A : (1 <= n <= 8)%nat -> mi_uintkorr n A = be n A.
Proof.
  intros Hn. destruct n as [|[|[|[|[|[|[|[|[|n]]]]]]]]]; try lia; cbn [mi_uintkorr];
    auto using mi_uint1korr_be, mi_uint2korr_be, mi_uint3korr_be, mi_uint4korr_be,
      mi_uint5korr_be, mi_uint6korr_be, mi_uint7korr_be, mi_uint8korr_be.
Qed.

Lemma mi_sintkorr_be n A :
  n ∈ [1; 2; 3; 4; 8]%nat -> mi_sintkorr n A = swrap (8 * Z.of_nat n) (be n A).
Proof.
  rewrite !elem_of_cons, elem_of_nil.
  intros [->|[->|[->|[->|[->|[]]]]]]; cbn [mi_sintkorr];
    [ apply mi_sint1korr_be | apply mi_sint2korr_be | apply mi_sint3korr_be
    | apply mi_sint4korr_be | apply mi_sint8korr_be ].
Qed.

Lemma mi_intstore_be n T o A :
  (1 <= n <= 8)%nat -> (o + n <= length T)%nat ->
  wrote n (be_digit n A) T o (mi_intstore n T o A).
Proof.
  intros Hn. destruct n as [|[|[|[|[|[|[|[|[|n]]]]]]]]]; try lia; cbn [mi_intstore];
    auto using mi_int1store_be, mi_int2store_be, mi_int3store_be, mi_int4store_be,
      mi_int5store_be, mi_int6store_be, mi_int7store_be, mi_int8store_be.
Qed.

(** ** Floating-point representations *)

Lemma copy_bytes_wrote order o V T :
  (o + length order <= length T)%nat ->
  wrote (length order) (fun i => uchar V (nth i order 0%nat)) T o (MyIsamPack.copy_bytes order o V T).
Proof.
  unfold MyIsamPack.copy_bytes. induction order as [|k order IH] using rev_ind; intros H.
  { split; [done|]. intros j. cbn [length]. destruct (Nat.leb_spec o j), (Nat.ltb_spec j (o + 0)); done || lia. }
  rewrite length_app in *. cbn [length] in *. rewrite Nat.add_1_r, seq_S.
  rewrite zip_with_app, foldl_app by apply length_seq. cbn [zip_with foldl Nat.add].
  specialize (IH ltac:(lia)). revert IH. set (T1 := foldl _ T _). intros [HL HD].
  unfold put. split; [by rewrite length_insert|].
  intros j. rewrite get_insert, HD by lia.
  destruct (Nat.eqb_spec (o + length order) j), (Nat.leb_spec o j),
    (Nat.ltb_spec j (o + length order)), (Nat.ltb_spec j (o + S (length order)));
    cbn [andb]; try done; try lia.
  - rewrite app_nth2, (wrap_small 8) by (apply uchar_bound || lia).
    replace (j - o - length order)%nat with 0%nat by lia. done.
  - by rewrite app_nth1 by lia.
Qed.

(** Reading a stored representation back gives it: the orders are their own
    inverses. *)
Lemma float_roundtrip order T o V :
  order ∈ [MyIsamPack.float4_order MyIsamPack.WORDS_BIGENDIAN;
           MyIsamPack.float4_order MyIsamPack.LITTLE_ENDIAN_HOST;
           MyIsamPack.float8_order MyIsamPack.WORDS_BIGENDIAN;
           MyIsamPack.float8_order MyIsamPack.FLOAT_WORD_ORDER_BIG;
           MyIsamPack.float8_order MyIsamPack.LITTLE_ENDIAN_HOST] ->
  (o + length order <= length T)%nat -> length V = length order -> Forall (in_u 8) V ->
  MyIsamPack.copy_bytes order 0 (drop o (MyIsamPack.copy_bytes order o V T))
    (replicate (length order) 0) = V.
Proof.
  intros Ho HT HV Hu. pose proof (copy_bytes_wrote order o V T HT) as Hw.
  assert (Hinv : forall i, (i < length order -> nth i order 0 < length order /\
    nth (nth i order 0) order 0 = i)%nat).
  { rewrite !elem_of_cons, elem_of_nil in Ho.
    destruct Ho as [->|[->|[->|[->|[->|[]]]]]]; intros i Hi; cbn in Hi;
      do 8 (destruct i as [|i]; [cbn; lia|]); lia. }
  destruct (copy_bytes_wrote order 0 (drop o (MyIsamPack.copy_bytes order o V T))
    (replicate (length order) 0)) as [HL HD]; [by rewrite length_replicate|].
  rewrite length_replicate in HL.
  apply list_eq_same_length with (length order); [done|done|].
  intros i x y Hi Hx Hy. specialize (HD i). rewrite get_lookup, Hx in HD.
  rewrite (proj2 (Nat.ltb_lt _ _)) in HD by lia. cbn in HD. rewrite HD, Nat.sub_0_r.
  destruct (Hinv i Hi) as [H1 H2].
  rewrite (wrote_uchar _ _ _ _ _ _ Hw H1) by (intros; apply uchar_bound).
  rewrite H2. unfold uchar. rewrite get_lookup, Hy. cbn [default from_option id].
  apply wrap_small. by eapply Forall_lookup_1.
Qed.

(** * Properties *)

(** C35: for every width from one to eight bytes, reading back a value stored
    high byte first gives the value modulo its width (the signed readers give
    its signed value), at any offset; no byte outside the [n] written ones
    changes and the buffer keeps its length. *)
Theorem mi_store_korr_roundtrip (n : nat) (T : list Z) (o : nat) (A : Z)
    (Hn : (1 <= n <= 8)%nat) (Ho : (o + n <= length T)%nat) :
  let T' := mi_intstore n T o A in
  mi_uintkorr n (drop o T') = wrap (8 * Z.of_nat n) A /\
  (n ∈ [1; 2; 3; 4; 8]%nat -> mi_sintkorr n (drop o T') = swrap (8 * Z.of_nat n) A) /\
  length T' = length T /\
  (forall j, (j < o \/ o + n <= j)%nat -> T'.[j] = T.[j]).
Proof.
  intros T'. pose proof (mi_intstore_be n T o A Hn Ho) as Hw. fold T' in Hw.
  pose proof (read_be _ _ _ _ _ Hw) as Hr. destruct Hw as [HL HD].
  split; [by rewrite mi_uintkorr_be|]. split.
  { intros H. rewrite mi_sintkorr_be, Hr, swrap_wrap by (done || lia). done. }
  split; [done|]. intros j Hj. rewrite HD.
  destruct (Nat.leb_spec o j), (Nat.ltb_spec j (o + n)); cbn [andb]; done || lia.
Qed.

Lemma mi_store_korr_witness :
  MyIsamPack.mi_sint3korr (drop 2 (MyIsamPack.mi_int3store (replicate 6 7) 2 (-5))) = -5.
Proof.
  exact (proj1 (proj2 (mi_store_korr_roundtrip 3 (replicate 6 7) 2 (-5) ltac:(lia)
    ltac:(cbn; lia))) ltac:(by repeat (apply list_elem_of_here || apply list_elem_of_further))).
Defined.

(** comparing two buffers byte by byte with [memcmp] orders them as the
    unsigned numbers the readers return, for every width, so keys stored high
    byte first sort like the values stored in them. *)
Theorem mi_store_orders_like_memcmp (n : nat) (T U : list Z) (o p : nat) (a b : Z)
    (Hn : (1 <= n <= 8)%nat) (Ho : (o + n <= length T)%nat) (Hp : (p + n <= length U)%nat)
    (Ha : in_u (8 * Z.of_nat n) a) (Hb : in_u (8 * Z.of_nat n) b) :
  memcmp n (drop o (mi_intstore n T o a)) (drop p (mi_intstore n U p b)) = (a ?= b) /\
  memcmp n T U = (mi_uintkorr n T ?= mi_uintkorr n U).
Proof.
  rewrite !memcmp_be, !mi_uintkorr_be by done. split; [|done].
  rewrite (read_be _ _ _ _ _ (mi_intstore_be _ _ _ a Hn Ho)).
  rewrite (read_be _ _ _ _ _ (mi_intstore_be _ _ _ b Hn Hp)).
  by rewrite !wrap_small.
Qed.

Lemma mi_store_orders_witness :
  memcmp 4 (drop 1 (MyIsamPack.mi_int4store (replicate 5 0) 1 255))
    (drop 0 (MyIsamPack.mi_int4store (replicate 4 0) 0 256)) = Lt.
Proof.
  exact (proj1 (mi_store_orders_like_memcmp 4 (replicate 5 0) (replicate 4 0) 1 0 255 256
    ltac:(lia) ltac:(cbn; lia) ltac:(cbn; lia) ltac:(split; reflexivity || discriminate)
    ltac:(split; reflexivity || discriminate))).
Defined.

(** the low-byte-first macros: every width stored is read back modulo its
    width (signed readers: as the signed value), and the replacements by
    unaligned machine accesses compute the same buffers and values as the
    portable macros, the byte-swapping readers the same values as the portable
    high-byte-first ones. *)
Theorem little_endian_macros (T : list Z) (o : nat) (A : Z) (Ho : (o + 8 <= length T)%nat) :
  (Generic.uint2korr (drop o (Generic.int2store T o A)) = u16 A /\
   Generic.sint2korr (drop o (Generic.int2store T o A)) = s16 A /\
   Generic.uint3korr (drop o (Generic.int3store T o A)) = wrap 24 A /\
   Generic.sint3korr (drop o (Generic.int3store T o A)) = swrap 24 A /\
   Generic.uint4korr (drop o (Generic.int4store T o A)) = u32 A /\
   Generic.sint4korr (drop o (Generic.int4store T o A)) = s32 A /\
   Generic.uint5korr (drop o (Generic.int5store T o A)) = wrap 40 A /\
   Generic.uint6korr (drop o (Generic.int6store T o A)) = wrap 48 A /\
   Generic.uint8korr (drop o (Generic.int8store T o A)) = u64 A /\
   Generic.sint8korr (drop o (Generic.int8store T o A)) = s64 A) /\
  (X86_64.int2store T o A = Generic.int2store T o A /\
   X86_64.int3store T o A = Generic.int3store T o A /\
   X86_64.int4store T o A = Generic.int4store T o A /\
   X86_64.int5store T o A = Generic.int5store T o A /\
   X86_64.int6store T o A = Generic.int6store T o A /\
   X86_64.int8store T o A = Generic.int8store T o A) /\
  (X86_64.uint2korr T = Generic.uint2korr T /\ X86_64.uint3korr T = Generic.uint3korr T /\
   X86_64.uint4korr T = Generic.uint4korr T /\ X86_64.uint5korr T = Generic.uint5korr T /\
   X86_64.uint6korr T = Generic.uint6korr T /\ X86_64.uint8korr T = Generic.uint8korr T /\
   X86_64.sint2korr T = Generic.sint2korr T /\ X86_64.sint3korr T = Generic.sint3korr T /\
   X86_64.sint4korr T = Generic.sint4korr T /\ X86_64.sint8korr T = Generic.sint8korr T) /\
  (X86_64.mi_uint5korr T = MyIsamPack.mi_uint5korr T /\
   X86_64.mi_uint6korr T = MyIsamPack.mi_uint6korr T /\
   X86_64.mi_uint7korr T = MyIsamPack.mi_uint7korr T /\
   X86_64.mi_uint8korr T = MyIsamPack.mi_uint8korr T).
Proof.
  pose proof (read_le _ _ _ _ _ (int2store_le T o A ltac:(lia))) as E2.
  pose proof (read_le _ _ _ _ _ (int3store_le T o A ltac:(lia))) as E3.
  pose proof (read_le _ _ _ _ _ (int4store_le T o A ltac:(lia))) as E4.
  pose proof (read_le _ _ _ _ _ (int5store_le T o A ltac:(lia))) as E5.
  pose proof (read_le _ _ _ _ _ (int6store_le T o A ltac:(lia))) as E6.
  pose proof (read_le _ _ _ _ _ (int8store_le T o A ltac:(lia))) as E8.
  rewrite uint2korr_le, sint2korr_le, uint3korr_le, sint3korr_le, uint4korr_le, sint4korr_le,
    uint5korr_le, uint6korr_le, uint8korr_le, sint8korr_le, E2, E3, E4, E5, E6, E8.
  rewrite x86_mi_uint5korr, x86_mi_uint6korr, x86_mi_uint7korr, x86_mi_uint8korr.
  rewrite mi_uint5korr_be, mi_uint6korr_be, mi_uint7korr_be, mi_uint8korr_be.
  rewrite x86_uint2korr, x86_uint4korr, x86_uint5korr, x86_uint6korr, x86_uint8korr.
  rewrite uint2korr_le, uint4korr_le, uint5korr_le, uint6korr_le, uint8korr_le.
  rewrite sint2korr_le, sint4korr_le, sint8korr_le.
  unfold X86_64.sint2korr, X86_64.sint4korr, X86_64.sint8korr. rewrite !load_le.
  repeat split; try done; try (apply swrap_wrap; lia);
    [apply x86_int2store|apply x86_int3store|apply x86_int4store|apply x86_int5store
    |apply x86_int6store|apply x86_int8store]; lia.
Qed.

Lemma little_endian_witness :
  X86_64.int6store (replicate 9 0) 1 (2 ^ 47 - 3) = Generic.int6store (replicate 9 0) 1 (2 ^ 47 - 3).
Proof.
  destruct (little_endian_macros (replicate 9 0) 1 (2 ^ 47 - 3) ltac:(cbn; lia))
    as [_ [[_ [_ [_ [_ [H _]]]]] _]].
  exact H.
Defined.

(** The representation on host [h] of the number whose most significant byte
    first representation is [B]. *)
Definition float8_rep (h : MyIsamPack.host) (B : list Z) : list Z :=
  (fun i => B.[i]) <$> MyIsamPack.float8_order h.
Definition float4_rep (h : MyIsamPack.host) (B : list Z) : list Z :=
  (fun i => B.[i]) <$> MyIsamPack.float4_order h.

(** on every host the float and double macros read back the representation
    they stored, and hosts of different byte orders write the same bytes for
    the same number; row numbers and file offsets are read back, also by the
    32-bit variants, whose error offset is stored as eight 0xff bytes. *)
Theorem mi_float_and_pointer_roundtrip (h : MyIsamPack.host) (T : list Z) (o : nat)
    (V4 V8 : list Z) (r f : Z) (Ho : (o + 8 <= length T)%nat)
    (H4 : length V4 = 4%nat) (B4 : Forall (in_u 8) V4)
    (H8 : length V8 = 8%nat) (B8 : Forall (in_u 8) V8) (Hr : in_u 64 r) (Hf : in_u 32 f) :
  MyIsamPack.mi_float4get h (drop o (MyIsamPack.mi_float4store h T o V4)) = V4 /\
  MyIsamPack.mi_float8get h (drop o (MyIsamPack.mi_float8store h T o V8)) = V8 /\
  MyIsamPack.mi_float4store h T o (float4_rep h V4)
    = MyIsamPack.mi_float4store MyIsamPack.WORDS_BIGENDIAN T o V4 /\
  MyIsamPack.mi_float8store h T o (float8_rep h V8)
    = MyIsamPack.mi_float8store MyIsamPack.WORDS_BIGENDIAN T o V8 /\
  MyIsamPack.mi_rowkorr (drop o (MyIsamPack.mi_rowstore T o r)) = r /\
  MyIsamPack.mi_sizekorr (drop o (MyIsamPack.mi_sizestore T o r)) = r /\
  MyIsamPack.mi_rowkorr_small (drop o (MyIsamPack.mi_rowstore_small T o f)) = f /\
  MyIsamPack.mi_sizekorr_small (drop o (MyIsamPack.mi_sizestore_small T o f)) = f.
Proof.
  assert (E8 : be 8 (drop o (MyIsamPack.mi_int8store T o r)) = r).
  { rewrite (read_be _ _ _ _ _ (mi_int8store_be T o r ltac:(lia))). by apply wrap_small. }
  assert (E4 : forall U, length U = length T ->
    MyIsamPack.mi_uint4korr (drop 4 (drop o (MyIsamPack.mi_int4store U (o + 4) f))) = f).
  { intros U HU. rewrite drop_drop, mi_uint4korr_be.
    rewrite (read_be _ _ _ _ _ (mi_int4store_be U (o + 4) f ltac:(lia))). by apply wrap_small. }
  assert (L0 : length (MyIsamPack.mi_int4store T o 0) = length T)
    by (apply (mi_int4store_be T o 0); lia).
  split; [|split; [|split; [|split; [|split; [|split; [|split]]]]]].
  - destruct h; apply float_roundtrip; rewrite ?elem_of_cons; cbn; auto 10; lia.
  - destruct h; apply float_roundtrip; rewrite ?elem_of_cons; cbn; auto 10; lia.
  - destruct h; eapply (wrote_det 4); try (apply copy_bytes_wrote; cbn; lia);
      intros i Hi; do 4 (destruct i as [|i]; [reflexivity|]); lia.
  - destruct h; eapply (wrote_det 8); try (apply copy_bytes_wrote; cbn; lia);
      intros i Hi; do 8 (destruct i as [|i]; [reflexivity|]); lia.
  - unfold MyIsamPack.mi_rowkorr. by rewrite mi_uint8korr_be.
  - unfold MyIsamPack.mi_sizekorr. by rewrite mi_uint8korr_be.
  - by apply E4.
  - unfold MyIsamPack.mi_sizekorr_small, MyIsamPack.mi_sizestore_small.
    destruct (Z.eqb_spec f MyIsamPack.HA_OFFSET_ERROR_small) as [->|]; [|by apply E4].
    rewrite drop_drop, mi_uint4korr_be. cbn [seq foldl].
    rewrite (read_be 4 (2 ^ 32 - 1) (put o 3 255 (put o 2 255 (put o 1 255 (put o 0 255 T))))); [done|].
    apply (wrote_ext _ (fun _ => u8 255)).
    { intros i Hi. do 4 (destruct i as [|i]; [reflexivity|]). lia. }
    write_fill.
Qed.

Lemma mi_float_and_pointer_witness :
  MyIsamPack.mi_float8get MyIsamPack.FLOAT_WORD_ORDER_BIG
    (drop 1 (MyIsamPack.mi_float8store MyIsamPack.FLOAT_WORD_ORDER_BIG (replicate 10 9) 1
       [1; 2; 3; 4; 5; 6; 7; 8])) = [1; 2; 3; 4; 5; 6; 7; 8].
Proof.
  exact (proj1 (proj2 (mi_float_and_pointer_roundtrip MyIsamPack.FLOAT_WORD_ORDER_BIG
    (replicate 10 9) 1 [1; 2; 3; 4] [1; 2; 3; 4; 5; 6; 7; 8] 77 88 ltac:(cbn; lia)
    eq_refl ltac:(repeat constructor; discriminate) eq_refl
    ltac:(repeat constructor; discriminate) ltac:(split; reflexivity || discriminate)
    ltac:(split; reflexivity || discriminate)))).
Defined.
