(* ===== verification/TypeInt.v ===== *)
(** SQL integer values with NULL and sign handling: sql_type_int.h.

    A class is a record of its members, a method a function on it; the static
    and converting constructors are functions of the same name.  The theorems
    relate each class to the mathematical number (or NULL) it stands for. *)
From S2P Require Import Prelude BitOps.
Import MyBit.
Open Scope Z_scope.
Open Scope cint_scope.

Definition LONGLONG_MIN : Z := - 2 ^ 63.
Definition LONGLONG_MAX : Z := 2 ^ 63 - 1.
Definition ULONGLONG_MAX : Z := 2 ^ 64 - 1.

Module Longlong.

Record Longlong := { m_value : Z }.

(** [-m_value] is evaluated only where it does not overflow. *)
Definition abs (x : Longlong) : Z :=
  if m_value x =? LONGLONG_MIN then u64 (u64 LONGLONG_MAX + 1)
  else u64 (if m_value x <? 0 then s64 (- m_value x) else m_value x).

End Longlong.

(** ** Longlong_null: a signed integer or NULL *)

Module Longlong_null.

Record t := { value : Z; is_null : bool }.

Definition mk (nr : Z) (null : bool) : t := {| value := nr; is_null := null |}.
Definition null : t := mk 0 true.
Definition of_longlong (nr : Z) : t := mk nr false.

Definition op_or (x other : t) : t :=
  if is_null x || is_null other then null
  else of_longlong (value x .| value other).

Definition op_and (x other : t) : t :=
  if is_null x || is_null other then null
  else of_longlong (value x .& value other).

Definition op_xor (x other : t) : t :=
  if is_null x || is_null other then null
  else of_longlong (s64 (value x .^ value other)).

Definition op_not (x : t) : t :=
  if is_null x then x
  else of_longlong (s64 (u64 (Z.lnot (u64 (value x))))).

Definition op_shl (x llshift : t) : t :=
  if is_null x || is_null llshift then null
  else
    let shift := u32 (value llshift) in
    let res := if shift <? 8 * 8 then u64 (u64 (value x) .<< shift) else 0 in
    of_longlong (s64 res).

Definition op_shr (x llshift : t) : t :=
  if is_null x || is_null llshift then null
  else
    let shift := u32 (value llshift) in
    let res := if shift <? 8 * 8 then u64 (value x) .>> shift else 0 in
    of_longlong (s64 res).

Definition bit_count (x : t) : t :=
  if is_null x then x
  else of_longlong (s64 (my_count_bits (u64 (value x)))).

End Longlong_null.

(** ** ULonglong: an unsigned integer *)

Module ULonglong.

Definition test_if_sum_overflows_ull (arg1 arg2 : Z) : bool :=
  u64 (ULONGLONG_MAX - arg1) <? arg2.

Definition op_minus (m_value : Z) : Longlong_null.t :=
  if u64 LONGLONG_MAX <? m_value
  then if m_value =? u64 (u64 LONGLONG_MAX + 1)
       then Longlong_null.mk LONGLONG_MIN false
       else Longlong_null.mk 0 true
  else Longlong_null.mk (s64 (- s64 m_value)) false.

Definition to_longlong_null (m_value : Z) : Longlong_null.t :=
  if u64 LONGLONG_MAX <? m_value then Longlong_null.mk 0 true
  else Longlong_null.mk (s64 m_value) false.

End ULonglong.

Module ULonglong_null.

Record t := { value : Z; is_null : bool }.
Definition mk (nr : Z) (null : bool) : t := {| value := nr; is_null := null |}.

(** [ulong] has 32 bits; [ulonglong] products and sums wrap at 64. *)
Definition ullmul (a b : Z) : t :=
  let a1 := u32 (a .>> 32) in
  let b1 := u32 (b .>> 32) in
  if truth a1 && truth b1 then mk 0 true
  else
    let a0 := u32 (0xFFFFFFFF .& a) in
    let b0 := u32 (0xFFFFFFFF .& b) in
    let res1 := u64 (u64 (a1 * b0) + u64 (a0 * b1)) in
    if 0xFFFFFFFF <? res1 then mk 0 true
    else
      let res1 := u64 (res1 .<< 32) in
      let res0 := u64 (a0 * b0) in
      if ULonglong.test_if_sum_overflows_ull res1 res0 then mk 0 true
      else mk (u64 (res1 + res0)) false.

End ULonglong_null.

(** ** Longlong_hybrid: a signed or an unsigned 64-bit integer *)

Module Longlong_hybrid.

Record t := { m_value : Z; m_unsigned : bool }.
Definition mk (nr : Z) (unsigned_flag : bool) : t :=
  {| m_value := nr; m_unsigned := unsigned_flag |}.

Definition cmp_signed (x other : t) : Z :=
  if m_value x <? m_value other then -1
  else if m_value x =? m_value other then 0 else 1.

Definition cmp_unsigned (x other : t) : Z :=
  if u64 (m_value x) <? u64 (m_value other) then -1
  else if m_value x =? m_value other then 0 else 1.

Definition is_unsigned (x : t) : bool := m_unsigned x.

Definition is_unsigned_outside_of_signed_range (x : t) : bool :=
  m_unsigned x && (u64 LONGLONG_MAX <? u64 (m_value x)).

Definition neg (x : t) : bool := (m_value x <? 0) && negb (m_unsigned x).

Definition abs (x : t) : Z :=
  if m_unsigned x then u64 (m_value x)
  else Longlong.abs {| Longlong.m_value := m_value x |}.

Definition to_ulonglong (x : t) (upper_bound : Z) : Z :=
  if neg x then 0
  else if upper_bound <? u64 (m_value x) then upper_bound
  else u64 (m_value x).

Definition to_uint (x : t) (upper_bound : Z) : Z := u32 (to_ulonglong x upper_bound).

Definition val_int_signed (x : t) : Longlong_null.t :=
  if m_unsigned x then ULonglong.to_longlong_null (u64 (m_value x))
  else Longlong_null.mk (m_value x) false.

Definition val_int_unsigned (x : t) : Longlong_null.t :=
  if negb (m_unsigned x) && (m_value x <? 0) then Longlong_null.mk 0 true
  else Longlong_null.mk (m_value x) false.

Definition val_int (x : t) (want_unsigned_value : bool) : Longlong_null.t :=
  if want_unsigned_value then val_int_unsigned x else val_int_signed x.

Definition cmp (x other : t) : Z :=
  if eqb (m_unsigned x) (m_unsigned other)
  then if m_unsigned x then cmp_unsigned x other else cmp_signed x other
  else if is_unsigned_outside_of_signed_range x then 1
  else if is_unsigned_outside_of_signed_range other then -1
  else cmp_signed x other.

Definition op_eq (x nr : t) : bool := cmp x nr =? 0.
Definition op_eq_ulonglong (x : t) (nr : Z) : bool := cmp x (mk (s64 nr) true) =? 0.
Definition op_eq_uint (x : t) (nr : Z) : bool := cmp x (mk (s64 nr) true) =? 0.
Definition op_eq_longlong (x : t) (nr : Z) : bool := cmp x (mk nr false) =? 0.
Definition op_eq_int (x : t) (nr : Z) : bool := cmp x (mk nr false) =? 0.

End Longlong_hybrid.

Module Longlong_hybrid_null.
Record t := { hybrid : Longlong_hybrid.t; is_null : bool }.
Definition mk (nr : Longlong_null.t) (unsigned_flag : bool) : t :=
  {| hybrid := Longlong_hybrid.mk (Longlong_null.value nr) unsigned_flag;
     is_null := Longlong_null.is_null nr |}.
End Longlong_hybrid_null.

(** ** ULonglong_hybrid: an absolute value and a sign *)

Module ULonglong_hybrid.

Record t := { m_value : Z; m_neg : bool }.

Definition mk (value : Z) (neg : bool) : t :=
  {| m_value := value;
     m_neg := if neg && negb (truth value) then false else neg |}.

Definition val_int_unsigned (x : t) : Longlong_null.t :=
  if m_neg x then Longlong_null.mk 0 true
  else Longlong_null.mk (s64 (m_value x)) false.

Definition val_int_signed (x : t) : Longlong_null.t :=
  if m_neg x then ULonglong.op_minus (m_value x)
  else ULonglong.to_longlong_null (m_value x).

Definition val_int (x : t) (want_unsigned_value : bool) : Longlong_null.t :=
  if want_unsigned_value then val_int_unsigned x else val_int_signed x.

End ULonglong_hybrid.

(** * Signed range *)

Lemma in_s64_shiftr x : in_s 64 x <-> (x .>> 63 = 0 \/ x .>> 63 = -1).
Proof. unfold in_s. rewrite Z.shiftr_div_pow2 by lia. cbn. dlia. Qed.

Lemma in_s64_lor x y : in_s 64 x -> in_s 64 y -> in_s 64 (x .| y).
Proof.
  rewrite !in_s64_shiftr, Z.shiftr_lor. intros [->| ->] [->| ->]; cbn; auto.
Qed.

Lemma in_s64_land x y : in_s 64 x -> in_s 64 y -> in_s 64 (x .& y).
Proof.
  rewrite !in_s64_shiftr, Z.shiftr_land. intros [->| ->] [->| ->]; cbn; auto.
Qed.

Lemma in_s64_lxor x y : in_s 64 x -> in_s 64 y -> in_s 64 (x .^ y).
Proof.
  rewrite !in_s64_shiftr, Z.shiftr_lxor. intros [->| ->] [->| ->]; cbn; auto.
Qed.

Lemma s64_lnot x : in_s 64 x -> s64 (u64 (Z.lnot (u64 x))) = Z.lnot x.
Proof.
  intros Hx. rewrite swrap_wrap by lia.
  assert (E : u64 (Z.lnot (u64 x)) = u64 (Z.lnot x)).
  { unfold Z.lnot, wrap, Z.pred.
    rewrite <- (Zplus_mod_idemp_l (- (x mod 2 ^ 64))), <- (Zplus_mod_idemp_l (- x)).
    do 2 f_equal. pose proof (Zminus_mod_idemp_r 0 x (2 ^ 64)) as H. exact H. }
  rewrite <- swrap_wrap, E, swrap_wrap by lia. apply swrap_small; [lia|].
  unfold in_s, Z.lnot in *. lia.
Qed.

(** * NULL-strict bit operators *)

Section Null.
Import Longlong_null.

(** The SQL value a [Longlong_null] stands for. *)
Definition sql (x : t) : option Z := if is_null x then None else Some (value x).
Definition ll_wf (x : t) : Prop := in_s 64 (value x).

(** The shift count is the low 32 bits of the operand, and a count of 64 or
    more gives 0. *)
Definition shift_left (a s : Z) : Z :=
  let k := s mod 2 ^ 32 in if k <? 64 then s64 (a * 2 ^ k) else 0.
Definition shift_right (a s : Z) : Z :=
  let k := s mod 2 ^ 32 in if k <? 64 then s64 (u64 a / 2 ^ k) else 0.

Lemma shl_ok a s :
  s64 (if u32 s <? 8 * 8 then u64 (u64 a .<< u32 s) else 0) = shift_left a s.
Proof.
  unfold shift_left. change (8 * 8) with 64. fold (u32 s).
  destruct (Z.ltb_spec (u32 s) 64); [|done].
  rewrite swrap_wrap by lia. pose proof (wrap_bound 32 s ltac:(lia)) as Hk. unfold in_u in Hk.
  rewrite Z.shiftl_mul_pow2 by lia.
  rewrite <- (swrap_wrap 64 (u64 a * _)), wrap_mul_l, swrap_wrap by lia. done.
Qed.

Lemma shr_ok a s :
  s64 (if u32 s <? 8 * 8 then u64 a .>> u32 s else 0) = shift_right a s.
Proof.
  unfold shift_right. change (8 * 8) with 64. fold (u32 s).
  destruct (Z.ltb_spec (u32 s) 64); [|done].
  pose proof (wrap_bound 32 s ltac:(lia)) as Hk. unfold in_u in Hk.
  by rewrite Z.shiftr_div_pow2 by lia.
Qed.

End Null.

(** * Multiplication with overflow detection *)

Lemma split64 a : in_u 64 a ->
  u32 (a .>> 32) = a / 2 ^ 32 /\ u32 (0xFFFFFFFF .& a) = a mod 2 ^ 32 /\
  0 <= a / 2 ^ 32 < 2 ^ 32 /\ 0 <= a mod 2 ^ 32 < 2 ^ 32 /\
  a = 2 ^ 32 * (a / 2 ^ 32) + a mod 2 ^ 32.
Proof.
  unfold in_u. intros Ha. rewrite Z.shiftr_div_pow2, Z.land_comm by lia.
  change 0xFFFFFFFF with (Z.ones 32). rewrite land_ones_low by lia.
  assert (H : 0 <= a / 2 ^ 32 < 2 ^ 32) by dlia.
  rewrite (wrap_small 32 (a / _)) by exact H. rewrite wrap_wrap.
  repeat split; try apply H; try (apply Z.mod_pos_bound; lia). apply Z.div_mod. lia.
Qed.

Lemma mul_bound32 x y :
  0 <= x < 2 ^ 32 -> 0 <= y < 2 ^ 32 -> 0 <= x * y <= (2 ^ 32 - 1) * (2 ^ 32 - 1).
Proof.
  intros Hx Hy. split; [apply Z.mul_nonneg_nonneg; lia|apply Z.mul_le_mono_nonneg; lia].
Qed.

Lemma sum_overflows_ok a b :
  in_u 64 a -> in_u 64 b ->
  ULonglong.test_if_sum_overflows_ull a b = negb (a + b <? 2 ^ 64).
Proof.
  unfold ULonglong.test_if_sum_overflows_ull, ULONGLONG_MAX. intros Ha Hb.
  rewrite wrap_small by (unfold in_u in *; lia). unfold in_u in *. zcases; done || lia.
Qed.

Lemma ullmul_ok a b :
  in_u 64 a -> in_u 64 b ->
  ULonglong_null.ullmul a b =
    if a * b <? 2 ^ 64 then ULonglong_null.mk (a * b) false else ULonglong_null.mk 0 true.
Proof.
  intros Ha Hb. unfold ULonglong_null.ullmul. cbv zeta.
  destruct (split64 a Ha) as (-> & -> & Ha1 & Ha0 & Ea).
  destruct (split64 b Hb) as (-> & -> & Hb1 & Hb0 & Eb).
  set (a1 := a / 2 ^ 32) in *. set (a0 := a mod 2 ^ 32) in *.
  set (b1 := b / 2 ^ 32) in *. set (b0 := b mod 2 ^ 32) in *. clearbody a1 a0 b1 b0.
  assert (E : a * b = 2 ^ 64 * (a1 * b1) + (a1 * b0 + a0 * b1) * 2 ^ 32 + a0 * b0)
    by (rewrite Ea, Eb; ring).
  pose proof (mul_bound32 a1 b0 Ha1 Hb0). pose proof (mul_bound32 a0 b1 Ha0 Hb1).
  pose proof (mul_bound32 a0 b0 Ha0 Hb0). pose proof (mul_bound32 a1 b1 Ha1 Hb1).
  rewrite (wrap_small 64 (a1 * b0)), (wrap_small 64 (a0 * b1)), (wrap_small 64 (a0 * b0))
    by (unfold in_u; lia).
  destruct (truth a1 && truth b1) eqn:T.
  { apply andb_true_iff in T as [Ta%truth_true Tb%truth_true].
    assert (1 <= a1 * b1) by nia. destruct (Z.ltb_spec (a * b) (2 ^ 64)); [lia|done]. }
  assert (E11 : a1 * b1 = 0).
  { apply andb_false_iff in T as [->%truth_false| ->%truth_false]; lia. }
  rewrite E11 in E.
  assert (Hs : in_u 64 (a1 * b0 + a0 * b1)).
  { apply andb_false_iff in T as [->%truth_false| ->%truth_false]; unfold in_u; lia. }
  rewrite (wrap_small 64 (_ + _)) by exact Hs. unfold in_u in Hs.
  destruct (Z.ltb_spec 0xFFFFFFFF (a1 * b0 + a0 * b1)).
  { destruct (Z.ltb_spec (a * b) (2 ^ 64)); [lia|done]. }
  rewrite Z.shiftl_mul_pow2, (wrap_small 64 (_ * 2 ^ 32)) by (unfold in_u; lia).
  rewrite sum_overflows_ok by (unfold in_u; lia).
  replace ((a1 * b0 + a0 * b1) * 2 ^ 32 + a0 * b0) with (a * b) by lia.
  destruct (Z.ltb_spec (a * b) (2 ^ 64)); [|done].
  cbn [negb]. rewrite wrap_small by (unfold in_u; lia). done.
Qed.

(** * Signed and unsigned integers in one type *)

Lemma u64_of_s64 x : in_s 64 x -> u64 x = if x <? 0 then x + 2 ^ 64 else x.
Proof. unfold in_s, wrap. cbn. intros. zcases; dlia. Qed.

Lemma s64_of_u64 x : in_u 64 x -> s64 x = if x <? 2 ^ 63 then x else x - 2 ^ 64.
Proof. intros Hx. unfold swrap. by rewrite wrap_small. Qed.

Lemma u64_LONGLONG_MAX : u64 LONGLONG_MAX = 2 ^ 63 - 1.
Proof. reflexivity. Qed.

Lemma u64_LONGLONG_MIN_abs : u64 (u64 LONGLONG_MAX + 1) = 2 ^ 63.
Proof. reflexivity. Qed.

Section Hybrid.
Import Longlong_hybrid.

(** The number a hybrid stands for. *)
Definition number (x : t) : Z := if m_unsigned x then u64 (m_value x) else m_value x.
Definition hybrid_wf (x : t) : Prop := in_s 64 (m_value x).

Definition sign_of (c : comparison) : Z := match c with Lt => -1 | Eq => 0 | Gt => 1 end.

(** Decide the case split on signs left by unfolding a method. *)
Ltac by_sign :=
  rewrite ?u64_LONGLONG_MAX, ?u64_LONGLONG_MIN_abs; unfold LONGLONG_MIN, in_s, in_u in *;
  cbn in *; zcases; cbn; try done; try lia.

Lemma cmp_ok x y : hybrid_wf x -> hybrid_wf y -> cmp x y = sign_of (number x ?= number y).
Proof.
  unfold hybrid_wf, cmp, number, cmp_unsigned, cmp_signed, is_unsigned_outside_of_signed_range.
  destruct x as [a [|]], y as [b [|]]; cbn [m_unsigned m_value eqb andb]; intros Hx Hy;
    rewrite ?u64_LONGLONG_MAX, ?(u64_of_s64 a), ?(u64_of_s64 b) by done;
    match goal with |- context [?p ?= ?q] => destruct (Z.compare_spec p q) end;
    revert H; by_sign.
Qed.

Lemma abs_ok x : hybrid_wf x -> abs x = Z.abs (number x).
Proof.
  unfold hybrid_wf, abs, number, Longlong.abs. destruct x as [a [|]]; cbn; intros Hx.
  - rewrite u64_of_s64 by done. unfold in_s in *. cbn in *. zcases; lia.
  - destruct (Z.eqb_spec a LONGLONG_MIN) as [->|Hn]; [done|].
    assert (a <> - 2 ^ 63) by exact Hn. unfold in_s in Hx. cbn in Hx.
    destruct (Z.ltb_spec a 0).
    + rewrite swrap_small by (unfold in_s; cbn; lia). rewrite wrap_small by (unfold in_u; lia). lia.
    + rewrite wrap_small by (unfold in_u; lia). lia.
Qed.

Lemma to_ulonglong_ok x u :
  hybrid_wf x -> in_u 64 u -> to_ulonglong x u = Z.min (Z.max 0 (number x)) u.
Proof.
  unfold hybrid_wf, to_ulonglong, number, neg. destruct x as [a [|]]; cbn [m_unsigned m_value negb];
    intros Hx Hu; rewrite ?u64_of_s64 by done; unfold in_s, in_u in *; cbn in *;
    rewrite ?andb_false_r, ?andb_true_r; zcases; lia.
Qed.

Lemma val_int_signed_ok x :
  hybrid_wf x ->
  val_int_signed x = if number x <? 2 ^ 63 then Longlong_null.mk (number x) false
                     else Longlong_null.mk 0 true.
Proof.
  unfold hybrid_wf, val_int_signed, number, ULonglong.to_longlong_null.
  destruct x as [a [|]]; cbn [m_unsigned m_value]; intros Hx.
  - rewrite u64_LONGLONG_MAX, swrap_wrap, swrap_small, u64_of_s64 by (done || lia).
    unfold in_s in *. cbn in *. zcases; try done; lia.
  - unfold in_s in *. cbn in *. zcases; try done; lia.
Qed.

Lemma val_int_unsigned_ok x :
  hybrid_wf x ->
  val_int_unsigned x = if 0 <=? number x then Longlong_null.mk (s64 (number x)) false
                       else Longlong_null.mk 0 true.
Proof.
  unfold hybrid_wf, val_int_unsigned, number. destruct x as [a [|]]; cbn [m_unsigned m_value negb andb];
    intros Hx.
  - rewrite swrap_wrap, swrap_small by (done || lia).
    pose proof (wrap_bound 64 a ltac:(lia)) as [Hu _]. by rewrite (proj2 (Z.leb_le _ _) Hu).
  - rewrite swrap_small by (done || lia). zcases; try done; lia.
Qed.

Lemma number_signed a : number (mk a false) = a.
Proof. done. Qed.

Lemma number_unsigned a : in_u 64 a -> number (mk (s64 a) true) = a.
Proof. intros. unfold number. cbn. rewrite wrap_swrap by lia. by apply wrap_small. Qed.

Lemma sign_of_eq c : (sign_of c =? 0) = true <-> c = Eq.
Proof. by destruct c. Qed.
End Hybrid.

(** * Properties *)

Section NullProps.
Import Longlong_null.

(** the bit operators of [Longlong_null] are NULL-strict and otherwise the
    64-bit operators on two's complement values; a shift uses the count modulo
    2^32 and gives 0 from 64 on, a right shift is logical, and every result is
    again in the signed 64-bit range. *)
Theorem longlong_null_operators (x y : t) (Hx : ll_wf x) (Hy : ll_wf y) :
  sql (op_or x y) = (a ← sql x; b ← sql y; Some (a .| b)) /\
  sql (op_and x y) = (a ← sql x; b ← sql y; Some (a .& b)) /\
  sql (op_xor x y) = (a ← sql x; b ← sql y; Some (a .^ b)) /\
  sql (op_not x) = (a ← sql x; Some (Z.lnot a)) /\
  sql (op_shl x y) = (a ← sql x; s ← sql y; Some (shift_left a s)) /\
  sql (op_shr x y) = (a ← sql x; s ← sql y; Some (shift_right a s)) /\
  sql (bit_count x) = (a ← sql x; Some (popcount 64 (u64 a))) /\
  Forall ll_wf [op_or x y; op_and x y; op_xor x y; op_not x; op_shl x y; op_shr x y; bit_count x].
Proof.
  unfold ll_wf in Hx, Hy.
  pose proof (popcount_bound 64 (u64 (value x))) as Hp.
  assert (Hc : s64 (my_count_bits (u64 (value x))) = popcount 64 (u64 (value x))).
  { rewrite count_bits_ok by (apply wrap_bound; lia). apply swrap_small; [lia|].
    unfold in_s. lia. }
  assert (Hl : s64 (value x .^ value y) = value x .^ value y)
    by (apply swrap_small, in_s64_lxor; done || lia).
  unfold op_or, op_and, op_xor, op_not, op_shl, op_shr, bit_count. cbv zeta.
  rewrite shl_ok, shr_ok, Hc, Hl, s64_lnot by done.
  assert (Hsl : in_s 64 (shift_left (value x) (value y)))
    by (unfold shift_left; cbv zeta; case_match; [apply swrap_bound; lia|done]).
  assert (Hsr : in_s 64 (shift_right (value x) (value y)))
    by (unfold shift_right; cbv zeta; case_match; [apply swrap_bound; lia|done]).
  pose proof (in_s64_lor _ _ Hx Hy). pose proof (in_s64_land _ _ Hx Hy).
  pose proof (in_s64_lxor _ _ Hx Hy).
  unfold sql, ll_wf. destruct (is_null x) eqn:Ex, (is_null y) eqn:Ey; cbn;
    rewrite ?Ex, ?Ey; repeat split; repeat constructor; unfold in_s, Z.lnot in *; cbn in *; try done; try lia.
Qed.

Lemma longlong_null_witness :
  sql (op_shl (mk 5 false) (mk (2 ^ 32 + 1) false)) = Some 10.
Proof.
  exact (proj1 (proj2 (proj2 (proj2 (proj2 (longlong_null_operators (mk 5 false)
    (mk (2 ^ 32 + 1) false) ltac:(split; reflexivity || discriminate)
    ltac:(split; reflexivity || discriminate))))))).
Defined.
End NullProps.

(** [ullmul] returns the exact product of two unsigned 64-bit integers when
    it fits and NULL exactly when it does not; [test_if_sum_overflows_ull]
    tells the same about a sum. *)
Theorem ullmul_exact_or_null (a b : Z) (Ha : in_u 64 a) (Hb : in_u 64 b) :
  ULonglong_null.ullmul a b =
    (if a * b <? 2 ^ 64 then ULonglong_null.mk (a * b) false else ULonglong_null.mk 0 true) /\
  (ULonglong.test_if_sum_overflows_ull a b = true <-> 2 ^ 64 <= a + b).
Proof.
  split; [by apply ullmul_ok|]. rewrite sum_overflows_ok, negb_true_iff, Z.ltb_ge by done. done.
Qed.

Lemma ullmul_witness :
  ULonglong_null.ullmul (2 ^ 33 + 1) (2 ^ 31 - 1) = ULonglong_null.mk ((2 ^ 33 + 1) * (2 ^ 31 - 1)) false.
Proof.
  exact (proj1 (ullmul_exact_or_null (2 ^ 33 + 1) (2 ^ 31 - 1)
    ltac:(split; reflexivity || discriminate) ltac:(split; reflexivity || discriminate))).
Defined.

Section HybridProps.
Import Longlong_hybrid.

(** [Longlong_hybrid::cmp] orders two integers, each signed or unsigned, by
    their numeric values, so equality (also with plain integers of either
    signedness) is numeric equality; [neg] and [abs] are the sign and the
    absolute value of the number, and [to_ulonglong] clamps it to
    [[0, upper_bound]]. *)
Theorem hybrid_cmp_is_numeric (x y : t) (u w : Z)
    (Hx : hybrid_wf x) (Hy : hybrid_wf y) (Hu : in_u 64 u) (Hw : in_s 64 w) :
  cmp x y = sign_of (number x ?= number y) /\
  (op_eq x y = true <-> number x = number y) /\
  (op_eq_ulonglong x u = true <-> number x = u) /\
  (op_eq_longlong x w = true <-> number x = w) /\
  (neg x = true <-> number x < 0) /\
  abs x = Z.abs (number x) /\
  to_ulonglong x u = Z.min (Z.max 0 (number x)) u.
Proof.
  assert (H : forall z, hybrid_wf z -> (cmp x z =? 0) = true <-> number x = number z).
  { intros z Hz. rewrite cmp_ok, sign_of_eq, Z.compare_eq_iff by done. done. }
  split; [by apply cmp_ok|]. split; [by apply H|]. split.
  { unfold op_eq_ulonglong. rewrite H, number_unsigned by (done || apply swrap_bound; lia). done. }
  split; [unfold op_eq_longlong; by rewrite H|]. split.
  { unfold neg, number. destruct x as [a [|]]; cbn [m_value m_unsigned negb];
      rewrite ?andb_false_r, ?andb_true_r, ?Z.ltb_lt; [|done].
    pose proof (wrap_bound 64 a ltac:(lia)) as [? _]. split; [done|lia]. }
  split; [by apply abs_ok|by apply to_ulonglong_ok].
Qed.

Lemma hybrid_cmp_witness : cmp (mk (-1) true) (mk (-1) false) = 1.
Proof.
  exact (proj1 (hybrid_cmp_is_numeric (mk (-1) true) (mk (-1) false) 0 0
    ltac:(split; reflexivity || discriminate) ltac:(split; reflexivity || discriminate)
    ltac:(split; reflexivity || discriminate) ltac:(split; reflexivity || discriminate))).
Defined.
End HybridProps.

(** converting to the result format ([val_int]): both hybrid classes give
    the number when it fits the requested signed or unsigned 64-bit type
    (unsigned numbers reinterpreted as [longlong]) and NULL exactly when it
    does not; for [ULonglong_hybrid] this includes -2^63, and "-0" is 0. *)
Theorem val_int_range_checks (x : Longlong_hybrid.t) (v : Z) (neg : bool)
    (Hx : hybrid_wf x) (Hv : in_u 64 v) :
  let n := if neg then - v else v in
  let y := ULonglong_hybrid.mk v neg in
  sql (Longlong_hybrid.val_int x false)
    = (if number x <? 2 ^ 63 then Some (number x) else None) /\
  sql (Longlong_hybrid.val_int x true)
    = (if 0 <=? number x then Some (s64 (number x)) else None) /\
  sql (ULonglong_hybrid.val_int y false)
    = (if (- 2 ^ 63 <=? n) && (n <? 2 ^ 63) then Some n else None) /\
  sql (ULonglong_hybrid.val_int y true) = (if 0 <=? n then Some (s64 n) else None).
Proof.
  intros n y. unfold Longlong_hybrid.val_int, ULonglong_hybrid.val_int.
  rewrite val_int_signed_ok, val_int_unsigned_ok by done.
  split; [by destruct (_ <? _)|]. split; [by destruct (_ <=? _)|].
  subst n y. unfold ULonglong_hybrid.mk, ULonglong_hybrid.val_int_signed,
    ULonglong_hybrid.val_int_unsigned, ULonglong.op_minus, ULonglong.to_longlong_null, truth.
  cbn [ULonglong_hybrid.m_neg ULonglong_hybrid.m_value].
  rewrite u64_LONGLONG_MIN_abs, u64_LONGLONG_MAX by done.
  unfold in_u in Hv. unfold LONGLONG_MIN.
  assert (E0 : forall z, 0 <= z < 2 ^ 63 -> s64 (- z) = - z)
    by (intros; apply swrap_small; [lia|unfold in_s; cbn; lia]).
  pose proof (s64_of_u64 v ltac:(done)) as Ev. revert Ev.
  destruct neg; cbn [andb];
    destruct (Z.eqb_spec v 0) as [->|]; cbn [negb]; zcases; intros Ev; cbn [andb sql Longlong_null.mk
      Longlong_null.is_null Longlong_null.value]; try done; try lia; rewrite ?Ev, ?E0 by lia; try done;
    try (split; f_equal; lia).
Qed.

Lemma val_int_witness :
  sql (ULonglong_hybrid.val_int (ULonglong_hybrid.mk (2 ^ 63) true) false) = Some (- 2 ^ 63).
Proof.
  exact (proj1 (proj2 (proj2 (val_int_range_checks (Longlong_hybrid.mk 0 false) (2 ^ 63) true
    ltac:(split; reflexivity || discriminate) ltac:(split; reflexivity || discriminate))))).
Defined.
