(* ===== verification/Privilege.v ===== *)
(** Privilege sets: privilege.h.

    A [privilege_t] is an unsigned 64-bit mask.  The enumerators, the combined
    masks and the [PRIV_] constants are values; the overloaded operators and
    the conversions between the in-memory masks and the compact encodings
    stored in the grant tables are functions. *)
From S2P Require Import Prelude BitOps.
Import MyBit.
Open Scope Z_scope.
Open Scope cint_scope.

(** ** Enumerators *)

Definition NO_ACL : Z := 0.
Definition SELECT_ACL : Z := u32 (1 .<< 0).
Definition INSERT_ACL : Z := u32 (1 .<< 1).
Definition UPDATE_ACL : Z := u32 (1 .<< 2).
Definition DELETE_ACL : Z := u32 (1 .<< 3).
Definition CREATE_ACL : Z := u32 (1 .<< 4).
Definition DROP_ACL : Z := u32 (1 .<< 5).
Definition RELOAD_ACL : Z := u32 (1 .<< 6).
Definition SHUTDOWN_ACL : Z := u32 (1 .<< 7).
Definition PROCESS_ACL : Z := u32 (1 .<< 8).
Definition FILE_ACL : Z := u32 (1 .<< 9).
Definition GRANT_ACL : Z := u32 (1 .<< 10).
Definition REFERENCES_ACL : Z := u32 (1 .<< 11).
Definition INDEX_ACL : Z := u32 (1 .<< 12).
Definition ALTER_ACL : Z := u32 (1 .<< 13).
Definition SHOW_DB_ACL : Z := u32 (1 .<< 14).
Definition SUPER_ACL : Z := u32 (1 .<< 15).
Definition CREATE_TMP_ACL : Z := u32 (1 .<< 16).
Definition LOCK_TABLES_ACL : Z := u32 (1 .<< 17).
Definition EXECUTE_ACL : Z := u32 (1 .<< 18).
Definition REPL_SLAVE_ACL : Z := u32 (1 .<< 19).
Definition BINLOG_MONITOR_ACL : Z := u32 (1 .<< 20).
Definition CREATE_VIEW_ACL : Z := u32 (1 .<< 21).
Definition SHOW_VIEW_ACL : Z := u32 (1 .<< 22).
Definition CREATE_PROC_ACL : Z := u32 (1 .<< 23).
Definition ALTER_PROC_ACL : Z := u32 (1 .<< 24).
Definition CREATE_USER_ACL : Z := u32 (1 .<< 25).
Definition EVENT_ACL : Z := u32 (1 .<< 26).
Definition TRIGGER_ACL : Z := u32 (1 .<< 27).
Definition CREATE_TABLESPACE_ACL : Z := u32 (1 .<< 28).
Definition DELETE_HISTORY_ACL : Z := u32 (1 .<< 29).
Definition SET_USER_ACL : Z := u32 (1 .<< 30).
Definition FEDERATED_ADMIN_ACL : Z := u32 (1 .<< 31).
Definition CONNECTION_ADMIN_ACL : Z := u64 (1 .<< 32).
Definition READ_ONLY_ADMIN_ACL : Z := u64 (1 .<< 33).
Definition REPL_SLAVE_ADMIN_ACL : Z := u64 (1 .<< 34).
Definition REPL_MASTER_ADMIN_ACL : Z := u64 (1 .<< 35).
Definition BINLOG_ADMIN_ACL : Z := u64 (1 .<< 36).
Definition BINLOG_REPLAY_ACL : Z := u64 (1 .<< 37).
Definition SLAVE_MONITOR_ACL : Z := u64 (1 .<< 38).
Definition SHOW_CREATE_ROUTINE_ACL : Z := u64 (1 .<< 39).

Definition ALL_KNOWN_BITS (x : Z) : Z := x .| u64 (x - 1).

(** ** Version markers *)

Definition LAST_100304_ACL : Z := DELETE_HISTORY_ACL.
Definition LAST_100502_ACL : Z := BINLOG_REPLAY_ACL.
Definition LAST_100508_ACL : Z := SLAVE_MONITOR_ACL.
Definition LAST_110300_ACL : Z := SHOW_CREATE_ROUTINE_ACL.
Definition LAST_CURRENT_ACL : Z := LAST_110300_ACL.
Definition PRIVILEGE_T_MAX_BIT : Z := my_bit_log2_uint64 LAST_CURRENT_ACL.
Definition ALL_KNOWN_ACL_100304 : Z := ALL_KNOWN_BITS LAST_100304_ACL.
Definition ALL_KNOWN_ACL_100502 : Z := ALL_KNOWN_BITS LAST_100502_ACL.
Definition ALL_KNOWN_ACL_100508 : Z := ALL_KNOWN_BITS LAST_100508_ACL.
Definition ALL_KNOWN_ACL_100509 : Z := ALL_KNOWN_ACL_100508.
Definition ALL_KNOWN_ACL_110300 : Z := ALL_KNOWN_BITS LAST_110300_ACL.
Definition ALL_KNOWN_ACL : Z := ALL_KNOWN_BITS LAST_CURRENT_ACL.

(** ** Operators.  The assignment operators return the new value of their left
    operand. *)

Definition op_not (access : Z) : Z := u64 (Z.lnot access).
Definition op_and (a b : Z) : Z := a .& b.
Definition op_or (a b : Z) : Z := a .| b.
Definition op_and_assign (a b : Z) : Z := op_and a b.
Definition op_or_assign (a b : Z) : Z := op_or a b.

(** ** Combined masks *)

Definition ALLOWED_BY_SUPER_BEFORE_101100 : Z := READ_ONLY_ADMIN_ACL.
Definition ALLOWED_BY_SUPER_BEFORE_110000 : Z :=
  SET_USER_ACL .| FEDERATED_ADMIN_ACL .| CONNECTION_ADMIN_ACL .| REPL_SLAVE_ADMIN_ACL .|
  BINLOG_ADMIN_ACL .| BINLOG_REPLAY_ACL .| SLAVE_MONITOR_ACL .| BINLOG_MONITOR_ACL .|
  REPL_MASTER_ADMIN_ACL.
Definition COL_DML_ACLS : Z := SELECT_ACL .| INSERT_ACL .| UPDATE_ACL .| DELETE_ACL.
Definition VIEW_ACLS : Z := CREATE_VIEW_ACL .| SHOW_VIEW_ACL.
Definition STD_TABLE_DDL_ACLS : Z := CREATE_ACL .| DROP_ACL .| ALTER_ACL.
Definition ALL_TABLE_DDL_ACLS : Z := STD_TABLE_DDL_ACLS .| INDEX_ACL.
Definition COL_ACLS : Z := SELECT_ACL .| INSERT_ACL .| UPDATE_ACL .| REFERENCES_ACL.
Definition PROC_DDL_ACLS : Z := CREATE_PROC_ACL .| ALTER_PROC_ACL.
Definition SHOW_PROC_WITHOUT_DEFINITION_ACLS : Z := PROC_DDL_ACLS .| EXECUTE_ACL.
Definition TABLE_ACLS : Z :=
  COL_DML_ACLS .| ALL_TABLE_DDL_ACLS .| VIEW_ACLS .| GRANT_ACL .| REFERENCES_ACL .|
  TRIGGER_ACL .| DELETE_HISTORY_ACL.
Definition DB_ACLS : Z :=
  TABLE_ACLS .| PROC_DDL_ACLS .| EXECUTE_ACL .| CREATE_TMP_ACL .| LOCK_TABLES_ACL .|
  EVENT_ACL .| SHOW_CREATE_ROUTINE_ACL.
Definition PROC_ACLS : Z :=
  ALTER_PROC_ACL .| EXECUTE_ACL .| GRANT_ACL .| SHOW_CREATE_ROUTINE_ACL.
Definition GLOBAL_ACLS : Z :=
  DB_ACLS .| SHOW_DB_ACL .| CREATE_USER_ACL .| CREATE_TABLESPACE_ACL .| SUPER_ACL .|
  RELOAD_ACL .| SHUTDOWN_ACL .| PROCESS_ACL .| FILE_ACL .| REPL_SLAVE_ACL .|
  ALLOWED_BY_SUPER_BEFORE_101100 .| ALLOWED_BY_SUPER_BEFORE_110000.
Definition DEFAULT_CREATE_PROC_ACLS : Z := ALTER_PROC_ACL .| EXECUTE_ACL.
Definition SHOW_CREATE_TABLE_ACLS : Z :=
  COL_DML_ACLS .| ALL_TABLE_DDL_ACLS .| TRIGGER_ACL .| REFERENCES_ACL .| GRANT_ACL .| VIEW_ACLS.
Definition TMP_TABLE_ACLS : Z := COL_DML_ACLS .| ALL_TABLE_DDL_ACLS .| REFERENCES_ACL.

(** ** Privileges required by statements, commands and variables *)

Definition PRIV_LOCK_TABLES : Z := SELECT_ACL .| LOCK_TABLES_ACL.
Definition PRIV_DEFINER_CLAUSE : Z := SET_USER_ACL.
Definition PRIV_REVEAL_MISSING_DEFINER : Z := SET_USER_ACL.
Definition PRIV_DES_DECRYPT_ONE_ARG : Z := SUPER_ACL.
Definition PRIV_LOG_BIN_TRUSTED_SP_CREATOR : Z := SUPER_ACL.
Definition PRIV_DEBUG : Z := SUPER_ACL.
Definition PRIV_SET_GLOBAL_SYSTEM_VARIABLE : Z := SUPER_ACL.
Definition PRIV_SET_RESTRICTED_SESSION_SYSTEM_VARIABLE : Z := SUPER_ACL.
Definition PRIV_SET_SYSTEM_VAR_BINLOG_FORMAT : Z := BINLOG_ADMIN_ACL.
Definition PRIV_SET_SYSTEM_VAR_BINLOG_DIRECT_NON_TRANSACTIONAL_UPDATES : Z := BINLOG_ADMIN_ACL.
Definition PRIV_SET_SYSTEM_VAR_BINLOG_ANNOTATE_ROW_EVENTS : Z := BINLOG_ADMIN_ACL.
Definition PRIV_SET_SYSTEM_VAR_BINLOG_ROW_IMAGE : Z := BINLOG_ADMIN_ACL.
Definition PRIV_SET_SYSTEM_VAR_SQL_LOG_BIN : Z := BINLOG_ADMIN_ACL.
Definition PRIV_SET_SYSTEM_GLOBAL_VAR_BINLOG_CACHE_SIZE : Z := BINLOG_ADMIN_ACL.
Definition PRIV_SET_SYSTEM_GLOBAL_VAR_BINLOG_FILE_CACHE_SIZE : Z := BINLOG_ADMIN_ACL.
Definition PRIV_SET_SYSTEM_GLOBAL_VAR_BINLOG_STMT_CACHE_SIZE : Z := BINLOG_ADMIN_ACL.
Definition PRIV_SET_SYSTEM_GLOBAL_VAR_BINLOG_COMMIT_WAIT_COUNT : Z := BINLOG_ADMIN_ACL.
Definition PRIV_SET_SYSTEM_GLOBAL_VAR_BINLOG_COMMIT_WAIT_USEC : Z := BINLOG_ADMIN_ACL.
Definition PRIV_SET_SYSTEM_GLOBAL_VAR_BINLOG_ROW_METADATA : Z := BINLOG_ADMIN_ACL.
Definition PRIV_SET_SYSTEM_GLOBAL_VAR_BINLOG_LEGACY_EVENT_POS : Z := SUPER_ACL .| BINLOG_ADMIN_ACL.
Definition PRIV_SET_SYSTEM_GLOBAL_VAR_BINLOG_GTID_INDEX : Z := BINLOG_ADMIN_ACL.
Definition PRIV_SET_SYSTEM_GLOBAL_VAR_BINLOG_GTID_INDEX_PAGE_SIZE : Z := BINLOG_ADMIN_ACL.
Definition PRIV_SET_SYSTEM_GLOBAL_VAR_BINLOG_GTID_INDEX_SPAN_MIN : Z := BINLOG_ADMIN_ACL.
Definition PRIV_SET_SYSTEM_GLOBAL_VAR_EXPIRE_LOGS_DAYS : Z := BINLOG_ADMIN_ACL.
Definition PRIV_SET_SYSTEM_GLOBAL_VAR_LOG_BIN_COMPRESS : Z := BINLOG_ADMIN_ACL.
Definition PRIV_SET_SYSTEM_GLOBAL_VAR_LOG_BIN_COMPRESS_MIN_LEN : Z := BINLOG_ADMIN_ACL.
Definition PRIV_SET_SYSTEM_GLOBAL_VAR_LOG_BIN_TRUST_FUNCTION_CREATORS : Z := BINLOG_ADMIN_ACL.
Definition PRIV_SET_SYSTEM_GLOBAL_VAR_MAX_BINLOG_CACHE_SIZE : Z := BINLOG_ADMIN_ACL.
Definition PRIV_SET_SYSTEM_GLOBAL_VAR_MAX_BINLOG_STMT_CACHE_SIZE : Z := BINLOG_ADMIN_ACL.
Definition PRIV_SET_SYSTEM_GLOBAL_VAR_MAX_BINLOG_SIZE : Z := BINLOG_ADMIN_ACL.
Definition PRIV_SET_SYSTEM_GLOBAL_VAR_SYNC_BINLOG : Z := BINLOG_ADMIN_ACL.
Definition PRIV_IGNORE_READ_ONLY : Z := READ_ONLY_ADMIN_ACL.
Definition PRIV_SET_SYSTEM_GLOBAL_VAR_READ_ONLY : Z := READ_ONLY_ADMIN_ACL.
Definition PRIV_IGNORE_INIT_CONNECT : Z := CONNECTION_ADMIN_ACL.
Definition PRIV_IGNORE_MAX_USER_CONNECTIONS : Z := CONNECTION_ADMIN_ACL.
Definition PRIV_IGNORE_MAX_CONNECTIONS : Z := CONNECTION_ADMIN_ACL.
Definition PRIV_IGNORE_MAX_PASSWORD_ERRORS : Z := CONNECTION_ADMIN_ACL.
Definition PRIV_KILL_OTHER_USER_PROCESS : Z := CONNECTION_ADMIN_ACL.
Definition PRIV_SET_SYSTEM_GLOBAL_VAR_CONNECT_TIMEOUT : Z := CONNECTION_ADMIN_ACL.
Definition PRIV_SET_SYSTEM_GLOBAL_VAR_DISCONNECT_ON_EXPIRED_PASSWORD : Z := CONNECTION_ADMIN_ACL.
Definition PRIV_SET_SYSTEM_GLOBAL_VAR_EXTRA_MAX_CONNECTIONS : Z := CONNECTION_ADMIN_ACL.
Definition PRIV_SET_SYSTEM_GLOBAL_VAR_INIT_CONNECT : Z := CONNECTION_ADMIN_ACL.
Definition PRIV_SET_SYSTEM_GLOBAL_VAR_MAX_CONNECTIONS : Z := CONNECTION_ADMIN_ACL.
Definition PRIV_SET_SYSTEM_GLOBAL_VAR_MAX_CONNECT_ERRORS : Z := CONNECTION_ADMIN_ACL.
Definition PRIV_SET_SYSTEM_GLOBAL_VAR_MAX_PASSWORD_ERRORS : Z := CONNECTION_ADMIN_ACL.
Definition PRIV_SET_SYSTEM_GLOBAL_VAR_PROXY_PROTOCOL_NETWORKS : Z := CONNECTION_ADMIN_ACL.
Definition PRIV_SET_SYSTEM_GLOBAL_VAR_SECURE_AUTH : Z := CONNECTION_ADMIN_ACL.
Definition PRIV_SET_SYSTEM_GLOBAL_VAR_SLOW_LAUNCH_TIME : Z := CONNECTION_ADMIN_ACL.
Definition PRIV_SET_SYSTEM_GLOBAL_VAR_THREAD_POOL : Z := CONNECTION_ADMIN_ACL.
Definition PRIV_STMT_SHOW_BINLOG_STATUS : Z := BINLOG_MONITOR_ACL.
Definition PRIV_STMT_SHOW_BINARY_LOGS : Z := BINLOG_MONITOR_ACL.
Definition PRIV_STMT_PURGE_BINLOG : Z := BINLOG_ADMIN_ACL.
Definition PRIV_STMT_SHOW_BINLOG_EVENTS : Z := BINLOG_MONITOR_ACL.
Definition PRIV_SET_SYSTEM_GLOBAL_VAR_BINLOG_DO_DB : Z := BINLOG_ADMIN_ACL .| SUPER_ACL.
Definition PRIV_SET_SYSTEM_GLOBAL_VAR_BINLOG_IGNORE_DB : Z := BINLOG_ADMIN_ACL .| SUPER_ACL.
Definition PRIV_COM_REGISTER_SLAVE : Z := REPL_SLAVE_ACL.
Definition PRIV_COM_BINLOG_DUMP : Z := REPL_SLAVE_ACL.
Definition PRIV_STMT_SHOW_SLAVE_HOSTS : Z := REPL_MASTER_ADMIN_ACL.
Definition PRIV_SET_SYSTEM_GLOBAL_VAR_RPL_SEMI_SYNC_MASTER_ENABLED : Z := REPL_MASTER_ADMIN_ACL.
Definition PRIV_SET_SYSTEM_GLOBAL_VAR_RPL_SEMI_SYNC_MASTER_TIMEOUT : Z := REPL_MASTER_ADMIN_ACL.
Definition PRIV_SET_SYSTEM_GLOBAL_VAR_RPL_SEMI_SYNC_MASTER_WAIT_NO_SLAVE : Z := REPL_MASTER_ADMIN_ACL.
Definition PRIV_SET_SYSTEM_GLOBAL_VAR_RPL_SEMI_SYNC_MASTER_TRACE_LEVEL : Z := REPL_MASTER_ADMIN_ACL.
Definition PRIV_SET_SYSTEM_GLOBAL_VAR_RPL_SEMI_SYNC_MASTER_WAIT_POINT : Z := REPL_MASTER_ADMIN_ACL.
Definition PRIV_SET_SYSTEM_GLOBAL_VAR_MASTER_VERIFY_CHECKSUM : Z := REPL_MASTER_ADMIN_ACL.
Definition PRIV_SET_SYSTEM_GLOBAL_VAR_GTID_BINLOG_STATE : Z := REPL_MASTER_ADMIN_ACL.
Definition PRIV_SET_SYSTEM_GLOBAL_VAR_SERVER_ID : Z := REPL_MASTER_ADMIN_ACL.
Definition PRIV_SET_SYSTEM_GLOBAL_VAR_GTID_DOMAIN_ID : Z := REPL_MASTER_ADMIN_ACL.
Definition PRIV_STMT_START_SLAVE : Z := REPL_SLAVE_ADMIN_ACL.
Definition PRIV_STMT_STOP_SLAVE : Z := REPL_SLAVE_ADMIN_ACL.
Definition PRIV_STMT_CHANGE_MASTER : Z := REPL_SLAVE_ADMIN_ACL.
Definition PRIV_STMT_SHOW_SLAVE_STATUS : Z := SLAVE_MONITOR_ACL.
Definition PRIV_STMT_SHOW_RELAYLOG_EVENTS : Z := SLAVE_MONITOR_ACL.
Definition PRIV_STMT_BINLOG : Z := BINLOG_REPLAY_ACL.
Definition PRIV_SET_SYSTEM_SESSION_VAR_GTID_SEQ_NO : Z := BINLOG_REPLAY_ACL.
Definition PRIV_SET_SYSTEM_SESSION_VAR_PSEUDO_THREAD_ID : Z := BINLOG_REPLAY_ACL.
Definition PRIV_SET_SYSTEM_SESSION_VAR_SERVER_ID : Z := BINLOG_REPLAY_ACL.
Definition PRIV_SET_SYSTEM_SESSION_VAR_GTID_DOMAIN_ID : Z := BINLOG_REPLAY_ACL.
Definition PRIV_SET_SYSTEM_GLOBAL_VAR_REPLICATE_EVENTS_MARKED_FOR_SKIP : Z := REPL_SLAVE_ADMIN_ACL.
Definition PRIV_SET_SYSTEM_GLOBAL_VAR_REPLICATE_REWRITE_DB : Z := REPL_SLAVE_ADMIN_ACL.
Definition PRIV_SET_SYSTEM_GLOBAL_VAR_REPLICATE_DO_DB : Z := REPL_SLAVE_ADMIN_ACL.
Definition PRIV_SET_SYSTEM_GLOBAL_VAR_REPLICATE_DO_TABLE : Z := REPL_SLAVE_ADMIN_ACL.
Definition PRIV_SET_SYSTEM_GLOBAL_VAR_REPLICATE_IGNORE_DB : Z := REPL_SLAVE_ADMIN_ACL.
Definition PRIV_SET_SYSTEM_GLOBAL_VAR_REPLICATE_IGNORE_TABLE : Z := REPL_SLAVE_ADMIN_ACL.
Definition PRIV_SET_SYSTEM_GLOBAL_VAR_REPLICATE_WILD_DO_TABLE : Z := REPL_SLAVE_ADMIN_ACL.
Definition PRIV_SET_SYSTEM_GLOBAL_VAR_REPLICATE_WILD_IGNORE_TABLE : Z := REPL_SLAVE_ADMIN_ACL.
Definition PRIV_SET_SYSTEM_GLOBAL_VAR_READ_BINLOG_SPEED_LIMIT : Z := REPL_SLAVE_ADMIN_ACL.
Definition PRIV_SET_SYSTEM_GLOBAL_VAR_SLAVE_COMPRESSED_PROTOCOL : Z := REPL_SLAVE_ADMIN_ACL.
Definition PRIV_SET_SYSTEM_GLOBAL_VAR_SLAVE_DDL_EXEC_MODE : Z := REPL_SLAVE_ADMIN_ACL.
Definition PRIV_SET_SYSTEM_GLOBAL_VAR_SLAVE_DOMAIN_PARALLEL_THREADS : Z := REPL_SLAVE_ADMIN_ACL.
Definition PRIV_SET_SYSTEM_GLOBAL_VAR_SLAVE_EXEC_MODE : Z := REPL_SLAVE_ADMIN_ACL.
Definition PRIV_SET_SYSTEM_GLOBAL_VAR_SLAVE_MAX_ALLOWED_PACKET : Z := REPL_SLAVE_ADMIN_ACL.
Definition PRIV_SET_SYSTEM_GLOBAL_VAR_SLAVE_MAX_STATEMENT_TIME : Z := REPL_SLAVE_ADMIN_ACL.
Definition PRIV_SET_SYSTEM_GLOBAL_VAR_SLAVE_NET_TIMEOUT : Z := REPL_SLAVE_ADMIN_ACL.
Definition PRIV_SET_SYSTEM_GLOBAL_VAR_SLAVE_PARALLEL_MAX_QUEUED : Z := REPL_SLAVE_ADMIN_ACL.
Definition PRIV_SET_SYSTEM_GLOBAL_VAR_SLAVE_PARALLEL_MODE : Z := REPL_SLAVE_ADMIN_ACL.
Definition PRIV_SET_SYSTEM_GLOBAL_VAR_SLAVE_PARALLEL_THREADS : Z := REPL_SLAVE_ADMIN_ACL.
Definition PRIV_SET_SYSTEM_GLOBAL_VAR_SLAVE_PARALLEL_WORKERS : Z := REPL_SLAVE_ADMIN_ACL.
Definition PRIV_SET_SYSTEM_GLOBAL_VAR_SLAVE_RUN_TRIGGERS_FOR_RBR : Z := REPL_SLAVE_ADMIN_ACL.
Definition PRIV_SET_SYSTEM_GLOBAL_VAR_SLAVE_SQL_VERIFY_CHECKSUM : Z := REPL_SLAVE_ADMIN_ACL.
Definition PRIV_SET_SYSTEM_GLOBAL_VAR_SLAVE_TRANSACTION_RETRY_INTERVAL : Z := REPL_SLAVE_ADMIN_ACL.
Definition PRIV_SET_SYSTEM_GLOBAL_VAR_SLAVE_TYPE_CONVERSIONS : Z := REPL_SLAVE_ADMIN_ACL.
Definition PRIV_SET_SYSTEM_GLOBAL_VAR_INIT_SLAVE : Z := REPL_SLAVE_ADMIN_ACL.
Definition PRIV_SET_SYSTEM_GLOBAL_VAR_RPL_SEMI_SYNC_SLAVE_ENABLED : Z := REPL_SLAVE_ADMIN_ACL.
Definition PRIV_SET_SYSTEM_GLOBAL_VAR_RPL_SEMI_SYNC_SLAVE_TRACE_LEVEL : Z := REPL_SLAVE_ADMIN_ACL.
Definition PRIV_SET_SYSTEM_GLOBAL_VAR_RPL_SEMI_SYNC_SLAVE_DELAY_MASTER : Z := REPL_SLAVE_ADMIN_ACL.
Definition PRIV_SET_SYSTEM_GLOBAL_VAR_RPL_SEMI_SYNC_SLAVE_KILL_CONN_TIMEOUT : Z := REPL_SLAVE_ADMIN_ACL.
Definition PRIV_SET_SYSTEM_GLOBAL_VAR_RELAY_LOG_PURGE : Z := REPL_SLAVE_ADMIN_ACL.
Definition PRIV_SET_SYSTEM_GLOBAL_VAR_RELAY_LOG_RECOVERY : Z := REPL_SLAVE_ADMIN_ACL.
Definition PRIV_SET_SYSTEM_GLOBAL_VAR_SYNC_MASTER_INFO : Z := REPL_SLAVE_ADMIN_ACL.
Definition PRIV_SET_SYSTEM_GLOBAL_VAR_SYNC_RELAY_LOG : Z := REPL_SLAVE_ADMIN_ACL.
Definition PRIV_SET_SYSTEM_GLOBAL_VAR_SYNC_RELAY_LOG_INFO : Z := REPL_SLAVE_ADMIN_ACL.
Definition PRIV_SET_SYSTEM_GLOBAL_VAR_GTID_CLEANUP_BATCH_SIZE : Z := REPL_SLAVE_ADMIN_ACL.
Definition PRIV_SET_SYSTEM_GLOBAL_VAR_GTID_IGNORE_DUPLICATES : Z := REPL_SLAVE_ADMIN_ACL.
Definition PRIV_SET_SYSTEM_GLOBAL_VAR_GTID_POS_AUTO_ENGINES : Z := REPL_SLAVE_ADMIN_ACL.
Definition PRIV_SET_SYSTEM_GLOBAL_VAR_GTID_SLAVE_POS : Z := REPL_SLAVE_ADMIN_ACL.
Definition PRIV_SET_SYSTEM_GLOBAL_VAR_GTID_STRICT_MODE : Z := REPL_SLAVE_ADMIN_ACL.
Definition PRIV_STMT_CREATE_SERVER : Z := FEDERATED_ADMIN_ACL.
Definition PRIV_STMT_ALTER_SERVER : Z := FEDERATED_ADMIN_ACL.
Definition PRIV_STMT_DROP_SERVER : Z := FEDERATED_ADMIN_ACL.
Definition PRIV_COM_PROCESS_INFO : Z := PROCESS_ACL.
Definition PRIV_STMT_SHOW_EXPLAIN : Z := PROCESS_ACL.
Definition PRIV_STMT_SHOW_ENGINE_STATUS : Z := PROCESS_ACL.
Definition PRIV_STMT_SHOW_ENGINE_MUTEX : Z := PROCESS_ACL.
Definition PRIV_STMT_SHOW_PROCESSLIST : Z := PROCESS_ACL.

(** All of the above, in the order of the header. *)
Definition required_privileges : list Z :=
  [PRIV_LOCK_TABLES;
   PRIV_DEFINER_CLAUSE;
   PRIV_REVEAL_MISSING_DEFINER;
   PRIV_DES_DECRYPT_ONE_ARG;
   PRIV_LOG_BIN_TRUSTED_SP_CREATOR;
   PRIV_DEBUG;
   PRIV_SET_GLOBAL_SYSTEM_VARIABLE;
   PRIV_SET_RESTRICTED_SESSION_SYSTEM_VARIABLE;
   PRIV_SET_SYSTEM_VAR_BINLOG_FORMAT;
   PRIV_SET_SYSTEM_VAR_BINLOG_DIRECT_NON_TRANSACTIONAL_UPDATES;
   PRIV_SET_SYSTEM_VAR_BINLOG_ANNOTATE_ROW_EVENTS;
   PRIV_SET_SYSTEM_VAR_BINLOG_ROW_IMAGE;
   PRIV_SET_SYSTEM_VAR_SQL_LOG_BIN;
   PRIV_SET_SYSTEM_GLOBAL_VAR_BINLOG_CACHE_SIZE;
   PRIV_SET_SYSTEM_GLOBAL_VAR_BINLOG_FILE_CACHE_SIZE;
   PRIV_SET_SYSTEM_GLOBAL_VAR_BINLOG_STMT_CACHE_SIZE;
   PRIV_SET_SYSTEM_GLOBAL_VAR_BINLOG_COMMIT_WAIT_COUNT;
   PRIV_SET_SYSTEM_GLOBAL_VAR_BINLOG_COMMIT_WAIT_USEC;
   PRIV_SET_SYSTEM_GLOBAL_VAR_BINLOG_ROW_METADATA;
   PRIV_SET_SYSTEM_GLOBAL_VAR_BINLOG_LEGACY_EVENT_POS;
   PRIV_SET_SYSTEM_GLOBAL_VAR_BINLOG_GTID_INDEX;
   PRIV_SET_SYSTEM_GLOBAL_VAR_BINLOG_GTID_INDEX_PAGE_SIZE;
   PRIV_SET_SYSTEM_GLOBAL_VAR_BINLOG_GTID_INDEX_SPAN_MIN;
   PRIV_SET_SYSTEM_GLOBAL_VAR_EXPIRE_LOGS_DAYS;
   PRIV_SET_SYSTEM_GLOBAL_VAR_LOG_BIN_COMPRESS;
   PRIV_SET_SYSTEM_GLOBAL_VAR_LOG_BIN_COMPRESS_MIN_LEN;
   PRIV_SET_SYSTEM_GLOBAL_VAR_LOG_BIN_TRUST_FUNCTION_CREATORS;
   PRIV_SET_SYSTEM_GLOBAL_VAR_MAX_BINLOG_CACHE_SIZE;
   PRIV_SET_SYSTEM_GLOBAL_VAR_MAX_BINLOG_STMT_CACHE_SIZE;
   PRIV_SET_SYSTEM_GLOBAL_VAR_MAX_BINLOG_SIZE;
   PRIV_SET_SYSTEM_GLOBAL_VAR_SYNC_BINLOG;
   PRIV_IGNORE_READ_ONLY;
   PRIV_SET_SYSTEM_GLOBAL_VAR_READ_ONLY;
   PRIV_IGNORE_INIT_CONNECT;
   PRIV_IGNORE_MAX_USER_CONNECTIONS;
   PRIV_IGNORE_MAX_CONNECTIONS;
   PRIV_IGNORE_MAX_PASSWORD_ERRORS;
   PRIV_KILL_OTHER_USER_PROCESS;
   PRIV_SET_SYSTEM_GLOBAL_VAR_CONNECT_TIMEOUT;
   PRIV_SET_SYSTEM_GLOBAL_VAR_DISCONNECT_ON_EXPIRED_PASSWORD;
   PRIV_SET_SYSTEM_GLOBAL_VAR_EXTRA_MAX_CONNECTIONS;
   PRIV_SET_SYSTEM_GLOBAL_VAR_INIT_CONNECT;
   PRIV_SET_SYSTEM_GLOBAL_VAR_MAX_CONNECTIONS;
   PRIV_SET_SYSTEM_GLOBAL_VAR_MAX_CONNECT_ERRORS;
   PRIV_SET_SYSTEM_GLOBAL_VAR_MAX_PASSWORD_ERRORS;
   PRIV_SET_SYSTEM_GLOBAL_VAR_PROXY_PROTOCOL_NETWORKS;
   PRIV_SET_SYSTEM_GLOBAL_VAR_SECURE_AUTH;
   PRIV_SET_SYSTEM_GLOBAL_VAR_SLOW_LAUNCH_TIME;
   PRIV_SET_SYSTEM_GLOBAL_VAR_THREAD_POOL;
   PRIV_STMT_SHOW_BINLOG_STATUS;
   PRIV_STMT_SHOW_BINARY_LOGS;
   PRIV_STMT_PURGE_BINLOG;
   PRIV_STMT_SHOW_BINLOG_EVENTS;
   PRIV_SET_SYSTEM_GLOBAL_VAR_BINLOG_DO_DB;
   PRIV_SET_SYSTEM_GLOBAL_VAR_BINLOG_IGNORE_DB;
   PRIV_COM_REGISTER_SLAVE;
   PRIV_COM_BINLOG_DUMP;
   PRIV_STMT_SHOW_SLAVE_HOSTS;
   PRIV_SET_SYSTEM_GLOBAL_VAR_RPL_SEMI_SYNC_MASTER_ENABLED;
   PRIV_SET_SYSTEM_GLOBAL_VAR_RPL_SEMI_SYNC_MASTER_TIMEOUT;
   PRIV_SET_SYSTEM_GLOBAL_VAR_RPL_SEMI_SYNC_MASTER_WAIT_NO_SLAVE;
   PRIV_SET_SYSTEM_GLOBAL_VAR_RPL_SEMI_SYNC_MASTER_TRACE_LEVEL;
   PRIV_SET_SYSTEM_GLOBAL_VAR_RPL_SEMI_SYNC_MASTER_WAIT_POINT;
   PRIV_SET_SYSTEM_GLOBAL_VAR_MASTER_VERIFY_CHECKSUM;
   PRIV_SET_SYSTEM_GLOBAL_VAR_GTID_BINLOG_STATE;
   PRIV_SET_SYSTEM_GLOBAL_VAR_SERVER_ID;
   PRIV_SET_SYSTEM_GLOBAL_VAR_GTID_DOMAIN_ID;
   PRIV_STMT_START_SLAVE;
   PRIV_STMT_STOP_SLAVE;
   PRIV_STMT_CHANGE_MASTER;
   PRIV_STMT_SHOW_SLAVE_STATUS;
   PRIV_STMT_SHOW_RELAYLOG_EVENTS;
   PRIV_STMT_BINLOG;
   PRIV_SET_SYSTEM_SESSION_VAR_GTID_SEQ_NO;
   PRIV_SET_SYSTEM_SESSION_VAR_PSEUDO_THREAD_ID;
   PRIV_SET_SYSTEM_SESSION_VAR_SERVER_ID;
   PRIV_SET_SYSTEM_SESSION_VAR_GTID_DOMAIN_ID;
   PRIV_SET_SYSTEM_GLOBAL_VAR_REPLICATE_EVENTS_MARKED_FOR_SKIP;
   PRIV_SET_SYSTEM_GLOBAL_VAR_REPLICATE_REWRITE_DB;
   PRIV_SET_SYSTEM_GLOBAL_VAR_REPLICATE_DO_DB;
   PRIV_SET_SYSTEM_GLOBAL_VAR_REPLICATE_DO_TABLE;
   PRIV_SET_SYSTEM_GLOBAL_VAR_REPLICATE_IGNORE_DB;
   PRIV_SET_SYSTEM_GLOBAL_VAR_REPLICATE_IGNORE_TABLE;
   PRIV_SET_SYSTEM_GLOBAL_VAR_REPLICATE_WILD_DO_TABLE;
   PRIV_SET_SYSTEM_GLOBAL_VAR_REPLICATE_WILD_IGNORE_TABLE;
   PRIV_SET_SYSTEM_GLOBAL_VAR_READ_BINLOG_SPEED_LIMIT;
   PRIV_SET_SYSTEM_GLOBAL_VAR_SLAVE_COMPRESSED_PROTOCOL;
   PRIV_SET_SYSTEM_GLOBAL_VAR_SLAVE_DDL_EXEC_MODE;
   PRIV_SET_SYSTEM_GLOBAL_VAR_SLAVE_DOMAIN_PARALLEL_THREADS;
   PRIV_SET_SYSTEM_GLOBAL_VAR_SLAVE_EXEC_MODE;
   PRIV_SET_SYSTEM_GLOBAL_VAR_SLAVE_MAX_ALLOWED_PACKET;
   PRIV_SET_SYSTEM_GLOBAL_VAR_SLAVE_MAX_STATEMENT_TIME;
   PRIV_SET_SYSTEM_GLOBAL_VAR_SLAVE_NET_TIMEOUT;
   PRIV_SET_SYSTEM_GLOBAL_VAR_SLAVE_PARALLEL_MAX_QUEUED;
   PRIV_SET_SYSTEM_GLOBAL_VAR_SLAVE_PARALLEL_MODE;
   PRIV_SET_SYSTEM_GLOBAL_VAR_SLAVE_PARALLEL_THREADS;
   PRIV_SET_SYSTEM_GLOBAL_VAR_SLAVE_PARALLEL_WORKERS;
   PRIV_SET_SYSTEM_GLOBAL_VAR_SLAVE_RUN_TRIGGERS_FOR_RBR;
   PRIV_SET_SYSTEM_GLOBAL_VAR_SLAVE_SQL_VERIFY_CHECKSUM;
   PRIV_SET_SYSTEM_GLOBAL_VAR_SLAVE_TRANSACTION_RETRY_INTERVAL;
   PRIV_SET_SYSTEM_GLOBAL_VAR_SLAVE_TYPE_CONVERSIONS;
   PRIV_SET_SYSTEM_GLOBAL_VAR_INIT_SLAVE;
   PRIV_SET_SYSTEM_GLOBAL_VAR_RPL_SEMI_SYNC_SLAVE_ENABLED;
   PRIV_SET_SYSTEM_GLOBAL_VAR_RPL_SEMI_SYNC_SLAVE_TRACE_LEVEL;
   PRIV_SET_SYSTEM_GLOBAL_VAR_RPL_SEMI_SYNC_SLAVE_DELAY_MASTER;
   PRIV_SET_SYSTEM_GLOBAL_VAR_RPL_SEMI_SYNC_SLAVE_KILL_CONN_TIMEOUT;
   PRIV_SET_SYSTEM_GLOBAL_VAR_RELAY_LOG_PURGE;
   PRIV_SET_SYSTEM_GLOBAL_VAR_RELAY_LOG_RECOVERY;
   PRIV_SET_SYSTEM_GLOBAL_VAR_SYNC_MASTER_INFO;
   PRIV_SET_SYSTEM_GLOBAL_VAR_SYNC_RELAY_LOG;
   PRIV_SET_SYSTEM_GLOBAL_VAR_SYNC_RELAY_LOG_INFO;
   PRIV_SET_SYSTEM_GLOBAL_VAR_GTID_CLEANUP_BATCH_SIZE;
   PRIV_SET_SYSTEM_GLOBAL_VAR_GTID_IGNORE_DUPLICATES;
   PRIV_SET_SYSTEM_GLOBAL_VAR_GTID_POS_AUTO_ENGINES;
   PRIV_SET_SYSTEM_GLOBAL_VAR_GTID_SLAVE_POS;
   PRIV_SET_SYSTEM_GLOBAL_VAR_GTID_STRICT_MODE;
   PRIV_STMT_CREATE_SERVER;
   PRIV_STMT_ALTER_SERVER;
   PRIV_STMT_DROP_SERVER;
   PRIV_COM_PROCESS_INFO;
   PRIV_STMT_SHOW_EXPLAIN;
   PRIV_STMT_SHOW_ENGINE_STATUS;
   PRIV_STMT_SHOW_ENGINE_MUTEX;
   PRIV_STMT_SHOW_PROCESSLIST].

(** ** Encodings of the grant tables *)

Definition DB_CHUNK0 : Z := COL_DML_ACLS .| CREATE_ACL .| DROP_ACL.
Definition DB_CHUNK1 : Z := GRANT_ACL .| REFERENCES_ACL .| INDEX_ACL .| ALTER_ACL.
Definition DB_CHUNK2 : Z := CREATE_TMP_ACL .| LOCK_TABLES_ACL.
Definition DB_CHUNK3 : Z := VIEW_ACLS .| PROC_DDL_ACLS.
Definition DB_CHUNK4 : Z := EXECUTE_ACL.
Definition DB_CHUNK5 : Z := EVENT_ACL .| TRIGGER_ACL.
Definition DB_CHUNK6 : Z := DELETE_HISTORY_ACL.
Definition DB_CHUNK7 : Z := SHOW_CREATE_ROUTINE_ACL.

Definition fix_rights_for_db (A : Z) : Z :=
  (A .& DB_CHUNK0) .| (u64 (A .<< 4) .& DB_CHUNK1) .| (u64 (A .<< 6) .& DB_CHUNK2) .|
  (u64 (A .<< 9) .& DB_CHUNK3) .| (u64 (A .<< 2) .& DB_CHUNK4) .| (u64 (A .<< 9) .& DB_CHUNK5) .|
  (u64 (A .<< 10) .& DB_CHUNK6) .| (u64 (A .<< 19) .& DB_CHUNK7).

Definition get_rights_for_db (A : Z) : Z :=
  (A .& DB_CHUNK0) .| ((A .& DB_CHUNK1) .>> 4) .| ((A .& DB_CHUNK2) .>> 6) .|
  ((A .& DB_CHUNK3) .>> 9) .| ((A .& DB_CHUNK4) .>> 2) .| ((A .& DB_CHUNK5) .>> 9) .|
  ((A .& DB_CHUNK6) .>> 10) .| ((A .& DB_CHUNK7) .>> 19).

Definition TBL_CHUNK0 : Z := DB_CHUNK0.
Definition TBL_CHUNK1 : Z := DB_CHUNK1.
Definition TBL_CHUNK2 : Z := CREATE_VIEW_ACL .| SHOW_VIEW_ACL.
Definition TBL_CHUNK3 : Z := TRIGGER_ACL.
Definition TBL_CHUNK4 : Z := DELETE_HISTORY_ACL.

Definition fix_rights_for_table (A : Z) : Z :=
  (A .& TBL_CHUNK0) .| (u64 (A .<< 4) .& TBL_CHUNK1) .| (u64 (A .<< 11) .& TBL_CHUNK2) .|
  (u64 (A .<< 15) .& TBL_CHUNK3) .| (u64 (A .<< 16) .& TBL_CHUNK4).

Definition get_rights_for_table (A : Z) : Z :=
  (A .& TBL_CHUNK0) .| ((A .& TBL_CHUNK1) .>> 4) .| ((A .& TBL_CHUNK2) .>> 11) .|
  ((A .& TBL_CHUNK3) .>> 15) .| ((A .& TBL_CHUNK4) .>> 16).

Definition column_mask : Z := SELECT_ACL .| INSERT_ACL .| UPDATE_ACL.

Definition fix_rights_for_column (A : Z) : Z :=
  op_or (A .& column_mask) (u64 ((A .& u64 (Z.lnot column_mask)) .<< 8)).

Definition get_rights_for_column (A : Z) : Z := (A .& column_mask) .| (A .>> 8).

Definition fix_rights_for_procedure (A : Z) : Z :=
  (u64 (A .<< 35) .& SHOW_CREATE_ROUTINE_ACL) .| (u64 (A .<< 18) .& EXECUTE_ACL) .|
  (u64 (A .<< 23) .& ALTER_PROC_ACL) .| (u64 (A .<< 8) .& GRANT_ACL).

Definition get_rights_for_procedure (A : Z) : Z :=
  ((A .& SHOW_CREATE_ROUTINE_ACL) .>> 35) .| ((A .& EXECUTE_ACL) .>> 18) .|
  ((A .& ALTER_PROC_ACL) .>> 23) .| ((A .& GRANT_ACL) .>> 8).

(** * Encodings by chunks

    Every conversion moves the bits of some masks ("chunks") by a distance:
    [pack] gathers them into a compact number, [unpack] spreads them again. *)

Definition chunk : Type := Z * Z.

Definition pack (cs : list chunk) (A : Z) : Z :=
  foldr (fun '(C, k) acc => ((A .& C) .>> k) .| acc) 0 cs.
Definition unpack (cs : list chunk) (A : Z) : Z :=
  foldr (fun '(C, k) acc => (u64 (A .<< k) .& C) .| acc) 0 cs.

(** The bits moved, before and after packing. *)
Definition spread (cs : list chunk) : Z := foldr (fun '(C, _) acc => C .| acc) 0 cs.
Definition packed (cs : list chunk) : Z := foldr (fun '(C, k) acc => (C .>> k) .| acc) 0 cs.

(** No position is used twice, before or after packing; checked by evaluation
    on the 64 positions. *)
Definition separate (c c' : chunk) (j : Z) : bool :=
  let '((C, k), (C', k')) := (c, c') in
  implb (Z.testbit C j && Z.testbit C' j) (k =? k') &&
  implb (Z.testbit C (j + k) && Z.testbit C' (j + k')) (k =? k').
Definition chunk_ok (c : chunk) : bool :=
  let '(C, k) := c in
  (0 <=? k) && (0 <=? C) && (C <? 2 ^ 64) && (C .& Z.ones k =? 0).
Definition chunks_ok (cs : list chunk) : bool :=
  forallb chunk_ok cs &&
  forallb (fun c => forallb (fun c' => forallb (separate c c') (seqZ 0 64)) cs) cs.

Section Chunks.
Context (cs : list chunk) (Hcs : chunks_ok cs = true).

Lemma chunk_in C k : (C, k) ∈ cs ->
  0 <= k /\ in_u 64 C /\ (forall i, i < k -> Z.testbit C i = false).
Proof.
  intros Hin. apply andb_true_iff in Hcs as [H _]. rewrite forallb_forall in H.
  specialize (H _ (proj1 (list_elem_of_In _ _) Hin)). cbn in H.
  rewrite !andb_true_iff, !Z.leb_le, Z.ltb_lt, Z.eqb_eq in H.
  destruct H as [[[Hk H0] H1] Hl]. split; [done|]. split; [done|]. intros i Hi.
  destruct (Z.ltb_spec i 0); [by apply Z.testbit_neg_r|].
  assert (E : Z.testbit (C .& Z.ones k) i = false) by (by rewrite Hl, Z.bits_0).
  rewrite Z.land_spec, testbit_ones in E by done.
  by rewrite (proj2 (Z.leb_le 0 i)), (proj2 (Z.ltb_lt i k)), andb_true_r in E.
Qed.

Lemma chunks_separate C k C' k' : (C, k) ∈ cs -> (C', k') ∈ cs ->
  (forall j, Z.testbit C j = true -> Z.testbit C' j = true -> k = k') /\
  (forall j, 0 <= j -> Z.testbit C (j + k) = true -> Z.testbit C' (j + k') = true -> k = k').
Proof.
  intros H1 H2. pose proof (chunk_in _ _ H1) as (Hk & HC & HCl).
  assert (Hs : forall j, 0 <= j < 64 -> separate (C, k) (C', k') j = true).
  { intros j Hj. apply andb_true_iff in Hcs as [_ H]. rewrite forallb_forall in H.
    specialize (H _ (proj1 (list_elem_of_In _ _) H1)). rewrite forallb_forall in H.
    specialize (H _ (proj1 (list_elem_of_In _ _) H2)). rewrite forallb_forall in H.
    apply H. apply list_elem_of_In, elem_of_seqZ. lia. }
  assert (Hr : forall j, Z.testbit C j = true -> 0 <= j < 64).
  { intros j E. destruct (Z.ltb_spec j 0); [by rewrite Z.testbit_neg_r in E|].
    destruct (Z.ltb_spec j 64); [lia|]. by rewrite (testbit_high 64) in E by (done || lia). }
  split; intros j.
  - intros E1 E2. specialize (Hs j (Hr j E1)). cbn in Hs. rewrite E1, E2 in Hs. cbn in Hs.
    apply andb_true_iff in Hs as [Hs _]. by apply Z.eqb_eq.
  - intros Hj E1 E2. specialize (Hs j ltac:(apply Hr in E1; lia)). cbn in Hs.
    rewrite E1, E2 in Hs. cbn in Hs. apply andb_true_iff in Hs as [_ Hs]. by apply Z.eqb_eq.
Qed.

(** Bits of the two maps, as existentials over the chunks. *)
Lemma pack_bit l A i : 0 <= i -> Forall (fun '(_, k) => 0 <= k) l ->
  Z.testbit (pack l A) i = true <->
  exists C k, (C, k) ∈ l /\ Z.testbit A (i + k) = true /\ Z.testbit C (i + k) = true.
Proof.
  intros Hi Hl. induction Hl as [|[C k] l Hk Hl IH]; cbn [pack foldr].
  { rewrite Z.bits_0. split; [done|]. intros (C & k & H & _). by apply elem_of_nil in H. }
  autorewrite with cbits. rewrite orb_true_iff, andb_true_iff. fold (pack l A). rewrite IH. split.
  - intros [[H1 H2]|(C' & k' & H & H')]; [exists C, k|exists C', k']; rewrite elem_of_cons; auto.
  - intros (C' & k' & H & H'). apply elem_of_cons in H as [[= -> ->]|H]; [left; tauto|right; eauto].
Qed.

Lemma unpack_bit l A i : 0 <= i -> Forall (fun '(_, k) => 0 <= k) l ->
  Z.testbit (unpack l A) i = true <->
  exists C k, (C, k) ∈ l /\ i < 64 /\ Z.testbit A (i - k) = true /\ Z.testbit C i = true.
Proof.
  intros Hi Hl. induction Hl as [|[C k] l Hk Hl IH]; cbn [unpack foldr].
  { rewrite Z.bits_0. split; [done|]. intros (C & k & H & _). by apply elem_of_nil in H. }
  autorewrite with cbits. rewrite orb_true_iff, !andb_true_iff, Z.ltb_lt.
  fold (unpack l A). rewrite IH. split.
  - intros [[[H0 H1] H2]|(C' & k' & H & H')]; [exists C, k|exists C', k']; rewrite elem_of_cons; auto.
  - intros (C' & k' & H & H' & H''). apply elem_of_cons in H as [[= -> ->]|H]; [left; tauto|right; eauto].
Qed.

Lemma spread_bit l i :
  Z.testbit (spread l) i = true <-> exists C k, (C, k) ∈ l /\ Z.testbit C i = true.
Proof.
  induction l as [|[C k] l IH]; cbn [spread foldr].
  { rewrite Z.bits_0. split; [done|]. intros (C & k & H & _). by apply elem_of_nil in H. }
  rewrite Z.lor_spec, orb_true_iff. fold (spread l). rewrite IH. split.
  - intros [H|(C' & k' & H & H')]; [exists C, k|exists C', k']; rewrite elem_of_cons; auto.
  - intros (C' & k' & H & H'). apply elem_of_cons in H as [[= -> ->]|H]; [left; tauto|right; eauto].
Qed.

Lemma packed_bit l i : 0 <= i ->
  Z.testbit (packed l) i = true <-> exists C k, (C, k) ∈ l /\ Z.testbit C (i + k) = true.
Proof.
  intros Hi. induction l as [|[C k] l IH]; cbn [packed foldr].
  { rewrite Z.bits_0. split; [done|]. intros (C & k & H & _). by apply elem_of_nil in H. }
  autorewrite with cbits. rewrite orb_true_iff. fold (packed l). rewrite IH. split.
  - intros [H|(C' & k' & H & H')]; [exists C, k|exists C', k']; rewrite elem_of_cons; auto.
  - intros (C' & k' & H & H'). apply elem_of_cons in H as [[= -> ->]|H]; [left; tauto|right; eauto].
Qed.

Lemma chunks_nonneg : Forall (fun '(_, k) => 0 <= k) cs.
Proof. apply Forall_forall. intros [C k] Hin%list_elem_of_In.
  exact (proj1 (chunk_in C k Hin)).
Qed.

Lemma bool_eq_iff' (a b : bool) : (a = true <-> b = true) -> a = b.
Proof. destruct a, b; intuition congruence. Qed.

Theorem unpack_pack A : unpack cs (pack cs A) = A .& spread cs.
Proof.
  pose proof chunks_nonneg as Hn. apply Z.bits_inj'. intros i Hi. apply bool_eq_iff'.
  rewrite Z.land_spec, andb_true_iff, unpack_bit, spread_bit by done. split.
  - intros (C & k & H1 & Hi64 & E & EC). destruct (chunk_in _ _ H1) as (Hk & HC & HCl).
    assert (k <= i) by (destruct (Z.ltb_spec i k); [by rewrite HCl in EC by done|lia]).
    apply pack_bit in E as (C' & k' & H2 & EA & EC'); [|lia|done].
    assert (k = k').
    { apply (proj2 (chunks_separate _ _ _ _ H1 H2) (i - k)); [lia| |done].
      by replace (i - k + k) with i by lia. }
    subst k'. replace (i - k + k) with i in * by lia. split; [done|]. eauto.
  - intros [EA (C & k & H1 & EC)]. destruct (chunk_in _ _ H1) as (Hk & HC & HCl).
    assert (k <= i) by (destruct (Z.ltb_spec i k); [by rewrite HCl in EC by done|lia]).
    assert (i < 64).
    { destruct (Z.ltb_spec i 64); [done|]. by rewrite (testbit_high 64) in EC by (done || lia). }
    exists C, k. split; [done|]. split; [done|]. split; [|done].
    apply pack_bit; [lia|done|]. exists C, k. replace (i - k + k) with i by lia. done.
Qed.

Theorem pack_unpack S : pack cs (unpack cs S) = S .& packed cs.
Proof.
  pose proof chunks_nonneg as Hn. apply Z.bits_inj'. intros i Hi. apply bool_eq_iff'.
  rewrite Z.land_spec, andb_true_iff, pack_bit, packed_bit by done. split.
  - intros (C & k & H1 & E & EC). destruct (chunk_in _ _ H1) as (Hk & HC & HCl).
    apply unpack_bit in E as (C' & k' & H2 & Hi64 & ES & EC'); [|lia|done].
    assert (k = k') by (by apply (proj1 (chunks_separate _ _ _ _ H1 H2) (i + k))).
    subst k'. replace (i + k - k) with i in ES by lia. split; [done|]. eauto.
  - intros [ES (C & k & H1 & EC)]. destruct (chunk_in _ _ H1) as (Hk & HC & HCl).
    exists C, k. split; [done|]. split; [|done]. apply unpack_bit; [lia|done|].
    exists C, k. split; [done|]. replace (i + k - k) with i by lia. split; [|done].
    destruct (Z.ltb_spec (i + k) 64); [done|]. by rewrite (testbit_high 64) in EC by (done || lia).
Qed.

Lemma pack_bound A n : 0 <= n -> in_u n (packed cs) -> in_u n (pack cs A).
Proof.
  intros Hn Hp.
  assert (E : pack cs A = packed cs .& pack cs A).
  { apply Z.bits_inj'. intros i Hi. apply bool_eq_iff'.
    rewrite Z.land_spec, andb_true_iff, pack_bit, packed_bit by (done || apply chunks_nonneg).
    split; [|tauto]. intros (C & k & H). split; [|eauto]. exists C, k. tauto. }
  assert (E' : pack cs A = wrap n (pack cs A)).
  { apply Z.bits_inj'. intros i Hi. rewrite testbit_wrap by done.
    destruct (Z.ltb_spec i n); [done|].
    rewrite E, Z.land_spec, (testbit_high n (packed cs)) by (done || lia). done. }
  rewrite E'. by apply wrap_bound.
Qed.
End Chunks.

(** ** The four conversions as chunk maps *)

Definition db_chunks : list chunk :=
  [(DB_CHUNK0, 0); (DB_CHUNK1, 4); (DB_CHUNK2, 6); (DB_CHUNK3, 9); (DB_CHUNK4, 2);
   (DB_CHUNK5, 9); (DB_CHUNK6, 10); (DB_CHUNK7, 19)].
Definition table_chunks : list chunk :=
  [(TBL_CHUNK0, 0); (TBL_CHUNK1, 4); (TBL_CHUNK2, 11); (TBL_CHUNK3, 15); (TBL_CHUNK4, 16)].
Definition procedure_chunks : list chunk :=
  [(SHOW_CREATE_ROUTINE_ACL, 35); (EXECUTE_ACL, 18); (ALTER_PROC_ACL, 23); (GRANT_ACL, 8)].
Definition column_chunks : list chunk := [(column_mask, 0); (REFERENCES_ACL, 8)].

Lemma db_chunks_ok : chunks_ok db_chunks = true.
Proof. vm_compute. reflexivity. Qed.
Lemma table_chunks_ok : chunks_ok table_chunks = true.
Proof. vm_compute. reflexivity. Qed.
Lemma procedure_chunks_ok : chunks_ok procedure_chunks = true.
Proof. vm_compute. reflexivity. Qed.
Lemma column_chunks_ok : chunks_ok column_chunks = true.
Proof. vm_compute. reflexivity. Qed.

Lemma shift0 A : u64 (A .<< 0) = u64 A.
Proof. by rewrite Z.shiftl_0_r. Qed.

Lemma get_db_pack A : get_rights_for_db A = pack db_chunks A.
Proof.
  unfold get_rights_for_db, pack, db_chunks. cbn [foldr].
  rewrite Z.shiftr_0_r, Z.lor_0_r. bitwise i Hi. btauto.
Qed.
Lemma fix_db_unpack A : in_u 64 A -> fix_rights_for_db A = unpack db_chunks A.
Proof.
  intros HA. unfold fix_rights_for_db, unpack, db_chunks. cbn [foldr].
  rewrite shift0, (wrap_small 64 A), Z.lor_0_r by done. by rewrite !Z.lor_assoc.
Qed.
Lemma get_table_pack A : get_rights_for_table A = pack table_chunks A.
Proof.
  unfold get_rights_for_table, pack, table_chunks. cbn [foldr].
  by rewrite Z.shiftr_0_r, Z.lor_0_r, !Z.lor_assoc.
Qed.
Lemma fix_table_unpack A : in_u 64 A -> fix_rights_for_table A = unpack table_chunks A.
Proof.
  intros HA. unfold fix_rights_for_table, unpack, table_chunks. cbn [foldr].
  rewrite shift0, (wrap_small 64 A), Z.lor_0_r by done. by rewrite !Z.lor_assoc.
Qed.
Lemma get_procedure_pack A : get_rights_for_procedure A = pack procedure_chunks A.
Proof.
  unfold get_rights_for_procedure, pack, procedure_chunks. cbn [foldr].
  by rewrite Z.lor_0_r, !Z.lor_assoc.
Qed.
Lemma fix_procedure_unpack A : fix_rights_for_procedure A = unpack procedure_chunks A.
Proof.
  unfold fix_rights_for_procedure, unpack, procedure_chunks. cbn [foldr].
  by rewrite Z.lor_0_r, !Z.lor_assoc.
Qed.

(** The column conversions do not mask their upper part, so they are chunk maps
    only on column privileges and on four-bit encodings. *)
Lemma get_column_pack A : A = A .& COL_ACLS -> get_rights_for_column A = pack column_chunks A.
Proof.
  intros E. unfold get_rights_for_column, pack, column_chunks. cbn [foldr].
  rewrite Z.shiftr_0_r, Z.lor_0_r. f_equal. rewrite E at 1.
  by rewrite !Z.shiftr_land.
Qed.
Lemma fix_column_unpack S :
  0 <= S < 2 ^ 4 -> fix_rights_for_column S = unpack column_chunks S.
Proof.
  intros HS. assert (H : 0 <= S < 16) by exact HS. zenum S H 16%nat; reflexivity.
Qed.

Lemma procedure_bit4 B : Z.testbit (get_rights_for_procedure B) 4 = Z.testbit B 39.
Proof.
  unfold get_rights_for_procedure. autorewrite with cbits.
  change (Z.testbit SHOW_CREATE_ROUTINE_ACL (4 + 35)) with true.
  change (Z.testbit EXECUTE_ACL (4 + 18)) with false.
  change (Z.testbit ALTER_PROC_ACL (4 + 23)) with false.
  change (Z.testbit GRANT_ACL (4 + 8)) with false. change (4 + 35) with 39. btauto.
Qed.

(** * Properties *)

(** C40: Converting database and table privileges to the compact form stored in
    the grant tables and back keeps exactly the privileges of that level
    ([DB_ACLS], [TABLE_ACLS]); the compact forms are the numbers below 2^21 and
    2^14, and each such number is the compact form of the privileges it is
    converted to. *)
Theorem db_table_rights_roundtrip (A S T : Z)
    (HA : in_u 64 A) (HS : in_u 21 S) (HT : in_u 14 T) :
  fix_rights_for_db (get_rights_for_db A) = A .& DB_ACLS /\
  in_u 21 (get_rights_for_db A) /\
  get_rights_for_db (fix_rights_for_db S) = S /\
  fix_rights_for_table (get_rights_for_table A) = A .& TABLE_ACLS /\
  in_u 14 (get_rights_for_table A) /\
  get_rights_for_table (fix_rights_for_table T) = T.
Proof.
  assert (H21 : in_u 21 (get_rights_for_db A))
    by (rewrite get_db_pack; apply pack_bound; [exact db_chunks_ok|lia|split; reflexivity || discriminate]).
  assert (H14 : in_u 14 (get_rights_for_table A))
    by (rewrite get_table_pack; apply pack_bound; [exact table_chunks_ok|lia|split; reflexivity || discriminate]).
  assert (W : forall n x, 0 <= n <= 64 -> in_u n x -> in_u 64 x).
  { unfold in_u. intros n x Hn Hx. pose proof (Z.pow_le_mono_r 2 n 64 ltac:(lia) ltac:(lia)). lia. }
  split; [|split; [done|split; [|split; [|split; [done|]]]]].
  - rewrite fix_db_unpack, get_db_pack, (unpack_pack _ db_chunks_ok) by (by apply (W 21)). done.
  - rewrite fix_db_unpack, get_db_pack, (pack_unpack _ db_chunks_ok) by (by apply (W 21)).
    change (packed db_chunks) with (Z.ones 21). rewrite land_ones_low by lia. by apply wrap_small.
  - rewrite fix_table_unpack, get_table_pack, (unpack_pack _ table_chunks_ok) by (by apply (W 14)).
    done.
  - rewrite fix_table_unpack, get_table_pack, (pack_unpack _ table_chunks_ok) by (by apply (W 14)).
    change (packed table_chunks) with (Z.ones 14). rewrite land_ones_low by lia. by apply wrap_small.
Qed.

Lemma db_table_rights_witness :
  fix_rights_for_db (get_rights_for_db (SELECT_ACL .| EVENT_ACL .| SUPER_ACL))
  = SELECT_ACL .| EVENT_ACL.
Proof.
  exact (proj1 (db_table_rights_roundtrip (SELECT_ACL .| EVENT_ACL .| SUPER_ACL) 1 1
    ltac:(split; reflexivity || discriminate) ltac:(split; reflexivity || discriminate)
    ltac:(split; reflexivity || discriminate))).
Defined.

(** column and routine privileges survive the conversion to the compact form
    and back; column privileges use the four low bits, one per member of the
    SET column, but SHOW CREATE ROUTINE of a routine goes to bit 4, outside the
    four members of [Proc_priv]. *)
Theorem column_procedure_rights_roundtrip (A B : Z)
    (HA : A = A .& COL_ACLS) (HA0 : 0 <= A) (HB : in_u 64 B) :
  fix_rights_for_column (get_rights_for_column A) = A /\
  in_u 4 (get_rights_for_column A) /\
  fix_rights_for_procedure (get_rights_for_procedure B) = B .& PROC_ACLS /\
  (Z.testbit B 39 = true <-> 2 ^ 4 <= get_rights_for_procedure B).
Proof.
  assert (H4 : in_u 4 (get_rights_for_column A)).
  { rewrite get_column_pack by done. apply pack_bound; [exact column_chunks_ok|lia|split; reflexivity || discriminate]. }
  split; [|split; [done|split]].
  - rewrite fix_column_unpack by exact H4. rewrite get_column_pack by done.
    rewrite (unpack_pack _ column_chunks_ok). by symmetry.
  - rewrite fix_procedure_unpack, get_procedure_pack, (unpack_pack _ procedure_chunks_ok).
    change (spread procedure_chunks) with PROC_ACLS. done.
  - assert (H5 : in_u 5 (get_rights_for_procedure B)).
    { rewrite get_procedure_pack.
      apply pack_bound; [exact procedure_chunks_ok|lia|split; reflexivity || discriminate]. }
    rewrite <- procedure_bit4, Z.testbit_true by lia. unfold in_u in H5. dlia.
Qed.

Lemma column_procedure_rights_witness :
  fix_rights_for_column (get_rights_for_column (SELECT_ACL .| REFERENCES_ACL))
  = SELECT_ACL .| REFERENCES_ACL /\
  2 ^ 4 <= get_rights_for_procedure SHOW_CREATE_ROUTINE_ACL.
Proof.
  destruct (column_procedure_rights_roundtrip (SELECT_ACL .| REFERENCES_ACL)
    SHOW_CREATE_ROUTINE_ACL eq_refl ltac:(discriminate) ltac:(split; reflexivity || discriminate))
    as (H1 & _ & _ & H2 & _).
  exact (conj H1 (H2 eq_refl)).
Defined.

(** the levels are nested (column below table, table and routine below
    database, database below global), the global level has every known
    privilege and the versions' masks are nested; every statement, command or
    variable requires a non-empty set of known privileges, and none of those
    but LOCK TABLES can be granted at the database level: the rest are SUPER,
    REPLICATION SLAVE, PROCESS or privileges split off from SUPER. *)
Theorem privilege_levels_nested :
  COL_ACLS .& TABLE_ACLS = COL_ACLS /\ TABLE_ACLS .& DB_ACLS = TABLE_ACLS /\
  PROC_ACLS .& DB_ACLS = PROC_ACLS /\ DB_ACLS .& GLOBAL_ACLS = DB_ACLS /\
  SHOW_CREATE_TABLE_ACLS .& TABLE_ACLS = SHOW_CREATE_TABLE_ACLS /\
  TMP_TABLE_ACLS .& TABLE_ACLS = TMP_TABLE_ACLS /\
  GLOBAL_ACLS = ALL_KNOWN_ACL /\ ALL_KNOWN_ACL = 2 ^ (PRIVILEGE_T_MAX_BIT + 1) - 1 /\
  ALL_KNOWN_ACL_100304 < ALL_KNOWN_ACL_100502 < ALL_KNOWN_ACL_100508 /\
  ALL_KNOWN_ACL_100508 < ALL_KNOWN_ACL_110300 /\
  Forall (fun p => p <> NO_ACL /\ p .& ALL_KNOWN_ACL = p) required_privileges /\
  Forall (fun p => p .& (SUPER_ACL .| REPL_SLAVE_ACL .| PROCESS_ACL .|
      ALLOWED_BY_SUPER_BEFORE_101100 .| ALLOWED_BY_SUPER_BEFORE_110000) = p)
    (tail required_privileges) /\
  Forall (fun p => p .& DB_ACLS = 0) (tail required_privileges).
Proof.
  do 10 (split; [vm_compute; auto|]).
  split; [|split]; apply (bool_decide_unpack _); vm_compute; exact I.
Qed.
