(* ===== verification/DateMode.v ===== *)
(** Date conversion and rounding modes: sql_basic_types.h.

    The three classes wrap one enumerated value, a set of flags, and differ by
    the flags they allow.  An enumeration has 32 bits; whether the compiler
    makes it [int] or [unsigned int], which C++ leaves open, is a parameter.
    [m_mode] is kept as its 32 bits, and its conversion to a wider integer
    extends the sign or does not.  A conversion to the enumeration keeps the low
    32 bits, as compilers do. *)
From S2P Require Import Prelude.
Open Scope Z_scope.
Open Scope cint_scope.

(** Whether the compiler represents the enumerations by [int], and whether
    DBUG_ASSERT is compiled in. *)
Class Build := { enum_signed : bool; asserts : bool }.

(** [m_mode] as an [ulonglong], and an [ulonglong] as a [value_t]. *)
Definition widen `{Build} (bits : Z) : Z := if enum_signed then u64 (s32 bits) else bits.
Definition narrow (x : Z) : Z := u32 x.

Module date_conv_mode_t.
Definition CONV_NONE : Z := 0.
Definition FUZZY_DATES : Z := 1.
Definition TIME_ONLY : Z := 4.
Definition INTERVAL_hhmmssff : Z := 8.
Definition INTERVAL_DAY : Z := 16.
Definition RANGE0_LAST : Z := INTERVAL_DAY.
Definition NO_ZERO_IN_DATE : Z := 1 .<< 23.
Definition NO_ZERO_DATE : Z := 1 .<< 24.
Definition INVALID_DATES : Z := 1 .<< 25.
Definition KNOWN_MODES : Z :=
  FUZZY_DATES .| TIME_ONLY .| INTERVAL_hhmmssff .| INTERVAL_DAY .| NO_ZERO_IN_DATE .| NO_ZERO_DATE
  .| INVALID_DATES.

Record t := mk { m_mode : Z }.
Section ops.
Context `{Build}.
Definition ctor (fuzzydate : Z) : t := mk (narrow fuzzydate).
Definition to_ulonglong (a : t) : Z := widen (m_mode a).
Definition to_bool (a : t) : bool := truth (m_mode a).
Definition op_not (a : t) : Z := widen (u32 (Z.lnot (m_mode a))).
Definition op_and (a other : t) : t := ctor (widen (m_mode a .& m_mode other)).
Definition op_and_ulonglong (a : t) (other : Z) : t := ctor (widen (m_mode a) .& other).
Definition op_or (a other : t) : t := ctor (widen (m_mode a .| m_mode other)).
Definition op_and_assign (a other : t) : t := mk (m_mode a .& m_mode other).
Definition op_or_assign (a other : t) : t := mk (m_mode a .| m_mode other).
End ops.
End date_conv_mode_t.

Module time_round_mode_t.
Definition FRAC_NONE : Z := 0.
Definition FRAC_TRUNCATE : Z := date_conv_mode_t.RANGE0_LAST .<< 1.
Definition FRAC_ROUND : Z := date_conv_mode_t.RANGE0_LAST .<< 2.
Definition KNOWN_MODES : Z := FRAC_TRUNCATE .| FRAC_ROUND.

Record t := mk { m_mode : Z }.
Section ops.
Context `{Build}.
(** [None] is a failed assertion. *)
Definition ctor (mode : Z) : option t :=
  if asserts && negb ((mode =? FRAC_NONE) || (mode =? FRAC_TRUNCATE) || (mode =? FRAC_ROUND))
  then None else Some (mk (narrow mode)).
Definition to_ulonglong (a : t) : Z := widen (m_mode a).
Definition mode (a : t) : Z := m_mode a.
Definition op_eq (a other : t) : bool := m_mode a =? m_mode other.
End ops.
End time_round_mode_t.

Module date_mode_t.
Definition CONV_NONE : Z := date_conv_mode_t.CONV_NONE.
Definition FUZZY_DATES : Z := date_conv_mode_t.FUZZY_DATES.
Definition TIME_ONLY : Z := date_conv_mode_t.TIME_ONLY.
Definition INTERVAL_hhmmssff : Z := date_conv_mode_t.INTERVAL_hhmmssff.
Definition INTERVAL_DAY : Z := date_conv_mode_t.INTERVAL_DAY.
Definition FRAC_TRUNCATE : Z := time_round_mode_t.FRAC_TRUNCATE.
Definition FRAC_ROUND : Z := time_round_mode_t.FRAC_ROUND.
Definition NO_ZERO_IN_DATE : Z := date_conv_mode_t.NO_ZERO_IN_DATE.
Definition NO_ZERO_DATE : Z := date_conv_mode_t.NO_ZERO_DATE.
Definition INVALID_DATES : Z := date_conv_mode_t.INVALID_DATES.

Record t := mk { m_mode : Z }.
Section ops.
Context `{Build}.
Definition ctor (fuzzydate : Z) : t := mk (narrow fuzzydate).
Definition to_ulonglong (a : t) : Z := widen (m_mode a).
Definition to_bool (a : t) : bool := truth (m_mode a).
Definition to_date_conv_mode (a : t) : date_conv_mode_t.t :=
  date_conv_mode_t.ctor (to_ulonglong a .& date_conv_mode_t.KNOWN_MODES).
Definition to_time_round_mode (a : t) : option time_round_mode_t.t :=
  time_round_mode_t.ctor (to_ulonglong a .& time_round_mode_t.KNOWN_MODES).
Definition op_not (a : t) : Z := widen (u32 (Z.lnot (m_mode a))).
Definition op_lnot (a : t) : bool := negb (truth (m_mode a)).
Definition op_and (a other : t) : t := ctor (widen (m_mode a .& m_mode other)).
Definition op_and_ulonglong (a : t) (other : Z) : t := ctor (widen (m_mode a) .& other).
Definition op_or (a other : t) : t := ctor (widen (m_mode a .| m_mode other)).
Definition op_and_assign (a other : t) : t := mk (m_mode a .& m_mode other).
Definition op_or_assign (a other : t) : t := mk (m_mode a .| m_mode other).
Definition op_or_assign_conv (a : t) (other : date_conv_mode_t.t) : t :=
  mk (narrow (widen (m_mode a) .| date_conv_mode_t.to_ulonglong other)).
End ops.
End date_mode_t.

(** ** Operators on two of the classes *)
Section mixtures.
Context `{Build}.
Definition or_mode_conv (a : date_mode_t.t) (b : date_conv_mode_t.t) : date_mode_t.t :=
  date_mode_t.ctor (date_mode_t.to_ulonglong a .| date_conv_mode_t.to_ulonglong b).
Definition or_conv_round (a : date_conv_mode_t.t) (b : time_round_mode_t.t) : date_mode_t.t :=
  date_mode_t.ctor (date_conv_mode_t.to_ulonglong a .| time_round_mode_t.to_ulonglong b).
Definition or_conv_mode (a : date_conv_mode_t.t) (b : date_mode_t.t) : date_mode_t.t :=
  date_mode_t.ctor (date_conv_mode_t.to_ulonglong a .| date_mode_t.to_ulonglong b).
Definition and_mode_conv (a : date_mode_t.t) (b : date_conv_mode_t.t) : date_conv_mode_t.t :=
  date_conv_mode_t.ctor (date_mode_t.to_ulonglong a .& date_conv_mode_t.to_ulonglong b).
Definition and_conv_mode (a : date_conv_mode_t.t) (b : date_mode_t.t) : date_conv_mode_t.t :=
  date_conv_mode_t.ctor (date_conv_mode_t.to_ulonglong a .& date_mode_t.to_ulonglong b).
Definition and_sql_mode_conv (a : Z) (b : date_conv_mode_t.t) : date_conv_mode_t.t :=
  date_conv_mode_t.ctor (a .& date_conv_mode_t.to_ulonglong b).
End mixtures.

(** ** Constants *)
Definition TIME_CONV_NONE := date_conv_mode_t.ctor date_conv_mode_t.CONV_NONE.
Definition TIME_FUZZY_DATES := date_conv_mode_t.ctor date_conv_mode_t.FUZZY_DATES.
Definition TIME_TIME_ONLY := date_conv_mode_t.ctor date_conv_mode_t.TIME_ONLY.
Definition TIME_INTERVAL_hhmmssff := date_conv_mode_t.ctor date_conv_mode_t.INTERVAL_hhmmssff.
Definition TIME_INTERVAL_DAY := date_conv_mode_t.ctor date_conv_mode_t.INTERVAL_DAY.
Definition TIME_NO_ZERO_IN_DATE := date_conv_mode_t.ctor date_conv_mode_t.NO_ZERO_IN_DATE.
Definition TIME_NO_ZERO_DATE := date_conv_mode_t.ctor date_conv_mode_t.NO_ZERO_DATE.
Definition TIME_INVALID_DATES := date_conv_mode_t.ctor date_conv_mode_t.INVALID_DATES.
Definition TIME_NO_ZEROS :=
  date_conv_mode_t.ctor (date_conv_mode_t.NO_ZERO_DATE .| date_conv_mode_t.NO_ZERO_IN_DATE).
Definition TIME_MODE_FOR_XXX_TO_DATE :=
  date_conv_mode_t.ctor (date_mode_t.NO_ZERO_IN_DATE .| date_mode_t.NO_ZERO_DATE .| date_mode_t.INVALID_DATES).
Section rounding.
Context `{Build}.
Definition TIME_FRAC_NONE := time_round_mode_t.ctor time_round_mode_t.FRAC_NONE.
Definition TIME_FRAC_TRUNCATE := time_round_mode_t.ctor time_round_mode_t.FRAC_TRUNCATE.
Definition TIME_FRAC_ROUND := time_round_mode_t.ctor time_round_mode_t.FRAC_ROUND.
End rounding.

(** * Properties *)

(** A mode as the compiler stores it. *)
Definition conv_ok (a : date_conv_mode_t.t) : Prop := in_u 32 (date_conv_mode_t.m_mode a).
Definition mode_ok (a : date_mode_t.t) : Prop := in_u 32 (date_mode_t.m_mode a).

(** Only flags that the class declares. *)
Definition conv_known (a : date_conv_mode_t.t) : Prop :=
  date_conv_mode_t.m_mode a = date_conv_mode_t.m_mode a .& date_conv_mode_t.KNOWN_MODES.

Section properties.
Context `{Build}.

Lemma narrow_or x y : narrow (x .| y) = narrow x .| narrow y.
Proof.
  unfold narrow. apply Z.bits_inj'. intros i Hi. rewrite Z.lor_spec, !testbit_wrap, Z.lor_spec by lia. btauto.
Qed.
Lemma narrow_and x y : narrow (x .& y) = narrow x .& narrow y.
Proof.
  unfold narrow. apply Z.bits_inj'. intros i Hi. rewrite Z.land_spec, !testbit_wrap, Z.land_spec by lia. btauto.
Qed.
Lemma narrow_widen x : narrow (widen x) = narrow x.
Proof.
  unfold narrow, widen. destruct enum_signed; [|done]. rewrite wrap_wrap_le by lia. by apply wrap_swrap.
Qed.
Lemma narrow_idem x : narrow (narrow x) = narrow x.
Proof. apply wrap_wrap. Qed.
Lemma narrow_ok x : in_u 32 x -> narrow x = x.
Proof. apply wrap_small. Qed.
Lemma widen_known x k : in_u 32 k -> widen x .& k = narrow x .& k.
Proof.
  intros Hk. rewrite <- (narrow_widen x). unfold narrow. apply Z.bits_inj'. intros i Hi.
  rewrite !Z.land_spec, testbit_wrap by lia. destruct (Z.ltb_spec i 32); [done|].
  by rewrite (testbit_high 32 k), !andb_false_r by (auto || lia).
Qed.

(** The operators of the three classes, and those on two of them, are union and
    intersection of the flags, and an assignment gives what the operator gives. *)
Theorem mode_operators_are_set_operations (a a' : date_conv_mode_t.t) (b b' : date_mode_t.t) (x : Z) :
  conv_ok a -> conv_ok a' -> mode_ok b -> mode_ok b' ->
  let A := date_conv_mode_t.m_mode a in let A' := date_conv_mode_t.m_mode a' in
  let B := date_mode_t.m_mode b in let B' := date_mode_t.m_mode b' in
  (date_conv_mode_t.op_and a a' = date_conv_mode_t.mk (A .& A')
   /\ date_conv_mode_t.op_and_assign a a' = date_conv_mode_t.mk (A .& A')
   /\ date_conv_mode_t.op_or a a' = date_conv_mode_t.mk (A .| A')
   /\ date_conv_mode_t.op_or_assign a a' = date_conv_mode_t.mk (A .| A')
   /\ date_conv_mode_t.op_and_ulonglong a x = date_conv_mode_t.mk (A .& u32 x))
  /\ (date_mode_t.op_and b b' = date_mode_t.mk (B .& B')
   /\ date_mode_t.op_and_assign b b' = date_mode_t.mk (B .& B')
   /\ date_mode_t.op_or b b' = date_mode_t.mk (B .| B')
   /\ date_mode_t.op_or_assign b b' = date_mode_t.mk (B .| B')
   /\ date_mode_t.op_and_ulonglong b x = date_mode_t.mk (B .& u32 x))
  /\ (or_mode_conv b a = date_mode_t.mk (B .| A) /\ or_conv_mode a b = date_mode_t.mk (A .| B)
   /\ date_mode_t.op_or_assign_conv b a = date_mode_t.mk (B .| A)
   /\ and_mode_conv b a = date_conv_mode_t.mk (B .& A) /\ and_conv_mode a b = date_conv_mode_t.mk (A .& B)
   /\ and_sql_mode_conv x a = date_conv_mode_t.mk (u32 x .& A)).
Proof.
  unfold conv_ok, mode_ok. intros Ha Ha' Hb Hb'. cbv zeta.
  repeat split; cbv -[narrow widen Z.lor Z.land date_conv_mode_t.m_mode date_mode_t.m_mode wrap]; f_equal;
    rewrite ?narrow_widen, ?narrow_or, ?narrow_and, ?narrow_widen, ?(narrow_ok _ Ha), ?(narrow_ok _ Ha'),
      ?(narrow_ok _ Hb), ?(narrow_ok _ Hb'); done.
Qed.

(** Removing flags with the complement works whichever type the compiler chose. *)
Theorem complement_removes_flags (a b : date_conv_mode_t.t) (c d : date_mode_t.t) :
  conv_ok a -> mode_ok c ->
  date_conv_mode_t.op_and_ulonglong a (date_conv_mode_t.op_not b)
    = date_conv_mode_t.mk (Z.ldiff (date_conv_mode_t.m_mode a) (date_conv_mode_t.m_mode b))
  /\ date_mode_t.op_and_ulonglong c (date_mode_t.op_not d)
    = date_mode_t.mk (Z.ldiff (date_mode_t.m_mode c) (date_mode_t.m_mode d)).
Proof.
  unfold conv_ok, mode_ok. intros Ha Hc.
  assert (E : forall x y, in_u 32 x -> narrow (widen x .& widen (u32 (Z.lnot y))) = Z.ldiff x y).
  { intros x y Hx. rewrite narrow_and, !narrow_widen, (narrow_ok x Hx). unfold narrow. rewrite wrap_wrap.
    apply Z.bits_inj'. intros i Hi. rewrite Z.land_spec, Z.ldiff_spec, testbit_wrap, Z.lnot_spec by lia.
    destruct (Z.ltb_spec i 32); [done|]. by rewrite (testbit_high 32 x) by (auto || lia). }
  split; cbv -[narrow widen Z.lnot Z.land wrap Z.ldiff date_conv_mode_t.m_mode date_mode_t.m_mode]; f_equal; by apply E.
Qed.

(** The complement of a mode applied to the 64 bits of an sql_mode_t also clears
    the upper half where the enumeration is unsigned. *)
Theorem complement_on_sql_mode (x : Z) (b : date_conv_mode_t.t) :
  in_u 64 x -> in_u 31 (date_conv_mode_t.m_mode b) ->
  x .& date_conv_mode_t.op_not b
    = Z.ldiff (if enum_signed then x else u32 x) (date_conv_mode_t.m_mode b).
Proof.
  intros Hx Hb. unfold date_conv_mode_t.op_not, widen. set (y := date_conv_mode_t.m_mode b) in *.
  unfold in_u in Hb. assert (Hn : in_s 32 (Z.lnot y)) by (unfold in_s, Z.lnot; lia).
  rewrite swrap_wrap, (swrap_small 32 _ ltac:(lia) Hn) by lia.
  apply Z.bits_inj'. intros i Hi. destruct enum_signed;
    rewrite Z.land_spec, Z.ldiff_spec, !testbit_wrap, Z.lnot_spec by lia; [|btauto].
  destruct (Z.ltb_spec i 64); [done|]. by rewrite (testbit_high 64 x) by (auto || lia).
Qed.

Lemma land_pow2 x k : 0 <= k -> x .& 2 ^ k = if Z.testbit x k then 2 ^ k else 0.
Proof.
  intros Hk. apply Z.bits_inj'. intros i Hi. rewrite Z.land_spec, testbit_pow2 by lia.
  destruct (Z.eqb_spec i k) as [->|]; destruct (Z.testbit x k) eqn:E;
    rewrite ?E, ?testbit_pow2, ?Z.bits_0, ?Z.eqb_refl, ?andb_false_r by lia; try done.
  symmetry. by apply Z.eqb_neq.
Qed.
Lemma round_flags x : x .& time_round_mode_t.KNOWN_MODES
  = (if Z.testbit x 5 then 32 else 0) .| (if Z.testbit x 6 then 64 else 0).
Proof.
  change time_round_mode_t.KNOWN_MODES with (2 ^ 5 .| 2 ^ 6). by rewrite Z.land_lor_distr_r, !land_pow2 by lia.
Qed.
Lemma known_fits : in_u 32 date_conv_mode_t.KNOWN_MODES /\ in_u 32 time_round_mode_t.KNOWN_MODES.
Proof. by vm_compute. Qed.
Lemma known_disjoint : date_conv_mode_t.KNOWN_MODES .& time_round_mode_t.KNOWN_MODES = 0.
Proof. reflexivity. Qed.

(** What the constructor of rounding modes accepts. *)
Definition rounding (mode : Z) : Prop :=
  mode = time_round_mode_t.FRAC_NONE \/ mode = time_round_mode_t.FRAC_TRUNCATE
  \/ mode = time_round_mode_t.FRAC_ROUND.
Lemma rounding_ctor mode : rounding mode -> time_round_mode_t.ctor mode = Some (time_round_mode_t.mk mode).
Proof.
  intros R. unfold time_round_mode_t.ctor. destruct R as [->|[->| ->]]; by destruct asserts.
Qed.
Lemma rounding_flags mode : rounding mode ->
  in_u 32 mode /\ mode .& date_conv_mode_t.KNOWN_MODES = 0 /\ mode .& time_round_mode_t.KNOWN_MODES = mode.
Proof. intros [->|[->| ->]]; by vm_compute. Qed.

(** Joining conversion flags and a rounding mode and taking the mixture apart
    gives both back. *)
Theorem mixture_roundtrip (a : date_conv_mode_t.t) (mode : Z) (r : time_round_mode_t.t) :
  conv_ok a -> conv_known a -> rounding mode -> time_round_mode_t.ctor mode = Some r ->
  date_mode_t.to_date_conv_mode (or_conv_round a r) = a
  /\ date_mode_t.to_time_round_mode (or_conv_round a r) = Some r.
Proof.
  intros Ha Hk Hm Er. rewrite rounding_ctor in Er by done. injection Er as <-.
  destruct (rounding_flags mode Hm) as (Hr & Ec & Et), known_fits as [Kc Kt], a as [x].
  unfold conv_ok, conv_known in *. cbn [date_conv_mode_t.m_mode] in *.
  unfold date_mode_t.to_date_conv_mode, date_mode_t.to_time_round_mode, or_conv_round,
    date_mode_t.to_ulonglong, date_mode_t.ctor, date_conv_mode_t.to_ulonglong, time_round_mode_t.to_ulonglong.
  cbn [date_conv_mode_t.m_mode time_round_mode_t.m_mode date_mode_t.m_mode].
  rewrite !widen_known, narrow_idem, narrow_or, !narrow_widen, (narrow_ok x), (narrow_ok mode),
    !Z.land_lor_distr_l, <- Hk, Ec, Et, Z.lor_0_r by done.
  split; [unfold date_conv_mode_t.ctor; by rewrite narrow_ok|].
  by rewrite Hk, <- Z.land_assoc, known_disjoint, Z.land_0_r, Z.lor_0_l, rounding_ctor.
Qed.

(** In a build with assertions, taking the rounding mode out fails exactly when
    both of its flags are set. *)
Theorem both_rounding_flags_fail (b : date_mode_t.t) :
  mode_ok b ->
  date_mode_t.to_time_round_mode b = None <->
  asserts = true /\ Z.testbit (date_mode_t.m_mode b) 5 = true /\ Z.testbit (date_mode_t.m_mode b) 6 = true.
Proof.
  intros Hb. unfold date_mode_t.to_time_round_mode, date_mode_t.to_ulonglong.
  rewrite widen_known, narrow_ok, round_flags by (done || apply known_fits).
  unfold time_round_mode_t.ctor. by destruct asserts, (Z.testbit _ 5), (Z.testbit _ 6); cbn; intuition.
Qed.
End properties.

(** The constants hold declared flags only, and those of the rounding modes pass
    the assertion. *)
Lemma time_constants_known `{Build} :
  Forall conv_known [TIME_CONV_NONE; TIME_FUZZY_DATES; TIME_TIME_ONLY; TIME_INTERVAL_hhmmssff;
    TIME_INTERVAL_DAY; TIME_NO_ZERO_IN_DATE; TIME_NO_ZERO_DATE; TIME_INVALID_DATES; TIME_NO_ZEROS;
    TIME_MODE_FOR_XXX_TO_DATE]
  /\ is_Some TIME_FRAC_NONE /\ is_Some TIME_FRAC_TRUNCATE /\ is_Some TIME_FRAC_ROUND.
Proof.
  split; [repeat constructor|]. unfold TIME_FRAC_NONE, TIME_FRAC_TRUNCATE, TIME_FRAC_ROUND.
  rewrite !rounding_ctor by (unfold rounding; auto). by eauto.
Qed.

(** The build of the bundled server: enumerations are [int], no assertions. *)
Definition windows : Build := {| enum_signed := true; asserts := false |}.
Lemma no_zeros_rounded :
  @date_mode_t.to_ulonglong windows
    (@or_conv_round windows TIME_NO_ZEROS (time_round_mode_t.mk time_round_mode_t.FRAC_ROUND))
  = 2 ^ 23 + 2 ^ 24 + 64.
Proof. reflexivity. Qed.
