(* ===== verification/Memory.v ===== *)
(** Memory for the pointer structures.

    An object has an identity (a number, different for different objects) and
    fields; a location is an object and a field, and holds NULL, an integer or
    a pointer to a location.  A pointer to a structure is the location of its
    first field, [&p->f] is a location of the same object.  Code that reads and
    writes memory is a computation in the monad [M]; reading or writing a
    location that is not allocated, NULL included, is undefined ([None]).

    [new] obtains objects from an [Allocator], which may fail (NULL); all that
    is used of it is that an object it returns is unused. *)
From S2P Require Import Prelude.
Open Scope Z_scope.

Abbreviation loc := (nat * nat)%type.

Inductive val :=
| Vnull
| Vint (z : Z)
| Vptr (l : loc).

#[export] Instance val_eq_dec : EqDecision val.
Proof. solve_decision. Defined.

Abbreviation mem := (gmap loc val).

Definition M (A : Type) : Type := mem -> option (A * mem).

Definition ret {A} (x : A) : M A := fun m => Some (x, m).
Definition bind {A B} (c : M A) (f : A -> M B) : M B := fun m =>
  match c m with Some (x, m') => f x m' | None => None end.

Declare Scope mem_scope.
Delimit Scope mem_scope with mem.
Notation "'let*' x := c 'in' k" := (bind c (fun x => k))
  (at level 200, x name, c at level 100, k at level 200) : mem_scope.
Notation "c ;;; k" := (bind c (fun _ => k))
  (at level 100, k at level 200, right associativity) : mem_scope.
Open Scope mem_scope.

Definition undefined {A} : M A := fun _ => None.

Definition load (l : loc) : M val := fun m =>
  match m !! l with Some v => Some (v, m) | None => None end.

Definition store (l : loc) (v : val) : M unit := fun m =>
  match m !! l with Some _ => Some (tt, <[l := v]> m) | None => None end.

(** Use a value as a pointer, or as an integer. *)
Definition as_ptr (v : val) : M loc :=
  match v with Vptr l => ret l | _ => undefined end.
Definition as_int (v : val) : M Z :=
  match v with Vint z => ret z | _ => undefined end.

Definition load_ptr (l : loc) : M loc := let* v := load l in as_ptr v.
Definition load_int (l : loc) : M Z := let* v := load l in as_int v.

(** A pointer used as a condition. *)
Definition is_ptr (v : val) : bool := match v with Vnull => false | _ => true end.

(** ** Allocation *)

Class Allocator := alloc : mem -> option nat.
Class LawfulAllocator `{Allocator} : Prop :=
  alloc_fresh m o : alloc m = Some o -> forall f, m !! (o, f) = None.

Fixpoint write_fields (o f : nat) (vs : list val) (m : mem) : mem :=
  match vs with
  | [] => m
  | v :: vs => <[(o, f) := v]> (write_fields o (S f) vs m)
  end.

(** [new] of a structure whose constructor gives its fields the values [vs]. *)
Definition new `{Allocator} (vs : list val) : M val := fun m =>
  match alloc m with
  | None => Some (Vnull, m)
  | Some o => Some (Vptr (o, 0%nat), write_fields o 0 vs m)
  end.

(** The allocator that takes the first unused number and fails when [limit]
    locations are in use. *)
Definition objects (m : mem) : gset nat := set_map fst (dom m).
Definition bump_alloc (limit : nat) : Allocator := fun m =>
  if (size m <? limit)%nat then Some (fresh (objects m)) else None.

Lemma bump_lawful limit : @LawfulAllocator (bump_alloc limit).
Proof.
  intros m o. unfold alloc, bump_alloc. destruct (_ <? _)%nat; [|done]. intros [= <-] f.
  apply eq_None_not_Some. intros H. apply (is_fresh (objects m)).
  unfold objects at 2. apply elem_of_map. exists (fresh (objects m), f). split; [done|]. by apply elem_of_dom.
Qed.

(** ** Chains of nodes

    Nodes have their [next] pointer in field 0 and their [info] in field 1.
    [cseg m c ns q]: the cell [c] holds a pointer to the first of the nodes
    [ns] (each with its info), the [next] cell of each holds a pointer to the
    one after, and the last cell holds a pointer to object [q]. *)
Fixpoint cseg (m : mem) (c : loc) (ns : list (nat * val)) (q : nat) : Prop :=
  match ns with
  | [] => m !! c = Some (Vptr (q, 0%nat))
  | (n, v) :: ns =>
      m !! c = Some (Vptr (n, 0%nat)) /\ m !! (n, 1%nat) = Some v /\ cseg m (n, 0%nat) ns q
  end.

(** The cell that holds the pointer past the last node. *)
Fixpoint end_cell (c : loc) (ns : list (nat * val)) : loc :=
  match ns with
  | [] => c
  | (n, _) :: ns => end_cell (n, 0%nat) ns
  end.

Lemma end_cell_app c xs ys : end_cell c (xs ++ ys) = end_cell (end_cell c xs) ys.
Proof. revert c. induction xs as [|[n v] xs IH]; intros c; cbn; auto. Qed.

Lemma end_cell_in c ns : end_cell c ns = c \/ exists n, n ∈ ns.*1 /\ end_cell c ns = (n, 0%nat).
Proof.
  revert c. induction ns as [|[n v] ns IH]; intros c; [by left|]. right. cbn.
  destruct (IH (n, 0%nat)) as [->|(n' & Hn & ->)]; [exists n|exists n']; split; set_solver.
Qed.

Lemma end_cell_1 c ns : (end_cell c ns).1 ∈ c.1 :: ns.*1.
Proof.
  destruct (end_cell_in c ns) as [->|(n & Hn & ->)]; set_solver.
Qed.

Lemma cseg_end m c ns q : cseg m c ns q -> m !! end_cell c ns = Some (Vptr (q, 0%nat)).
Proof.
  revert c. induction ns as [|[n v] ns IH]; intros c; cbn; [done|]. intros (_ & _ & H). auto.
Qed.

Lemma cseg_app m c xs ys q :
  cseg m c (xs ++ ys) q <-> exists r, cseg m c xs r /\ cseg m (end_cell c xs) ys q.
Proof.
  revert c. induction xs as [|[n v] xs IH]; intros c; cbn.
  - split.
    + intros H. destruct ys as [|[n v] ys]; cbn in *; [eauto|]. exists n. tauto.
    + by intros (r & _ & H).
  - rewrite IH. naive_solver.
Qed.

Lemma cseg_frame m m' c ns q :
  m' !! c = m !! c ->
  (forall n f, n ∈ ns.*1 -> m' !! (n, f) = m !! (n, f)) ->
  cseg m c ns q -> cseg m' c ns q.
Proof.
  revert c. induction ns as [|[n v] ns IH]; intros c Hc Hm; cbn; [by rewrite Hc|].
  intros (H1 & H2 & H3). rewrite Hc, Hm by set_solver. split; [done|]. split; [done|].
  apply IH; [apply Hm; set_solver|intros; apply Hm; set_solver|done].
Qed.

Lemma cseg_insert_ne m c ns q l v :
  l <> c -> l.1 ∉ ns.*1 -> cseg m c ns q -> cseg (<[l := v]> m) c ns q.
Proof.
  intros Hc Hl H. apply (cseg_frame m); [by rewrite lookup_insert_ne| |done].
  intros n f Hn. apply lookup_insert_ne. intros ->. done.
Qed.

(** Writing a pointer to [r] into the end cell moves the end to [r]. *)
Lemma cseg_redirect m c ns q r :
  cseg m c ns q -> c.1 ∉ ns.*1 -> NoDup ns.*1 ->
  cseg (<[end_cell c ns := Vptr (r, 0%nat)]> m) c ns r.
Proof.
  revert c. induction ns as [|[n v] ns IH]; intros c; cbn; [intros; apply lookup_insert_eq|].
  intros (H1 & H2 & H3) Hc Hnd. inversion_clear Hnd as [|? ? Hn Hnd'].
  pose proof (end_cell_1 (n, 0%nat) ns) as He. cbn in He.
  assert (end_cell (n, 0%nat) ns <> c) by (intros <-; set_solver).
  assert (end_cell (n, 0%nat) ns <> (n, 1%nat)).
  { destruct (end_cell_in (n, 0%nat) ns) as [->|(n' & Hn' & ->)]; [done|]. congruence. }
  rewrite !lookup_insert_ne by done. split; [done|]. split; [done|]. by apply IH.
Qed.

Lemma cseg_cons m c n v ns q :
  m !! c = Some (Vptr (n, 0%nat)) -> m !! (n, 1%nat) = Some v -> cseg m (n, 0%nat) ns q ->
  cseg m c ((n, v) :: ns) q.
Proof. by intros. Qed.

Lemma cseg_head m c ns q :
  cseg m c ns q -> m !! c = Some (Vptr (match ns with [] => q | (n, _) :: _ => n end, 0%nat)).
Proof. destruct ns as [|[n v] ns]; cbn; tauto. Qed.

Lemma end_cell_2 c ns : c.2 = 0%nat -> (end_cell c ns).2 = 0%nat.
Proof. intros Hc. by destruct (end_cell_in c ns) as [->|(n & Hn & ->)]. Qed.

(** ** Running computations

    One equation per primitive; [mstep] applies the next one, finding the
    contents of the location read or written. *)
Section Run.
Context {B : Type}.
Implicit Types (m : mem) (l p : loc) (v : val).

Lemma bind_ret {A} (x : A) (k : A -> M B) m : bind (ret x) k m = k x m.
Proof. done. Qed.
Lemma bind_bind {A C} (c : M A) (f : A -> M C) (k : C -> M B) m :
  bind (bind c f) k m = bind c (fun x => bind (f x) k) m.
Proof. unfold bind. by destruct (c m) as [[? ?]|]. Qed.
Lemma bind_load l v (k : val -> M B) m : m !! l = Some v -> bind (load l) k m = k v m.
Proof. intros E. unfold bind, load. by rewrite E. Qed.
Lemma bind_load_ptr l p (k : loc -> M B) m :
  m !! l = Some (Vptr p) -> bind (load_ptr l) k m = k p m.
Proof. intros E. unfold load_ptr. by rewrite bind_bind, (bind_load _ _ _ _ E). Qed.
Lemma bind_load_int l z (k : Z -> M B) m :
  m !! l = Some (Vint z) -> bind (load_int l) k m = k z m.
Proof. intros E. unfold load_int. by rewrite bind_bind, (bind_load _ _ _ _ E). Qed.
Lemma bind_store l v w (k : unit -> M B) m :
  m !! l = Some w -> bind (store l v) k m = k tt (<[l := v]> m).
Proof. intros E. unfold bind, store. by rewrite E. Qed.
Lemma bind_as_ptr p (k : loc -> M B) m : bind (as_ptr (Vptr p)) k m = k p m.
Proof. done. Qed.
Lemma bind_new `{Allocator} vs o (k : val -> M B) m :
  alloc m = Some o -> bind (new vs) k m = k (Vptr (o, 0%nat)) (write_fields o 0 vs m).
Proof. intros E. unfold bind, new. by rewrite E. Qed.
Lemma bind_new_fail `{Allocator} vs (k : val -> M B) m :
  alloc m = None -> bind (new vs) k m = k Vnull m.
Proof. intros E. unfold bind, new. by rewrite E. Qed.
End Run.

Lemma run_load (l : loc) (v : val) (m : mem) : m !! l = Some v -> load l m = Some (v, m).
Proof. intros E. unfold load. by rewrite E. Qed.
Lemma run_store (l : loc) (v w : val) (m : mem) : m !! l = Some w -> store l v m = Some (tt, <[l := v]> m).
Proof. intros E. unfold store. by rewrite E. Qed.
Lemma run_bind {A B} (c : M A) (k : A -> M B) m x m' :
  c m = Some (x, m') -> bind c k m = k x m'.
Proof. intros E. unfold bind. by rewrite E. Qed.

(** Membership in explicit lists of objects, from the hypotheses about
    objects alone. *)
Ltac clear_mem :=
  repeat match goal with
  | H : _ !! _ = _ |- _ => clear H
  | H : cseg _ _ _ _ |- _ => clear H
  | H : (_ < _)%Z |- _ => clear H
  | H : @eq Z _ _ |- _ => clear H
  | H : @eq (nat * nat) _ _ |- _ => clear H
  | H : @eq val _ _ |- _ => clear H
  | H : forall _, _ |- _ => clear H
  end.

Ltac mem_solve :=
  clear_mem; rewrite ?fmap_app, ?fmap_cons in *; cbn [fst snd] in *;
  rewrite ?not_elem_of_app, ?not_elem_of_cons, ?elem_of_cons, ?elem_of_app in *;
  solve [ tauto | intuition congruence ].

(** Two locations differ by their field or by their object. *)
Ltac loc_ne :=
  let E := fresh "E" in intros E;
  first
  [ congruence
  | apply (f_equal snd) in E; cbn in E; congruence
  | apply (f_equal fst) in E; cbn in E; solve [congruence | rewrite E in *; mem_solve | rewrite <- E in *; mem_solve] ].

(** Contents of a location after some writes. *)
Ltac lk :=
  repeat first
  [ eassumption
  | match goal with |- ?x = ?x => reflexivity end
  | rewrite lookup_insert_eq; reflexivity
  | rewrite lookup_insert_ne by loc_ne ].

Ltac mstep :=
  cbn beta iota zeta;
  lazymatch goal with
  | |- context [bind (ret _) _ _] => rewrite bind_ret
  | |- context [bind (bind _ _) _ _] => rewrite bind_bind
  | |- context [bind (as_ptr (Vptr _)) _ _] => rewrite bind_as_ptr
  | |- context [bind (load_ptr _) _ _] => erewrite bind_load_ptr by lk
  | |- context [bind (load_int _) _ _] => erewrite bind_load_int by lk
  | |- context [bind (load _) _ _] => erewrite bind_load by lk
  | |- context [bind (store _ _) _ _] => erewrite bind_store by lk
  | |- context [load _ _] => erewrite run_load by lk
  | |- context [store _ _ _] => erewrite run_store by lk
  end.

Ltac mrun := repeat mstep; cbn beta iota zeta.
