(* ===== verification/SqlList.v ===== *)
(** The lists of sql_list.h.

    - [Module base_list]: the singly linked list of [void*] with a sentinel
      node ([end_of_list]) and a pointer to the last [next] cell;
      [Module base_list_iterator]: its iterator, which can replace, remove and
      insert; [List<T>] and [List_iterator<T>] only cast to and from [T*];
    - [bubble_sort] on such a list;
    - [Module SQL_I_List]: the intrusive list with an indirect end pointer.

    A list object has fields [first] (0), [last] (1) and [elements] (2); a
    [list_node] has [next] (0) and [info] (1).  Both kinds of [push_back] and
    [push_front] (on the thread's and on a given memory root) are one function
    of the allocator. *)
From S2P Require Import Prelude Memory.
Open Scope Z_scope.
Open Scope mem_scope.

(** The global sentinel. *)
Definition end_of_list : nat := 0.
Definition eol : loc := (end_of_list, 0%nat).

Definition node_next (n : loc) : loc := n.
Definition node_info (n : loc) : loc := (n.1, S n.2).

(** [operator delete] of [Sql_alloc] does not release memory. *)
Definition sql_delete (n : loc) : M unit := ret tt.

Definition list_node_new `{Allocator} (info : val) (next : val) : M val := new [next; info].

(** The constructor of [end_of_list]. *)
Definition list_node_end : list val := [Vptr eol; Vnull].

Module base_list.
Section base_list.
Context `{Allocator}.

Definition first (L : nat) : loc := (L, 0%nat).
Definition last (L : nat) : loc := (L, 1%nat).
Definition elements (L : nat) : loc := (L, 2%nat).

Definition op_eq (L rhs : nat) : M bool :=
  let* e1 := load_int (elements L) in let* e2 := load_int (elements rhs) in
  let* f1 := load (first L) in let* f2 := load (first rhs) in
  let* l1 := load (last L) in let* l2 := load (last rhs) in
  ret ((e1 =? e2) && bool_decide (f1 = f2) && bool_decide (l1 = l2)).

Definition assign (L rhs : nat) : M unit :=
  let* e := load_int (elements rhs) in store (elements L) (Vint e) ;;;
  let* f := load (first rhs) in store (first L) f ;;;
  let* e := load_int (elements L) in
  let* l := (if truth e then load (last rhs) else ret (Vptr (first L))) in
  store (last L) l.

Definition empty (L : nat) : M unit :=
  store (elements L) (Vint 0) ;;;
  store (first L) (Vptr eol) ;;;
  store (last L) (Vptr (first L)).

Definition is_empty (L : nat) : M bool :=
  let* f := load (first L) in ret (bool_decide (f = Vptr eol)).

Definition incr_elements (L : nat) (d : Z) : M unit :=
  let* e := load_int (elements L) in store (elements L) (Vint (u32 (e + d))).

Definition push_back (L : nat) (info : val) : M bool :=
  let* l := load_ptr (last L) in
  let* node := list_node_new info (Vptr eol) in
  store l node ;;;
  if is_ptr node then
    let* n := load_ptr l in
    store (last L) (Vptr (node_next n)) ;;;
    incr_elements L 1 ;;;
    ret false
  else ret true.

Definition push_front_impl (L : nat) (node : val) : M bool :=
  match node with
  | Vptr n =>
      let* l := load (last L) in
      (if bool_decide (l = Vptr (first L)) then store (last L) (Vptr (node_next n)) else ret tt) ;;;
      store (first L) node ;;;
      incr_elements L 1 ;;;
      ret false
  | _ => ret true
  end.

Definition push_front (L : nat) (info : val) : M bool :=
  let* f := load (first L) in
  let* node := list_node_new info f in
  push_front_impl L node.

(** [remove (list_node **prev)]. *)
Definition remove (L : nat) (prev : loc) : M unit :=
  let* p := load_ptr prev in
  let* node := load (node_next p) in
  let* e := load_int (elements L) in
  store (elements L) (Vint (u32 (e - 1))) ;;;
  let* e := load_int (elements L) in
  (if negb (truth e) then store (last L) (Vptr (first L))
   else
     let* l := load (last L) in
     let* p := load_ptr prev in
     if bool_decide (l = Vptr (node_next p)) then store (last L) (Vptr prev) else ret tt) ;;;
  let* p := load_ptr prev in
  sql_delete p ;;;
  store prev node.

Definition append (L list : nat) : M unit :=
  let* b := is_empty list in
  if b then ret tt
  else
    let* b := is_empty L in
    if b then assign L list
    else
      let* l := load_ptr (last L) in let* f := load (first list) in store l f ;;;
      let* l := load (last list) in store (last L) l ;;;
      let* e := load_int (elements list) in incr_elements L e.

Definition pop (L : nat) : M val :=
  let* f := load (first L) in
  if bool_decide (f = Vptr eol) then ret Vnull
  else
    let* tmp := load_ptr (first L) in
    let* nx := load (node_next tmp) in
    store (first L) nx ;;;
    let* e := load_int (elements L) in
    store (elements L) (Vint (u32 (e - 1))) ;;;
    let* e := load_int (elements L) in
    (if negb (truth e) then store (last L) (Vptr (first L)) else ret tt) ;;;
    load (node_info tmp).

(** The loop of [disjoin]; each round moves to the next node, so the number of
    nodes is enough fuel. *)
Fixpoint disjoin_loop (fuel : nat) (L : nat) (prev node list_first : loc) : M unit :=
  if bool_decide (node <> eol) && bool_decide (node <> list_first) then
    match fuel with
    | O => undefined
    | S fuel =>
        let prev := node_next node in
        let* node := load_ptr (node_next node) in
        incr_elements L 1 ;;;
        if bool_decide (node = eol) then ret tt
        else disjoin_loop fuel L prev node list_first
    end
  else
    store prev (Vptr eol) ;;;
    store (last L) (Vptr prev).

Definition disjoin (fuel : nat) (L list : nat) : M unit :=
  let* node := load_ptr (first L) in
  let* list_first := load_ptr (first list) in
  store (elements L) (Vint 0) ;;;
  disjoin_loop fuel L (first L) node list_first.

Definition prepend (L list : nat) : M unit :=
  let* b := is_empty list in
  if b then ret tt
  else
    let* b := is_empty L in
    (if b then let* l := load (last list) in store (last L) l else ret tt) ;;;
    let* ll := load_ptr (last list) in let* f := load (first L) in store ll f ;;;
    let* f := load (first list) in store (first L) f ;;;
    let* e := load_int (elements list) in incr_elements L e.

Definition swap (L rhs : nat) : M unit :=
  let* rhs_last := load (last rhs) in
  let* f1 := load (first L) in let* f2 := load (first rhs) in
  store (first L) f2 ;;; store (first rhs) f1 ;;;
  let* e1 := load_int (elements L) in let* e2 := load_int (elements rhs) in
  store (elements L) (Vint e2) ;;; store (elements rhs) (Vint e1) ;;;
  let* l := load (last L) in
  store (last rhs) (if bool_decide (l = Vptr (first L)) then Vptr (first rhs) else l) ;;;
  store (last L) (if bool_decide (rhs_last = Vptr (first rhs)) then Vptr (first L) else rhs_last).

Definition last_node (L : nat) : M val := let* l := load_ptr (last L) in load l.
Definition first_node (L : nat) : M val := load (first L).
Definition head (L : nat) : M val := let* f := load_ptr (first L) in load (node_info f).
Definition head_ref (L : nat) : M val :=
  let* f := load_ptr (first L) in
  ret (if bool_decide (f <> eol) then Vptr (node_info f) else Vnull).
Definition last_ref (L : nat) : loc := eol.

Fixpoint add_unique_loop (fuel : nat) (eq : val -> val -> bool) (info : val) (node : loc) : M loc :=
  if bool_decide (node <> eol) then
    let* i := load (node_info node) in
    if negb (eq i info) then
      match fuel with
      | O => undefined
      | S fuel => let* node := load_ptr (node_next node) in add_unique_loop fuel eq info node
      end
    else ret node
  else ret node.

Definition add_unique (fuel : nat) (L : nat) (info : val) (eq : val -> val -> bool) : M bool :=
  let* node := load_ptr (first L) in
  let* node := add_unique_loop fuel eq info node in
  if bool_decide (node = eol) then push_back L info else ret true.

(** [for (i= 0; i <= n; i++)]: [k] rounds are left. *)
Fixpoint elem_loop (k : nat) (node : loc) (data : val) : M val :=
  match k with
  | O => ret data
  | S k =>
      if bool_decide (node = eol) then ret Vnull
      else
        let* data := load (node_info node) in
        let* node := load_ptr (node_next node) in
        elem_loop k node data
  end.

Definition elem (L : nat) (n : nat) : M val :=
  let* node := load_ptr (first L) in elem_loop (S n) node Vnull.

Definition after (L : nat) (info : val) (node : loc) : M unit :=
  let* nx := load (node_next node) in
  let* new_node := list_node_new info nx in
  store (node_next node) new_node ;;;
  incr_elements L 1 ;;;
  let* l := load (last L) in
  if bool_decide (l = Vptr (node_next node)) then
    let* nn := as_ptr new_node in store (last L) (Vptr (node_next nn))
  else ret tt.

(** [check_list]. *)
Fixpoint check_list_loop (fuel : nat) (node : loc) (cnt : Z) : M (option (loc * Z)) :=
  let* nx := load_ptr (node_next node) in
  if bool_decide (nx <> eol) then
    let* i := load (node_info node) in
    if negb (is_ptr i) then ret None
    else
      match fuel with
      | O => undefined
      | S fuel => check_list_loop fuel nx (u32 (cnt + 1))
      end
  else ret (Some (node, cnt)).

Definition check_list (fuel : nat) (L : nat) : M bool :=
  let* node := load_ptr (first L) in
  let* r := check_list_loop fuel node 0 in
  match r with
  | None => ret false
  | Some (node, cnt) =>
      let* l := load (last L) in
      if negb (bool_decide (l = Vptr (node_next node))) then ret false
      else
        let* e := load_int (elements L) in
        ret (u32 (cnt + 1) =? e)
  end.

(** [List<T>::delete_elements]; deleting a [T] is the argument [del]. *)
Fixpoint delete_elements_loop (fuel : nat) (del : val -> M unit) (element : loc) : M unit :=
  if bool_decide (element <> eol) then
    match fuel with
    | O => undefined
    | S fuel =>
        let* nx := load_ptr (node_next element) in
        let* i := load (node_info element) in
        del i ;;;
        delete_elements_loop fuel del nx
    end
  else ret tt.

Definition delete_elements (fuel : nat) (del : val -> M unit) (L : nat) : M unit :=
  let* f := load_ptr (first L) in
  delete_elements_loop fuel del f ;;;
  empty L.

(** [List<T>::make]: a list object has its three fields. *)
Definition make (first_elem : val) : M val :=
  let* res := new [Vnull; Vnull; Vint 0] in
  match res with
  | Vptr (L, _) =>
      empty L ;;;
      let* b := push_back L first_elem in
      ret (if (b : bool) then Vnull else res)
  | _ => ret Vnull
  end.

End base_list.
End base_list.

(** ** base_list_iterator

    An iterator is a local object: a record passed along.  [el] points to the
    cell the next node is read from. *)
Module base_list_iterator.
Section base_list_iterator.
Context `{Allocator}.

Record iter := mk_iter { it_list : nat; el : loc; prev : val; current : val }.

Definition sublist (it : iter) (ls : nat) (elm : Z) : M unit :=
  let* f := load (el it) in
  store (base_list.first ls) f ;;;
  let* l := load (base_list.last (it_list it)) in
  store (base_list.last ls) l ;;;
  store (base_list.elements ls) (Vint elm).

Definition init (L : nat) : iter :=
  {| it_list := L; el := base_list.first L; prev := Vnull; current := Vnull |}.

Definition next (it : iter) : M (val * iter) :=
  let* c := load_ptr (el it) in
  let it' := {| it_list := it_list it; el := node_next c; prev := Vptr (el it); current := Vptr c |} in
  let* i := load (node_info c) in
  ret (i, it').

Definition peek (it : iter) : M val :=
  let* c := load_ptr (el it) in load (node_info c).

Definition next_fast (it : iter) : M (val * iter) :=
  let* tmp := load_ptr (el it) in
  let* i := load (node_info tmp) in
  ret (i, {| it_list := it_list it; el := node_next tmp; prev := prev it; current := current it |}).

Definition rewind (it : iter) : iter :=
  {| it_list := it_list it; el := base_list.first (it_list it); prev := prev it; current := current it |}.

Definition replace (it : iter) (element : val) : M val :=
  let* c := as_ptr (current it) in
  let* tmp := load (node_info c) in
  store (node_info c) element ;;;
  ret tmp.

Definition replace_list (it : iter) (new_list : nat) : M val :=
  let* c := as_ptr (current it) in
  let* ret_value := load (node_info c) in
  let* b := base_list.is_empty new_list in
  (if (b : bool) then ret tt
   else
     let* nl := load_ptr (base_list.last new_list) in
     let* nx := load (node_next c) in
     store nl nx ;;;
     let* f := load_ptr (base_list.first new_list) in
     let* i := load (node_info f) in
     store (node_info c) i ;;;
     let* f := load_ptr (base_list.first new_list) in
     let* nx := load (node_next f) in
     store (node_next c) nx ;;;
     let* l := load (base_list.last (it_list it)) in
     let* ne := load_int (base_list.elements new_list) in
     (if bool_decide (l = Vptr (node_next c)) && (1 <? ne)
      then let* nl := load (base_list.last new_list) in store (base_list.last (it_list it)) nl
      else ret tt) ;;;
     let* ne := load_int (base_list.elements new_list) in
     base_list.incr_elements (it_list it) (ne - 1)) ;;;
  ret ret_value.

Definition remove (it : iter) : M iter :=
  let* p := as_ptr (prev it) in
  base_list.remove (it_list it) p ;;;
  ret {| it_list := it_list it; el := p; prev := prev it; current := Vnull |}.

Definition after (it : iter) (element : val) : M iter :=
  let* c := as_ptr (current it) in
  base_list.after (it_list it) element c ;;;
  let* nc := load_ptr (node_next c) in
  ret {| it_list := it_list it; el := node_next nc; prev := prev it; current := Vptr nc |}.

Definition ref (it : iter) : M loc := let* c := as_ptr (current it) in ret (node_info c).

Definition is_last (it : iter) : bool :=
  bool_decide (el it = node_next (base_list.last_ref (it_list it))).

Definition at_end (it : iter) : bool := bool_decide (current it = Vptr eol).

End base_list_iterator.
End base_list_iterator.

(** ** List<T>, List_iterator<T> and List_iterator_fast<T>

    The templates cast to and from [T*] and call [base_list]; [delete_elements]
    and [make] above are [List<T>]'s own.  [List<T>::Iterator] is the iterator
    of range-based [for]: a node pointer. *)
Module List.
Section List.
Context `{Allocator}.
Definition push_back (L : nat) (a : val) : M bool := base_list.push_back L a.
Definition push_front (L : nat) (a : val) : M bool := base_list.push_front L a.
Definition head (L : nat) : M val := base_list.head L.
Definition head_ref (L : nat) : M val := base_list.head_ref L.
Definition pop (L : nat) : M val := base_list.pop L.
Definition append (L list : nat) : M unit := base_list.append L list.
Definition prepend (L list : nat) : M unit := base_list.prepend L list.
Definition disjoin (fuel L list : nat) : M unit := base_list.disjoin fuel L list.
Definition add_unique (fuel L : nat) (a : val) (eq : val -> val -> bool) : M bool :=
  base_list.add_unique fuel L a eq.
Definition elem (L n : nat) : M val := base_list.elem L n.

(** [Iterator]. *)
Definition begin (L : nat) : M loc := load_ptr (base_list.first L).
Definition end_ : loc := eol.
Definition iterator_incr (node : loc) : M loc := load_ptr (node_next node).
Definition iterator_deref (node : loc) : M val := load (node_info node).
Definition iterator_eq (node rhs : loc) : bool := bool_decide (node = rhs).
Definition iterator_ne (node rhs : loc) : bool := negb (bool_decide (node = rhs)).
End List.
End List.

Module List_iterator.
Section List_iterator.
Context `{Allocator}.
Import base_list_iterator.
Definition init (L : nat) : iter := base_list_iterator.init L.
Definition incr (it : iter) : M (val * iter) := next it.
Definition peek (it : iter) : M val := base_list_iterator.peek it.
Definition replace (it : iter) (a : val) : M val := base_list_iterator.replace it a.
Definition replace_list (it : iter) (a : nat) : M val := base_list_iterator.replace_list it a.
Definition rewind (it : iter) : iter := base_list_iterator.rewind it.
Definition remove (it : iter) : M iter := base_list_iterator.remove it.
Definition after (it : iter) (a : val) : M iter := base_list_iterator.after it a.
Definition ref (it : iter) : M loc := base_list_iterator.ref it.
End List_iterator.
End List_iterator.

Module List_iterator_fast.
Import base_list_iterator.
Definition init (L : nat) : iter := base_list_iterator.init L.
Definition incr (it : iter) : M (val * iter) := next_fast it.
Definition rewind (it : iter) : iter := base_list_iterator.rewind it.
Definition sublist (it : iter) (list_arg : nat) (el_arg : Z) : M unit :=
  base_list_iterator.sublist it list_arg el_arg.
End List_iterator_fast.

(** ** list_copy_and_replace_each_value

    [clone] is the elements' method; a round per node. *)
Fixpoint list_copy_and_replace_loop (fuel : nat) (clone : val -> M val)
    (it : base_list_iterator.iter) : M unit :=
  let* r := base_list_iterator.next it in
  let '(e, it) := r in
  if is_ptr e then
    match fuel with
    | O => undefined
    | S fuel =>
        let* c := clone e in
        base_list_iterator.replace it c ;;;
        list_copy_and_replace_loop fuel clone it
    end
  else ret tt.

Definition list_copy_and_replace_each_value (fuel : nat) (clone : val -> M val) (L : nat) : M unit :=
  list_copy_and_replace_loop fuel clone (base_list_iterator.init L).

(** ** bubble_sort *)
Section bubble_sort.
Context (sort_func : val -> val -> Z).
Import base_list_iterator.

(** The [while] loop of one pass; returns the variables used afterwards. *)
Fixpoint bubble_pass (fuel : nat) (it : iter) (item1 : val) (ref1 last_ref : val) (swap : bool)
    : M (val * iter * bool) :=
  let* r := next it in
  let '(item2, it) := r in
  if is_ptr item2 then
    let* ref2 := ref it in
    if bool_decide (Vptr ref2 <> last_ref) then
      match fuel with
      | O => undefined
      | S fuel =>
          if 0 <? sort_func item1 item2 then
            let* r1 := as_ptr ref1 in
            store r1 item2 ;;;
            store ref2 item1 ;;;
            bubble_pass fuel it item1 (Vptr ref2) last_ref true
          else bubble_pass fuel it item2 (Vptr ref2) last_ref swap
      end
    else ret (ref1, it, swap)
  else ret (ref1, it, swap).

Fixpoint bubble_loop (passes : nat) (fuel : nat) (it : iter) (ref1 : val) : M unit :=
  match passes with
  | O => undefined
  | S passes =>
      let last_ref := ref1 in
      let* r := next it in
      let '(item1, it) := r in
      let* ref1 := ref it in
      let* r := bubble_pass fuel it item1 (Vptr ref1) last_ref false in
      let '(ref1, it, swap) := r in
      let it := rewind it in
      if (swap : bool) then bubble_loop passes fuel it ref1 else ret tt
  end.

Definition bubble_sort (passes fuel : nat) (list_to_sort : nat) : M unit :=
  bubble_loop passes fuel (init list_to_sort) Vnull.

End bubble_sort.

(** ** SQL_I_List

    Fields: [elements] (2), [first] (0), [next] (1).  The elements are linked
    through cells the caller names ([next_ptr]). *)
Module SQL_I_List.

Definition first (L : nat) : loc := (L, 0%nat).
Definition next (L : nat) : loc := (L, 1%nat).
Definition elements (L : nat) : loc := (L, 2%nat).

Definition empty (L : nat) : M unit :=
  store (elements L) (Vint 0) ;;;
  store (first L) Vnull ;;;
  store (next L) (Vptr (first L)).

(** The copy constructor and the assignment operator. *)
Definition assign (L tmp : nat) : M unit :=
  let* e := load_int (elements tmp) in
  store (elements L) (Vint e) ;;;
  let* f := load (first tmp) in
  store (first L) f ;;;
  let* e := load_int (elements L) in
  let* n := (if truth e then load (next tmp) else ret (Vptr (first L))) in
  store (next L) n.

Definition link_in_list (L : nat) (element next_ptr : loc) : M unit :=
  let* e := load_int (elements L) in
  store (elements L) (Vint (u32 (e + 1))) ;;;
  let* n := load_ptr (next L) in
  store n (Vptr element) ;;;
  store (next L) (Vptr next_ptr) ;;;
  let* n := load_ptr (next L) in
  store n Vnull.

Definition save_and_clear (L save : nat) : M unit := assign save L ;;; empty L.

Definition push_front (L save : nat) : M unit :=
  let* n := load_ptr (next save) in
  let* f := load (first L) in
  store n f ;;;
  let* f := load (first save) in
  store (first L) f ;;;
  let* e := load_int (elements L) in
  let* se := load_int (elements save) in
  store (elements L) (Vint (u32 (e + se))).

Definition push_back (L save : nat) : M unit :=
  let* f := load (first save) in
  if is_ptr f then
    let* n := load_ptr (next L) in
    let* f := load (first save) in
    store n f ;;;
    let* sn := load (next save) in
    store (next L) sn ;;;
    let* e := load_int (elements L) in
    let* se := load_int (elements save) in
    store (elements L) (Vint (u32 (e + se)))
  else ret tt.

End SQL_I_List.
