(* ===== verification/BaseList.v ===== *)
(** Correctness of base_list and of its iterator: the operations on the linked
    nodes are operations on the sequence of stored pointers. *)
From S2P Require Import Prelude Memory SqlList.
Open Scope Z_scope.
Open Scope mem_scope.

(** * Representation

    [rep m L ns]: in memory [m] the list object [L] holds the nodes [ns], in
    order, each with its info pointer. *)
Record rep (m : mem) (L : nat) (ns : list (nat * val)) : Prop := {
  rep_seg : cseg m (base_list.first L) ns end_of_list;
  rep_last : m !! base_list.last L = Some (Vptr (end_cell (base_list.first L) ns));
  rep_count : m !! base_list.elements L = Some (Vint (Z.of_nat (length ns)));
  rep_small : Z.of_nat (length ns) < 2 ^ 32;
  rep_nodup : NoDup (L :: end_of_list :: ns.*1);
  rep_eol_next : m !! eol = Some (Vptr eol);
  rep_eol_info : m !! node_info eol = Some Vnull;
}.

(** The pointers stored in the list. *)
Abbreviation infos ns := (ns.*2).

(** Memory outside the objects [os] is unchanged. *)
Definition untouched (os : list nat) (m m' : mem) : Prop :=
  forall l v, l.1 ∉ os -> m !! l = Some v -> m' !! l = Some v.

Lemma untouched_refl os m : untouched os m m.
Proof. by intros l v. Qed.

Lemma untouched_trans os m1 m2 m3 : untouched os m1 m2 -> untouched os m2 m3 -> untouched os m1 m3.
Proof. intros H1 H2 l v Hl H. by apply H2, H1. Qed.

Lemma untouched_insert os m m' l v : l.1 ∈ os -> untouched os m m' -> untouched os m (<[l := v]> m').
Proof.
  intros Hl Hm l' v' Hl' H. rewrite lookup_insert_ne by (intros ->; done). by apply Hm.
Qed.

Lemma untouched_new os m m' o f v :
  (forall f, m !! (o, f) = None) -> untouched os m m' -> untouched os m (<[(o, f) := v]> m').
Proof.
  intros Ho Hm l' v' Hl' H. rewrite lookup_insert_ne; [by apply Hm|]. intros <-. congruence.
Qed.

Ltac untouched_tac :=
  repeat first
    [ apply untouched_new; [assumption|] | apply untouched_insert; [solve [assumption|mem_solve]|] ];
  apply untouched_refl.

(** The facts about the objects of a list the proofs use. *)
Lemma rep_facts m L ns : rep m L ns ->
  L <> end_of_list /\ L ∉ ns.*1 /\ end_of_list ∉ ns.*1 /\ NoDup ns.*1.
Proof.
  intros []. apply NoDup_cons_iff in rep_nodup0 as [H1 H2]. apply NoDup_cons_iff in H2 as [H2 H3].
  set_solver.
Qed.

Lemma objects_nodup L (os : list nat) :
  L <> end_of_list -> L ∉ os -> end_of_list ∉ os -> NoDup os -> NoDup (L :: end_of_list :: os).
Proof. intros. rewrite !NoDup_cons_iff. set_solver. Qed.

Lemma rep_allocated m L ns o : rep m L ns -> (forall f, m !! (o, f) = None) ->
  o <> L /\ o <> end_of_list /\ o ∉ ns.*1.
Proof.
  intros [] Hf. split; [|split].
  - intros ->. unfold base_list.last in *. congruence.
  - intros ->. unfold eol in *. congruence.
  - intros Hin. clear -rep_seg0 Hf Hin. revert rep_seg0. generalize (base_list.first L).
    induction ns as [|[n v] ns IH]; intros c Hs; [set_solver|]. destruct Hs as (H1 & H2 & H3).
    apply elem_of_cons in Hin as [->|Hin]; [specialize (Hf 1%nat); cbn in *; congruence|]. eauto.
Qed.

Ltac cseg_frame_tac :=
  repeat (apply cseg_insert_ne; [loc_ne|cbn [fst]; first [assumption|mem_solve]|]); try eassumption.

(** Open [rep m L ns] with the facts its use needs; name the end cell [ec]. *)
Ltac open_rep Hr ec :=
  let N := fresh "N" in
  pose proof (rep_facts _ _ _ Hr) as (?N & ?N & ?N & ?N);
  destruct Hr;
  match goal with Hs : cseg _ (base_list.first ?L) ?ns end_of_list |- _ =>
    pose proof (cseg_end _ _ _ _ Hs);
    pose proof (end_cell_1 (base_list.first L) ns);
    pose proof (end_cell_2 (base_list.first L) ns eq_refl);
    remember (end_cell (base_list.first L) ns) as ec
  end.

Ltac cells := unfold base_list.first, base_list.last, base_list.elements, node_next, node_info, eol in *;
  cbn [fst snd] in *.

(** The components of [rep] that follow by lookup and arithmetic. *)
Ltac rep_count :=
  match goal with |- ?a = Some (Vint ?x) =>
    let H := fresh "Hc" in
    eassert (H : a = Some (Vint _)) by lk; rewrite H; clear H;
    rewrite ?wrap_small by (unfold in_u; rewrite ?length_app in *; cbn [length] in *; lia);
    do 2 f_equal; rewrite ?length_app in *; cbn [length] in *; lia
  end.

Ltac rep_nodup :=
  clear_mem; apply objects_nodup;
  rewrite ?fmap_app, ?fmap_cons, ?fmap_nil, ?NoDup_app_iff, ?NoDup_cons_iff in *; cbn [fst] in *;
  rewrite ?fmap_app, ?not_elem_of_app, ?not_elem_of_cons in *;
  repeat match goal with
  | |- _ /\ _ => split
  | |- NoDup [] => apply NoDup_nil_2
  | |- forall _, _ => intros
  end;
  solve [ tauto | set_solver ].

Ltac rep_tac :=
  constructor; cells;
  [ | | rep_count | rewrite ?length_app in *; cbn [length] in *; lia | first [assumption | rep_nodup] | lk | lk ].

Section Ops.
Context `{LawfulAllocator}.
Implicit Types (m : mem) (L n : nat) (v : val) (ns : list (nat * val)).

Lemma push_back_ok m L ns v o :
  rep m L ns -> alloc m = Some o -> Z.of_nat (length ns) + 1 < 2 ^ 32 ->
  exists m', base_list.push_back L v m = Some (false, m') /\
    rep m' L (ns ++ [(o, v)]) /\ untouched (L :: ns.*1) m m'.
Proof.
  intros Hr Ho Hlen. pose proof (alloc_fresh m o Ho) as Hf.
  destruct (rep_allocated _ _ _ _ Hr Hf) as (F1 & F2 & F3). open_rep Hr ec.
  unfold base_list.push_back, list_node_new, base_list.incr_elements. cells.
  mrun. erewrite bind_new by done. cbn [write_fields]. mrun. cbn [is_ptr]. mrun.
  eexists. split; [reflexivity|]. split; [|untouched_tac].
  rep_tac; [|rewrite end_cell_app; lk].
  apply cseg_app. exists o. rewrite <- Heqec. split.
  - cseg_frame_tac. rewrite Heqec. apply cseg_redirect with end_of_list; [|done|done]. cseg_frame_tac.
  - cbn. repeat split; lk.
Qed.

(** A failed allocation: 1 is returned and NULL is left in the last [next]
    cell. *)
Lemma push_back_oom m L ns v :
  rep m L ns -> alloc m = None ->
  base_list.push_back L v m = Some (true, <[end_cell (base_list.first L) ns := Vnull]> m).
Proof.
  intros Hr Ho. open_rep Hr ec. unfold base_list.push_back, list_node_new.
  mrun. erewrite bind_new_fail by done. mrun. reflexivity.
Qed.

(** A failed allocation leaves the list as it was here. *)
Lemma push_front_oom m L ns v : rep m L ns -> alloc m = None -> base_list.push_front L v m = Some (true, m).
Proof.
  intros Hr Ho. open_rep Hr ec. pose proof (cseg_head _ _ _ _ rep_seg0) as Hh.
  unfold base_list.push_front, base_list.push_front_impl, list_node_new. cells.
  mrun. erewrite bind_new_fail by done. mrun. reflexivity.
Qed.

Lemma push_front_ok m L ns v o :
  rep m L ns -> alloc m = Some o -> Z.of_nat (length ns) + 1 < 2 ^ 32 ->
  exists m', base_list.push_front L v m = Some (false, m') /\
    rep m' L ((o, v) :: ns) /\ untouched [L] m m'.
Proof.
  intros Hr Ho Hlen. pose proof (alloc_fresh m o Ho) as Hf.
  destruct (rep_allocated _ _ _ _ Hr Hf) as (F1 & F2 & F3). open_rep Hr ec.
  pose proof (cseg_head _ _ _ _ rep_seg0) as Hh.
  unfold base_list.push_front, base_list.push_front_impl, list_node_new, base_list.incr_elements.
  cells. mrun. erewrite bind_new by done. cbn [write_fields]. mrun.
  assert (Hseg : forall m', m' !! (L, 0%nat) = Some (Vptr (o, 0%nat)) ->
    m' !! (o, 1%nat) = Some v -> m' !! (o, 0%nat) = m !! (L, 0%nat) ->
    (forall l, l.1 ∈ ns.*1 -> m' !! l = m !! l) -> cseg m' (L, 0%nat) ((o, v) :: ns) end_of_list).
  { intros m' E1 E2 E3 E4. apply cseg_cons; [done..|]. destruct ns as [|[n w] ns]; cbn in *.
    - by rewrite E3.
    - destruct rep_seg0 as (? & ? & ?). rewrite E3, E4 by set_solver. split; [done|]. split; [done|].
      apply (cseg_frame m); [apply E4; set_solver|intros; apply E4; set_solver|done]. }
  assert (Hec : Vptr ec = Vptr (L, 0%nat) <-> ns = []).
  { destruct ns as [|[n w] ns]; cbn in Heqec; [naive_solver congruence|].
    split; [|done]. intros [= ->]. pose proof (end_cell_1 (n, 0%nat) ns) as Hx.
    rewrite <- Heqec in Hx. mem_solve. }
  case_bool_decide as Hb; mrun; eexists; (split; [reflexivity|]); (split; [|untouched_tac]).
  - apply Hec in Hb. subst ns. rep_tac; [|lk].
    apply Hseg; try (rewrite Hh; lk); try lk. intros l Hl. set_solver.
  - rep_tac.
    + apply Hseg; try (rewrite Hh; lk); try lk. intros l Hl. lk.
    + cbn. destruct ns as [|[n w] ns]; [by destruct Hb; apply Hec|]. cbn in *. rewrite <- Heqec. lk.
Qed.

(** The end cell past a node is the node's own exactly when it is the last. *)
Lemma end_cell_last n ns : n ∉ ns.*1 -> end_cell (n, 0%nat) ns = (n, 0%nat) <-> ns = [].
Proof.
  intros Hn. destruct ns as [|[k w] ns]; [done|]. split; [|done]. cbn. intros E.
  pose proof (end_cell_1 (k, 0%nat) ns) as Hx. rewrite E in Hx. mem_solve.
Qed.

Lemma end_cell_first L ns : L ∉ ns.*1 -> end_cell (base_list.first L) ns = (L, 0%nat) <-> ns = [].
Proof. apply (end_cell_last L). Qed.

(** Splitting a chain at a node. *)
Lemma cseg_at m c xs n v ys q :
  cseg m c (xs ++ (n, v) :: ys) q ->
  cseg m c xs n /\ m !! end_cell c xs = Some (Vptr (n, 0%nat)) /\ m !! (n, 1%nat) = Some v /\
  cseg m (n, 0%nat) ys q.
Proof.
  intros H'. apply cseg_app in H' as (r & H1 & H2 & H3 & H4).
  pose proof (cseg_end _ _ _ _ H1) as E. rewrite E in H2. injection H2 as ->. done.
Qed.

(** Bypassing a node: the chain without it. *)
Lemma cseg_bypass m c xs n v ys q :
  cseg m c (xs ++ (n, v) :: ys) q -> c.1 ∉ (xs ++ (n, v) :: ys).*1 ->
  NoDup (xs ++ (n, v) :: ys).*1 ->
  exists w, m !! (n, 0%nat) = Some w /\ cseg (<[end_cell c xs := w]> m) c (xs ++ ys) q.
Proof.
  intros Hs Hc Hnd. apply cseg_at in Hs as (H1 & H2 & H3 & H4).
  rewrite fmap_app, fmap_cons, NoDup_app_iff, NoDup_cons_iff in Hnd. cbn [fst] in Hnd.
  destruct Hnd as (Hx & Hd & Hn & Hy). rewrite fmap_app, fmap_cons, not_elem_of_app, not_elem_of_cons in Hc.
  pose proof (end_cell_1 c xs) as He. pose proof (cseg_head _ _ _ _ H4) as Hh.
  eexists. split; [exact Hh|]. apply cseg_app.
  exists (match ys with [] => q | (k, _) :: _ => k end). split.
  - apply cseg_redirect with n; tauto.
  - assert (Hout : (end_cell c xs).1 ∉ ys.*1).
    { apply elem_of_cons in He as [->|He]; [tauto|]. intros Hin. apply (Hd _ He). by right. }
    destruct ys as [|[k w] ys]; cbn [cseg end_cell] in *; [by rewrite lookup_insert_eq|].
    destruct H4 as (_ & H5 & H6). rewrite lookup_insert_eq.
    rewrite fmap_cons, not_elem_of_cons in Hout. cbn [fst] in Hout.
    rewrite lookup_insert_ne by (intros E; rewrite E in Hout; tauto).
    split; [done|]. split; [done|]. apply cseg_insert_ne; [|tauto|done].
    intros E. rewrite E in Hout. tauto.
Qed.

Lemma nodup_bypass L (xs : list (nat * val)) n v ys :
  NoDup (L :: end_of_list :: (xs ++ (n, v) :: ys).*1) ->
  NoDup (L :: end_of_list :: (xs ++ ys).*1).
Proof.
  rewrite !fmap_app, fmap_cons. cbn [fst]. rewrite <- Permutation_middle.
  rewrite !NoDup_cons_iff, !not_elem_of_cons. tauto.
Qed.

Lemma remove_ok m L xs n v ys :
  rep m L (xs ++ (n, v) :: ys) ->
  exists m', base_list.remove L (end_cell (base_list.first L) xs) m = Some (tt, m') /\
    rep m' L (xs ++ ys) /\ untouched (L :: xs.*1) m m'.
Proof.
  intros Hr. pose proof (nodup_bypass _ _ _ _ _ (rep_nodup _ _ _ Hr)) as Hnd. open_rep Hr ec. cells.
  pose proof (cseg_at _ _ _ _ _ _ _ rep_seg0) as (S1 & S2 & S3 & S4).
  destruct (cseg_bypass _ _ _ _ _ _ _ rep_seg0) as (w & Hw & Hby); [done|done|].
  pose proof (end_cell_1 (L, 0%nat) xs) as Hx. pose proof (end_cell_2 (L, 0%nat) xs eq_refl) as Hx2.
  assert (En : (end_cell (L, 0%nat) xs).1 <> n).
  { intros E. rewrite fmap_app, fmap_cons, NoDup_app_iff in N2. rewrite fmap_app, fmap_cons in N0.
    rewrite E in Hx. cbn [fst] in *. destruct N2 as (_ & Hd & _).
    apply elem_of_cons in Hx as [->|Hx]; [mem_solve|]. apply (Hd n Hx). left. }
  rewrite end_cell_app in Heqec. cbn [end_cell] in Heqec.
  rewrite length_app in *. cbn [length] in *.
  remember (end_cell (L, 0%nat) xs) as pc eqn:Epc.
  unfold base_list.remove, sql_delete. cells. mrun.
  assert (Hnz : u32 (Z.of_nat (length xs + S (length ys)) - 1) = Z.of_nat (length xs + length ys))
    by (rewrite wrap_small; unfold in_u; lia).
  rewrite Hnz.
  assert (Hn : n ∉ ys.*1).
  { rewrite fmap_app, fmap_cons, NoDup_app_iff, NoDup_cons_iff in N2. cbn [fst] in N2. tauto. }
  assert (Hlast : end_cell (L, 0%nat) (xs ++ ys) = if decide (ys = []) then pc else ec).
  { rewrite end_cell_app, <- Epc. destruct (decide (ys = [])) as [->|Hne]; [done|].
    destruct ys as [|[k u] ys]; [done|]. by rewrite Heqec. }
  assert (Hcase : forall m',
    (forall l, l <> pc -> l <> (L, 1%nat) -> l <> (L, 2%nat) -> m' !! l = m !! l) ->
    m' !! pc = Some w -> m' !! (L, 1%nat) = Some (Vptr (end_cell (L, 0%nat) (xs ++ ys))) ->
    m' !! (L, 2%nat) = Some (Vint (Z.of_nat (length xs + length ys))) ->
    rep m' L (xs ++ ys)).
  { intros m' E1 E2 E3 E4.
    assert (Hne : pc.1 <> end_of_list) by (intros E; rewrite E in Hx; mem_solve).
    constructor; cells; [| |rep_count|rewrite length_app; lia|done|..].
    - apply (cseg_frame (<[pc := w]> m)); [| |done].
      + destruct (decide (pc = (L, 0%nat))) as [->|Hne']; [by rewrite lookup_insert_eq|].
        rewrite lookup_insert_ne by done. apply E1; congruence.
      + intros k f Hk. destruct (decide (pc = (k, f))) as [->|Hne']; [by rewrite lookup_insert_eq|].
        rewrite lookup_insert_ne by done.
        assert (k <> L) by (intros ->; rewrite fmap_app in *; mem_solve). apply E1; congruence.
    - done.
    - rewrite E1; [done|intros <-; done|congruence..].
    - rewrite E1; [done|intros <-; done|congruence..]. }
  destruct (truth _) eqn:T; cbn [negb].
  - mrun. case_bool_decide as Hb; mrun; eexists; (split; [reflexivity|]); (split; [|untouched_tac]);
      (apply Hcase; [intros l ? ? ?; by rewrite !lookup_insert_ne by congruence|by lk| |by lk]).
    + assert (ys = []) as -> by (apply (end_cell_last n); congruence).
      rewrite Hlast. lk.
    + rewrite Hlast, decide_False; [lk|]. intros ->. cbn in Heqec. congruence.
  - apply truth_false in T. mrun.
    destruct xs; [|cbn in T; lia]. destruct ys; [|cbn in T; lia]. cbn in Epc. subst pc.
    eexists; (split; [reflexivity|]); (split; [|untouched_tac]).
    apply Hcase; [intros l ? ? ?; by rewrite !lookup_insert_ne by congruence|by lk|lk|by lk].
Qed.

Lemma pop_empty m L : rep m L [] -> base_list.pop L m = Some (Vnull, m).
Proof.
  intros Hr. open_rep Hr ec. cbn [cseg] in *. unfold base_list.pop. cells. mrun.
  rewrite bool_decide_eq_true_2 by done. reflexivity.
Qed.

Lemma pop_ok m L n v ns :
  rep m L ((n, v) :: ns) ->
  exists m', base_list.pop L m = Some (v, m') /\ rep m' L ns /\ untouched [L] m m'.
Proof.
  intros Hr. pose proof (nodup_bypass _ [] n v ns (rep_nodup _ _ _ Hr)) as Hnd. open_rep Hr ec. cells.
  cbn [cseg app] in *. destruct rep_seg0 as (S1 & S2 & S3).
  rewrite fmap_cons, not_elem_of_cons in N0, N1. rewrite fmap_cons, NoDup_cons_iff in N2. cbn [fst] in *.
  pose proof (cseg_head _ _ _ _ S3) as Hh. cbn [length] in *.
  unfold base_list.pop. cells. mrun.
  rewrite bool_decide_eq_false_2 by (intros [= ->]; tauto).
  mrun. rewrite wrap_small by (unfold in_u; lia).
  replace (Z.of_nat (S (length ns)) - 1) with (Z.of_nat (length ns)) by lia.
  assert (Hcase : forall m',
    m' !! (L, 0%nat) = m !! (n, 0%nat) -> (forall l, l.1 <> L -> m' !! l = m !! l) ->
    m' !! (L, 1%nat) = Some (Vptr (end_cell (L, 0%nat) ns)) ->
    m' !! (L, 2%nat) = Some (Vint (Z.of_nat (length ns))) -> rep m' L ns).
  { intros m' E1 E2 E3 E4. constructor; cells; [|done|done|lia|done|by rewrite E2|by rewrite E2].
    destruct ns as [|[k u] ns]; cbn [cseg] in *; [by rewrite E1|]. destruct S3 as (? & ? & ?).
    rewrite E1, (E2 (k, 1%nat)) by (cbn; intros ->; mem_solve). split; [done|]. split; [done|].
    apply (cseg_frame m); [apply E2; cbn; intros ->; mem_solve| |done].
    intros j f Hj. apply E2. cbn. intros ->. mem_solve. }
  destruct (truth _) eqn:T; cbn [negb]; mrun; eexists; (split; [reflexivity|]);
    (split; [|untouched_tac]); apply Hcase; try (rewrite Hh; lk); try lk;
    try (intros [l f] Hl; cbn in Hl; rewrite !lookup_insert_ne by congruence; done).
  - apply truth_true in T. destruct ns as [|[k u] ns]; [done|]. cbn in Heqec |- *. rewrite <- Heqec. lk.
  - apply truth_false in T. destruct ns; [cbn; lk|cbn in T; lia].
Qed.

Lemma empty_ok m L v0 v1 v2 :
  m !! base_list.first L = Some v0 -> m !! base_list.last L = Some v1 ->
  m !! base_list.elements L = Some v2 -> L <> end_of_list ->
  m !! eol = Some (Vptr eol) -> m !! node_info eol = Some Vnull ->
  exists m', base_list.empty L m = Some (tt, m') /\ rep m' L [] /\ untouched [L] m m'.
Proof.
  intros. unfold base_list.empty. cells. mrun. eexists. split; [reflexivity|].
  split; [|untouched_tac]. rep_tac; cbn; lk.
Qed.

Lemma head_ok m L ns : rep m L ns -> base_list.head L m = Some (default Vnull (infos ns !! 0%nat), m).
Proof.
  intros Hr. open_rep Hr ec. unfold base_list.head. cells.
  destruct ns as [|[n v] ns]; cbn [cseg] in *; mrun; [done|].
  destruct rep_seg0 as (? & ? & ?). mrun. done.
Qed.

Lemma is_empty_ok m L ns : rep m L ns -> base_list.is_empty L m = Some (bool_decide (ns = []), m).
Proof.
  intros Hr. open_rep Hr ec. pose proof (cseg_head _ _ _ _ rep_seg0) as Hh.
  unfold base_list.is_empty. cells. mrun. unfold ret. do 2 f_equal. apply bool_decide_ext.
  destruct ns as [|[n v] ns]; [done|]. split; [|done]. intros [= ->].
  rewrite fmap_cons, not_elem_of_cons in *. cbn [fst] in *. tauto.
Qed.

Lemma elem_loop_S k nd d :
  base_list.elem_loop (S k) nd d =
    if bool_decide (nd = eol) then ret Vnull
    else let* data := load (node_info nd) in
         let* nx := load_ptr (node_next nd) in base_list.elem_loop k nx data.
Proof. done. Qed.

Lemma elem_loop_ok m c ns k d nd :
  cseg m c ns end_of_list -> end_of_list ∉ ns.*1 -> m !! c = Some (Vptr nd) ->
  base_list.elem_loop (S k) nd d m = Some (default Vnull (infos ns !! k), m).
Proof.
  revert c k d nd. induction ns as [|[n v] ns IH]; intros c k d nd Hs Hn Hc; cbn [cseg] in Hs.
  - rewrite Hc in Hs. injection Hs as ->. cbn [base_list.elem_loop].
    by rewrite bool_decide_eq_true_2.
  - destruct Hs as (H1 & H2 & H3). rewrite Hc in H1. injection H1 as ->.
    rewrite fmap_cons, not_elem_of_cons in Hn. cbn [fst] in Hn.
    pose proof (cseg_head _ _ _ _ H3) as Hh. cbn [base_list.elem_loop]. cells.
    rewrite bool_decide_eq_false_2 by (intros [= ->]; tauto).
    mrun. destruct k as [|k]; [done|]. rewrite (IH (n, 0%nat) k) by tauto. done.
Qed.

Lemma elem_ok m L ns k : rep m L ns -> base_list.elem L k m = Some (default Vnull (infos ns !! k), m).
Proof.
  intros Hr. open_rep Hr ec. pose proof (cseg_head _ _ _ _ rep_seg0) as Hh.
  unfold base_list.elem. cells. mrun. by eapply elem_loop_ok.
Qed.

(** Two lists without common objects. *)
Definition apart (L1 : nat) (ns1 : list (nat * val)) (L2 : nat) (ns2 : list (nat * val)) : Prop :=
  forall x, x ∈ L1 :: ns1.*1 -> x ∉ L2 :: ns2.*1.

Lemma apart_nodup m L1 ns1 L2 ns2 :
  rep m L1 ns1 -> rep m L2 ns2 -> apart L1 ns1 L2 ns2 ->
  NoDup (L1 :: end_of_list :: (ns1 ++ ns2).*1) /\ NoDup (L1 :: end_of_list :: (ns2 ++ ns1).*1).
Proof.
  intros H1 H2 Ha. apply rep_facts in H1 as (? & ? & ? & ?). apply rep_facts in H2 as (? & ? & ? & ?).
  unfold apart in Ha. pose proof (Ha L1 ltac:(left)).
  split; apply objects_nodup; rewrite ?fmap_app, ?NoDup_app_iff, ?not_elem_of_app; set_solver.
Qed.

Lemma end_cell_outside m L1 ns1 L2 ns2 :
  rep m L1 ns1 -> rep m L2 ns2 -> apart L1 ns1 L2 ns2 ->
  (end_cell (base_list.first L1) ns1).1 ∉ L2 :: ns2.*1 /\
  (end_cell (base_list.first L2) ns2).1 ∉ L1 :: ns1.*1.
Proof.
  intros H1 H2 Ha. split.
  - apply Ha, end_cell_1.
  - intros H'. apply (Ha _ H'), end_cell_1.
Qed.

(** Moving a chain to another start cell. *)
Lemma cseg_move m m' c c' ns q :
  cseg m c ns q -> m' !! c' = m !! c -> (forall n f, n ∈ ns.*1 -> m' !! (n, f) = m !! (n, f)) ->
  cseg m' c' ns q.
Proof.
  intros Hs Hc Hm. destruct ns as [|[n v] ns]; cbn [cseg] in *; [by rewrite Hc|].
  destruct Hs as (H1 & H2 & H3). rewrite Hc, Hm by (rewrite fmap_cons; left).
  split; [done|]. split; [done|].
  apply (cseg_frame m); [apply Hm; left|intros; apply Hm; by right|done].
Qed.

Lemma assign_ok m L1 ns1 L2 ns2 :
  rep m L1 ns1 -> rep m L2 ns2 -> apart L1 ns1 L2 ns2 ->
  exists m', base_list.assign L1 L2 m = Some (tt, m') /\ rep m' L1 ns2 /\ untouched [L1] m m'.
Proof.
  intros H1 H2 Ha. pose proof (end_cell_outside _ _ _ _ _ H1 H2 Ha) as [O1 O2].
  assert (HL : L1 ∉ L2 :: ns2.*1) by (apply Ha; left).
  assert (Hnd : NoDup (L1 :: end_of_list :: ns2.*1)).
  { apply rep_facts in H1 as (? & ? & ? & ?). apply rep_facts in H2 as (? & ? & ? & ?).
    apply objects_nodup; [done| |done|done]. by apply not_elem_of_cons in HL as [_ ?]. }
  destruct (rep_facts _ _ _ H1) as (Hne & _). destruct H1. open_rep H2 ec.
  pose proof (cseg_head _ _ _ _ rep_seg1) as Hh. apply not_elem_of_cons in HL as [HL1 HL2].
  pose proof (cseg_head _ _ _ _ rep_seg0) as Hh0.
  unfold base_list.assign. cells. mrun.
  assert (Hcase : forall m',
    m' !! (L1, 0%nat) = m !! (L2, 0%nat) -> (forall l, l.1 <> L1 -> m' !! l = m !! l) ->
    m' !! (L1, 1%nat) = Some (Vptr (end_cell (L1, 0%nat) ns2)) ->
    m' !! (L1, 2%nat) = Some (Vint (Z.of_nat (length ns2))) -> rep m' L1 ns2).
  { intros m' E1 E2 E3 E4. constructor; cells; [|done|done|done|done|by rewrite E2 by (cbn; congruence)..].
    apply (cseg_move m m' (L2, 0%nat)); [done|done|]. intros n f Hn. apply E2. cbn. by intros ->. }
  destruct (truth _) eqn:T; mrun; eexists; (split; [reflexivity|]); (split; [|untouched_tac]);
    apply Hcase; try (rewrite Hh; lk); try lk;
    try (intros [l f] Hl; cbn in Hl; rewrite !lookup_insert_ne by congruence; done).
  - apply truth_true in T. destruct ns2 as [|[k u] ns2]; [cbn in T; lia|]. cbn in Heqec |- *.
    rewrite <- Heqec. lk.
  - apply truth_false in T. destruct ns2; [cbn; lk|cbn in T; lia].
Qed.

Lemma append_ok m L1 ns1 L2 ns2 :
  rep m L1 ns1 -> rep m L2 ns2 -> apart L1 ns1 L2 ns2 ->
  Z.of_nat (length ns1 + length ns2) < 2 ^ 32 ->
  exists m', base_list.append L1 L2 m = Some (tt, m') /\ rep m' L1 (ns1 ++ ns2) /\
    untouched (L1 :: ns1.*1) m m'.
Proof.
  intros H1 H2 Ha Hlen. unfold base_list.append.
  rewrite (run_bind _ _ _ _ _ (is_empty_ok _ _ _ H2)). case_bool_decide as E2.
  { subst ns2. exists m. rewrite app_nil_r. split; [done|]. split; [done|]. apply untouched_refl. }
  rewrite (run_bind _ _ _ _ _ (is_empty_ok _ _ _ H1)). case_bool_decide as E1.
  { subst ns1. destruct (assign_ok _ _ _ _ _ H1 H2 Ha) as (m' & ? & ? & ?). by exists m'. }
  pose proof (apart_nodup _ _ _ _ _ H1 H2 Ha) as [Hnd _].
  pose proof (end_cell_outside _ _ _ _ _ H1 H2 Ha) as [O1 O2].
  assert (HL : L1 ∉ L2 :: ns2.*1) by (apply Ha; left). apply not_elem_of_cons in HL as [HL1 HL2].
  open_rep H1 ec1. open_rep H2 ec2. pose proof (cseg_head _ _ _ _ rep_seg1) as Hh.
  apply not_elem_of_cons in O1 as [O11 O12]. apply not_elem_of_cons in O2 as [O21 O22].
  unfold base_list.incr_elements. cells. mrun.
  assert (Ee : ec1.1 <> end_of_list) by (intros E; rewrite E in *; mem_solve).
  eexists. split; [reflexivity|]. split; [|untouched_tac].
  constructor; cells; [| |rep_count|rewrite length_app; lia|done|lk|lk].
  - apply cseg_app. exists (match ns2 with [] => end_of_list | (n, _) :: _ => n end).
    rewrite <- Heqec1. split.
    + cseg_frame_tac. rewrite Heqec1. by apply cseg_redirect with end_of_list.
    + apply (cseg_move m _ (L2, 0%nat)); [done|rewrite Hh; lk|].
      intros n f Hn. assert (n <> L1) by congruence.
      assert (ec1 <> (n, f)) by (intros E; rewrite E in *; done).
      rewrite !lookup_insert_ne by congruence. done.
  - rewrite end_cell_app, <- Heqec1.
    replace (end_cell ec1 ns2) with ec2; [lk|].
    destruct ns2 as [|[k u] ns2]; [done|]. by rewrite Heqec2.
Qed.

Lemma prepend_ok m L1 ns1 L2 ns2 :
  rep m L1 ns1 -> rep m L2 ns2 -> apart L1 ns1 L2 ns2 ->
  Z.of_nat (length ns1 + length ns2) < 2 ^ 32 ->
  exists m', base_list.prepend L1 L2 m = Some (tt, m') /\ rep m' L1 (ns2 ++ ns1) /\
    untouched (L1 :: L2 :: ns2.*1) m m'.
Proof.
  intros H1 H2 Ha Hlen. unfold base_list.prepend.
  rewrite (run_bind _ _ _ _ _ (is_empty_ok _ _ _ H2)). case_bool_decide as E2.
  { subst ns2. exists m. split; [done|]. split; [done|]. apply untouched_refl. }
  rewrite (run_bind _ _ _ _ _ (is_empty_ok _ _ _ H1)).
  pose proof (apart_nodup _ _ _ _ _ H1 H2 Ha) as [_ Hnd].
  pose proof (end_cell_outside _ _ _ _ _ H1 H2 Ha) as [O1 O2].
  assert (HL : L1 ∉ L2 :: ns2.*1) by (apply Ha; left). apply not_elem_of_cons in HL as [HL1 HL2].
  open_rep H1 ec1. open_rep H2 ec2. pose proof (cseg_head _ _ _ _ rep_seg1) as Hh.
  pose proof (cseg_head _ _ _ _ rep_seg0) as Hh0.
  apply not_elem_of_cons in O1 as [O11 O12]. apply not_elem_of_cons in O2 as [O21 O22].
  assert (Ec2 : exists k, k ∈ ns2.*1 /\ ec2 = (k, 0%nat)).
  { destruct (end_cell_in (base_list.first L2) ns2) as [E|E]; rewrite <- Heqec2 in E; [|done].
    exfalso. apply E2, (end_cell_first L2); [done|]. by rewrite <- Heqec2. }
  destruct Ec2 as (k & Hk & Ek).
  unfold base_list.incr_elements. cells.
  assert (Hcase : forall m',
    (forall l, l.1 <> L1 -> l <> ec2 -> m' !! l = m !! l) ->
    m' !! ec2 = m !! (L1, 0%nat) -> m' !! (L1, 0%nat) = m !! (L2, 0%nat) ->
    m' !! (L1, 1%nat) = Some (Vptr (end_cell (L1, 0%nat) (ns2 ++ ns1))) ->
    m' !! (L1, 2%nat) = Some (Vint (Z.of_nat (length ns2 + length ns1))) ->
    rep m' L1 (ns2 ++ ns1)).
  { intros m' E1 E3 E4 E5 E6.
    constructor; cells; [| |by rewrite length_app|rewrite length_app; lia|done|..].
    - apply cseg_app. exists (match ns1 with [] => end_of_list | (n, _) :: _ => n end). split.
      + apply (cseg_move (<[ec2 := Vptr (match ns1 with [] => end_of_list | (n, _) :: _ => n end, 0%nat)]> m)
                 m' (L2, 0%nat)).
        * rewrite Heqec2. by apply cseg_redirect with end_of_list.
        * rewrite lookup_insert_ne by (rewrite Ek; congruence). done.
        * intros n f Hn. destruct (decide (ec2 = (n, f))) as [<-|Hne].
          -- by rewrite lookup_insert_eq, E3.
          -- rewrite lookup_insert_ne by done. apply E1; [cbn; congruence|done].
      + replace (end_cell (L1, 0%nat) ns2) with ec2
          by (destruct ns2 as [|[? ?] ?]; [done|by rewrite Heqec2]).
        apply (cseg_move m _ (L1, 0%nat)); [done|done|].
        intros n f Hn. apply E1; [cbn; congruence|]. intros <-. done.
    - done.
    - rewrite E1; [done|cbn; congruence|]. rewrite Ek. congruence.
    - rewrite E1; [done|cbn; congruence|]. rewrite Ek. congruence. }
  assert (Hl : end_cell (L1, 0%nat) (ns2 ++ ns1) = if decide (ns1 = []) then ec2 else ec1).
  { rewrite end_cell_app. replace (end_cell (L1, 0%nat) ns2) with ec2
      by (destruct ns2 as [|[? ?] ?]; [done|by rewrite Heqec2]).
    destruct (decide (ns1 = [])) as [->|Hne]; [done|]. destruct ns1 as [|[? ?] ?]; [done|].
    by rewrite Heqec1. }
  assert (Hc : u32 (Z.of_nat (length ns1) + Z.of_nat (length ns2)) = Z.of_nat (length ns2 + length ns1))
    by (rewrite wrap_small by (unfold in_u; lia); lia).
  case_bool_decide as E1; mrun; rewrite Hc; eexists; (split; [reflexivity|]);
    (split; [|untouched_tac]); apply Hcase; try (rewrite ?Hh, ?Hh0; lk); try lk;
    try (intros [l f] ? ?; cbn in *; rewrite !lookup_insert_ne by congruence; done).
  - rewrite Hl, decide_True by done. lk.
  - rewrite Hl, decide_False by done. lk.
Qed.

(** The first node [add_unique] accepts, or the sentinel. *)
Lemma add_unique_loop_ok m c ns eq info nd fuel :
  cseg m c ns end_of_list -> end_of_list ∉ ns.*1 -> m !! c = Some (Vptr nd) ->
  (length ns <= fuel)%nat ->
  exists nd', base_list.add_unique_loop fuel eq info nd m = Some (nd', m) /\
    (nd' = eol <-> forallb (fun i => negb (eq i info)) (infos ns) = true).
Proof.
  revert c nd fuel. induction ns as [|[n v] ns IH]; intros c nd fuel Hs Hn Hc Hf; cbn [cseg] in Hs.
  - rewrite Hc in Hs. injection Hs as ->. exists eol. destruct fuel; cbn [base_list.add_unique_loop];
      rewrite bool_decide_eq_false_2 by (intros E; by apply E); done.
  - destruct Hs as (H1 & H2 & H3). rewrite Hc in H1. injection H1 as ->.
    rewrite fmap_cons, not_elem_of_cons in Hn. cbn [fst] in Hn.
    pose proof (cseg_head _ _ _ _ H3) as Hh. cbn [length] in Hf. destruct fuel as [|fuel]; [lia|].
    cbn [base_list.add_unique_loop fmap list_fmap snd forallb]. cells.
    rewrite bool_decide_eq_true_2 by (intros [= ->]; tauto).
    mrun. destruct (eq v info) eqn:Ev; cbn [negb].
    + exists (n, 0%nat). split; [done|]. split; [intros [= ->]; tauto|done].
    + mrun. apply IH with (n, 0%nat); [done|tauto|done|lia].
Qed.

(** [add_unique] is [push_back] unless an element is equal to the new one. *)
Lemma add_unique_run m L ns eq info fuel : rep m L ns -> (length ns <= fuel)%nat ->
  base_list.add_unique fuel L info eq m =
    if forallb (fun i => negb (eq i info)) (infos ns) then base_list.push_back L info m else Some (true, m).
Proof.
  intros Hr Hf. open_rep Hr ec. pose proof (cseg_head _ _ _ _ rep_seg0) as Hh. unfold base_list.add_unique.
  erewrite bind_load_ptr by (cells; exact Hh).
  destruct (add_unique_loop_ok m _ ns eq info _ fuel rep_seg0 N1 Hh Hf) as (nd & E & Hnd).
  rewrite (run_bind _ _ _ _ _ E). destruct (forallb _ _).
  - by rewrite bool_decide_eq_true_2 by (by apply Hnd).
  - by rewrite bool_decide_eq_false_2 by (intros ->; discriminate (proj1 Hnd eq_refl)).
Qed.

(** Inserting after a node. *)
Lemma after_ok m L xs n v ys info o :
  rep m L (xs ++ (n, v) :: ys) -> alloc m = Some o ->
  Z.of_nat (length (xs ++ (n, v) :: ys)) + 1 < 2 ^ 32 ->
  exists m', base_list.after L info (n, 0%nat) m = Some (tt, m') /\
    rep m' L (xs ++ (n, v) :: (o, info) :: ys) /\ untouched [L; n] m m' /\
    m' !! (n, 0%nat) = Some (Vptr (o, 0%nat)).
Proof.
  intros Hr Ho Hlen. pose proof (alloc_fresh m o Ho) as Hf.
  destruct (rep_allocated _ _ _ _ Hr Hf) as (F1 & F2 & F3). pose proof (rep_nodup _ _ _ Hr) as Hnd.
  open_rep Hr ec. cells.
  pose proof (cseg_at _ _ _ _ _ _ _ rep_seg0) as (S1 & S2 & S3 & S4).
  pose proof (cseg_head _ _ _ _ S4) as Hh.
  rewrite end_cell_app in Heqec. cbn [end_cell] in Heqec.
  assert (Hn : n ∉ ys.*1 /\ n ∉ xs.*1 /\ L <> n /\ end_of_list <> n /\ o <> n).
  { rewrite fmap_app, fmap_cons, NoDup_app_iff, NoDup_cons_iff in N2. cbn [fst] in N2.
    destruct N2 as (_ & Hd & ? & ?). split; [done|]. split; [intros Hx; apply (Hd n Hx); left|].
    rewrite fmap_app, fmap_cons, not_elem_of_app, not_elem_of_cons in N0, N1, F3. cbn [fst] in *. tauto. }
  destruct Hn as (Hn1 & Hn2 & Hn3 & Hn4 & Hn5).
  assert (Hnd' : NoDup (L :: end_of_list :: (xs ++ (n, v) :: (o, info) :: ys).*1)).
  { assert (Hp : (xs ++ (n, v) :: (o, info) :: ys).*1 ≡ₚ o :: (xs ++ (n, v) :: ys).*1)
      by (rewrite !fmap_app, !fmap_cons; cbn; by rewrite (Permutation_swap o n), Permutation_middle).
    rewrite Hp. rewrite !NoDup_cons_iff, !not_elem_of_cons in *.
    assert (L <> o /\ end_of_list <> o) by done. tauto. }
  rewrite length_app in *. cbn [length] in *.
  unfold base_list.after, list_node_new, base_list.incr_elements. cells. mrun.
  erewrite bind_new by done. cbn [write_fields]. mrun.
  assert (Hcase : forall m',
    (forall l, l.1 <> L -> l.1 <> o -> l <> (n, 0%nat) -> m' !! l = m !! l) ->
    m' !! (L, 0%nat) = m !! (L, 0%nat) ->
    m' !! (n, 0%nat) = Some (Vptr (o, 0%nat)) -> m' !! (o, 1%nat) = Some info ->
    m' !! (o, 0%nat) = m !! (n, 0%nat) ->
    m' !! (L, 1%nat) = Some (Vptr (end_cell (o, 0%nat) ys)) ->
    m' !! (L, 2%nat) = Some (Vint (Z.of_nat (length xs + S (S (length ys))))) ->
    rep m' L (xs ++ (n, v) :: (o, info) :: ys)).
  { intros m' E1 E2 E3 E4 E5 E6 E7.
    rewrite fmap_app, fmap_cons, not_elem_of_app, not_elem_of_cons in N0, N1, F3. cbn [fst] in *.
    constructor; cells; [| |by rewrite length_app|rewrite length_app; cbn; lia|done| |].
    - apply cseg_app. exists n. split.
      + apply (cseg_frame m); [done| |done]. intros j f Hj. apply E1; cbn; [intros ->|intros ->|]; 
          [tauto|tauto|congruence].
      + cbn [cseg]. destruct (end_cell_in (L, 0%nat) xs) as [Ex|(j & Hj & Ex)]; rewrite Ex in *.
        * rewrite E2, E3, E4. repeat split; [done|rewrite E1; [done|cbn; congruence..]|].
          apply (cseg_move m _ (n, 0%nat)); [done|done|]. intros i f Hi.
          apply E1; cbn; [intros ->|intros ->|]; [tauto|tauto|congruence].
        * rewrite (E1 (j, 0%nat)), E3, E4 by (cbn; congruence || (intros ->; tauto)).
          repeat split; [done|rewrite E1; [done|cbn; congruence..]|].
          apply (cseg_move m _ (n, 0%nat)); [done|done|]. intros i f Hi.
          apply E1; cbn; [intros ->|intros ->|]; [tauto|tauto|congruence].
    - by rewrite end_cell_app.
    - rewrite E1; [done|cbn; congruence..].
    - rewrite E1; [done|cbn; congruence..]. }
  assert (Hc : u32 (Z.of_nat (length xs + S (length ys)) + 1) = Z.of_nat (length xs + S (S (length ys))))
    by (rewrite wrap_small by (unfold in_u; lia); lia).
  rewrite Hc. case_bool_decide as Hb; mrun; eexists; (split; [reflexivity|]);
    (split; [|split; [untouched_tac|lk]]); apply Hcase; try (rewrite Hh; lk); try lk;
    try (intros [l f] ? ? ?; cbn in *; rewrite !lookup_insert_ne by congruence; done).
  - assert (ys = []) as -> by (apply (end_cell_last n); congruence). cbn. lk.
  - destruct ys as [|[k u] ys]; [cbn in Heqec; congruence|]. cbn in Heqec |- *. rewrite <- Heqec. lk.
Qed.
End Ops.

(** * Abstract lists

    The operations of one list as commands, run on memory and on the sequence
    of stored pointers. *)
Inductive cmd :=
| PushBack (v : val)
| PushFront (v : val)
| Pop
| Head
| Elem (k : nat)
| IsEmpty
| AddUnique (v : val).

Definition of_bool (b : bool) : val := Vint (if b then 1 else 0).

Section Simulation.
Context (List_eq : val -> val -> bool).

Definition run_cmd `{Allocator} (fuel L : nat) (c : cmd) : M val :=
  match c with
  | PushBack v => let* b := base_list.push_back L v in ret (of_bool b)
  | PushFront v => let* b := base_list.push_front L v in ret (of_bool b)
  | Pop => base_list.pop L
  | Head => base_list.head L
  | Elem k => base_list.elem L k
  | IsEmpty => let* b := base_list.is_empty L in ret (of_bool b)
  | AddUnique v => let* b := base_list.add_unique fuel L v List_eq in ret (of_bool b)
  end.

(** The sequence.  [room]: whether memory can be allocated.  [None]: the list is
    broken, as [push_back] leaves it when there is no memory. *)
Definition abs_cmd (room : bool) (c : cmd) (l : list val) : option (val * list val) :=
  match c with
  | PushBack v => if room then Some (of_bool false, l ++ [v]) else None
  | PushFront v => Some (if room then (of_bool false, v :: l) else (of_bool true, l))
  | Pop => Some (default Vnull (l !! 0%nat), tail l)
  | Head => Some (default Vnull (l !! 0%nat), l)
  | Elem k => Some (default Vnull (l !! k), l)
  | IsEmpty => Some (of_bool (bool_decide (l = [])), l)
  | AddUnique v =>
      if forallb (fun i => negb (List_eq i v)) l then
        if room then Some (of_bool false, l ++ [v]) else None
      else Some (of_bool true, l)
  end.
Definition room (A : Allocator) (m : mem) : bool := match @alloc A m with Some _ => true | None => false end.

(** [sim cs m l rs m' l']: the commands [cs], each with the allocator that serves
    it, lead from [m] to [m'] with the results [rs], and the same commands on the
    sequence lead from [l] to [l'] with the same results. *)
Inductive sim (fuel L : nat) : list (Allocator * cmd) -> mem -> list val -> list val -> mem -> list val -> Prop :=
| sim_nil m l : sim fuel L [] m l [] m l
| sim_cons A c cs m l r m1 l1 rs m' l' :
    @run_cmd A fuel L c m = Some (r, m1) -> abs_cmd (room A m) c l = Some (r, l1) ->
    sim fuel L cs m1 l1 rs m' l' -> sim fuel L ((A, c) :: cs) m l (r :: rs) m' l'.

Lemma infos_nil (ns : list (nat * val)) : infos ns = [] <-> ns = [].
Proof. destruct ns; [done|]. split; discriminate. Qed.

(** The state after a command: what it represents, and where its nodes come
    from. *)
Record stepped (m m' : mem) (L : nat) (ns ns' : list (nat * val)) (l : list val) : Prop := {
  stepped_rep : rep m' L ns';
  stepped_infos : infos ns' = l;
  stepped_frame : untouched (L :: ns.*1) m m';
  stepped_length : (length ns' <= S (length ns))%nat;
  stepped_nodes : forall x, x ∈ ns'.*1 -> x ∈ ns.*1 \/ forall f, m !! (x, f) = None }.

Lemma stepped_same m L ns : rep m L ns -> stepped m m L ns ns (infos ns).
Proof. intros Hr. split; auto. apply untouched_refl. Qed.

Lemma stepped_append m m' L ns o v : (forall f, m !! (o, f) = None) ->
  rep m' L (ns ++ [(o, v)]) -> untouched (L :: ns.*1) m m' ->
  stepped m m' L ns (ns ++ [(o, v)]) (infos ns ++ [v]).
Proof.
  intros Hf Hr Hu. split; auto; rewrite ?fmap_app, ?length_app; cbn; [done|lia|set_solver].
Qed.

Lemma stepped_fewer m m' L ns ns' (l : list val) : rep m' L ns' -> infos ns' = l -> untouched [L] m m' ->
  (length ns' <= S (length ns))%nat -> (forall x, x ∈ ns'.*1 -> x ∈ ns.*1 \/ forall f, m !! (x, f) = None) ->
  stepped m m' L ns ns' l.
Proof.
  intros Hr Hi Hu Hl Hn. split; auto. intros lc v Hl' E. apply Hu; [|done].
  apply not_elem_of_cons in Hl' as [? _]. set_solver.
Qed.

(** One command: as the sequence does it, or broken by [push_back]. *)
Lemma run_cmd_ok (A : Allocator) (HA : @LawfulAllocator A) m L ns c fuel :
  rep m L ns -> Z.of_nat (length ns) + 1 < 2 ^ 32 -> (length ns <= fuel)%nat ->
  match abs_cmd (room A m) c (infos ns) with
  | Some (r, l) => exists m' ns', run_cmd fuel L c m = Some (r, m') /\ stepped m m' L ns ns' l
  | None => alloc m = None /\
      run_cmd fuel L c m = Some (of_bool true, <[end_cell (base_list.first L) ns := Vnull]> m)
  end.
Proof.
  intros Hr Hl Hf. pose proof (stepped_same m L ns Hr) as St. unfold room.
  assert (PB : forall v o, alloc m = Some o -> exists m' ns',
    base_list.push_back L v m = Some (false, m') /\ stepped m m' L ns ns' (infos ns ++ [v])).
  { intros v o Ho. destruct (push_back_ok m L ns v o Hr Ho Hl) as (m' & E & Hr' & Hu).
    exists m', (ns ++ [(o, v)]). split; [done|]. apply stepped_append; [by apply alloc_fresh|done..]. }
  destruct c as [v|v| | |k| |v]; cbn [run_cmd abs_cmd].
  - destruct (alloc m) as [o|] eqn:Ho.
    + destruct (PB v o eq_refl) as (m' & ns' & E & S). exists m', ns'. by rewrite (run_bind _ _ _ _ _ E).
    + split; [done|]. by rewrite (run_bind _ _ _ _ _ (push_back_oom m L ns v Hr Ho)).
  - destruct (alloc m) as [o|] eqn:Ho.
    + destruct (push_front_ok m L ns v o Hr Ho Hl) as (m' & E & Hr' & Hu). pose proof (alloc_fresh m o Ho).
      exists m', ((o, v) :: ns). rewrite (run_bind _ _ _ _ _ E). split; [done|].
      apply stepped_fewer; cbn; auto; set_solver.
    + exists m, ns. by rewrite (run_bind _ _ _ _ _ (push_front_oom m L ns v Hr Ho)).
  - destruct ns as [|[n v] ns].
    + exists m, []. by rewrite pop_empty.
    + destruct (pop_ok m L n v ns Hr) as (m' & E & Hr' & Hu).
      exists m', ns. rewrite E. split; [done|]. apply stepped_fewer; cbn; auto. set_solver.
  - exists m, ns. by rewrite (head_ok m L ns).
  - exists m, ns. by rewrite (elem_ok m L ns).
  - exists m, ns. rewrite (run_bind _ _ _ _ _ (is_empty_ok m L ns Hr)).
    by rewrite (bool_decide_ext _ _ (infos_nil ns)).
  - pose proof (add_unique_run m L ns List_eq v fuel Hr Hf) as E. destruct (forallb _ _) eqn:EF.
    + destruct (alloc m) as [o|] eqn:Ho.
      * destruct (PB v o eq_refl) as (m' & ns' & E' & S). rewrite E' in E. exists m', ns'.
        by rewrite (run_bind _ _ _ _ _ E).
      * split; [done|]. rewrite (push_back_oom m L ns v Hr Ho) in E. by rewrite (run_bind _ _ _ _ _ E).
    + exists m, ns. by rewrite (run_bind _ _ _ _ _ E).
Qed.

(** The commands [cs] from [m], which represents [ns]: those before the first
    that breaks the list, and that one. *)
Definition simulates (fuel L : nat) (cs : list (Allocator * cmd)) (m : mem) (ns : list (nat * val)) : Prop :=
  exists pre post rs m' ns',
    cs = pre ++ post /\ sim fuel L pre m (infos ns) rs m' (infos ns') /\ rep m' L ns' /\
    untouched (L :: ns.*1) m m' /\
    match post with
    | [] => True
    | (A, c) :: _ => @alloc A m' = None /\ abs_cmd false c (infos ns') = None /\
        @run_cmd A fuel L c m' = Some (of_bool true, <[end_cell (base_list.first L) ns' := Vnull]> m')
    end.

Lemma run_cmds_ok cs : Forall (fun ac => @LawfulAllocator ac.1) cs -> forall m L ns fuel,
  rep m L ns -> Z.of_nat (length ns + length cs) < 2 ^ 32 -> (length ns + length cs <= fuel)%nat ->
  simulates fuel L cs m ns.
Proof.
  induction 1 as [|[A c] cs HA _ IH]; intros m L ns fuel Hr Hl Hf; cbn [length fst] in *.
  { exists [], [], [], m, ns. split; [done|]. split; [constructor|]. split; [done|]. split; [apply untouched_refl|done]. }
  pose proof (run_cmd_ok A HA m L ns c fuel Hr ltac:(lia) ltac:(lia)) as R.
  destruct (abs_cmd _ _ _) as [[r l]|] eqn:Ea.
  - destruct R as (m1 & ns1 & E & [Hr1 Hi Hu Hlen Hin]).
    destruct (IH m1 L ns1 fuel Hr1 ltac:(lia) ltac:(lia)) as (pre & post & rs & m2 & ns2 & -> & Hs & Hr2 & Hu2 & Hp).
    exists ((A, c) :: pre), post, (r :: rs), m2, ns2. split; [done|]. split; [econstructor; [done|done|]; by rewrite <- Hi|].
    split; [done|]. split; [|done]. intros lc v Hlc Hv. apply Hu2; [|by apply Hu].
    intros Hx. apply elem_of_cons in Hx as [Hx|Hx]; [set_solver|].
    destruct (Hin _ Hx) as [Hx'|Hx']; [set_solver|]. rewrite (surjective_pairing lc) in Hv. congruence.
  - destruct R as [Ho E]. exists [], ((A, c) :: cs), [], m, ns. split; [done|]. split; [constructor|].
    split; [done|]. split; [apply untouched_refl|]. split; [done|]. split; [|done].
    unfold room in Ea. by rewrite Ho in Ea.
Qed.
End Simulation.

(** * Properties *)

(** A memory with the sentinel and an empty list object. *)
Definition empty_list_mem (L : nat) : mem :=
  <[(L, 0%nat) := Vptr eol]> (<[(L, 1%nat) := Vptr (L, 0%nat)]> (<[(L, 2%nat) := Vint 0]>
    (<[eol := Vptr eol]> (<[node_info eol := Vnull]> ∅)))).

Lemma empty_list_rep L : L <> end_of_list -> rep (empty_list_mem L) L [].
Proof.
  intros HL. unfold empty_list_mem. constructor; cells; try lk; [|cbn; lia|].
  - cbn. lk.
  - apply objects_nodup; [done|set_solver..|apply NoDup_nil_2].
Qed.

(** The allocator that always finds an unused object. *)
Definition total_alloc : Allocator := fun m => Some (fresh (objects m)).

Lemma total_lawful : @LawfulAllocator total_alloc.
Proof.
  intros m o. unfold alloc, total_alloc. intros [= <-]. apply (bump_lawful (S (size m)) m).
  unfold alloc, bump_alloc. by rewrite (proj2 (Nat.ltb_lt _ _)) by lia.
Qed.

(** C5: a [base_list] behaves like a sequence of pointers under any succession
    of [push_back], [push_front], [pop], [head], [elem], [is_empty] and
    [add_unique], whether or not there is memory for a command (each has its own
    allocator), up to the first [push_back], or [add_unique] that calls it, for
    which there is none: each command returns what it returns on the sequence,
    where a [push_front] without memory returns 1 and changes nothing; the final
    nodes hold the final sequence, the structure is well-formed (end pointer,
    element count, sentinel) and no other object has changed.  The [push_back]
    without memory returns 1 and leaves NULL in the last [next].  The count has
    to fit its 32 bits. *)
Theorem base_list_simulates_sequence (List_eq : val -> val -> bool) (cs : list (Allocator * cmd))
    (m : mem) (L : nat) (ns : list (nat * val)) (fuel : nat)
    (HA : Forall (fun ac => @LawfulAllocator ac.1) cs) (Hr : rep m L ns)
    (Hcount : Z.of_nat (length ns + length cs) < 2 ^ 32)
    (Hfuel : (length ns + length cs <= fuel)%nat) :
  exists pre post rs m' ns',
    cs = pre ++ post /\ sim List_eq fuel L pre m (infos ns) rs m' (infos ns') /\ rep m' L ns' /\
    untouched (L :: ns.*1) m m' /\
    match post with
    | [] => True
    | (A, c) :: _ => @alloc A m' = None /\ abs_cmd List_eq false c (infos ns') = None /\
        @run_cmd List_eq A fuel L c m' =
          Some (of_bool true, <[end_cell (base_list.first L) ns' := Vnull]> m')
    end.
Proof. by apply run_cmds_ok. Qed.

(** A memory that is full from the fourth command on. *)
Definition some_cmds : list (Allocator * cmd) :=
  [(total_alloc, PushBack (Vint 1)); (total_alloc, PushFront (Vint 2)); (total_alloc, AddUnique (Vint 1));
   (bump_alloc 0, PushFront (Vint 3)); (bump_alloc 0, Pop); (bump_alloc 0, PushBack (Vint 4));
   (total_alloc, Head)].

Lemma base_list_simulates_witness :
  exists pre post rs m' ns', some_cmds = pre ++ post /\
    sim (fun a b => bool_decide (a = b)) 9 7 pre (empty_list_mem 7) [] rs m' (infos ns') /\ rep m' 7 ns'.
Proof.
  destruct (base_list_simulates_sequence (fun a b => bool_decide (a = b)) some_cmds
    (empty_list_mem 7) 7 [] 9
    ltac:(repeat constructor; cbn [fst]; first [apply total_lawful|apply bump_lawful])
    (empty_list_rep 7 ltac:(done)) ltac:(cbn; lia) ltac:(cbn; lia))
    as (pre & post & rs & m' & ns' & E & H1 & H2 & _).
  exists pre, post, rs, m', ns'. exact (conj E (conj H1 H2)).
Defined.

(** Two disjoint lists: object 7 with nodes 8 and 9, object 17 with node 18. *)
Definition cell (o f : nat) (v : val) : loc * val := ((o, f), v).
Definition ptr (o f : nat) : val := Vptr (o, f).
Definition two_lists_mem : mem := list_to_map
  [cell 7 0 (ptr 8 0); cell 7 1 (ptr 9 0); cell 7 2 (Vint 2);
   cell 8 0 (ptr 9 0); cell 8 1 (Vint 100); cell 9 0 (ptr 0 0); cell 9 1 (Vint 200);
   cell 17 0 (ptr 18 0); cell 17 1 (ptr 18 0); cell 17 2 (Vint 1);
   cell 18 0 (ptr 0 0); cell 18 1 (Vint 300); cell 0 0 (ptr 0 0); cell 0 1 Vnull].

Lemma two_lists_rep :
  rep two_lists_mem 7 [(8%nat, Vint 100); (9%nat, Vint 200)] /\
  rep two_lists_mem 17 [(18%nat, Vint 300)] /\
  apart 7 [(8%nat, Vint 100); (9%nat, Vint 200)] 17 [(18%nat, Vint 300)].
Proof.
  split; [|split].
  - constructor; [repeat split|reflexivity..|reflexivity| |reflexivity|reflexivity].
    apply (bool_decide_unpack _). vm_compute. exact I.
  - constructor; [repeat split|reflexivity..|reflexivity| |reflexivity|reflexivity].
    apply (bool_decide_unpack _). vm_compute. exact I.
  - intros x Hx. cbn in Hx. rewrite !elem_of_cons, elem_of_nil in Hx.
    destruct Hx as [->|[->|[->|[]]]]; apply (bool_decide_unpack _); vm_compute; exact I.
Qed.

(** [append] and [prepend] splice another list's nodes to the end or the
    front (without copying them): the list becomes the concatenation in the
    right order with its end pointer and count correct, for empty and non-empty
    lists alike; [append] writes to no object outside this list. *)
Theorem base_list_append_prepend (m : mem) (L1 L2 : nat) (ns1 ns2 : list (nat * val))
    (H1 : rep m L1 ns1) (H2 : rep m L2 ns2) (Ha : apart L1 ns1 L2 ns2)
    (Hcount : Z.of_nat (length ns1 + length ns2) < 2 ^ 32) :
  (exists m', base_list.append L1 L2 m = Some (tt, m') /\ rep m' L1 (ns1 ++ ns2) /\
     untouched (L1 :: ns1.*1) m m') /\
  (exists m', base_list.prepend L1 L2 m = Some (tt, m') /\ rep m' L1 (ns2 ++ ns1) /\
     untouched (L1 :: L2 :: ns2.*1) m m').
Proof.
  split; [by apply (@append_ok total_alloc total_lawful)|by apply (@prepend_ok total_alloc total_lawful)].
Qed.

Lemma base_list_append_prepend_witness :
  exists m', base_list.append 7 17 two_lists_mem = Some (tt, m') /\
    rep m' 7 [(8%nat, Vint 100); (9%nat, Vint 200); (18%nat, Vint 300)].
Proof.
  destruct two_lists_rep as (H1 & H2 & Ha).
  destruct (proj1 (base_list_append_prepend two_lists_mem 7 17 _ _ H1 H2 Ha ltac:(cbn; lia)))
    as (m' & E & Hr & _).
  exists m'. exact (conj E Hr).
Defined.

(** when memory runs out, [push_back] reports failure (1) but has already
    stored NULL in the last [next] cell, so the list is no longer terminated by
    the sentinel: looking past its last element, which returned NULL before,
    now dereferences NULL. *)
Theorem base_list_push_back_oom (A : Allocator) (m : mem) (L : nat) (ns : list (nat * val)) (v : val)
    (Hr : rep m L ns) (Hoom : alloc m = None) :
  exists m', base_list.push_back L v m = Some (true, m') /\
    base_list.elem L (length ns) m = Some (Vnull, m) /\
    base_list.elem L (length ns) m' = None.
Proof.
  exists (<[end_cell (base_list.first L) ns := Vnull]> m).
  split; [by apply push_back_oom|]. split.
  { rewrite (elem_ok m L ns) by done. by rewrite lookup_ge_None_2 by by rewrite length_fmap. }
  open_rep Hr ec. subst ec. clear -rep_seg0 N0 N1 N2. unfold base_list.elem. cells.
  destruct ns as [|[n w] ns]; cbn [end_cell length].
  { unfold bind at 1, load_ptr, bind, load. by rewrite lookup_insert_eq. }
  cbn [cseg] in rep_seg0. destruct rep_seg0 as (S1 & S2 & S3).
  pose proof (end_cell_1 (n, 0%nat) ns) as He. rewrite fmap_cons, not_elem_of_cons in N0, N1.
  rewrite fmap_cons, NoDup_cons_iff in N2. cbn [fst] in *.
  erewrite bind_load_ptr by (rewrite lookup_insert_ne by (intros E; rewrite E in He; mem_solve); done).
  assert (G : forall n w d, m !! (n, 1%nat) = Some w -> cseg m (n, 0%nat) ns end_of_list ->
    end_of_list <> n /\ end_of_list ∉ ns.*1 -> n ∉ ns.*1 /\ NoDup ns.*1 ->
    base_list.elem_loop (S (S (length ns))) (n, 0%nat) d (<[end_cell (n, 0%nat) ns := Vnull]> m) = None).
  { clear. induction ns as [|[k u] ns IH]; intros n w d S2 S3 N1 N2.
    - cbn [length base_list.elem_loop end_cell]. cells.
      rewrite bool_decide_eq_false_2 by (intros [= ->]; tauto).
      mrun. unfold bind at 1, load_ptr, bind, load. by rewrite lookup_insert_eq.
    - cbn [cseg] in S3. destruct S3 as (S4 & S5 & S6).
      rewrite fmap_cons, ?not_elem_of_cons in N1, N2. rewrite NoDup_cons_iff in N2. cbn [fst] in *.
      pose proof (end_cell_1 (k, 0%nat) ns) as He. pose proof (end_cell_2 (k, 0%nat) ns eq_refl) as He2.
      cbn [length end_cell]. rewrite elem_loop_S. cells.
      rewrite bool_decide_eq_false_2 by (intros [= ->]; tauto).
      remember (end_cell (k, 0%nat) ns) as ec. mrun. subst ec.
      apply (IH k u); [done|done|tauto|tauto]. }
  exact (G n w Vnull S2 S3 N1 N2).
Qed.

Lemma base_list_push_back_oom_witness :
  exists m', @base_list.push_back (bump_alloc 0) 7 (Vint 1) (empty_list_mem 7) = Some (true, m') /\
    base_list.elem 7 0 m' = None.
Proof.
  destruct (base_list_push_back_oom (bump_alloc 0) (empty_list_mem 7) 7 [] (Vint 1)
    (empty_list_rep 7 ltac:(done)) eq_refl) as (m' & E & _ & E').
  exists m'. exact (conj E E').
Defined.
