(* ===== verification/ListIter.v ===== *)
(** Iterating over a base_list: enumeration, removal and replacement while
    iterating, and bubble_sort. *)
From S2P Require Import Prelude Memory SqlList BaseList.
From Stdlib Require Import Sorting.
Import base_list_iterator.
Open Scope Z_scope.
Open Scope mem_scope.

(** * Steps of the iterator

    An iterator of [L] that has passed the nodes [xs]. *)
Definition iter_pos (it : iter) (L : nat) (xs : list (nat * val)) : Prop :=
  it_list it = L /\ el it = end_cell (base_list.first L) xs.

Lemma init_pos L : iter_pos (init L) L [].
Proof. done. Qed.

Lemma rewind_pos it L xs : iter_pos it L xs -> iter_pos (rewind it) L [].
Proof. intros [<- _]. done. Qed.

Lemma next_ok m L xs n v ys it :
  rep m L (xs ++ (n, v) :: ys) -> iter_pos it L xs ->
  next it m = Some ((v, {| it_list := L; el := (n, 0%nat);
    prev := Vptr (end_cell (base_list.first L) xs); current := Vptr (n, 0%nat) |}), m).
Proof.
  intros Hr [<- Hel]. pose proof (cseg_at _ _ _ _ _ _ _ (rep_seg _ _ _ Hr)) as (S1 & S2 & S3 & S4).
  unfold next. rewrite Hel. mrun. cells. mrun. done.
Qed.

Lemma next_end m L xs it :
  rep m L xs -> iter_pos it L xs ->
  exists it', next it m = Some ((Vnull, it'), m) /\ it_list it' = L.
Proof.
  intros Hr [<- Hel]. pose proof (cseg_end _ _ _ _ (rep_seg _ _ _ Hr)) as He.
  pose proof (rep_eol_info _ _ _ Hr) as Hi.
  unfold next. rewrite Hel. cells. mrun. eauto.
Qed.

Lemma iter_pos_step L xs n v p c :
  iter_pos {| it_list := L; el := (n, 0%nat); prev := p; current := c |} L (xs ++ [(n, v)]).
Proof. split; [done|]. cbn. by rewrite end_cell_app. Qed.

(** ** Stores into an info field *)

Lemma cseg_set_info m c xs n v w ys q :
  cseg m c (xs ++ (n, v) :: ys) q -> c <> (n, 1%nat) -> NoDup (xs ++ (n, v) :: ys).*1 ->
  cseg (<[(n, 1%nat) := w]> m) c (xs ++ (n, w) :: ys) q.
Proof.
  revert c. induction xs as [|[k u] xs IH]; intros c Hs Hc Hnd; cbn [app cseg fmap list_fmap] in *.
  - destruct Hs as (S1 & S2 & S3). apply NoDup_cons_iff in Hnd as [Hn _].
    rewrite lookup_insert_ne, lookup_insert_eq by congruence. split; [done|]. split; [done|].
    apply cseg_insert_ne; [congruence|done|done].
  - destruct Hs as (S1 & S2 & S3). apply NoDup_cons_iff in Hnd as [Hk Hnd]. cbn [fst] in *.
    assert (n <> k).
    { intros ->. apply Hk. change (k ∈ (xs ++ (k, v) :: ys).*1). rewrite fmap_app, elem_of_app. right. left. }
    rewrite !lookup_insert_ne by congruence. split; [done|]. split; [done|].
    apply IH; [done|congruence|done].
Qed.

Lemma set_info_ok m L xs n v w ys :
  rep m L (xs ++ (n, v) :: ys) ->
  m !! (n, 1%nat) = Some v /\ rep (<[(n, 1%nat) := w]> m) L (xs ++ (n, w) :: ys).
Proof.
  intros Hr. pose proof (rep_facts _ _ _ Hr) as (N & N0 & N1 & N2).
  assert (HL : L <> n /\ end_of_list <> n).
  { rewrite fmap_app, fmap_cons, not_elem_of_app, not_elem_of_cons in N0, N1. cbn in *. tauto. }
  destruct HL as [HL1 HL2].
  assert (Ei : (xs ++ (n, w) :: ys).*1 = (xs ++ (n, v) :: ys).*1) by (by rewrite !fmap_app).
  assert (El : length (xs ++ (n, w) :: ys) = length (xs ++ (n, v) :: ys)) by (by rewrite !length_app).
  assert (Ee : forall c, end_cell c (xs ++ (n, w) :: ys) = end_cell c (xs ++ (n, v) :: ys))
    by (intros; by rewrite !end_cell_app).
  split; [by apply (cseg_at _ _ _ _ _ _ _ (rep_seg _ _ _ Hr))|]. destruct Hr as [Hs ? ? ? ? ? ?].
  constructor; cells; rewrite ?Ee, ?El, ?Ei, ?lookup_insert_ne by congruence; try done.
  apply (cseg_set_info m _ xs n v w ys); [done|congruence|done].
Qed.

Section Loops.

(** The infos of a list of items are not NULL, so iteration stops only at the
    end. *)
Definition items (ns : list (nat * val)) : Prop := Forall (fun v => is_ptr v = true) (infos ns).

(** [while ((item= it++))]: the pointers seen. *)
Fixpoint collect (fuel : nat) (it : iter) : M (list val) :=
  let* r := next it in
  let '(v, it) := r in
  if is_ptr v then
    match fuel with
    | O => undefined
    | S fuel => let* vs := collect fuel it in ret (v :: vs)
    end
  else ret [].

Lemma collect_ok fuel m L xs ys it :
  rep m L (xs ++ ys) -> iter_pos it L xs -> items ys -> (length ys <= fuel)%nat ->
  collect fuel it m = Some (infos ys, m).
Proof.
  revert xs fuel it. induction ys as [|[n v] ys IH]; intros xs fuel it Hr Hp Hi Hf.
  - rewrite app_nil_r in Hr. destruct (next_end _ _ _ _ Hr Hp) as (it' & E & _).
    destruct fuel; cbn [collect]; by rewrite (run_bind _ _ _ _ _ E).
  - cbn in Hi. apply Forall_cons_1 in Hi as [Hv Hi]. cbn [snd] in Hv. cbn [length] in Hf. destruct fuel as [|fuel]; [lia|].
    cbn [collect]. rewrite (run_bind _ _ _ _ _ (next_ok _ _ _ _ _ _ _ Hr Hp)). rewrite Hv.
    rewrite (run_bind _ _ _ _ _ (IH (xs ++ [(n, v)]) fuel _
      ltac:(by rewrite <- app_assoc) (iter_pos_step _ _ _ _ _ _) Hi ltac:(lia))). done.
Qed.

(** The same with a [List_iterator_fast], and with a range-based [for]. *)
Fixpoint collect_fast (fuel : nat) (it : iter) : M (list val) :=
  let* r := List_iterator_fast.incr it in
  let '(v, it) := r in
  if is_ptr v then
    match fuel with
    | O => undefined
    | S fuel => let* vs := collect_fast fuel it in ret (v :: vs)
    end
  else ret [].

Fixpoint range_for (fuel : nat) (node : loc) : M (list val) :=
  if List.iterator_ne node List.end_ then
    match fuel with
    | O => undefined
    | S fuel =>
        let* v := List.iterator_deref node in
        let* nx := List.iterator_incr node in
        let* vs := range_for fuel nx in
        ret (v :: vs)
    end
  else ret [].

Lemma collect_fast_ok fuel m L xs ys it :
  rep m L (xs ++ ys) -> iter_pos it L xs -> items ys -> (length ys <= fuel)%nat ->
  collect_fast fuel it m = Some (infos ys, m).
Proof.
  revert xs fuel it. induction ys as [|[n v] ys IH]; intros xs fuel it Hr Hp Hi Hf.
  - rewrite app_nil_r in Hr. destruct Hp as [HL Hel].
    pose proof (cseg_end _ _ _ _ (rep_seg _ _ _ Hr)) as He. pose proof (rep_eol_info _ _ _ Hr) as Hn.
    destruct fuel; cbn [collect_fast]; unfold List_iterator_fast.incr, next_fast; rewrite Hel;
      cells; mrun; cells; mrun; done.
  - cbn in Hi. apply Forall_cons_1 in Hi as [Hv Hi]. cbn [snd] in Hv. cbn [length] in Hf.
    destruct fuel as [|fuel]; [lia|]. destruct Hp as [HL Hel].
    pose proof (cseg_at _ _ _ _ _ _ _ (rep_seg _ _ _ Hr)) as (S1 & S2 & S3 & S4).
    cbn [collect_fast]. unfold List_iterator_fast.incr, next_fast. rewrite Hel. mrun. cells. mrun.
    rewrite Hv, HL. rewrite (run_bind _ _ _ _ _ (IH (xs ++ [(n, v)]) fuel _
      ltac:(by rewrite <- app_assoc) (iter_pos_step _ _ _ _ _ _) Hi ltac:(lia))). done.
Qed.

Lemma range_for_ok fuel m c ns nd :
  cseg m c ns end_of_list -> end_of_list ∉ ns.*1 -> m !! c = Some (Vptr nd) ->
  (length ns <= fuel)%nat -> range_for fuel nd m = Some (infos ns, m).
Proof.
  revert c nd fuel. induction ns as [|[n v] ns IH]; intros c nd fuel Hs Hn Hc Hf; cbn [cseg] in Hs.
  - rewrite Hc in Hs. injection Hs as ->. destruct fuel; cbn [range_for];
      unfold List.iterator_ne; by rewrite bool_decide_eq_true_2.
  - destruct Hs as (H1 & H2 & H3). rewrite Hc in H1. injection H1 as ->.
    rewrite fmap_cons, not_elem_of_cons in Hn. cbn [fst] in Hn. cbn [length] in Hf.
    destruct fuel as [|fuel]; [lia|]. pose proof (cseg_head _ _ _ _ H3) as Hh.
    cbn [range_for]. unfold List.iterator_ne, List.iterator_deref, List.iterator_incr, List.end_. cells.
    rewrite bool_decide_eq_false_2 by (intros [= ->]; tauto). cbn [negb]. mrun.
    rewrite (run_bind _ _ _ _ _ (IH (n, 0%nat) _ fuel H3 (proj2 Hn) Hh ltac:(lia))). done.
Qed.

(** [while ((item= it++)) if (p(item)) it.remove();] *)
Fixpoint remove_if (fuel : nat) (p : val -> bool) (it : iter) : M unit :=
  let* r := next it in
  let '(v, it) := r in
  if is_ptr v then
    match fuel with
    | O => undefined
    | S fuel =>
        if p v then let* it := remove it in remove_if fuel p it
        else remove_if fuel p it
    end
  else ret tt.

Lemma remove_if_ok `{LawfulAllocator} fuel p m L xs ys it :
  rep m L (xs ++ ys) -> iter_pos it L xs -> items ys -> (length ys <= fuel)%nat ->
  exists m', remove_if fuel p it m = Some (tt, m') /\
    rep m' L (xs ++ filter (fun n => p n.2 = false) ys) /\
    untouched (L :: (xs ++ ys).*1) m m'.
Proof.
  revert m xs fuel it. induction ys as [|[n v] ys IH]; intros m xs fuel it Hr Hp Hi Hf.
  - rewrite app_nil_r in Hr. destruct (next_end _ _ _ _ Hr Hp) as (it' & E & _).
    exists m. rewrite app_nil_r. split; [|split; [done|apply untouched_refl]].
    destruct fuel; cbn [remove_if]; by rewrite (run_bind _ _ _ _ _ E).
  - cbn in Hi. apply Forall_cons_1 in Hi as [Hv Hi]. cbn [snd] in Hv. cbn [length] in Hf. destruct fuel as [|fuel]; [lia|].
    cbn [remove_if]. rewrite (run_bind _ _ _ _ _ (next_ok _ _ _ _ _ _ _ Hr Hp)). rewrite Hv.
    rewrite filter_cons. case_decide as Ep; cbn [snd] in Ep; [|apply not_false_is_true in Ep];
      rewrite Ep; cycle 1.
    +       destruct (remove_ok _ _ _ _ _ _ Hr) as (m1 & E1 & Hr1 & Hu1).
      unfold remove. cbn [prev as_ptr it_list].
      rewrite bind_bind, bind_ret, bind_bind, (run_bind _ _ _ _ _ E1), bind_ret.
      destruct (IH m1 xs fuel {| it_list := L; el := end_cell (base_list.first L) xs;
        prev := Vptr (end_cell (base_list.first L) xs); current := Vnull |}) as (m2 & E2 & Hr2 & Hu2);
        [done|done|done|lia|].
      exists m2. split; [done|]. split; [done|].
      intros l w Hl Hw. rewrite fmap_app, fmap_cons, !not_elem_of_cons, !not_elem_of_app, !not_elem_of_cons in Hl.
      apply Hu2; [|apply Hu1; [|done]]; rewrite ?fmap_app, ?not_elem_of_cons, ?not_elem_of_app; tauto.
    + destruct (IH m (xs ++ [(n, v)]) fuel {| it_list := L; el := (n, 0%nat);
        prev := Vptr (end_cell (base_list.first L) xs); current := Vptr (n, 0%nat) |})
        as (m2 & E2 & Hr2 & Hu2); [by rewrite <- app_assoc|apply iter_pos_step|done|lia|].
      exists m2. rewrite <- app_assoc in Hr2, Hu2. done.
Qed.

(** Memory that only grows keeps a list. *)
Lemma rep_grow m m' L ns : rep m L ns -> untouched [] m m' -> rep m' L ns.
Proof.
  intros [? ? ? ? ? ? ?] Hu.
  assert (G : forall l v, m !! l = Some v -> m' !! l = Some v) by (intros; apply Hu; [set_solver|done]).
  assert (Gs : forall c q, cseg m c ns q -> cseg m' c ns q).
  { clear -G. induction ns as [|[n v] ns IH]; intros c q; cbn [cseg]; [apply G|].
    intros (? & ? & ?). auto. }
  constructor; auto.
Qed.

(** [list_copy_and_replace_each_value] with a [clone] that returns [f v] and
    leaves existing memory alone. *)
Lemma list_copy_loop_ok fuel (clone : val -> M val) (f : val -> val) m L xs ys it :
  (forall v m, exists m', clone v m = Some (f v, m') /\ untouched [] m m') ->
  rep m L (xs ++ ys) -> iter_pos it L xs -> items ys -> (length ys <= fuel)%nat ->
  exists m', list_copy_and_replace_loop fuel clone it m = Some (tt, m') /\
    rep m' L (xs ++ ((fun '(n, v) => (n, f v)) <$> ys)).
Proof.
  intros Hc. revert m xs fuel it. induction ys as [|[n v] ys IH]; intros m xs fuel it Hr Hp Hi Hf.
  - rewrite app_nil_r in Hr. destruct (next_end _ _ _ _ Hr Hp) as (it' & E & _).
    exists m. cbn [fmap list_fmap]. rewrite app_nil_r. split; [|done].
    destruct fuel; cbn [list_copy_and_replace_loop]; by rewrite (run_bind _ _ _ _ _ E).
  - cbn in Hi. apply Forall_cons_1 in Hi as [Hv Hi]. cbn [snd] in Hv. cbn [length] in Hf. destruct fuel as [|fuel]; [lia|].
    cbn [list_copy_and_replace_loop]. rewrite (run_bind _ _ _ _ _ (next_ok _ _ _ _ _ _ _ Hr Hp)). rewrite Hv.
    destruct (Hc v m) as (m1 & E1 & Hu1). rewrite (run_bind _ _ _ _ _ E1).
    pose proof (rep_grow _ _ _ _ Hr Hu1) as Hr1.
    destruct (set_info_ok _ _ _ _ _ (f v) _ Hr1) as [Hl Hr2].
    unfold replace. cbn [current]. cells. mrun.
    destruct (IH (<[(n, 1%nat) := f v]> m1) (xs ++ [(n, f v)]) fuel
      {| it_list := L; el := (n, 0%nat);
         prev := Vptr (end_cell (base_list.first L) xs); current := Vptr (n, 0%nat) |})
      as (m2 & E2 & Hr3); [by rewrite <- app_assoc|apply iter_pos_step|done|lia|].
    exists m2. cbn [fmap list_fmap]. rewrite <- app_assoc in Hr3. done.
Qed.
End Loops.

Lemma snoc_app {A} (l k : list A) x : l ++ x :: k = (l ++ [x]) ++ k.
Proof. by rewrite <- app_assoc. Qed.

(** * bubble_sort

    One pass on the sequence of pointers: [x] is the item carried, at most [c]
    comparisons are made. *)
Section Bubble.
Context (sort_func : val -> val -> Z).

Fixpoint bpass (c : nat) (x : val) (l : list val) : list val * bool :=
  match c, l with
  | S c, y :: l =>
      if 0 <? sort_func x y
      then let '(r, _) := bpass c x l in (y :: r, true)
      else let '(r, s) := bpass c y l in (x :: r, s)
  | _, _ => (x :: l, false)
  end.

(** Passes until one makes no exchange. *)
Fixpoint bsort (passes c : nat) (l : list val) : list val :=
  match passes, l with
  | S passes, x :: l =>
      let '(r, s) := bpass c x l in
      if (s : bool) then bsort passes (c - 1) r else r
  | _, _ => l
  end.

(** [last_ref] stops a pass over the nodes [ys] after [c] comparisons. *)
Definition limit (ys : list (nat * val)) (last_ref : val) (c : nat) : Prop :=
  (c = length ys /\ forall n, n ∈ ys.*1 -> last_ref <> Vptr (n, 1%nat)) \/
  (exists n v, ys !! c = Some (n, v) /\ last_ref = Vptr (n, 1%nat)).

Lemma limit_0 n v ys lr : limit ((n, v) :: ys) lr 0 <-> lr = Vptr (n, 1%nat).
Proof.
  split.
  - intros [[? _]|(? & ? & [= -> ->] & ->)]; [done|done].
  - intros ->. right. exists n, v. done.
Qed.

Lemma limit_S n v ys lr c :
  NoDup ((n, v) :: ys).*1 -> limit ((n, v) :: ys) lr (S c) -> lr <> Vptr (n, 1%nat) /\ limit ys lr c.
Proof.
  intros Hnd. apply NoDup_cons_iff in Hnd as [Hn _]. intros [[Hc Hl]|(k & u & Hk & ->)].
  - split; [apply Hl; left|]. left. split; [cbn in Hc; lia|]. intros j Hj. apply Hl. by right.
  - cbn in Hk. split; [|right; eauto]. intros [= ->]. apply Hn. 
    apply list_elem_of_fmap. exists (n, u). split; [done|]. by eapply list_elem_of_lookup_2.
Qed.

Lemma limit_le ys lr c : limit ys lr c -> (c <= length ys)%nat.
Proof. intros [[-> _]|(? & ? & Hc & _)]; [done|]. apply lookup_lt_Some in Hc. lia. Qed.

Lemma limit_nil lr c : limit [] lr c -> c = 0%nat.
Proof. intros [[-> _]|(? & ? & ? & _)]; done. Qed.

Lemma bubble_pass_ok c : forall fuel ds n1 x ys m L it swap lr,
  rep m L (ds ++ (n1, x) :: ys) -> iter_pos it L (ds ++ [(n1, x)]) -> items ys -> limit ys lr c ->
  (length ys <= fuel)%nat ->
  exists m' ys' it',
    bubble_pass sort_func fuel it x (Vptr (n1, 1%nat)) lr swap m
      = Some ((Vptr (nth c (n1 :: ys.*1) n1, 1%nat), it', swap || (bpass c x (infos ys)).2), m') /\
    rep m' L (ds ++ ys') /\ ys'.*1 = n1 :: ys.*1 /\ infos ys' = (bpass c x (infos ys)).1 /\
    it_list it' = L.
Proof.
  induction c as [|c IH]; intros fuel ds n1 x ys m L it swap lr Hr Hp Hi Hl Hf.
  - exists m, ((n1, x) :: ys). destruct ys as [|[n2 y] ys].
    + destruct (next_end _ _ _ _ Hr Hp) as (it' & E & HL). exists it'.
      destruct fuel; cbn [bubble_pass bpass fmap list_fmap infos nth snd];
        rewrite (run_bind _ _ _ _ _ E); rewrite orb_false_r; done.
    + apply limit_0 in Hl as ->. cbn in Hi. apply Forall_cons_1 in Hi as [Hy Hi]. cbn [snd] in Hy.
      cbn [length] in Hf. destruct fuel as [|fuel]; [lia|].
      cbn [bubble_pass]. rewrite (snoc_app ds) in Hr.
      rewrite (run_bind _ _ _ _ _ (next_ok _ _ _ _ _ _ _ Hr Hp)), Hy.
      unfold ref. cbn [current as_ptr]. rewrite bind_bind, bind_ret, bind_ret. cells.
      rewrite bool_decide_eq_false_2 by (intros E; by apply E).
      eexists. rewrite <- app_assoc in Hr. rewrite orb_false_r. split; [done|]. done.
  - destruct ys as [|[n2 y] ys]; [by apply limit_nil in Hl|].
    cbn in Hi. apply Forall_cons_1 in Hi as [Hy Hi]. cbn [snd] in Hy.
    pose proof (rep_facts _ _ _ Hr) as (_ & _ & _ & Hnd).
    assert (Hnd2 : NoDup ((n2, y) :: ys).*1).
    { rewrite fmap_app, NoDup_app_iff, fmap_cons, NoDup_cons_iff in Hnd. tauto. }
    assert (H12 : n1 <> n2).
    { rewrite fmap_app, NoDup_app_iff, !fmap_cons, NoDup_cons_iff, not_elem_of_cons in Hnd.
      cbn in Hnd. tauto. }
    apply limit_S in Hl as [Hne Hl]; [|done].
    assert (En : nth c (n2 :: ys.*1) n2 = nth (S c) (n1 :: n2 :: ys.*1) n1).
    { apply limit_le in Hl. destruct c as [|c]; [done|]. cbn [nth]. apply nth_indep.
      rewrite length_fmap. lia. }
    cbn [length] in Hf. destruct fuel as [|fuel]; [lia|].
    cbn [bubble_pass]. pose proof Hr as Hr'.
    rewrite (snoc_app ds) in Hr'.
    rewrite (run_bind _ _ _ _ _ (next_ok _ _ _ _ _ _ _ Hr' Hp)), Hy.
    unfold ref. cbn [current as_ptr]. rewrite bind_bind, bind_ret, bind_ret. cells.
    rewrite bool_decide_eq_true_2 by (intros E; by apply Hne).
    cbn [bpass fmap list_fmap]. change (list_fmap _ _ snd ys) with (infos ys). cbn [snd].
    destruct (0 <? sort_func x y).
    + destruct (set_info_ok _ _ _ _ _ y _ Hr) as [E1 Hr1].
      rewrite bind_ret. erewrite bind_store by exact E1.
      rewrite (snoc_app ds) in Hr1.
      destruct (set_info_ok _ _ _ _ _ x _ Hr1) as [E2 Hr2].
      erewrite bind_store by exact E2.
      destruct (IH fuel (ds ++ [(n1, y)]) n2 x ys _ L
        {| it_list := L; el := (n2, 0%nat); prev := Vptr (end_cell (L, 0%nat) (ds ++ [(n1, x)]));
           current := Vptr (n2, 0%nat) |} true lr Hr2) as (m' & ys' & it' & E & Hr3 & Hids & Hvs & HL);
        [|done|done|lia|].
      { split; [done|]. cbn. by rewrite !end_cell_app. }
      destruct (bpass c x (infos ys)) as [r s]. cbn [fst snd] in *.
      exists m', ((n1, y) :: ys'), it'. rewrite <- app_assoc in Hr3. rewrite orb_true_r.
      split; [|split; [done|split; [by cbn; rewrite Hids|split; [by cbn; rewrite Hvs|done]]]].
      by rewrite En in E.
    + rewrite (snoc_app ds) in Hr.
      destruct (IH fuel (ds ++ [(n1, x)]) n2 y ys m L
        {| it_list := L; el := (n2, 0%nat); prev := Vptr (end_cell (L, 0%nat) (ds ++ [(n1, x)]));
           current := Vptr (n2, 0%nat) |} swap lr Hr) as (m' & ys' & it' & E & Hr3 & Hids & Hvs & HL);
        [|done|done|lia|].
      { split; [done|]. cbn. by rewrite !end_cell_app. }
      destruct (bpass c y (infos ys)) as [r s]. cbn [fst snd] in *.
      exists m', ((n1, x) :: ys'), it'. rewrite <- app_assoc in Hr3.
      split; [|split; [done|split; [by cbn; rewrite Hids|split; [by cbn; rewrite Hvs|done]]]].
      by rewrite En in E.
Qed.

Lemma bpass_perm c x l : (bpass c x l).1 ≡ₚ x :: l.
Proof.
  revert x l. induction c as [|c IH]; intros x [|y l]; cbn [bpass]; [done..|].
  destruct (0 <? _); [specialize (IH x l)|specialize (IH y l)]; destruct (bpass c _ l); cbn in *;
    rewrite IH; [apply Permutation_swap|done].
Qed.

Lemma bpass_items c x l :
  Forall (fun v => is_ptr v = true) (x :: l) -> Forall (fun v => is_ptr v = true) (bpass c x l).1.
Proof. intros Hi. by rewrite bpass_perm. Qed.

(** On the empty list the iterator rests on the sentinel. *)
Lemma bubble_empty m L fuel lr passes it :
  rep m L [] -> iter_pos it L [] -> (0 < passes)%nat ->
  bubble_loop sort_func passes fuel it lr m = Some (tt, m).
Proof.
  intros Hr [HL Hel] Hp. destruct passes as [|passes]; [lia|].
  pose proof (rep_seg _ _ _ Hr) as Hs. pose proof (rep_eol_next _ _ _ Hr) as H1.
  pose proof (rep_eol_info _ _ _ Hr) as H2. cbn [cseg end_cell] in Hs, Hel.
  cbn [bubble_loop]. unfold next at 1. rewrite Hel. cells. mrun. cells. mrun.
  unfold ref. cbn [current as_ptr]. rewrite bind_bind, bind_ret, bind_ret.
  destruct fuel; cbn [bubble_pass]; unfold next; cbn [el]; cells; mrun; cells; mrun; done.
Qed.

Lemma bubble_loop_ok c : forall passes fuel m L n x ys it lr,
  rep m L ((n, x) :: ys) -> iter_pos it L [] -> items ((n, x) :: ys) -> limit ys lr c ->
  (length ys <= fuel)%nat -> (c < passes)%nat ->
  exists m' ns', bubble_loop sort_func passes fuel it lr m = Some (tt, m') /\
    rep m' L ns' /\ ns'.*1 = n :: ys.*1 /\ infos ns' = bsort passes c (x :: infos ys).
Proof.
  induction c as [|c IH]; intros passes fuel m L n x ys it lr Hr Hp Hi Hl Hf Hps;
    (destruct passes as [|passes]; [lia|]); cbn [bubble_loop bsort];
    rewrite (run_bind _ _ _ _ _ (next_ok m L [] n x ys it Hr Hp));
    unfold ref at 1; cbn [current as_ptr]; rewrite bind_bind, bind_ret, bind_ret; cells;
    pose proof Hi as Hi'; cbn in Hi'; apply Forall_cons_1 in Hi' as [_ Hi'].
  - destruct (bubble_pass_ok 0 fuel [] n x ys m L
      {| it_list := L; el := (n, 0%nat); prev := Vptr (L, 0%nat); current := Vptr (n, 0%nat) |}
      false lr Hr (iter_pos_step L [] n x _ _) Hi' Hl Hf) as (m' & ys' & it' & E & Hr' & Hids & Hvs & HL).
    rewrite (run_bind _ _ _ _ _ E). cbn [bpass fst snd orb] in *. exists m', ys'. done.
  - destruct (bubble_pass_ok (S c) fuel [] n x ys m L
      {| it_list := L; el := (n, 0%nat); prev := Vptr (L, 0%nat); current := Vptr (n, 0%nat) |}
      false lr Hr (iter_pos_step L [] n x _ _) Hi' Hl Hf) as (m' & ys' & it' & E & Hr' & Hids & Hvs & HL).
    rewrite (run_bind _ _ _ _ _ E). cbn [orb].
    pose proof (bpass_items (S c) x (infos ys) Hi) as Hit. rewrite <- Hvs in Hit.
    destruct (bpass (S c) x (infos ys)) as [r s]. cbn [fst snd] in *.
    destruct s; [|by exists m', ys'].
    destruct ys' as [|[n' x'] ys']; [done|]. cbn in Hids, Hvs. injection Hids as -> Hids.
    change (list_fmap _ _ snd ys') with (infos ys') in Hvs. change (list_fmap _ _ fst ys') with (ys'.*1) in Hids.
    assert (Hlen : length ys' = length ys) by (rewrite <- (length_fmap fst ys'), Hids; apply length_fmap).
    apply limit_le in Hl.
    destruct (lookup_lt_is_Some_2 ys' c) as [[k u] Hk]; [lia|].
    assert (Ek : nth c ys.*1 n = k).
    { rewrite <- Hids, nth_lookup, list_lookup_fmap, Hk. done. }
    destruct (IH passes fuel m' L n x' ys' (rewind it') (Vptr (k, 1%nat)) Hr') as (m2 & ns2 & E2 & Hr2 & Hi2 & Hv2).
    + split; [done|]. cbn. by rewrite HL.
    + exact Hit.
    + right. exists k, u. done.
    + lia.
    + lia.
    + exists m2, ns2. cbn [nth]. rewrite Ek. rewrite Nat.sub_succ, Nat.sub_0_r, <- Hvs, <- Hids. done.
Qed.

(** ** The passes sort *)

Definition le (x y : val) : Prop := sort_func x y <= 0.

Context (le_total : forall x y, le x y \/ le y x) (le_trans : forall x y z, le x y -> le y z -> le x z).

Lemma bpass_split c x l : (c <= length l)%nat ->
  exists pre mx, (bpass c x l).1 = pre ++ mx :: drop c l /\ pre ++ [mx] ≡ₚ x :: take c l /\
    length pre = c /\ Forall (fun y => le y mx) pre.
Proof.
  revert x l. induction c as [|c IH]; intros x l Hc.
  { exists [], x. cbn. done. }
  destruct l as [|y l]; [cbn in Hc; lia|]. cbn [bpass length] in *.
  destruct (Z.ltb_spec 0 (sort_func x y)) as [Hxy|Hxy].
  - destruct (IH x l ltac:(lia)) as (pre & mx & E & Hp & Hlen & Hm).
    destruct (bpass c x l) as [r s]. cbn in *. exists (y :: pre), mx. cbn. rewrite E.
    split; [done|]. split; [rewrite Hp; apply Permutation_swap|]. split; [lia|]. constructor; [|done].
    assert (Hyx : le y x) by (destruct (le_total x y); [unfold le in *; lia|done]).
    assert (Hin : x ∈ pre ++ [mx]) by (rewrite Hp; left).
    apply elem_of_app in Hin as [Hin|Hin].
    + apply le_trans with x; [done|]. by apply (Forall_in _ pre x Hm).
    + apply list_elem_of_singleton in Hin. by subst.
  - destruct (IH y l ltac:(lia)) as (pre & mx & E & Hp & Hlen & Hm).
    destruct (bpass c y l) as [r s]. cbn in *. exists (x :: pre), mx. cbn. rewrite E.
    split; [done|]. split; [by rewrite Hp|]. split; [lia|]. constructor; [|done].
    assert (Hin : y ∈ pre ++ [mx]) by (rewrite Hp; left).
    apply elem_of_app in Hin as [Hin|Hin].
    + apply le_trans with y; [done|]. by apply (Forall_in _ pre y Hm).
    + apply list_elem_of_singleton in Hin. by subst.
Qed.

Lemma bpass_noswap c x l :
  (bpass c x l).2 = false -> (bpass c x l).1 = x :: l /\ Sorted le (x :: take c l).
Proof.
  revert x l. induction c as [|c IH]; intros x [|y l]; cbn [bpass take]; try (intros _; split; [done|repeat constructor]).
  destruct (Z.ltb_spec 0 (sort_func x y)) as [Hxy|Hxy].
  - by destruct (bpass c x l).
  - specialize (IH y l). destruct (bpass c y l) as [r s]. cbn in *. intros ->.
    destruct (IH eq_refl) as [-> Hs]. split; [done|]. constructor; [done|]. by constructor.
Qed.

Lemma sorted_app l k :
  StronglySorted le l -> StronglySorted le k -> (forall a b, a ∈ l -> b ∈ k -> le a b) ->
  StronglySorted le (l ++ k).
Proof.
  induction 1 as [|a l Hl IH Ha]; intros Hk Hlk; cbn; [done|]. constructor.
  - apply IH; [done|]. intros; apply Hlk; [by right|done].
  - apply Forall_app. split; [done|]. apply Forall_by. intros b Hb.
    apply Hlk; [left|done].
Qed.

Lemma bsort_ok c : forall passes pre suf,
  length pre = S c -> StronglySorted le suf -> (forall a b, a ∈ pre -> b ∈ suf -> le a b) ->
  (c < passes)%nat ->
  StronglySorted le (bsort passes c (pre ++ suf)) /\ bsort passes c (pre ++ suf) ≡ₚ pre ++ suf.
Proof.
  induction c as [|c IH]; intros passes pre suf Hlen Hsuf Hps Hp;
    (destruct passes as [|passes]; [lia|]); (destruct pre as [|x t]; [done|]);
    injection Hlen as Hlen; cbn [app bsort].
  - destruct t; [|done]. cbn [bpass app]. split; [|done]. constructor; [done|].
    apply Forall_by. intros b Hb. apply Hps; [left|done].
  - destruct (bpass_split (S c) x (t ++ suf)) as (pre' & mx & E & Hperm & Hl' & Hm);
      [rewrite length_app; lia|].
    pose proof (bpass_perm (S c) x (t ++ suf)) as Hall.
    pose proof (bpass_noswap (S c) x (t ++ suf)) as Hno.
    rewrite (take_app_length' t suf) in Hperm, Hno by lia. rewrite drop_app_length' in E by lia.
    destruct (bpass (S c) x (t ++ suf)) as [r s]. cbn [fst snd] in *. destruct s.
    + rewrite Nat.sub_succ, Nat.sub_0_r, E.
      destruct (IH passes pre' (mx :: suf)) as [Hs Hp'].
      * lia.
      * constructor; [done|]. apply Forall_by. intros b Hb.
        apply Hps; [|done]. rewrite <- Hperm. apply elem_of_app. right. left.
      * intros a b Ha Hb. apply elem_of_cons in Hb as [->|Hb].
        -- by apply (Forall_in _ pre' a Hm).
        -- apply Hps; [|done]. rewrite <- Hperm. apply elem_of_app. by left.
      * lia.
      * split; [done|]. rewrite Hp', <- E. by rewrite Hall.
    + destruct (Hno eq_refl) as [-> Hs]. split; [|done].
      apply (sorted_app (x :: t) suf); [|done|done].
      apply Sorted_StronglySorted; [|done]. intros a b d. apply le_trans.
Qed.
End Bubble.

(** * Properties *)

(** C31: [bubble_sort] terminates within one pass per element and leaves the same
    nodes in place with their pointers permuted into an order sorted by
    [sort_func], for every total and transitive comparison; the pass boundary
    kept in [last_ref] skips only elements already in their final position. *)
Theorem bubble_sort_sorts (sort_func : val -> val -> Z) (m : mem) (L : nat)
    (ns : list (nat * val)) (fuel : nat)
    (Htotal : forall x y, sort_func x y <= 0 \/ sort_func y x <= 0)
    (Htrans : forall x y z, sort_func x y <= 0 -> sort_func y z <= 0 -> sort_func x z <= 0)
    (Hr : rep m L ns) (Hi : items ns) (Hf : (length ns <= fuel)%nat) :
  exists m' ns', bubble_sort sort_func (S (length ns)) fuel L m = Some (tt, m') /\
    rep m' L ns' /\ ns'.*1 = ns.*1 /\ infos ns' ≡ₚ infos ns /\
    StronglySorted (fun x y => sort_func x y <= 0) (infos ns').
Proof.
  unfold bubble_sort. destruct ns as [|[n x] ys].
  - exists m, []. rewrite (bubble_empty sort_func m L fuel Vnull) by (done || lia).
    split; [done|]. split; [done|]. split; [done|]. split; [done|constructor].
  - cbn [length] in *.
    destruct (bubble_loop_ok sort_func (length ys) (S (S (length ys))) fuel m L n x ys (init L) Vnull)
      as (m' & ns' & E & Hr' & Hids & Hvs); [done|done|done| |lia|lia|].
    { left. split; [done|]. intros; discriminate. }
    exists m', ns'. split; [done|]. split; [done|]. split; [done|].
    destruct (bsort_ok sort_func Htotal Htrans (length ys) (S (S (length ys))) (x :: infos ys) [])
      as [Hs Hp]; [cbn; by rewrite length_fmap|constructor|intros a b _ Hb; by apply elem_of_nil in Hb|lia|].
    rewrite app_nil_r in Hs, Hp. rewrite Hvs. done.
Qed.

(** Comparison of integer items. *)
Definition int_cmp (a b : val) : Z :=
  match a, b with Vint x, Vint y => x - y | Vint x, _ => x | _, Vint y => - y | _, _ => 0 end.

(** A list of three integers: object 7 with nodes 8, 9 and 10. *)
Definition three_mem : mem := list_to_map
  [cell 7 0 (ptr 8 0); cell 7 1 (ptr 10 0); cell 7 2 (Vint 3);
   cell 8 0 (ptr 9 0); cell 8 1 (Vint 30); cell 9 0 (ptr 10 0); cell 9 1 (Vint 10);
   cell 10 0 (ptr 0 0); cell 10 1 (Vint 20); cell 0 0 (ptr 0 0); cell 0 1 Vnull].
Definition three_nodes : list (nat * val) := [(8%nat, Vint 30); (9%nat, Vint 10); (10%nat, Vint 20)].

Lemma three_rep : rep three_mem 7 three_nodes /\ items three_nodes.
Proof.
  split; [|repeat constructor].
  constructor; [repeat split|reflexivity..|reflexivity| |reflexivity|reflexivity].
  apply (bool_decide_unpack _). vm_compute. exact I.
Qed.

Lemma bubble_sort_witness :
  exists m' ns', bubble_sort int_cmp 4 3 7 three_mem = Some (tt, m') /\ rep m' 7 ns' /\
    StronglySorted (fun x y => int_cmp x y <= 0) (infos ns').
Proof.
  destruct three_rep as [Hr Hi].
  destruct (bubble_sort_sorts int_cmp three_mem 7 three_nodes 3
    ltac:(intros [| |] [| |]; cbn; lia) ltac:(intros [| |] [| |] [| |]; cbn; lia) Hr Hi
    ltac:(cbn; lia)) as (m' & ns' & H1 & H2 & _ & _ & H3).
  exists m', ns'. exact (conj H1 (conj H2 H3)).
Defined.

(** C36: iterating a list of items with any of the three iterators sees each
    pointer once, in order, then the end;
    removing the current element while iterating (the loop that removes every
    element satisfying [p]) leaves exactly the others, in order, with the end
    pointer and the count correct. *)
Theorem iterator_enumerates_and_removes (m : mem) (L : nat) (ns : list (nat * val))
    (p : val -> bool) (fuel : nat)
    (Hr : rep m L ns) (Hi : items ns) (Hf : (length ns <= fuel)%nat) :
  collect fuel (init L) m = Some (infos ns, m) /\
  collect_fast fuel (List_iterator_fast.init L) m = Some (infos ns, m) /\
  (let* it := List.begin L in range_for fuel it) m = Some (infos ns, m) /\
  exists m' ns', remove_if fuel p (init L) m = Some (tt, m') /\ rep m' L ns' /\
    infos ns' = filter (fun v => p v = false) (infos ns) /\ untouched (L :: ns.*1) m m'.
Proof.
  split; [by apply (collect_ok fuel m L [] ns)|].
  split; [by apply (collect_fast_ok fuel m L [] ns)|].
  split.
  { pose proof (cseg_head _ _ _ _ (rep_seg _ _ _ Hr)) as Hh. unfold List.begin.
    rewrite (bind_load_ptr _ _ _ _ Hh). apply (range_for_ok fuel m (base_list.first L)); try done.
    - apply (rep_seg _ _ _ Hr).
    - by apply (rep_facts _ _ _ Hr). }
  destruct (@remove_if_ok total_alloc total_lawful fuel p m L [] ns (init L) Hr (init_pos L) Hi Hf)
    as (m' & E & Hr' & Hu).
  exists m', (filter (fun n => p n.2 = false) ns). split; [done|]. split; [done|]. split; [|done].
  by apply fmap_filter_in.
Qed.

Lemma iterator_removes_witness :
  exists m' ns', remove_if 3 (fun v => bool_decide (v = Vint 10)) (init 7) three_mem = Some (tt, m') /\
    rep m' 7 ns' /\ infos ns' = [Vint 30; Vint 20].
Proof.
  destruct three_rep as [Hr Hi].
  destruct (proj2 (proj2 (proj2 (iterator_enumerates_and_removes three_mem 7 three_nodes
    (fun v => bool_decide (v = Vint 10)) 3 Hr Hi ltac:(cbn; lia))))) as (m' & ns' & H1 & H2 & H3 & _).
  exists m', ns'. exact (conj H1 (conj H2 H3)).
Defined.

(** [list_copy_and_replace_each_value] replaces every pointer by its clone,
    in place and in order, when cloning an element leaves existing memory
    alone. *)
Theorem list_copy_replaces_each (clone : val -> M val) (f : val -> val) (m : mem) (L : nat)
    (ns : list (nat * val)) (fuel : nat)
    (Hclone : forall v m, exists m', clone v m = Some (f v, m') /\ untouched [] m m')
    (Hr : rep m L ns) (Hi : items ns) (Hf : (length ns <= fuel)%nat) :
  exists m' ns', list_copy_and_replace_each_value fuel clone L m = Some (tt, m') /\
    rep m' L ns' /\ ns'.*1 = ns.*1 /\ infos ns' = f <$> infos ns.
Proof.
  destruct (list_copy_loop_ok fuel clone f m L [] ns (init L) Hclone Hr (init_pos L) Hi Hf)
    as (m' & E & Hr').
  exists m', ((fun '(n, v) => (n, f v)) <$> ns). split; [done|]. split; [done|].
  rewrite <- !list_fmap_compose. split; apply list_fmap_ext; by intros ? [? ?].
Qed.

Lemma list_copy_witness :
  exists m' ns', list_copy_and_replace_each_value 3
      (fun v => ret (match v with Vint z => Vint (z + 1) | v => v end)) 7 three_mem = Some (tt, m') /\
    rep m' 7 ns' /\ infos ns' = [Vint 31; Vint 11; Vint 21].
Proof.
  destruct three_rep as [Hr Hi].
  destruct (list_copy_replaces_each _ (fun v => match v with Vint z => Vint (z + 1) | v => v end)
    three_mem 7 three_nodes 3
    ltac:(intros v m; exists m; exact (conj eq_refl (untouched_refl [] m)))
    Hr Hi ltac:(cbn; lia)) as (m' & ns' & H1 & H2 & _ & H3).
  exists m', ns'. exact (conj H1 (conj H2 H3)).
Defined.
