(* ===== verification/SqlIList.v ===== *)
(** Correctness of SQL_I_List: an intrusive list whose elements are linked
    through cells named by the caller. *)
From S2P Require Import Prelude Memory SqlList.
Import SQL_I_List.
Open Scope Z_scope.
Open Scope mem_scope.

(** [iseg m c es]: starting from cell [c], the elements [es] (each a pointer and
    its link cell) are linked and the last link is NULL. *)
Fixpoint iseg (m : mem) (c : loc) (es : list (loc * loc)) : Prop :=
  match es with
  | [] => m !! c = Some Vnull
  | (e, n) :: es => m !! c = Some (Vptr e) /\ iseg m n es
  end.

Fixpoint tail_cell (c : loc) (es : list (loc * loc)) : loc :=
  match es with [] => c | (_, n) :: es => tail_cell n es end.

Record irep (m : mem) (L : nat) (es : list (loc * loc)) : Prop := {
  irep_seg : iseg m (first L) es;
  irep_next : m !! next L = Some (Vptr (tail_cell (first L) es));
  irep_count : m !! elements L = Some (Vint (Z.of_nat (length es)));
  irep_small : Z.of_nat (length es) < 2 ^ 32;
  irep_nodup : NoDup (first L :: es.*2);
  irep_apart : forall n, n ∈ es.*2 -> n.1 <> L;
}.

Lemma tail_cell_in c es : tail_cell c es ∈ c :: es.*2.
Proof.
  revert c. induction es as [|[e n] es IH]; intros c; cbn; [left|]. right. apply (IH n).
Qed.

Lemma tail_cell_app c es fs : tail_cell c (es ++ fs) = tail_cell (tail_cell c es) fs.
Proof. revert c. induction es as [|[e n] es IH]; intros c; cbn; auto. Qed.

Lemma iseg_tail m c es : iseg m c es -> m !! tail_cell c es = Some Vnull.
Proof. revert c. induction es as [|[e n] es IH]; intros c; cbn; [done|]. intros []. auto. Qed.

Lemma iseg_head m c es :
  iseg m c es -> m !! c = Some (match es with [] => Vnull | (e, _) :: _ => Vptr e end).
Proof. destruct es as [|[e n] es]; cbn; tauto. Qed.

Lemma iseg_frame m m' c es :
  iseg m c es -> (forall l, l ∈ c :: es.*2 -> m' !! l = m !! l) -> iseg m' c es.
Proof.
  revert c. induction es as [|[e n] es IH]; intros c Hs Hm; cbn in *.
  - by rewrite Hm by left.
  - destruct Hs as [H1 H2]. rewrite Hm by left. split; [done|]. apply IH; [done|].
    intros l Hl. apply Hm. by right.
Qed.

(** A chain continued from its last link. *)
Lemma iseg_app m m' c es fs :
  iseg m c es -> NoDup (c :: es.*2) ->
  (forall l, l ∈ c :: es.*2 -> l <> tail_cell c es -> m' !! l = m !! l) ->
  iseg m' (tail_cell c es) fs -> iseg m' c (es ++ fs).
Proof.
  revert c. induction es as [|[e n] es IH]; intros c Hs Hnd Hc Hf; cbn [tail_cell app iseg] in *; [done|].
  destruct Hs as [H1 H2]. apply NoDup_cons_iff in Hnd as [Hn Hnd]. split.
  - rewrite Hc; [done|left|]. intros E. apply Hn. rewrite E. apply (tail_cell_in n es).
  - apply IH; [done|done| |done]. intros l Hl. apply Hc. by right.
Qed.

(** A chain read from another cell with the same contents. *)
Lemma iseg_move m m' c d es :
  iseg m c es -> m' !! d = m !! c -> (forall l, l ∈ es.*2 -> m' !! l = m !! l) -> iseg m' d es.
Proof.
  intros Hs Hd Hm. destruct es as [|[e n] es]; cbn [iseg] in *; [by rewrite Hd|].
  destruct Hs as [H1 H2]. rewrite Hd. split; [done|]. by apply (iseg_frame m).
Qed.

Lemma irep_cells m L es : irep m L es ->
  m !! tail_cell (first L) es = Some Vnull /\ tail_cell (first L) es <> next L /\
  tail_cell (first L) es <> elements L /\
  (tail_cell (first L) es = first L \/ (tail_cell (first L) es).1 <> L).
Proof.
  intros []. split; [by apply iseg_tail|].
  pose proof (tail_cell_in (first L) es) as Ht. apply elem_of_cons in Ht as [->|Ht].
  - unfold first, next, elements. split; [congruence|]. split; [congruence|]. by left.
  - pose proof (irep_apart0 _ Ht) as Hn. unfold next, elements.
    split; [intros E; by rewrite E in Hn|]. split; [intros E; by rewrite E in Hn|]. by right.
Qed.

Lemma link_in_list_ok m L es e n w :
  irep m L es -> m !! n = Some w -> n.1 <> L -> n ∉ es.*2 -> Z.of_nat (length es) + 1 < 2 ^ 32 ->
  exists m', link_in_list L e n m = Some (tt, m') /\ irep m' L (es ++ [(e, n)]).
Proof.
  intros Hr Hn HnL Hfresh Hlen. pose proof (irep_cells _ _ _ Hr) as (T1 & T2 & T3 & T4). destruct Hr.
  remember (tail_cell (first L) es) as t eqn:Et.
  assert (Htn : t <> n).
  { intros E. pose proof (tail_cell_in (first L) es) as Ht. rewrite <- Et, E in Ht.
    apply elem_of_cons in Ht as [Ht|Ht]; [|done]. rewrite Ht in HnL. by apply HnL. }
  assert (N1 : n <> first L /\ n <> next L /\ n <> elements L).
  { unfold first, next, elements. repeat split; intros E; by rewrite E in HnL. }
  destruct N1 as (N1 & N2 & N3).
  unfold link_in_list. unfold first, next, elements in *. mrun.
  eexists. split; [reflexivity|].
  constructor; unfold first, next, elements.
  - apply (iseg_app m); [done|done| |].
    + intros l Hl Hne. rewrite <- Et in Hne.
      assert (l <> n) by (intros ->; apply elem_of_cons in Hl as [?|?]; done).
      assert (l <> (L, 1%nat) /\ l <> (L, 2%nat)) as [? ?].
      { apply elem_of_cons in Hl as [->|Hl]; [split; congruence|]. specialize (irep_apart0 _ Hl).
        split; intros ->; by apply irep_apart0. }
      rewrite !lookup_insert_ne by congruence. done.
    + rewrite <- Et. cbn. split; lk.
  - rewrite tail_cell_app. cbn. lk.
  - rewrite length_app. cbn [length].
    replace (Z.of_nat (length es + 1)) with (u32 (Z.of_nat (length es) + 1)); [lk|].
    rewrite wrap_small by (unfold in_u; lia). lia.
  - rewrite length_app. cbn. lia.
  - rewrite fmap_app. cbn. rewrite app_comm_cons, NoDup_app_iff. split; [done|].
    split; [|apply NoDup_singleton]. intros l Hl Hl'. apply list_elem_of_singleton in Hl' as ->.
    apply elem_of_cons in Hl as [?|?]; done.
  - intros l. rewrite fmap_app, elem_of_app. intros [Hl|Hl]; [auto|].
    cbn in Hl. apply list_elem_of_singleton in Hl as ->. done.
Qed.

(** Two lists that share no cell. *)
Definition iapart (L1 : nat) (es1 : list (loc * loc)) (L2 : nat) (es2 : list (loc * loc)) : Prop :=
  L1 <> L2 /\ (forall n, n ∈ es1.*2 -> n ∉ es2.*2) /\ (forall n, n ∈ es1.*2 -> n.1 <> L2) /\
  (forall n, n ∈ es2.*2 -> n.1 <> L1).

Lemma push_back_list_ok m L1 es1 L2 es2 :
  irep m L1 es1 -> irep m L2 es2 -> iapart L1 es1 L2 es2 ->
  Z.of_nat (length es1 + length es2) < 2 ^ 32 ->
  exists m', push_back L1 L2 m = Some (tt, m') /\ irep m' L1 (es1 ++ es2).
Proof.
  intros H1 H2 (HL & Hd & Ha1 & Ha2) Hlen.
  pose proof (irep_cells _ _ _ H1) as (T1 & T2 & T3 & T4). destruct H1, H2.
  pose proof (iseg_head _ _ _ irep_seg1) as Hh.
  unfold push_back. unfold first, next, elements in *. rewrite (bind_load _ _ _ _ Hh).
  destruct es2 as [|[e2 n2] es2].
  { exists m. cbn [is_ptr]. split; [done|]. rewrite app_nil_r. by constructor. }
  remember (tail_cell (L1, 0%nat) es1) as t eqn:Et. cbn [is_ptr].
  assert (Ht2 : t <> (L2, 0%nat) /\ t <> (L2, 1%nat) /\ t <> (L2, 2%nat)).
  { pose proof (tail_cell_in (L1, 0%nat) es1) as Ht. rewrite <- Et in Ht.
    apply elem_of_cons in Ht as [->|Ht]; [repeat split; congruence|].
    specialize (Ha1 _ Ht). repeat split; intros E; by rewrite E in Ha1. }
  destruct Ht2 as (Ht20 & Ht21 & Ht22).
  mrun. eexists. split; [reflexivity|].
  remember ((e2, n2) :: es2) as fs eqn:Efs.
  constructor; unfold first, next, elements.
  - apply (iseg_app m); [done|done| |].
    + intros l Hl Hne. rewrite <- Et in Hne.
      assert (l <> (L1, 1%nat) /\ l <> (L1, 2%nat)) as [? ?].
      { apply elem_of_cons in Hl as [->|Hl]; [split; congruence|]. specialize (irep_apart0 _ Hl).
        split; intros ->; by apply irep_apart0. }
      rewrite !lookup_insert_ne by congruence. done.
    + rewrite <- Et. apply (iseg_move m _ (L2, 0%nat)); [done|rewrite Hh; lk|].
      intros l Hl. assert (l <> t).
      { intros ->. pose proof (tail_cell_in (L1, 0%nat) es1) as Ht. rewrite <- Et in Ht.
        apply elem_of_cons in Ht as [Ht|Ht]; [|by apply (Hd _ Ht)].
        specialize (Ha2 _ Hl). by rewrite Ht in Ha2. }
      specialize (Ha2 _ Hl).
      rewrite !lookup_insert_ne by (done || (intros E; rewrite <- E in Ha2; by apply Ha2)). done.
  - rewrite tail_cell_app, <- Et.
    replace (tail_cell t fs) with (tail_cell (L2, 0%nat) fs) by (by subst fs). lk.
  - rewrite length_app.
    replace (Z.of_nat (length es1 + length fs)) with (u32 (Z.of_nat (length es1) + Z.of_nat (length fs)));
      [lk|]. rewrite wrap_small by (unfold in_u; lia). lia.
  - rewrite length_app. lia.
  - rewrite fmap_app, app_comm_cons, NoDup_app_iff. split; [done|].
    split; [|by apply NoDup_cons_iff in irep_nodup1 as [_ ?]].
    intros l Hl Hl'. apply elem_of_cons in Hl as [->|Hl]; [by apply (Ha2 _ Hl')|by apply (Hd _ Hl)].
  - intros l. rewrite fmap_app, elem_of_app. intros [Hl|Hl]; auto.
Qed.

Lemma push_front_list_ok m L1 es1 L2 es2 :
  irep m L1 es1 -> irep m L2 es2 -> iapart L1 es1 L2 es2 -> es2 <> [] ->
  Z.of_nat (length es1 + length es2) < 2 ^ 32 ->
  exists m', push_front L1 L2 m = Some (tt, m') /\ iseg m' (first L1) (es2 ++ es1) /\
    m' !! next L1 = m !! next L1 /\
    m' !! elements L1 = Some (Vint (Z.of_nat (length es1 + length es2))) /\
    (forall l, is_Some (m !! l) -> is_Some (m' !! l)) /\
    (es1 <> [] -> irep m' L1 (es2 ++ es1)).
Proof.
  intros H1 H2 (HL & Hd & Ha1 & Ha2) Hne Hlen.
  pose proof (irep_cells _ _ _ H2) as (T1 & T2 & T3 & T4). destruct H1, H2.
  pose proof (iseg_head _ _ _ irep_seg0) as Hh1. pose proof (iseg_head _ _ _ irep_seg1) as Hh2.
  assert (Htin : tail_cell (first L2) es2 ∈ es2.*2).
  { destruct es2 as [|[e n] es2]; [done|]. apply (tail_cell_in n es2). }
  remember (tail_cell (first L2) es2) as t eqn:Et.
  assert (HtL1 : t.1 <> L1) by (by apply Ha2). assert (HtL2 : t.1 <> L2) by (by apply irep_apart1).
  unfold push_front. unfold first, next, elements in *. mrun.
  assert (Hseg : forall m',
    m' !! (L1, 0%nat) = m !! (L2, 0%nat) -> m' !! t = m !! (L1, 0%nat) ->
    (forall l, l.1 <> L1 -> l <> t -> m' !! l = m !! l) -> iseg m' (L1, 0%nat) (es2 ++ es1)).
  { intros m' E1 E2 E3. destruct es2 as [|[e n] es2]; [done|]. cbn [app iseg tail_cell] in *.
    destruct irep_seg1 as [S1 S2]. split; [congruence|].
    apply NoDup_cons_iff in irep_nodup1 as [_ Hnd].
    apply (iseg_app m); [done|done| |].
    - intros l Hl Hl'. apply E3; [|congruence]. by apply Ha2.
    - rewrite <- Et. apply (iseg_move m _ (L1, 0%nat)); [done|done|].
      intros l Hl. apply E3; [by apply irep_apart0|]. intros ->. by apply (Hd _ Hl). }
  assert (Hc : u32 (Z.of_nat (length es1) + Z.of_nat (length es2)) = Z.of_nat (length es1 + length es2))
    by (rewrite wrap_small by (unfold in_u; lia); lia).
  rewrite Hc. eexists. split; [reflexivity|].
  assert (Hs : iseg (<[(L1, 2%nat) := Vint (Z.of_nat (length es1 + length es2))]>
    (<[(L1, 0%nat) := match es2 with [] => Vnull | (e, _) :: _ => Vptr e end]>
      (<[t := match es1 with [] => Vnull | (e, _) :: _ => Vptr e end]> m))) (L1, 0%nat) (es2 ++ es1)).
  { apply Hseg; [rewrite Hh2; lk|rewrite Hh1; lk|].
    intros [l f] Hl Hl'. cbn in Hl. rewrite !lookup_insert_ne by congruence. done. }
  split; [exact Hs|]. split; [lk|]. split; [lk|].
  split; [intros l Hl; rewrite !lookup_insert_is_Some'; auto|]. intros Hne1.
  constructor; unfold first, next, elements; [exact Hs| | |rewrite length_app; lia| |].
  - rewrite tail_cell_app. destruct es1 as [|[e1 n1] es1]; [done|]. cbn in irep_next0 |- *. lk.
  - rewrite length_app, Nat.add_comm. lk.
  - rewrite fmap_app. apply NoDup_cons_iff in irep_nodup0 as [? ?], irep_nodup1 as [? ?].
    rewrite NoDup_cons_iff, not_elem_of_app, NoDup_app_iff. split; [|split; [done|split; [|done]]].
    + split; [|done]. intros Hl. by apply (Ha2 _ Hl).
    + intros l Hl Hl'. by apply (Hd _ Hl').
  - intros l. rewrite fmap_app, elem_of_app. intros [Hl|Hl]; auto.
Qed.

(** * Properties *)

(** [link_in_list] appends an element and [push_back] another list: the
    elements are linked in order through their cells up to a NULL, [next] is the
    last link cell and the count is right, for empty and non-empty lists. *)
Theorem sql_i_list_append (m : mem) (L1 L2 : nat) (es1 es2 : list (loc * loc)) (e n : loc) (w : val)
    (H1 : irep m L1 es1) (H2 : irep m L2 es2) (Ha : iapart L1 es1 L2 es2)
    (Hn : m !! n = Some w) (HnL : n.1 <> L1) (Hfresh : n ∉ es1.*2)
    (Hlen : Z.of_nat (length es1 + length es2) + 1 < 2 ^ 32) :
  (exists m', link_in_list L1 e n m = Some (tt, m') /\ irep m' L1 (es1 ++ [(e, n)])) /\
  (exists m', push_back L1 L2 m = Some (tt, m') /\ irep m' L1 (es1 ++ es2)).
Proof.
  split; [apply (link_in_list_ok m L1 es1 e n w); done || lia|].
  apply push_back_list_ok; done || lia.
Qed.

(** Two lists: object 7 is empty, object 17 has the element 20 linked through
    its field 1; object 30 is not linked. *)
Definition ilists_mem : mem := list_to_map
  [((7, 0)%nat, Vnull); ((7, 1)%nat, Vptr (7, 0)%nat); ((7, 2)%nat, Vint 0);
   ((17, 0)%nat, Vptr (20, 0)%nat); ((17, 1)%nat, Vptr (20, 1)%nat); ((17, 2)%nat, Vint 1);
   ((20, 1)%nat, Vnull); ((30, 1)%nat, Vnull)].

Lemma ilists_rep :
  irep ilists_mem 7 [] /\ irep ilists_mem 17 [((20, 0), (20, 1))%nat] /\
  iapart 7 [] 17 [((20, 0), (20, 1))%nat].
Proof.
  split; [|split].
  - constructor; try reflexivity; [apply (bool_decide_unpack _); vm_compute; exact I|].
    intros n Hn. by apply elem_of_nil in Hn.
  - constructor; try reflexivity; [repeat split|apply (bool_decide_unpack _); vm_compute; exact I|].
    intros n Hn. apply list_elem_of_singleton in Hn as ->. done.
  - split; [done|]. split; [intros n Hn; by apply elem_of_nil in Hn|].
    split; [intros n Hn; by apply elem_of_nil in Hn|]. 
    intros n Hn. apply list_elem_of_singleton in Hn as ->. done.
Qed.

Lemma sql_i_list_append_witness :
  exists m', push_back 7 17 ilists_mem = Some (tt, m') /\ irep m' 7 [((20, 0), (20, 1))%nat].
Proof.
  destruct ilists_rep as (H1 & H2 & Ha).
  exact (proj2 (sql_i_list_append ilists_mem 7 17 [] [((20, 0), (20, 1))%nat] (30, 0)%nat (30, 1)%nat
    Vnull H1 H2 Ha eq_refl ltac:(done) ltac:(intros Hn; by apply elem_of_nil in Hn) ltac:(cbn; lia))).
Defined.

(** [push_front] puts another (non-empty) list's elements before this one's
    and keeps the list well-formed when this list is not empty; when it is
    empty, [next] still points to its own [first], so the next [link_in_list]
    overwrites [first]: only the new element stays reachable while the count
    includes the lost ones. *)
Theorem sql_i_list_push_front (m : mem) (L1 L2 : nat) (es1 es2 : list (loc * loc)) (e n : loc) (w : val)
    (H1 : irep m L1 es1) (H2 : irep m L2 es2) (Ha : iapart L1 es1 L2 es2) (Hne : es2 <> [])
    (Hn : m !! n = Some w) (HnL : n.1 <> L1)
    (Hlen : Z.of_nat (length es1 + length es2) + 1 < 2 ^ 32) :
  exists m', push_front L1 L2 m = Some (tt, m') /\ iseg m' (first L1) (es2 ++ es1) /\
    (es1 <> [] -> irep m' L1 (es2 ++ es1)) /\
    (es1 = [] -> exists m2, link_in_list L1 e n m' = Some (tt, m2) /\ iseg m2 (first L1) [(e, n)] /\
       m2 !! elements L1 = Some (Vint (Z.of_nat (length es2) + 1))).
Proof.
  destruct (push_front_list_ok m L1 es1 L2 es2 H1 H2 Ha Hne ltac:(lia))
    as (m' & E & Hs & Hnx & Hc & Hk & Hr).
  exists m'. split; [done|]. split; [done|]. split; [done|]. intros ->.
  pose proof (iseg_head _ _ _ Hs) as Hh. destruct H1. cbn [tail_cell] in irep_next0.
  rewrite irep_next0 in Hnx.
  pose proof (Hk n (mk_is_Some _ _ Hn)) as Hn'.
  destruct Hn' as [w' Hn'].
  assert (N1 : n <> first L1 /\ n <> next L1 /\ n <> elements L1).
  { unfold first, next, elements. repeat split; intros E'; by rewrite E' in HnL. }
  destruct N1 as (N1 & N2 & N3).
  unfold link_in_list. unfold first, next, elements in *. mrun.
  eexists. split; [reflexivity|]. split; [cbn; split; lk|].
  rewrite wrap_small by (unfold in_u; cbn in *; lia). cbn [length]. rewrite Nat.add_0_l. lk.
Qed.

Lemma sql_i_list_push_front_witness :
  exists m' m2, push_front 7 17 ilists_mem = Some (tt, m') /\
    link_in_list 7 (30, 0)%nat (30, 1)%nat m' = Some (tt, m2) /\
    iseg m2 (first 7) [((30, 0), (30, 1))%nat] /\ m2 !! elements 7 = Some (Vint 2).
Proof.
  destruct ilists_rep as (H1 & H2 & Ha).
  destruct (sql_i_list_push_front ilists_mem 7 17 [] [((20, 0), (20, 1))%nat] (30, 0)%nat (30, 1)%nat
    Vnull H1 H2 Ha ltac:(done) eq_refl ltac:(done) ltac:(cbn; lia)) as (m' & E & _ & _ & H).
  destruct (H eq_refl) as (m2 & E2 & Hs & Hc).
  exists m', m2. exact (conj E (conj E2 (conj Hs Hc))).
Defined.
