(* ===== verification/DList.v ===== *)
(** Intrusive doubly linked chains.

    The elements are objects with two link cells: [next] holds a pointer to the
    next element, [prev] the address of the cell that points to this element
    (the [next] cell of the element before, or the head cell).  Both intrusive
    lists, [I_P_List] (sql_plist.h) and [base_ilist] (sql_list.h), are such
    chains; the fields of the links are parameters, so that an element can be
    in several lists. *)
From S2P Require Import Prelude Memory.
Open Scope Z_scope.

(** * Sequences of elements *)

Fixpoint delete_element (a : nat) (ns : list nat) : list nat :=
  match ns with
  | [] => []
  | n :: ns => if decide (n = a) then ns else n :: delete_element a ns
  end.

Lemma delete_element_eq a xs ys : a ∉ xs -> delete_element a (xs ++ a :: ys) = xs ++ ys.
Proof.
  intros Ha. induction xs as [|x xs IH]; cbn; [by rewrite decide_True|].
  apply not_elem_of_cons in Ha as [Hx Ha]. rewrite decide_False by congruence. by rewrite IH.
Qed.

Lemma split_at (a : nat) ns : a ∈ ns -> exists xs ys, ns = xs ++ a :: ys /\ a ∉ xs.
Proof.
  induction ns as [|n ns IH]; intros Ha; [by apply elem_of_nil in Ha|].
  destruct (decide (n = a)) as [->|Hne]; [exists [], ns; split; [done|apply not_elem_of_nil]|].
  apply elem_of_cons in Ha as [->|Ha]; [done|]. destruct (IH Ha) as (xs & ys & -> & Hx).
  exists (n :: xs), ys. split; [done|]. apply not_elem_of_cons. split; congruence.
Qed.

(** * Chains *)

Section Chain.
Context (nf pf : nat).   (* the fields of the next and prev links *)
Context (Hfields : nf <> pf).
Implicit Types (m : mem) (c : loc) (ns xs ys : list nat) (t v : val).

(** A pointer to an element. *)
Definition obj (n : nat) : val := Vptr (n, 0%nat).

(** From cell [c], the elements [ns] are linked both ways, and the last [next]
    cell holds [t]. *)
Fixpoint dseg m c ns t : Prop :=
  match ns with
  | [] => m !! c = Some t
  | n :: ns => m !! c = Some (obj n) /\ m !! (n, pf) = Some (Vptr c) /\ dseg m (n, nf) ns t
  end.

(** The cell that holds [t]. *)
Fixpoint dend c ns : loc :=
  match ns with [] => c | n :: ns => dend (n, nf) ns end.

(** What the cell before a chain holds. *)
Definition dhead ns t : val := match ns with [] => t | n :: _ => obj n end.

(** A link cell of one of the elements. *)
Definition is_link (l : loc) ns : Prop := l.1 ∈ ns /\ (l.2 = nf \/ l.2 = pf).

Lemma dend_app c xs ys : dend c (xs ++ ys) = dend (dend c xs) ys.
Proof. revert c. induction xs as [|n xs IH]; intros c; cbn; auto. Qed.

Lemma dend_in c ns : dend c ns = c \/ exists n, n ∈ ns /\ dend c ns = (n, nf).
Proof.
  revert c. induction ns as [|n ns IH]; intros c; [by left|]. right. cbn.
  destruct (IH (n, nf)) as [->|(n' & Hn & ->)]; [exists n|exists n']; split; done || by constructor.
Qed.

Lemma dseg_head m c ns t : dseg m c ns t -> m !! c = Some (dhead ns t).
Proof. destruct ns; cbn; tauto. Qed.

Lemma dseg_end m c ns t : dseg m c ns t -> m !! dend c ns = Some t.
Proof. revert c. induction ns as [|n ns IH]; intros c; cbn; [done|]. intros (_ & _ & H). auto. Qed.

Lemma dseg_app m c xs ys t :
  dseg m c (xs ++ ys) t <-> dseg m c xs (dhead ys t) /\ dseg m (dend c xs) ys t.
Proof.
  revert c. induction xs as [|n xs IH]; intros c; cbn.
  - split; [|tauto]. intros H. split; [by apply dseg_head in H|done].
  - rewrite IH. tauto.
Qed.

Lemma dseg_frame m m' c ns t :
  dseg m c ns t -> m' !! c = m !! c ->
  (forall n, n ∈ ns -> m' !! (n, nf) = m !! (n, nf) /\ m' !! (n, pf) = m !! (n, pf)) ->
  dseg m' c ns t.
Proof.
  revert c. induction ns as [|n ns IH]; intros c Hs Hc Hm; cbn in *; [by rewrite Hc|].
  destruct Hs as (H1 & H2 & H3). destruct (Hm n ltac:(left)) as [E1 E2].
  rewrite Hc, E2. split; [done|]. split; [done|]. apply IH; [done|done|].
  intros n' Hn'. apply Hm. by right.
Qed.

(** Change what the last cell holds. *)
Lemma dseg_redirect m m' c ns t t' :
  dseg m c ns t -> c.1 ∉ ns -> NoDup ns -> m' !! dend c ns = Some t' ->
  (forall l, l <> dend c ns -> l = c \/ is_link l ns -> m' !! l = m !! l) -> dseg m' c ns t'.
Proof.
  revert c. induction ns as [|n ns IH]; intros c Hs Hc Hnd He Hm; [done|]. cbn [dseg dend] in *.
  destruct Hs as (H1 & H2 & H3). apply not_elem_of_cons in Hc as [Hcn Hc].
  apply NoDup_cons_iff in Hnd as [Hn Hnd].
  assert (Hne : forall l, l.1 = c.1 \/ l = (n, pf) -> l <> dend (n, nf) ns).
  { intros l Hl ->. destruct (dend_in (n, nf) ns) as [E|(n' & Hn' & E)]; rewrite E in Hl; cbn in Hl.
    - destruct Hl as [Hl|[= Hl]]; [by apply Hcn|]. by apply Hfields.
    - destruct Hl as [Hl|[= Hl _]]; [by rewrite <- Hl in Hc|by rewrite Hl in Hn']. }
  split; [rewrite Hm; [done|auto|auto]|]. split.
  { rewrite Hm; [done|auto|right; split; [left|by right]]. }
  apply IH; [done|done|done|done|]. intros l Hl [->|[Hin Hfl]]; apply Hm; auto; right.
  - split; [left|by left].
  - split; [by right|done].
Qed.

(** The same chain behind another cell, of which the first element knows. *)
Lemma dseg_rehead m m' c c' ns t :
  dseg m c ns t -> NoDup ns -> m' !! c' = Some (dhead ns t) ->
  (match ns with [] => True | n :: _ => m' !! (n, pf) = Some (Vptr c') end) ->
  (forall n, n ∈ ns -> m' !! (n, nf) = m !! (n, nf)) ->
  (forall n, n ∈ tail ns -> m' !! (n, pf) = m !! (n, pf)) -> dseg m' c' ns t.
Proof.
  intros Hs Hnd Hc Hp Hm1 Hm2. destruct ns as [|n ns]; [done|]. cbn in *.
  destruct Hs as (_ & _ & Hs). split; [done|]. split; [done|].
  apply (dseg_frame m); [done|apply Hm1; left|]. intros n' Hn'. split; [apply Hm1; by right|by apply Hm2].
Qed.

Lemma dseg_rehead_links m m' c c' ns t :
  dseg m c ns t -> NoDup ns -> m' !! c' = Some (dhead ns t) ->
  (match ns with [] => True | n :: _ => m' !! (n, pf) = Some (Vptr c') end) ->
  (forall l, is_link l ns -> (forall y, head ns = Some y -> l <> (y, pf)) -> m' !! l = m !! l) ->
  dseg m' c' ns t.
Proof using Hfields.
  intros Hs Hnd Hc Hp Hf. apply (dseg_rehead m m' c); auto.
  - intros n Hn. apply Hf; [by split; [|left]|]. intros y _ [= _ E]. done.
  - intros n Hn. assert (n ∈ ns) by (destruct ns; [done|by right]).
    apply Hf; [by split; [|right]|]. intros y Hy [= E]. destruct ns; [done|]. injection Hy as ->.
    apply NoDup_cons_iff in Hnd as [? _]. cbn in Hn. congruence.
Qed.

(** Insert an element between two parts of a chain, or take one out: only the
    cell before it, its own links and the back link of the element after it
    matter. *)
Lemma dseg_insert m m' c xs ys a t :
  dseg m c (xs ++ ys) t -> NoDup (c.1 :: xs ++ ys) -> a ∉ c.1 :: xs ++ ys ->
  m' !! dend c xs = Some (obj a) -> m' !! (a, pf) = Some (Vptr (dend c xs)) ->
  m' !! (a, nf) = Some (dhead ys t) ->
  match ys with [] => True | y :: _ => m' !! (y, pf) = Some (Vptr (a, nf)) end ->
  (forall l, l = c \/ is_link l (xs ++ ys) -> l <> dend c xs ->
     (forall y, head ys = Some y -> l <> (y, pf)) -> m' !! l = m !! l) ->
  dseg m' c (xs ++ a :: ys) t.
Proof using Hfields.
  intros Hs Hnd Ha H1 H2 H3 H4 Hf. apply dseg_app in Hs as [Hx Hy].
  apply NoDup_cons_iff in Hnd as [HL Hnd]. apply NoDup_app_iff in Hnd as (Hndx & Hxy & Hndy).
  rewrite not_elem_of_cons, not_elem_of_app in *. destruct Ha as (HaL & Hax & Hay), HL as [HLx HLy].
  apply dseg_app. split; [apply (dseg_redirect m m' _ xs (dhead ys t)); auto|].
  - intros l Hl Hin. apply Hf; [|done|].
    + destruct Hin as [->|[Hin Hfl]]; [by left|]. right. split; [apply elem_of_app; by left|done].
    + intros y Hyy ->. assert (y ∈ ys) by (destruct ys; [done|injection Hyy as ->; left]).
      destruct Hin as [<-|[Hin _]]; cbn in *; [done|]. by apply (Hxy y).
  - cbn [dseg]. split; [done|]. split; [done|].
    apply (dseg_rehead_links m m' (dend c xs)); auto. intros l [Hl Hfl] Hne. apply Hf; [|..|done].
    + right. split; [apply elem_of_app; by right|done].
    + intros ->. destruct (dend_in c xs) as [E|(x & Hxx & E)]; rewrite E in Hl; [done|]. by apply (Hxy x).
Qed.

Lemma dseg_remove m m' c xs ys a t :
  dseg m c (xs ++ a :: ys) t -> NoDup (c.1 :: xs ++ a :: ys) ->
  m' !! dend c xs = Some (dhead ys t) ->
  match ys with [] => True | y :: _ => m' !! (y, pf) = Some (Vptr (dend c xs)) end ->
  (forall l, l = c \/ is_link l (xs ++ ys) -> l <> dend c xs ->
     (forall y, head ys = Some y -> l <> (y, pf)) -> m' !! l = m !! l) ->
  dseg m' c (xs ++ ys) t.
Proof using Hfields.
  intros Hs Hnd H1 H4 Hf. apply dseg_app in Hs as [Hx (_ & _ & Hy)].
  apply NoDup_cons_iff in Hnd as [HL Hnd]. apply NoDup_app_iff in Hnd as (Hndx & Hxy & Hndy).
  apply NoDup_cons_iff in Hndy as [Hay Hndy].
  rewrite not_elem_of_app, not_elem_of_cons in HL. destruct HL as (HLx & HLa & HLy).
  apply dseg_app. split; [apply (dseg_redirect m m' _ xs (obj a)); auto|].
  - intros l Hl Hin. apply Hf; [|done|].
    + destruct Hin as [->|[Hin Hfl]]; [by left|]. right. split; [apply elem_of_app; by left|done].
    + intros y Hyy ->. assert (y ∈ ys) by (destruct ys; [done|injection Hyy as ->; left]).
      destruct Hin as [<-|[Hin _]]; cbn in *; [done|]. apply (Hxy y Hin). by right.
  - apply (dseg_rehead_links m m' (a, nf)); auto. intros l [Hl Hfl] Hne. apply Hf; [|..|done].
    + right. split; [apply elem_of_app; by right|done].
    + intros ->. destruct (dend_in c xs) as [E|(x & Hxx & E)]; rewrite E in Hl; [done|].
      apply (Hxy x Hxx). by right.
Qed.
End Chain.
