(* ===== verification/SqlPlist.v ===== *)
(** sql_plist.h: the intrusive parameterized list [I_P_List].

    A list object has the fields [m_first] (0), [m_counter] (1) and [m_last]
    (2); the last two exist for the counting and the fast-push-back policy.
    The adapter gives the fields of the links in the elements. *)
From S2P Require Import Prelude Memory.
Open Scope Z_scope.
Open Scope mem_scope.

(** The parameter [C]: [I_P_List_null_counter] or [I_P_List_counter]. *)
Inductive counter_policy := null_counter | counter.
(** The parameter [I]: [I_P_List_no_push_back] or [I_P_List_fast_push_back]. *)
Inductive insert_policy := no_push_back | fast_push_back.

(** The parameter [B]: an [I_P_List_adapter]. *)
Record adapter := mkAdapter { next : nat; prev : nat }.
Definition next_ptr (B : adapter) (el : loc) : loc := (el.1, next B).
Definition prev_ptr (B : adapter) (el : loc) : loc := (el.1, prev B).

Definition m_first (L : nat) : loc := (L, 0%nat).
Definition m_counter (L : nat) : loc := (L, 1%nat).
Definition m_last (L : nat) : loc := (L, 2%nat).

(** Exchange the contents of two cells. *)
Definition swap_variables (a b : loc) : M unit :=
  let* x := load a in let* y := load b in store a y ;;; store b x.

(** ** Counting policies *)
Section Counter.
Context (C : counter_policy).

Definition counter_reset (L : nat) : M unit :=
  match C with null_counter => ret tt | counter => store (m_counter L) (Vint 0) end.
Definition counter_inc (L : nat) : M unit :=
  match C with
  | null_counter => ret tt
  | counter => let* n := load_int (m_counter L) in store (m_counter L) (Vint (u32 (n + 1)))
  end.
Definition counter_dec (L : nat) : M unit :=
  match C with
  | null_counter => ret tt
  | counter => let* n := load_int (m_counter L) in store (m_counter L) (Vint (u32 (n - 1)))
  end.
Definition counter_swap (L rhs : nat) : M unit :=
  match C with null_counter => ret tt | counter => swap_variables (m_counter L) (m_counter rhs) end.
End Counter.

Definition elements (L : nat) : M Z := load_int (m_counter L).

(** ** Insertion policies: [get_last] exists for fast push back only. *)
Section Insert.
Context (I : insert_policy).

Definition set_last (L : nat) (a : val) : M unit :=
  match I with no_push_back => ret tt | fast_push_back => store (m_last L) a end.
Definition get_last (L : nat) : M loc :=
  match I with no_push_back => undefined | fast_push_back => load_ptr (m_last L) end.
Definition insert_swap (L rhs : nat) : M unit :=
  match I with no_push_back => ret tt | fast_push_back => swap_variables (m_last L) (m_last rhs) end.
End Insert.

(** ** The list *)
Section I_P_List.
Context (B : adapter) (C : counter_policy) (I : insert_policy).

(** The fields of a new list. *)
Definition I_P_List_new (L : nat) : list val := [Vnull; Vint 0; Vptr (m_first L)].

Definition empty (L : nat) : M unit :=
  store (m_first L) Vnull ;;; counter_reset C L ;;; set_last I L (Vptr (m_first L)).

Definition is_empty (L : nat) : M bool :=
  let* f := load (m_first L) in ret (negb (is_ptr f)).

Definition push_front (L : nat) (a : loc) : M unit :=
  let* f := load (m_first L) in
  store (next_ptr B a) f ;;;
  let* f := load (m_first L) in
  (if is_ptr f then
     let* first := as_ptr f in store (prev_ptr B first) (Vptr (next_ptr B a))
   else set_last I L (Vptr (next_ptr B a))) ;;;
  store (m_first L) (Vptr a) ;;;
  store (prev_ptr B a) (Vptr (m_first L)) ;;;
  counter_inc C L.

Definition push_back (L : nat) (a : loc) : M unit :=
  let* last := get_last I L in
  let* v := load last in
  store (next_ptr B a) v ;;;
  store last (Vptr a) ;;;
  store (prev_ptr B a) (Vptr last) ;;;
  set_last I L (Vptr (next_ptr B a)) ;;;
  counter_inc C L.

Definition insert_after (L : nat) (pos : val) (a : loc) : M unit :=
  if negb (is_ptr pos) then push_front L a
  else
    let* pos := as_ptr pos in
    let* n := load (next_ptr B pos) in
    store (next_ptr B a) n ;;;
    store (prev_ptr B a) (Vptr (next_ptr B pos)) ;;;
    store (next_ptr B pos) (Vptr a) ;;;
    let* n := load (next_ptr B a) in
    (if is_ptr n then
       let* old_next := load_ptr (next_ptr B a) in
       store (prev_ptr B old_next) (Vptr (next_ptr B a))
     else set_last I L (Vptr (next_ptr B a))) ;;;
    counter_inc C L.

Definition remove (L : nat) (a : loc) : M unit :=
  let* next := load (next_ptr B a) in
  (if is_ptr next then
     let* n := as_ptr next in
     let* p := load (prev_ptr B a) in store (prev_ptr B n) p
   else let* p := load (prev_ptr B a) in set_last I L p) ;;;
  let* p := load_ptr (prev_ptr B a) in
  store p next ;;;
  counter_dec C L.

Definition front (L : nat) : M val := load (m_first L).

Definition pop_front (L : nat) : M val :=
  let* result := front L in
  (if is_ptr result then let* r := as_ptr result in remove L r else ret tt) ;;;
  ret result.

(** Its parameter is a list with the policy [I_P_List_no_push_back], so that it
    can only be used with this policy. *)
Definition swap (L rhs : nat) : M unit :=
  swap_variables (m_first L) (m_first rhs) ;;;
  insert_swap I L rhs ;;;
  let* f := load (m_first L) in
  (if is_ptr f then let* p := as_ptr f in store (prev_ptr B p) (Vptr (m_first L))
   else set_last I L (Vptr (m_first L))) ;;;
  let* f := load (m_first rhs) in
  (if is_ptr f then let* p := as_ptr f in store (prev_ptr B p) (Vptr (m_first rhs))
   else set_last I L (Vptr (m_first rhs))) ;;;
  counter_swap C L rhs.
End I_P_List.

(** ** Iterators *)
Record iterator := mkIterator { it_list : nat; current : val }.

Definition iterator_new (L : nat) : M iterator :=
  let* f := load (m_first L) in ret (mkIterator L f).
Definition iterator_at (L : nat) (current_arg : val) : iterator := mkIterator L current_arg.
Definition iterator_init (it : iterator) (L : nat) : M iterator :=
  let* f := load (m_first L) in ret (mkIterator L f).

(** [it++] *)
Definition iterator_post (B : adapter) (it : iterator) : M (val * iterator) :=
  let result := current it in
  if is_ptr result then
    let* p := as_ptr (current it) in
    let* n := load (next_ptr B p) in ret (result, mkIterator (it_list it) n)
  else ret (result, it).

(** [++it] *)
Definition iterator_pre (B : adapter) (it : iterator) : M (val * iterator) :=
  let* p := as_ptr (current it) in
  let* n := load (next_ptr B p) in ret (n, mkIterator (it_list it) n).

Definition iterator_rewind (it : iterator) : M iterator :=
  let* f := load (m_first (it_list it)) in ret (mkIterator (it_list it) f).
