(* ===== verification/PlistSpec.v ===== *)
(** Correctness of [I_P_List]: it is a sequence of elements.

    [prep m L ns]: the list object [L] represents the sequence [ns].  Insertion
    and removal are specified once, by what they change around one position;
    each operation of the code is an instance. *)
From S2P Require Import Prelude Memory DList SqlPlist.
Open Scope Z_scope.
Open Scope mem_scope.

Section Plist.
Context (B : adapter) (HB : next B <> prev B) (C : counter_policy) (I : insert_policy).
Abbreviation nf := (next B).
Abbreviation pf := (prev B).
Abbreviation seg := (dseg nf pf).
Abbreviation last_cell := (dend nf).

Record prep (m : mem) (L : nat) (ns : list nat) : Prop := {
  prep_seg : seg m (m_first L) ns Vnull;
  prep_count : C = counter -> m !! m_counter L = Some (Vint (u32 (Z.of_nat (length ns))));
  prep_last : I = fast_push_back -> m !! m_last L = Some (Vptr (last_cell (m_first L) ns));
  prep_nodup : NoDup (L :: ns) }.

(** The element's link cells exist. *)
Definition avail (m : mem) (n : nat) : Prop :=
  is_Some (m !! (n, nf)) /\ is_Some (m !! (n, pf)).

(** The cell after the elements [xs], and the cells around a position. *)
Definition at_cell (L : nat) (xs : list nat) : loc := last_cell (m_first L) xs.

Definition around (L : nat) (xs ys : list nat) (a : nat) (l : loc) : Prop :=
  l = at_cell L xs \/ l = (a, nf) \/ l = (a, pf) \/ l = m_counter L \/ l = m_last L \/
  (exists y, head ys = Some y /\ l = (y, pf)).

(** What an insertion of [a] between [xs] and [ys] does. *)
Record inserted (m m' : mem) (L : nat) (xs ys : list nat) (a : nat) : Prop := {
  ins_before : m' !! at_cell L xs = Some (obj a);
  ins_prev : m' !! (a, pf) = Some (Vptr (at_cell L xs));
  ins_next : m' !! (a, nf) = Some (dhead ys Vnull);
  ins_after : match ys with [] => True | y :: _ => m' !! (y, pf) = Some (Vptr (a, nf)) end;
  ins_count : C = counter -> m' !! m_counter L = Some (Vint (u32 (Z.of_nat (length xs + length ys) + 1)));
  ins_last : I = fast_push_back ->
    m' !! m_last L = Some (Vptr (last_cell (m_first L) (xs ++ a :: ys)));
  ins_frame : forall l, ~ around L xs ys a l -> m' !! l = m !! l }.

(** What a removal of [a] between [xs] and [ys] does. *)
Record removed (m m' : mem) (L : nat) (xs ys : list nat) (a : nat) : Prop := {
  rem_before : m' !! at_cell L xs = Some (dhead ys Vnull);
  rem_after : match ys with [] => True | y :: _ => m' !! (y, pf) = Some (Vptr (at_cell L xs)) end;
  rem_count : C = counter -> m' !! m_counter L = Some (Vint (u32 (Z.of_nat (length xs + length ys))));
  rem_last : I = fast_push_back ->
    m' !! m_last L = Some (Vptr (last_cell (m_first L) (xs ++ ys)));
  rem_own : m' !! (a, nf) = m !! (a, nf) /\ m' !! (a, pf) = m !! (a, pf);
  rem_frame : forall l, ~ around L xs ys a l -> m' !! l = m !! l }.

Lemma at_cell_cases L xs :
  at_cell L xs = m_first L \/ exists x, x ∈ xs /\ at_cell L xs = (x, nf).
Proof. apply dend_in. Qed.

Lemma at_cell_ne L xs n f :
  n ∉ xs -> (n <> L \/ (f <> 0)%nat) -> at_cell L xs <> (n, f).
Proof.
  intros Hn Hl E. destruct (at_cell_cases L xs) as [E'|(x & Hx & E')]; rewrite E' in E.
  - injection E as -> <-. by destruct Hl.
  - injection E as -> _. done.
Qed.

Lemma at_cell_prev L xs x : x <> L -> at_cell L xs <> (x, pf).
Proof.
  intros HL E. destruct (at_cell_cases L xs) as [E'|(x' & Hx & E')]; rewrite E' in E.
  - injection E as -> _. done.
  - injection E as _ E. by apply HB.
Qed.

Lemma not_around L xs ys a l :
  l <> at_cell L xs -> l.1 <> a -> (l.1 = L -> l.2 = 0%nat) ->
  (forall y, head ys = Some y -> l <> (y, pf)) -> ~ around L xs ys a l.
Proof.
  intros H1 H2 H3 H4 [E|[E|[E|[E|[E|(y & Hy & E)]]]]]; [done| | | | |by apply (H4 y)];
    subst l; cbn in *; congruence || discriminate (H3 eq_refl).
Qed.

(** A cell of the chain is around the position only if it is one of the two
    that the chain lemmas allow to change. *)
Lemma link_not_around L xs ys a l :
  L ∉ xs ++ ys -> a ∉ L :: xs ++ ys -> l = m_first L \/ is_link nf pf l (xs ++ ys) ->
  l <> at_cell L xs -> (forall y, head ys = Some y -> l <> (y, pf)) -> ~ around L xs ys a l.
Proof.
  intros HL Ha Hl Hat Hy. rewrite not_elem_of_cons in Ha. destruct Ha.
  apply not_around; [done|..|done].
  - destruct Hl as [->|[Hl _]]; cbn; congruence.
  - intros E. destruct Hl as [->|[Hl _]]; [done|congruence].
Qed.

(** The chain after an insertion or a removal. *)
Lemma seg_inserted m m' L xs ys a :
  seg m (m_first L) (xs ++ ys) Vnull -> NoDup (L :: xs ++ ys) -> a ∉ L :: xs ++ ys ->
  inserted m m' L xs ys a -> seg m' (m_first L) (xs ++ a :: ys) Vnull.
Proof using HB.
  intros Hs Hnd Ha [H1 H2 H3 H4 _ _ Hf]. apply (dseg_insert nf pf HB m); auto.
  intros l Hl Hat Hy. apply Hf, link_not_around; auto. by apply NoDup_cons_iff in Hnd as [? _].
Qed.

Lemma seg_removed m m' L xs ys a :
  seg m (m_first L) (xs ++ a :: ys) Vnull -> NoDup (L :: xs ++ a :: ys) ->
  removed m m' L xs ys a -> seg m' (m_first L) (xs ++ ys) Vnull.
Proof using HB.
  intros Hs Hnd [H1 H4 _ _ _ Hf]. apply (dseg_remove nf pf HB m m' _ xs ys a); auto.
  rewrite NoDup_cons_iff, <- Permutation_middle, NoDup_cons_iff, elem_of_cons in Hnd.
  destruct Hnd as (HL & Ha & _). intros l Hl Hat Hy. apply Hf, link_not_around; auto.
  rewrite not_elem_of_cons. split; [|done]. intros ->. tauto.
Qed.

Lemma prep_inserted m m' L xs ys a :
  prep m L (xs ++ ys) -> a ∉ L :: xs ++ ys -> inserted m m' L xs ys a ->
  prep m' L (xs ++ a :: ys).
Proof using HB.
  intros [Hs _ _ Hnd] Ha Hi. split.
  - by apply (seg_inserted m).
  - intros HC. rewrite (ins_count _ _ _ _ _ _ Hi HC), length_app. cbn [length]. do 3 f_equal. lia.
  - apply Hi.
  - rewrite not_elem_of_cons in Ha. destruct Ha as [HaL Ha].
    rewrite NoDup_cons_iff in Hnd |- *. destruct Hnd as [HL Hnd]. split.
    + rewrite not_elem_of_app, not_elem_of_cons in *. intuition congruence.
    + rewrite <- Permutation_middle. by constructor.
Qed.

Lemma prep_removed m m' L xs ys a :
  prep m L (xs ++ a :: ys) -> removed m m' L xs ys a -> prep m' L (xs ++ ys).
Proof using HB.
  intros [Hs _ _ Hnd] Hr. split.
  - by apply (seg_removed m _ _ _ _ a).
  - intros HC. rewrite (rem_count _ _ _ _ _ _ Hr HC), length_app. done.
  - apply Hr.
  - rewrite NoDup_cons_iff in Hnd |- *. destruct Hnd as [HL Hnd]. split.
    + rewrite not_elem_of_app, not_elem_of_cons in *. tauto.
    + rewrite <- Permutation_middle in Hnd. by apply NoDup_cons_iff in Hnd as [_ ?].
Qed.

(** * The operations *)

(** Cells that none of the writes around a position has touched. *)
Ltac untouched :=
  let l := fresh "l" in let Hl := fresh "Hl" in
  intros l Hl; rewrite ?lookup_insert_ne; [reflexivity|..];
  intros <-; apply Hl; unfold around, at_cell; cbn; eauto 8.

Lemma u32_succ n : u32 (u32 n + 1) = u32 (n + 1).
Proof. apply wrap_add_l. Qed.
Lemma u32_pred n : u32 (u32 n - 1) = u32 (n - 1).
Proof. apply (wrap_add_l 32 n (-1)). Qed.

Ltac prun :=
  unfold obj in *; repeat first [progress cbn [is_ptr negb fst] | mstep]; cbn beta iota zeta.

(** The cases of the two policies. *)
Ltac policies Hc Hl :=
  let EC := fresh "EC" in let EI := fresh "EI" in
  destruct C eqn:EC; destruct I eqn:EI; try specialize (Hc eq_refl); try specialize (Hl eq_refl);
  cbn [dend] in Hl.

Ltac inserted_tac :=
  split; cbn [dhead app dend length]; unfold at_cell, m_first, m_counter, m_last, obj; cbn [dend];
  [ lk | lk | lk | first [exact Logic.I | lk] | intros; first [congruence | rewrite ?u32_succ; lk]
  | intros; first [congruence | lk] | untouched ].

Lemma plist_push_front_ok m L ns a :
  prep m L ns -> avail m a -> a ∉ L :: ns ->
  exists m', push_front B C I L (a, 0%nat) m = Some (tt, m') /\ inserted m m' L [] ns a.
Proof using HB.
  intros [Hs Hc Hl Hnd] [[vn Hn] [vp Hp]] Ha. rewrite not_elem_of_cons in Ha. destruct Ha as [HaL Ha].
  pose proof (dseg_head _ _ _ _ _ _ Hs) as Hf. unfold m_first, m_counter, m_last in *.
  unfold push_front, next_ptr, prev_ptr, counter_inc, set_last, m_first, m_counter, m_last. cbn [fst].
  destruct ns as [|y ns]; cbn [dhead is_ptr] in *.
  - policies Hc Hl; prun; eexists; (split; [reflexivity|]); inserted_tac.
  - rewrite not_elem_of_cons in Ha. rewrite NoDup_cons_iff, not_elem_of_cons in Hnd.
    destruct Ha as [Hay _], Hnd as [[HLy _] _], Hs as (_ & Hyp & _).
    policies Hc Hl; prun; eexists; (split; [reflexivity|]); inserted_tac.
Qed.

(** The cell before a position is none of the others that are written. *)
Lemma at_cell_facts L xs a :
  L ∉ xs -> a ∉ L :: xs ->
  at_cell L xs <> (a, nf) /\ at_cell L xs <> (a, pf) /\
  at_cell L xs <> (L, 1%nat) /\ at_cell L xs <> (L, 2%nat).
Proof using HB.
  intros HL Ha. rewrite not_elem_of_cons in Ha. destruct Ha.
  repeat split; apply at_cell_ne; auto.
Qed.

Lemma plist_push_back_ok m L ns a :
  I = fast_push_back -> prep m L ns -> avail m a -> a ∉ L :: ns ->
  exists m', push_back B C I L (a, 0%nat) m = Some (tt, m') /\ inserted m m' L ns [] a.
Proof using HB.
  intros HI [Hs Hc Hl Hnd] [[vn Hn] [vp Hp]] Ha. rewrite NoDup_cons_iff in Hnd. destruct Hnd as [HL _].
  destruct (at_cell_facts L ns a HL Ha) as (N1 & N2 & N3 & N4).
  rewrite not_elem_of_cons in Ha. destruct Ha as [HaL Ha].
  pose proof (dseg_end _ _ _ _ _ _ Hs) as He. fold (at_cell L ns) in He, Hl.
  assert (Hend : last_cell (m_first L) (ns ++ [a]) = (a, nf)) by (by rewrite dend_app).
  unfold m_counter, m_last, m_first in *. remember (at_cell L ns) as e eqn:Ee.
  unfold push_back, next_ptr, prev_ptr, counter_inc, set_last, get_last, m_counter, m_last. cbn [fst].
  policies Hc Hl; try discriminate; prun; eexists; (split; [reflexivity|]).
  all: split; unfold m_first, m_counter, m_last, obj; rewrite <- ?Ee, ?Hend, ?Nat.add_0_r; cbn [dhead];
    [ lk | lk | lk | exact Logic.I | intros; first [congruence | rewrite ?u32_succ; lk]
    | intros; first [congruence | lk] | rewrite Ee; untouched ].
Qed.

Lemma insert_after_ok m L xs pos ys a :
  prep m L (xs ++ pos :: ys) -> avail m a -> a ∉ L :: xs ++ pos :: ys ->
  exists m', insert_after B C I L (Vptr (pos, 0%nat)) (a, 0%nat) m = Some (tt, m') /\
    inserted m m' L (xs ++ [pos]) ys a.
Proof using HB.
  intros [Hs Hc Hl Hnd] [[vn Hn] [vp Hp]] Ha.
  rewrite not_elem_of_cons, not_elem_of_app, not_elem_of_cons in Ha. destruct Ha as (HaL & Hax & Hap & Hay).
  rewrite NoDup_cons_iff, not_elem_of_app, not_elem_of_cons in Hnd. destruct Hnd as [(HLx & HLp & HLy) Hnd].
  apply NoDup_app_iff in Hnd as (_ & _ & Hnd). apply NoDup_cons_iff in Hnd as [Hpy _].
  pose proof Hs as Hs'. apply dseg_app in Hs' as [_ (_ & _ & Hy)].
  pose proof (dseg_head _ _ _ _ _ _ Hy) as Hpn.
  assert (Hat : at_cell L (xs ++ [pos]) = (pos, nf)) by (unfold at_cell; by rewrite dend_app).
  assert (Hlen : length (xs ++ pos :: ys) = (length (xs ++ [pos]) + length ys)%nat)
    by (rewrite !length_app; cbn; lia). rewrite Hlen in Hc.
  unfold insert_after, next_ptr, prev_ptr, counter_inc, set_last, m_counter, m_last in *. cbn [is_ptr negb].
  destruct ys as [|y ys]; cbn [dhead] in *.
  - assert (Hend : last_cell (m_first L) ((xs ++ [pos]) ++ [a]) = (a, nf)) by (by rewrite !dend_app).
    policies Hc Hl; prun; eexists; (split; [reflexivity|]).
    all: split; unfold m_counter, m_last, obj; rewrite ?Hat, ?Hend; cbn [dhead];
      [ lk | lk | lk | exact Logic.I | intros; first [congruence | rewrite ?u32_succ; lk]
      | intros; first [congruence | lk] | rewrite <- Hat; untouched ].
  - rewrite not_elem_of_cons in *. destruct Hay as [Hay _], HLy as [HLy _], Hpy as [Hpy _], Hy as (_ & Hyp & _).
    assert (Hend : last_cell (m_first L) ((xs ++ [pos]) ++ a :: y :: ys) = last_cell (m_first L) (xs ++ pos :: y :: ys))
      by (by rewrite !dend_app). 
    policies Hc Hl; prun; eexists; (split; [reflexivity|]).
    all: split; unfold m_counter, m_last, obj; rewrite ?Hat, ?Hend; cbn [dhead];
      [ lk | lk | lk | lk | intros; first [congruence | rewrite ?u32_succ; lk]
      | intros; first [congruence | lk] | rewrite <- Hat; untouched ].
Qed.

Lemma plist_remove_ok m L xs a ys :
  prep m L (xs ++ a :: ys) ->
  exists m', remove B C I L (a, 0%nat) m = Some (tt, m') /\ removed m m' L xs ys a.
Proof using HB.
  intros [Hs Hc Hl Hnd].
  rewrite NoDup_cons_iff, not_elem_of_app, not_elem_of_cons in Hnd. destruct Hnd as [(HLx & HLa & HLy) Hnd].
  apply NoDup_app_iff in Hnd as (_ & Hxy & Hnd). apply NoDup_cons_iff in Hnd as [Hay _].
  assert (Hax : a ∉ xs) by (intros Hin; apply (Hxy a Hin); left).
  apply dseg_app in Hs as [Hx (_ & Hap & Hy)].
  pose proof (dseg_head _ _ _ _ _ _ Hy) as Han. pose proof (dseg_end _ _ _ _ _ _ Hx) as He.
  destruct (at_cell_facts L xs a HLx ltac:(by apply not_elem_of_cons)) as (N1 & N2 & N3 & N4).
  fold (at_cell L xs) in *. remember (at_cell L xs) as e eqn:Ee.
  assert (Hlen : u32 (Z.of_nat (length (xs ++ a :: ys)) - 1) = u32 (Z.of_nat (length xs + length ys)))
    by (rewrite length_app; f_equal; cbn; lia).
  unfold remove, next_ptr, prev_ptr, counter_dec, set_last, m_counter, m_last in *. cbn [fst].
  destruct ys as [|y ys]; cbn [dhead is_ptr] in *.
  - policies Hc Hl; prun; eexists; (split; [reflexivity|]).
    all: split; unfold m_counter, m_last, obj; rewrite <- ?Ee; cbn [dhead]; rewrite ?app_nil_r;
      [ lk | exact Logic.I | intros; first [congruence | rewrite ?u32_pred, ?Hlen; lk]
      | intros; first [congruence | fold (at_cell L xs); rewrite <- ?Ee; lk] | split; lk | rewrite Ee; untouched ].
  - rewrite not_elem_of_cons in *. destruct Hay as [Hay _], HLy as [HLy _], Hy as (_ & Hyp & _).
    assert (N5 : e <> (y, pf)) by (rewrite Ee; apply at_cell_prev; congruence).
    assert (Hend : last_cell (m_first L) (xs ++ a :: y :: ys) = last_cell (m_first L) (xs ++ y :: ys))
      by (by rewrite !dend_app). rewrite Hend in Hl.
    policies Hc Hl; prun; eexists; (split; [reflexivity|]).
    all: split; unfold m_counter, m_last, obj; rewrite <- ?Ee; cbn [dhead];
      [ lk | lk | intros; first [congruence | rewrite ?u32_pred, ?Hlen; lk]
      | intros; first [congruence | lk] | split; lk | rewrite Ee; untouched ].
Qed.

(** [swap] exchanges two lists; it exists for the policy without push back. *)
Lemma swap_ok m L1 ns1 L2 ns2 :
  I = no_push_back -> prep m L1 ns1 -> prep m L2 ns2 -> NoDup (L1 :: L2 :: ns1 ++ ns2) ->
  exists m', swap B C I L1 L2 m = Some (tt, m') /\ prep m' L1 ns2 /\ prep m' L2 ns1.
Proof using HB.
  intros HI [Hs1 Hc1 _ Hnd1] [Hs2 Hc2 _ Hnd2] Hnd.
  rewrite !NoDup_cons_iff, not_elem_of_cons, !not_elem_of_app, NoDup_app_iff in Hnd.
  destruct Hnd as ((HL & HL11 & HL12) & (HL21 & HL22) & Hn1 & Hd & Hn2).
  pose proof (dseg_head _ _ _ _ _ _ Hs1) as Hf1. pose proof (dseg_head _ _ _ _ _ _ Hs2) as Hf2.
  assert (Hnd12 : NoDup (L1 :: ns2)) by (by apply NoDup_cons_iff).
  assert (Hnd21 : NoDup (L2 :: ns1)) by (by apply NoDup_cons_iff).
  assert (Hgo : exists m', swap B C I L1 L2 m = Some (tt, m') /\
    m' !! m_first L1 = Some (dhead ns2 Vnull) /\ m' !! m_first L2 = Some (dhead ns1 Vnull) /\
    (match ns2 with [] => True | y :: _ => m' !! (y, pf) = Some (Vptr (m_first L1)) end) /\
    (match ns1 with [] => True | y :: _ => m' !! (y, pf) = Some (Vptr (m_first L2)) end) /\
    (C = counter -> m' !! m_counter L1 = m !! m_counter L2 /\ m' !! m_counter L2 = m !! m_counter L1) /\
    (forall l, l.1 <> L1 -> l.1 <> L2 ->
       (forall y, head ns1 = Some y \/ head ns2 = Some y -> l <> (y, pf)) -> m' !! l = m !! l)).
  { unfold m_first, m_counter in *. unfold swap, insert_swap, counter_swap, set_last, prev_ptr, swap_variables, m_first, m_counter, m_last.
    destruct ns1 as [|y1 ns1], ns2 as [|y2 ns2]; cbn [dhead head] in *;
      destruct C eqn:EC; destruct I; try discriminate; try specialize (Hc1 eq_refl); try specialize (Hc2 eq_refl).
    all: cbn [dseg] in Hs1, Hs2; rewrite ?not_elem_of_cons in *; destruct_and?.
    all: try (assert (y1 <> y2) by (intros ->; apply (Hd y2); left)).
    all: prun; eexists; (split; [reflexivity|]).
    all: split; [lk|]; split; [lk|]; split; [first [exact Logic.I|lk]|]; split; [first [exact Logic.I|lk]|].
    all: split; [intros; first [discriminate | congruence | split; (etrans; [lk|symmetry; eassumption])]|].
    all: intros [o f] HA HB' HC; cbn [fst] in *; rewrite ?lookup_insert_ne; [reflexivity|..];
      first [congruence | intros E; symmetry in E; revert E; apply HC; auto]. }
  destruct Hgo as (m' & E & F1 & F2 & P1 & P2 & Hc & Hfr). exists m'. split; [done|].
  assert (Hin : forall (ns : list nat) y, head ns = Some y -> y ∈ ns) by (intros ns y; destruct ns; [done|intros [= ->]; left]).
  split.
  - split; [|by intros HC; destruct (Hc HC) as [-> _]; apply Hc2|congruence|done].
    apply (dseg_rehead nf pf m m' (m_first L2)); auto.
    + intros n Hn. apply Hfr; cbn; [congruence|congruence|]. intros y _ [= _ E']. done.
    + intros n Hn. assert (n ∈ ns2) by (destruct ns2; [done|by right]).
      apply Hfr; cbn; [congruence|congruence|]. intros y [Hy|Hy] [= E'].
      * apply Hin in Hy. rewrite <- E' in Hy. by apply (Hd n).
      * destruct ns2; [done|]. injection Hy as ->. apply NoDup_cons_iff in Hn2 as [? _]. cbn in Hn. congruence.
  - split; [|by intros HC; destruct (Hc HC) as [_ ->]; apply Hc1|congruence|done].
    apply (dseg_rehead nf pf m m' (m_first L1)); auto.
    + intros n Hn. apply Hfr; cbn; [congruence|congruence|]. intros y _ [= _ E']. done.
    + intros n Hn. assert (n ∈ ns1) by (destruct ns1; [done|by right]).
      apply Hfr; cbn; [congruence|congruence|]. intros y [Hy|Hy] [= E'].
      * destruct ns1; [done|]. injection Hy as ->. apply NoDup_cons_iff in Hn1 as [? _]. cbn in Hn. congruence.
      * apply Hin in Hy. rewrite <- E' in Hy. by apply (Hd n).
Qed.
End Plist.
