(* ===== verification/PlistSim.v ===== *)
(** [I_P_List] as seen by its clients: a sequence, for any succession of
    operations; lists through other link fields of the same elements are not
    affected; the iterator survives the removal of its element. *)
From S2P Require Import Prelude Memory DList SqlPlist PlistSpec.
Open Scope Z_scope.
Open Scope mem_scope.

(** * Commands *)

Inductive cmd :=
| PushFront (a : nat) | PushBack (a : nat) | InsertAfter (pos : option nat) (a : nat)
| Remove (a : nat) | PopFront | Front | IsEmpty | Empty | Elements.

Inductive result := RUnit | RElement (n : option nat) | RBool (b : bool) | RCount (n : Z).

Definition ptr_of (n : option nat) : val := match n with None => Vnull | Some n => obj n end.
Definition of_ptr (v : val) : option nat := match v with Vptr l => Some l.1 | _ => None end.

(** The elements a command brings in. *)
Definition new_elements (c : cmd) : list nat :=
  match c with PushFront a | PushBack a | InsertAfter _ a => [a] | _ => [] end.

Section Commands.
Context (B : adapter) (C : counter_policy) (I : insert_policy).

Definition run_cmd (L : nat) (c : cmd) : M result :=
  match c with
  | PushFront a => push_front B C I L (a, 0%nat) ;;; ret RUnit
  | PushBack a => push_back B C I L (a, 0%nat) ;;; ret RUnit
  | InsertAfter p a => insert_after B C I L (ptr_of p) (a, 0%nat) ;;; ret RUnit
  | Remove a => remove B C I L (a, 0%nat) ;;; ret RUnit
  | PopFront => let* v := pop_front B C I L in ret (RElement (of_ptr v))
  | Front => let* v := front L in ret (RElement (of_ptr v))
  | IsEmpty => let* b := is_empty L in ret (RBool b)
  | Empty => empty C I L ;;; ret RUnit
  | Elements => let* n := elements L in ret (RCount n)
  end.

Fixpoint run_cmds (L : nat) (cs : list cmd) : M (list result) :=
  match cs with
  | [] => ret []
  | c :: cs => let* r := run_cmd L c in let* rs := run_cmds L cs in ret (r :: rs)
  end.

(** ** The sequence *)

Fixpoint insert_behind (p a : nat) (ns : list nat) : list nat :=
  match ns with
  | [] => []
  | n :: ns => if decide (n = p) then n :: a :: ns else n :: insert_behind p a ns
  end.

(** [None]: the command is not allowed (the element is already in the list, is
    not in it, or the policies have no [push_back] or no [elements]). *)
Definition astep (c : cmd) (ns : list nat) : option (result * list nat) :=
  match c with
  | PushFront a | InsertAfter None a =>
    if decide (a ∈ ns) then None else Some (RUnit, a :: ns)
  | PushBack a =>
    match I with
    | no_push_back => None
    | fast_push_back => if decide (a ∈ ns) then None else Some (RUnit, ns ++ [a])
    end
  | InsertAfter (Some p) a =>
    if decide (p ∈ ns) then
      if decide (a ∈ ns) then None else Some (RUnit, insert_behind p a ns)
    else None
  | Remove a => if decide (a ∈ ns) then Some (RUnit, delete_element a ns) else None
  | PopFront => Some (RElement (head ns), tail ns)
  | Front => Some (RElement (head ns), ns)
  | IsEmpty => Some (RBool (match ns with [] => true | _ => false end), ns)
  | Empty => Some (RUnit, [])
  | Elements =>
    match C with
    | null_counter => None
    | counter => Some (RCount (u32 (Z.of_nat (length ns))), ns)
    end
  end.

Fixpoint arun (cs : list cmd) (ns : list nat) : option (list result * list nat) :=
  match cs with
  | [] => Some ([], ns)
  | c :: cs =>
    match astep c ns with
    | None => None
    | Some (r, ns) =>
      match arun cs ns with
      | None => None
      | Some (rs, ns) => Some (r :: rs, ns)
      end
    end
  end.
End Commands.

Lemma insert_behind_eq p a xs ys :
  p ∉ xs -> insert_behind p a (xs ++ p :: ys) = (xs ++ [p]) ++ a :: ys.
Proof.
  intros Hp. induction xs as [|x xs IH]; cbn; [by rewrite decide_True|].
  apply not_elem_of_cons in Hp as [Hx Hp]. rewrite decide_False by congruence. by rewrite IH.
Qed.

(** * Effects *)

Section Simulation.
Context (B : adapter) (HB : next B <> prev B) (C : counter_policy) (I : insert_policy).
Abbreviation nf := (next B).
Abbreviation pf := (prev B).

(** Only the list object and the links of the elements [U] may change, and no
    link cell disappears. *)
Record touched (m m' : mem) (L : nat) (U : nat -> Prop) : Prop := {
  touch_frame : forall l, l.1 <> L -> (U l.1 -> l.2 <> nf /\ l.2 <> pf) -> m' !! l = m !! l;
  touch_avail : forall n, n <> L -> avail B m n -> avail B m' n }.

Lemma touched_refl m L U : touched m m L U.
Proof. by split. Qed.
Lemma touched_trans m m' m'' L U : touched m m' L U -> touched m' m'' L U -> touched m m'' L U.
Proof.
  intros [F A] [F' A']. split; [|auto]. intros l H1 H2. by rewrite F', F.
Qed.

Lemma around_cases L xs ys a (l : loc) (U : nat -> Prop) :
  U a -> (forall n, n ∈ xs ++ ys -> U n) -> around B L xs ys a l -> l.1 <> L ->
  U l.1 /\ (l.2 = nf \/ l.2 = pf).
Proof.
  intros Ha Hn Hl HL. destruct Hl as [E|[->|[->|[->|[->|(y & Hy & ->)]]]]]; cbn in *; auto; try done.
  - destruct (at_cell_cases B L xs) as [E'|(x & Hx & E')]; rewrite E', E in *; cbn in *; [done|].
    split; [|auto]. apply Hn, elem_of_app. by left.
  - split; [|auto]. apply Hn, elem_of_app. right. destruct ys; [done|]. injection Hy as ->. left.
Qed.

(** The cells around a position, one by one. *)
Lemma around_dec L xs ys a (l : loc) : l.1 <> L ->
  l = at_cell B L xs \/ l = (a, nf) \/ l = (a, pf) \/ (exists y, head ys = Some y /\ l = (y, pf)) \/
  ~ around B L xs ys a l.
Proof.
  intros HL. destruct (decide (l = at_cell B L xs)); [auto|]. destruct (decide (l = (a, nf))); [auto|].
  destruct (decide (l = (a, pf))); [auto|].
  destruct (decide (Some l = (fun y => (y, pf)) <$> head ys)) as [E|E].
  { destruct (head ys) as [y|]; [|done]. injection E as E. right; right; right; left. by exists y. }
  right; right; right; right. intros [?|[?|[?|[->|[->|(y & Hy & ->)]]]]]; try done. by rewrite Hy in E.
Qed.

Lemma inserted_touched m m' L xs ys a (U : nat -> Prop) :
  U a -> (forall n, n ∈ xs ++ ys -> U n) -> inserted B C I m m' L xs ys a -> touched m m' L U.
Proof.
  intros Ha Hn [H1 H2 H3 H4 _ _ Hf].
  assert (Hs : forall l, l.1 <> L -> is_Some (m !! l) -> is_Some (m' !! l)).
  { intros l HL Hl. destruct (around_dec L xs ys a l HL) as [->|[->|[->|[(y & Hy & ->)|Hout]]]]; eauto.
    - destruct ys; [done|]. injection Hy as ->. eauto.
    - by rewrite Hf. }
  split.
  - intros l HL HU. apply Hf. intros Hl.
    destruct (around_cases L xs ys a l U Ha Hn Hl HL) as [HUl Hfld]. apply HU in HUl. tauto.
  - intros n HL []. split; by apply Hs.
Qed.

Lemma removed_touched m m' L xs ys a (U : nat -> Prop) :
  avail B m a -> U a -> (forall n, n ∈ xs ++ ys -> U n) -> removed B C I m m' L xs ys a ->
  touched m m' L U.
Proof.
  intros Hav Ha Hn [H1 H4 _ _ [Ho1 Ho2] Hf].
  assert (Hs : forall l, l.1 <> L -> is_Some (m !! l) -> is_Some (m' !! l)).
  { intros l HL Hl. destruct (around_dec L xs ys a l HL) as [->|[->|[->|[(y & Hy & ->)|Hout]]]]; eauto.
    - rewrite Ho1. apply Hav.
    - rewrite Ho2. apply Hav.
    - destruct ys; [done|]. injection Hy as ->. eauto.
    - by rewrite Hf. }
  split.
  - intros l HL HU. apply Hf. intros Hl.
    destruct (around_cases L xs ys a l U Ha Hn Hl HL) as [HUl Hfld]. apply HU in HUl. tauto.
  - intros n HL []. split; by apply Hs.
Qed.

Lemma dseg_avail m c ns t n : dseg nf pf m c ns t -> n ∈ ns -> avail B m n.
Proof.
  revert c. induction ns as [|x ns IH]; intros c Hs Hn; [by apply elem_of_nil in Hn|].
  destruct Hs as (_ & Hp & Hs). apply elem_of_cons in Hn as [->|Hn]; [|by apply (IH (x, nf))].
  split; [|eauto]. apply dseg_head in Hs. eauto.
Qed.

(** An operation's effect: its sequence, and what it touches. *)
Definition does (m m' : mem) (L : nat) (U : nat -> Prop) (ns : list nat) : Prop :=
  prep B C I m' L ns /\ touched m m' L U /\ (forall n, n ∈ ns -> U n).

Lemma does_insert m m' L xs ys a (U : nat -> Prop) :
  prep B C I m L (xs ++ ys) -> (forall n, n ∈ xs ++ ys -> U n) -> U a -> a <> L -> a ∉ xs ++ ys ->
  inserted B C I m m' L xs ys a -> does m m' L U (xs ++ a :: ys).
Proof using HB.
  intros Hp HU Ha HaL Hn Hi. split; [|split].
  - apply (prep_inserted B HB C I m); [done| |done]. by apply not_elem_of_cons.
  - by apply (inserted_touched m m' L xs ys a).
  - intros n. rewrite elem_of_app, elem_of_cons. intros [?|[->|?]]; [|done|];
      apply HU, elem_of_app; auto.
Qed.

Lemma does_remove m m' L xs ys a (U : nat -> Prop) :
  prep B C I m L (xs ++ a :: ys) -> (forall n, n ∈ xs ++ a :: ys -> U n) ->
  removed B C I m m' L xs ys a -> does m m' L U (xs ++ ys).
Proof using HB.
  intros Hp HU Hr.
  assert (Hsub : forall n, n ∈ xs ++ ys -> U n).
  { intros n Hn. apply HU. rewrite elem_of_app, elem_of_cons in *. tauto. }
  assert (Ha : a ∈ xs ++ a :: ys) by (apply elem_of_app; right; left).
  split; [by apply (prep_removed B HB C I m _ _ _ _ a)|]. split; [|done].
  apply (removed_touched m m' L xs ys a); auto. apply (dseg_avail m _ _ _ _ (prep_seg _ _ _ _ _ _ Hp) Ha).
Qed.

Lemma does_empty m L ns (U : nat -> Prop) : prep B C I m L ns ->
  exists m', empty C I L m = Some (tt, m') /\ does m m' L U [].
Proof.
  intros [Hs Hc Hl Hnd]. apply dseg_head in Hs.
  assert (E : exists m', empty C I L m = Some (tt, m') /\ m' !! m_first L = Some Vnull
    /\ (C = counter -> m' !! m_counter L = Some (Vint 0))
    /\ (I = fast_push_back -> m' !! m_last L = Some (Vptr (m_first L)))
    /\ forall l, l.1 <> L -> m' !! l = m !! l).
  { unfold empty, counter_reset, set_last, m_first, m_counter, m_last in *.
    destruct C; destruct I; try specialize (Hc eq_refl); try specialize (Hl eq_refl); mrun;
      eexists; (split; [reflexivity|]); (split; [lk|]); (split; [intros; first [congruence|lk]|]);
      (split; [intros; first [congruence|lk]|]); intros [o f] HL; cbn in HL; by rewrite !lookup_insert_ne by congruence. }
  destruct E as (m' & E & F1 & F2 & F3 & F). exists m'. split; [done|]. split; [|split].
  - split; auto. apply NoDup_singleton.
  - split; [auto|]. intros n HL [A1 A2]. split; by rewrite F.
  - intros n []%not_elem_of_nil.
Qed.

Lemma plist_run_cmd_ok m L ns c r ns' (U : nat -> Prop) :
  prep B C I m L ns -> (forall n, n ∈ ns -> U n) ->
  (forall a, a ∈ new_elements c -> U a /\ a <> L /\ avail B m a) ->
  astep C I c ns = Some (r, ns') ->
  exists m', run_cmd B C I L c m = Some (r, m') /\ does m m' L U ns'.
Proof using HB.
  intros Hp HU Hnew Hs. pose proof (dseg_head _ _ _ _ _ _ (prep_seg _ _ _ _ _ _ Hp)) as Hhd.
  assert (Hfront : forall a, U a /\ a <> L /\ avail B m a -> a ∉ ns ->
    exists m', (push_front B C I L (a, 0%nat) ;;; ret RUnit) m = Some (RUnit, m') /\ does m m' L U (a :: ns)).
  { intros a (HUa & HaL & Hav) Ha.
    destruct (plist_push_front_ok B HB C I m L ns a Hp Hav) as (m' & E & Hi); [by apply not_elem_of_cons|].
    exists m'. rewrite (run_bind _ _ _ _ _ E). split; [done|]. by apply (does_insert m m' L [] ns a). }
  destruct c as [a|a|[p|] a|a| | | | |]; cbn [astep run_cmd new_elements ptr_of] in *.
  - destruct (decide (a ∈ ns)); [done|]. injection Hs as <- <-. apply Hfront; [apply Hnew; left|done].
  - destruct I eqn:EI; [done|]. destruct (decide (a ∈ ns)) as [|Ha]; [done|]. injection Hs as <- <-.
    destruct (Hnew a ltac:(left)) as (HUa & HaL & Hav). rewrite <- EI in *.
    destruct (plist_push_back_ok B HB C I m L ns a EI Hp Hav) as (m' & E & Hi); [by apply not_elem_of_cons|].
    exists m'. rewrite (run_bind _ _ _ _ _ E). split; [done|].
    apply (does_insert m m' L ns [] a); rewrite ?app_nil_r; done.
  - destruct (decide (p ∈ ns)) as [Hpin|]; [|done]. destruct (decide (a ∈ ns)) as [|Ha]; [done|].
    injection Hs as <- <-. destruct (Hnew a ltac:(left)) as (HUa & HaL & Hav).
    destruct (split_at p ns Hpin) as (xs & ys & -> & Hpx).
    destruct (insert_after_ok B HB C I m L xs p ys a Hp Hav) as (m' & E & Hi); [by apply not_elem_of_cons|].
    exists m'. rewrite (run_bind _ _ _ _ _ E), insert_behind_eq by done. split; [done|].
    apply (does_insert m m' L (xs ++ [p]) ys a); rewrite <- ?app_assoc; done.
  - destruct (decide (a ∈ ns)); [done|]. injection Hs as <- <-. apply Hfront; [apply Hnew; left|done].
  - destruct (decide (a ∈ ns)) as [Ha|]; [|done]. injection Hs as <- <-.
    destruct (split_at a ns Ha) as (xs & ys & -> & Hax).
    destruct (plist_remove_ok B HB C I m L xs a ys Hp) as (m' & E & Hi).
    exists m'. rewrite (run_bind _ _ _ _ _ E), delete_element_eq by done. split; [done|].
    by apply (does_remove m m' L xs ys a).
  - injection Hs as <- <-. unfold pop_front, front. unfold m_first in *. destruct ns as [|a ns]; cbn [dhead] in Hhd.
    + exists m. mrun. split; [done|]. by split; [|split; [apply touched_refl|]].
    + destruct (plist_remove_ok B HB C I m L [] a ns Hp) as (m' & E & Hi).
      exists m'. unfold obj in Hhd. mrun. cbn [is_ptr]. mrun. rewrite (run_bind _ _ _ _ _ E). split; [done|].
      by apply (does_remove m m' L [] ns a).
  - injection Hs as <- <-. exists m. unfold front. unfold m_first in *. mrun. split; [|by split; [|split; [apply touched_refl|]]].
    by destruct ns.
  - injection Hs as <- <-. exists m. unfold is_empty. unfold m_first in *. mrun. split; [|by split; [|split; [apply touched_refl|]]].
    by destruct ns.
  - injection Hs as <- <-. destruct (does_empty m L ns U Hp) as (m' & E & D). exists m'.
    by rewrite (run_bind _ _ _ _ _ E).
  - destruct C eqn:EC; [done|]. rewrite <- EC in *. injection Hs as <- <-. exists m.
    pose proof (prep_count _ _ _ _ _ _ Hp EC) as Hn. unfold elements, m_counter, load_int in *. mrun.
    split; [done|]. by split; [|split; [apply touched_refl|]].
Qed.

Lemma plist_run_cmds_ok L (U : nat -> Prop) cs : forall m ns rs ns',
  prep B C I m L ns -> (forall n, n ∈ ns -> U n) ->
  (forall c a, c ∈ cs -> a ∈ new_elements c -> U a /\ a <> L /\ avail B m a) ->
  arun C I cs ns = Some (rs, ns') ->
  exists m', run_cmds B C I L cs m = Some (rs, m') /\ does m m' L U ns'.
Proof using HB.
  induction cs as [|c cs IH]; intros m ns rs ns' Hp HU Hnew Hr; cbn [arun run_cmds] in *.
  - injection Hr as <- <-. exists m. split; [done|]. by split; [|split; [apply touched_refl|]].
  - destruct (astep C I c ns) as [[r ns1]|] eqn:Es; [|done].
    destruct (arun C I cs ns1) as [[rs1 ns2]|] eqn:Er; [|done]. injection Hr as <- <-.
    destruct (plist_run_cmd_ok m L ns c r ns1 U Hp HU) as (m1 & E1 & Hp1 & Ht1 & HU1); [|done|].
    { intros a Ha. apply (Hnew c); [left|done]. }
    destruct (IH m1 ns1 rs1 ns2 Hp1 HU1) as (m2 & E2 & Hp2 & Ht2 & HU2); [|done|].
    { intros c' a Hc Ha. destruct (Hnew c' a ltac:(by right) Ha) as (? & ? & ?).
      split; [done|]. split; [done|]. by apply (touch_avail _ _ _ _ Ht1). }
    exists m2. rewrite (run_bind _ _ _ _ _ E1), (run_bind _ _ _ _ _ E2). split; [done|].
    split; [done|]. split; [|done]. by apply (touched_trans m m1).
Qed.

(** A list through other fields is not affected. *)
Lemma prep_other m m' L (U : nat -> Prop) B' C' I' L' ns :
  touched m m' L U -> L' <> L -> ~ U L' -> L ∉ ns ->
  next B' <> nf -> next B' <> pf -> prev B' <> nf -> prev B' <> pf ->
  prep B' C' I' m L' ns -> prep B' C' I' m' L' ns.
Proof.
  intros [F _] HL HU Hns H1 H2 H3 H4 [Hs Hc Hl Hnd].
  assert (FL : forall f, m' !! (L', f) = m !! (L', f)) by (intros; by apply F).
  split; [|unfold m_counter; by rewrite FL|unfold m_last; by rewrite FL|done].
  apply (dseg_frame _ _ m); [done|apply FL|]. intros n Hn.
  assert (n <> L) by congruence. split; by apply F.
Qed.

(** ** Iteration with removal *)

(** [while (el= it++) { if (P el) remove(el); }], with the elements seen. *)
Fixpoint visit (fuel : nat) (P : nat -> bool) (L : nat) (it : iterator) : M (list nat) :=
  match fuel with
  | O => undefined
  | S fuel =>
    let* x := iterator_post B it in
    match x with
    | (Vptr el, it) =>
      (if P el.1 then remove B C I L el else ret tt) ;;;
      let* rest := visit fuel P L it in ret (el.1 :: rest)
    | _ => ret []
    end
  end.

Lemma visit_ok P L ys : forall fuel m xs it,
  prep B C I m L (xs ++ ys) -> current it = dhead ys Vnull -> (length ys < fuel)%nat ->
  exists m', visit fuel P L it m = Some (ys, m') /\
    prep B C I m' L (xs ++ filter (fun n => P n = false) ys).
Proof using HB.
  induction ys as [|y ys IH]; intros fuel m xs it Hp Hc Hf; (destruct fuel as [|fuel]; [cbn in Hf; lia|]);
    cbn [visit]; unfold iterator_post; rewrite Hc; cbn [dhead is_ptr].
  - exists m. mrun. split; [done|]. by rewrite filter_nil.
  - pose proof (prep_seg _ _ _ _ _ _ Hp) as Hs. apply dseg_app in Hs as [_ (_ & _ & Hs)].
    apply dseg_head in Hs. unfold obj, next_ptr. cbn [is_ptr]. mrun. cbn [fst].
    destruct (P y) eqn:HP.
    + destruct (plist_remove_ok B HB C I m L xs y ys Hp) as (m1 & E1 & Hr).
      apply (prep_removed B HB C I m) in Hr; [|done]. rewrite (run_bind _ _ _ _ _ E1).
      destruct (IH fuel m1 xs (mkIterator (it_list it) (dhead ys Vnull)) Hr eq_refl) as (m2 & E2 & Hp2);
        [cbn in Hf; lia|].
      exists m2. rewrite (run_bind _ _ _ _ _ E2). split; [done|].
      rewrite filter_cons_False by congruence. done.
    + rewrite bind_ret.
      destruct (IH fuel m (xs ++ [y]) (mkIterator (it_list it) (dhead ys Vnull))) as (m2 & E2 & Hp2);
        [by rewrite <- app_assoc|done|cbn in Hf; lia|].
      exists m2. rewrite (run_bind _ _ _ _ _ E2). split; [done|].
      rewrite filter_cons_True by done. by rewrite <- app_assoc in Hp2.
Qed.
End Simulation.

(** * Properties *)

(** C6: Starting from any well-formed list, with or without element counting
    and fast push back, any allowed succession of push_front, push_back,
    insert_after, remove, pop_front, front, is_empty, empty and elements (the
    last where elements are counted) returns what the same
    operations on a sequence return and leaves the list well-formed: linked in
    both directions, ended by NULL, with the end pointer and the 32-bit count
    of its elements right.  A list of the same elements through other link
    fields is left exactly as it was. *)
Theorem plist_simulates_sequence (B : adapter) (C : counter_policy) (I : insert_policy)
    (m : mem) (L : nat) (ns : list nat) (cs : list cmd) (rs : list result) (ns' : list nat) :
  next B <> prev B -> prep B C I m L ns ->
  (forall a, a ∈ mjoin (new_elements <$> cs) -> a <> L /\ avail B m a) ->
  arun C I cs ns = Some (rs, ns') ->
  exists m', run_cmds B C I L cs m = Some (rs, m') /\ prep B C I m' L ns' /\
    (forall B' C' I' L' ms,
       next B' <> next B -> next B' <> prev B -> prev B' <> next B -> prev B' <> prev B ->
       L' <> L -> L' ∉ ns ++ mjoin (new_elements <$> cs) -> L ∉ ms ->
       prep B' C' I' m L' ms -> prep B' C' I' m' L' ms).
Proof.
  intros HB Hp Hnew Hr.
  destruct (plist_run_cmds_ok B HB C I L (fun n => n ∈ ns ++ mjoin (new_elements <$> cs)) cs m ns rs ns' Hp)
    as (m' & E & Hp' & Ht & _); [| |done|].
  { intros n Hn. apply elem_of_app. by left. }
  { intros c a Hc Ha. assert (Hin : a ∈ mjoin (new_elements <$> cs)).
    { apply list_elem_of_join. exists (new_elements c). split; [done|]. by apply list_elem_of_fmap_2. }
    destruct (Hnew a Hin). split; [apply elem_of_app; by right|done]. }
  exists m'. split; [done|]. split; [done|].
  intros B' C' I' L' ms H1 H2 H3 H4 HL HU HLm Hp2. by apply (prep_other B m m' L _ B' C' I' L' ms Ht).
Qed.

(** List 5, empty, with counting and fast push back, and list 6, through other
    fields, with element 12; elements 10, 11 and 12 have the link fields 1 to
    4. *)
Definition demo_B : adapter := mkAdapter 1 2.
Definition other_B : adapter := mkAdapter 3 4.
Definition plist_mem : mem := list_to_map
  ([((5, 0)%nat, Vnull); ((5, 1)%nat, Vint 0); ((5, 2)%nat, Vptr (5, 0)%nat);
    ((6, 0)%nat, Vptr (12, 0)%nat); ((12, 3)%nat, Vnull); ((12, 4)%nat, Vptr (6, 0)%nat)] ++
   ((fun n => ((n, 1)%nat, Vnull)) <$> [10; 11; 12]%nat) ++
   ((fun n => ((n, 2)%nat, Vnull)) <$> [10; 11; 12]%nat)).

Lemma plist_mem_rep : prep demo_B counter fast_push_back plist_mem 5 [].
Proof. split; try reflexivity; [intros; reflexivity..|]. apply NoDup_singleton. Qed.

Lemma plist_mem_avail a : a ∈ [12; 10; 11; 12]%nat -> a <> 5%nat /\ avail demo_B plist_mem a.
Proof.
  rewrite !elem_of_cons, elem_of_nil. intros [->|[->|[->|[->|[]]]]]; (split; [done|]); split; eexists; reflexivity.
Qed.

Definition plist_cmds : list cmd :=
  [PushFront 12; Empty; PushBack 10; PushFront 11; InsertAfter (Some 11%nat) 12; Elements; Remove 10; PopFront; Front].

Definition plist_results : list result :=
  [RUnit; RUnit; RUnit; RUnit; RUnit; RCount 3; RUnit; RElement (Some 11%nat); RElement (Some 12%nat)].

Lemma plist_simulates_witness :
  exists m', run_cmds demo_B counter fast_push_back 5 plist_cmds plist_mem =
      Some (plist_results, m') /\
    prep demo_B counter fast_push_back m' 5 [12%nat] /\
    prep other_B null_counter no_push_back m' 6 [12%nat].
Proof.
  destruct (plist_simulates_sequence demo_B counter fast_push_back plist_mem 5 [] plist_cmds
    plist_results [12%nat]
    ltac:(discriminate) plist_mem_rep plist_mem_avail
    ltac:(vm_compute; reflexivity)) as (m' & E & Hp & Ho).
  exists m'. split; [exact E|]. split; [exact Hp|].
  apply Ho; try discriminate; try (apply (bool_decide_unpack _); vm_compute; exact Logic.I).
  split; try discriminate; [repeat split; reflexivity|]. apply (bool_decide_unpack _). vm_compute. exact Logic.I.
Defined.

(** C37: The iterator remembers the next element, so a loop may remove the
    element it is at: the loop sees every element of the list once and in
    order, ends, and leaves exactly the elements it did not remove. *)
Theorem plist_iterator_survives_removal (B : adapter) (C : counter_policy) (I : insert_policy)
    (m : mem) (L : nat) (ns : list nat) (P : nat -> bool) :
  next B <> prev B -> prep B C I m L ns ->
  exists m', (let* it := iterator_new L in visit B C I (S (length ns)) P L it) m = Some (ns, m') /\
    prep B C I m' L (filter (fun n => P n = false) ns).
Proof.
  intros HB Hp. pose proof (dseg_head _ _ _ _ _ _ (prep_seg _ _ _ _ _ _ Hp)) as Hf.
  unfold iterator_new. unfold m_first in *. mrun.
  destruct (visit_ok B HB C I P L ns (S (length ns)) m [] (mkIterator L (dhead ns Vnull)) Hp eq_refl)
    as (m' & E & Hp'); [lia|]. by exists m'.
Qed.

Lemma plist_iterator_witness :
  exists m', (let* it := iterator_new 6 in
     visit other_B null_counter no_push_back 2 (fun n => Nat.eqb n 12) 6 it) plist_mem = Some ([12%nat], m') /\
    prep other_B null_counter no_push_back m' 6 [].
Proof.
  exact (plist_iterator_survives_removal other_B null_counter no_push_back plist_mem 6 [12%nat]
    (fun n => Nat.eqb n 12) ltac:(discriminate)
    ltac:(split; try discriminate; [repeat split; reflexivity|];
          apply (bool_decide_unpack _); vm_compute; exact Logic.I)).
Defined.
