(* ===== verification/SqlIlink.v ===== *)
(** sql_list.h: [ilink], [base_ilist], [I_List] and their iterators.

    An [ilink] is two adjacent cells, [prev] and [next]; a list object has the
    field [first] (0) and the embedded link [last] (1 and 2), the sentinel.  An
    element is an object whose link is its field 0. *)
From S2P Require Import Prelude Memory DList.
Open Scope Z_scope.
Open Scope mem_scope.

(** * The code *)

Module ilink.
Definition prev (p : loc) : loc := p.
Definition next (p : loc) : loc := (p.1, S p.2).

(** [new] of an element; [my_malloc] with MY_FAE does not return NULL. *)
Definition init : list val := [Vnull; Vnull].

Definition unlink (p : loc) : M unit :=
  let* pr := load (prev p) in
  (if is_ptr pr then
     let* q := as_ptr pr in let* nx := load (next p) in store q nx
   else ret tt) ;;;
  let* nx := load (next p) in
  (if is_ptr nx then
     let* q := as_ptr nx in let* pr := load (prev p) in store (prev q) pr
   else ret tt) ;;;
  store (prev p) Vnull ;;;
  store (next p) Vnull.

Definition assert_linked (p : loc) : M unit :=
  let* pr := load (prev p) in let* nx := load (next p) in
  if is_ptr pr && is_ptr nx then ret tt else undefined.

Definition assert_not_linked (p : loc) : M unit :=
  let* pr := load (prev p) in let* nx := load (next p) in
  if negb (is_ptr pr) && negb (is_ptr nx) then ret tt else undefined.

(** [delete]: the destructor unlinks, then the memory is freed. *)
Definition delete (p : loc) : M unit :=
  unlink p ;;; (fun m => Some (tt, base.delete (prev p) (base.delete (next p) m))).
End ilink.

Module base_ilist.
Import ilink.

Definition first (L : nat) : loc := (L, 0%nat).
Definition last (L : nat) : loc := (L, 1%nat).

Definition empty (L : nat) : M unit :=
  store (first L) (Vptr (last L)) ;;; store (prev (last L)) (Vptr (first L)).

Definition is_empty (L : nat) : M bool :=
  let* f := load (first L) in ret (bool_decide (f = Vptr (last L))).

Definition is_last (L : nat) (p : loc) : M bool :=
  let* n := load (next p) in ret (negb (is_ptr n) || bool_decide (n = Vptr (last L))).

Definition append (L : nat) (a : loc) : M unit :=
  let* f := load_ptr (first L) in
  store (prev f) (Vptr (next a)) ;;;
  let* f := load (first L) in
  store (next a) f ;;;
  store (prev a) (Vptr (first L)) ;;;
  store (first L) (Vptr a).

Definition push_back (L : nat) (a : loc) : M unit :=
  let* p := load_ptr (prev (last L)) in
  store p (Vptr a) ;;;
  store (next a) (Vptr (last L)) ;;;
  let* p := load (prev (last L)) in
  store (prev a) p ;;;
  store (prev (last L)) (Vptr (next a)).

Definition get (L : nat) : M val :=
  let* first_link := load (first L) in
  if bool_decide (first_link = Vptr (last L)) then ret Vnull
  else
    let* p := as_ptr first_link in
    unlink p ;;;
    ret first_link.

Definition head (L : nat) : M val :=
  let* f := load (first L) in
  ret (if bool_decide (f = Vptr (last L)) then Vnull else f).

Definition move_elements_to (L new_owner : nat) : M unit :=
  let* e := is_empty new_owner in
  (if e then ret tt else undefined) ;;;
  let* f := load (first L) in
  store (first new_owner) f ;;;
  let* p := load (prev (last L)) in
  store (prev (last new_owner)) p ;;;
  let* n := load (next (last L)) in
  store (next (last new_owner)) n ;;;
  empty L.
End base_ilist.

Module base_ilist_iterator.
Import ilink base_ilist.

Record iterator := mkIterator { it_list : nat; el : loc; current : val }.

Definition init (L : nat) : iterator := mkIterator L (first L) Vnull.

Definition next (it : iterator) : M (val * iterator) :=
  let* current := load (el it) in
  if bool_decide (current = Vptr (last (it_list it))) then
    ret (Vnull, mkIterator (it_list it) (el it) current)
  else
    let* p := as_ptr current in
    ret (current, mkIterator (it_list it) (ilink.next p) current).

Definition unlink (it : iterator) : M iterator :=
  let* p := as_ptr (current it) in
  let* tmp := load_ptr (prev p) in
  ilink.unlink p ;;;
  ret (mkIterator (it_list it) tmp (current it)).

(** [I_List_iterator::remove] *)
Definition remove (it : iterator) : M iterator :=
  let* it := unlink it in
  let* p := as_ptr (current it) in
  ilink.delete p ;;;
  ret (mkIterator (it_list it) (el it) Vnull).
End base_ilist_iterator.

(** The members of [I_List<T>]. *)
Module I_List.
Definition is_last := base_ilist.is_last.
Definition empty := base_ilist.empty.
Definition is_empty := base_ilist.is_empty.
Definition append := base_ilist.append.
Definition push_back := base_ilist.push_back.
Definition get := base_ilist.get.
Definition head := base_ilist.head.
Definition move_elements_to := base_ilist.move_elements_to.
End I_List.
