(* ===== verification/IlinkSpec.v ===== *)
(** Correctness of [base_ilist]: a sequence of links, from which an element can
    remove itself. *)
From S2P Require Import Prelude Memory DList SqlIlink.
Import base_ilist.
Open Scope Z_scope.
Open Scope mem_scope.

Abbreviation iseg := (dseg 1 0).
Abbreviation last_cell := (dend 1).

Lemma ilink_fields : 1%nat <> 0%nat.
Proof. done. Qed.

(** The sentinel ends the chain and knows its last cell. *)
Record ilrep (m : mem) (L : nat) (ns : list nat) : Prop := {
  il_seg : iseg m (first L) ns (Vptr (last L));
  il_last : m !! last L = Some (Vptr (last_cell (first L) ns));
  il_next : is_Some (m !! (L, 2%nat));
  il_nodup : NoDup (L :: ns) }.

(** Links that exist; links of an element that is in no list. *)
Definition avail (m : mem) (n : nat) : Prop := is_Some (m !! (n, 0%nat)) /\ is_Some (m !! (n, 1%nat)).
Definition free_link (m : mem) (n : nat) : Prop := m !! (n, 0%nat) = Some Vnull /\ m !! (n, 1%nat) = Some Vnull.

(** A cell other than those written at a position: the cell before it, the
    element's links, the back link of the next element, or the sentinel's. *)
Definition elsewhere (L : nat) (xs ys : list nat) (a : nat) (l : loc) : Prop :=
  l <> last_cell (first L) xs /\ l.1 <> a /\ l <> last L /\
  (forall y, list.head ys = Some y -> l <> (y, 0%nat)).

Record linked (m m' : mem) (L : nat) (xs ys : list nat) (a : nat) : Prop := {
  li_before : m' !! last_cell (first L) xs = Some (obj a);
  li_prev : m' !! (a, 0%nat) = Some (Vptr (last_cell (first L) xs));
  li_next : m' !! (a, 1%nat) = Some (dhead ys (Vptr (last L)));
  li_after : match ys with [] => True | y :: _ => m' !! (y, 0%nat) = Some (Vptr (a, 1%nat)) end;
  li_last : m' !! last L = Some (Vptr (last_cell (first L) (xs ++ a :: ys)));
  li_frame : forall l, elsewhere L xs ys a l -> m' !! l = m !! l }.

Record unlinked (m m' : mem) (L : nat) (xs ys : list nat) (a : nat) : Prop := {
  ul_before : m' !! last_cell (first L) xs = Some (dhead ys (Vptr (last L)));
  ul_after : match ys with [] => True | y :: _ => m' !! (y, 0%nat) = Some (Vptr (last_cell (first L) xs)) end;
  ul_last : m' !! last L = Some (Vptr (last_cell (first L) (xs ++ ys)));
  ul_own : free_link m' a;
  ul_frame : forall l, elsewhere L xs ys a l -> m' !! l = m !! l }.

Lemma link_elsewhere L xs ys a l :
  L ∉ xs ++ ys -> a ∉ L :: xs ++ ys -> l = first L \/ is_link 1 0 l (xs ++ ys) ->
  l <> last_cell (first L) xs -> (forall y, list.head ys = Some y -> l <> (y, 0%nat)) ->
  elsewhere L xs ys a l.
Proof.
  intros HL Ha Hl Hat Hy. rewrite not_elem_of_cons in Ha. destruct Ha.
  split; [done|]. split; [|split; [|done]].
  - destruct Hl as [->|[Hl _]]; cbn; congruence.
  - intros ->. destruct Hl as [[=]|[Hl _]]. cbn in Hl. done.
Qed.

Lemma last_cell_cases L xs :
  last_cell (first L) xs = first L \/ exists x, x ∈ xs /\ last_cell (first L) xs = (x, 1%nat).
Proof. apply dend_in. Qed.

Lemma last_cell_ne L xs n f :
  n ∉ xs -> (n <> L \/ (f <> 0)%nat) -> last_cell (first L) xs <> (n, f).
Proof.
  intros Hn Hl E. destruct (last_cell_cases L xs) as [E'|(x & Hx & E')]; rewrite E' in E.
  - injection E as -> <-. by destruct Hl.
  - injection E as -> _. done.
Qed.

Lemma ilrep_linked m m' L xs ys a :
  ilrep m L (xs ++ ys) -> a ∉ L :: xs ++ ys -> linked m m' L xs ys a -> ilrep m' L (xs ++ a :: ys).
Proof.
  intros [Hs Hl Hx Hnd] Ha [H1 H2 H3 H4 H5 Hf].
  assert (HL : L ∉ xs ++ ys) by (by apply NoDup_cons_iff in Hnd as [? _]).
  split; [|done|..].
  - apply (dseg_insert 1 0 ilink_fields m); auto. intros l Hin Hat Hy. by apply Hf, link_elsewhere.
  - rewrite Hf; [done|]. rewrite not_elem_of_cons in Ha. rewrite not_elem_of_app in HL.
    split; [intros E; symmetry in E; revert E; apply last_cell_ne; [tauto|by right]|].
    split; [cbn; destruct Ha; congruence|]. split; [done|]. intros y Hy [=].
  - rewrite not_elem_of_cons in Ha. rewrite NoDup_cons_iff in Hnd |- *. split.
    + rewrite not_elem_of_app, not_elem_of_cons in *. intuition congruence.
    + rewrite <- Permutation_middle. apply NoDup_cons_iff. tauto.
Qed.

Lemma ilrep_unlinked m m' L xs ys a :
  ilrep m L (xs ++ a :: ys) -> unlinked m m' L xs ys a -> ilrep m' L (xs ++ ys).
Proof.
  intros [Hs Hl Hx Hnd] [H1 H4 H5 _ Hf].
  pose proof Hnd as Hnd'. rewrite NoDup_cons_iff, <- Permutation_middle, NoDup_cons_iff, elem_of_cons in Hnd'.
  destruct Hnd' as (HL & Ha & Hnd'). assert (a <> L) by (intros ->; tauto). assert (HL' : L ∉ xs ++ ys) by tauto.
  split; [|done|..].
  - apply (dseg_remove 1 0 ilink_fields m m' _ xs ys a); auto. intros l Hin Hat Hy.
    apply Hf, link_elsewhere; auto. by apply not_elem_of_cons.
  - rewrite Hf; [done|]. rewrite not_elem_of_app in HL'.
    split; [intros E; symmetry in E; revert E; apply last_cell_ne; [tauto|by right]|].
    split; [cbn; congruence|]. split; [done|]. intros y Hy [=].
  - by apply NoDup_cons_iff.
Qed.

(** * The operations *)

Ltac not_here :=
  let l := fresh "l" in let H1 := fresh in let H2 := fresh in let H3 := fresh in let H4 := fresh in
  intros l (H1 & H2 & H3 & H4); rewrite ?lookup_insert_ne; [reflexivity|..]; intros <-;
  unfold first, last in *; cbn in *; first [congruence | by eapply H4].

Ltac irun := unfold obj in *; repeat first [progress cbn [is_ptr negb fst snd] | mstep]; cbn beta iota zeta.

Lemma ilist_append_ok m L ns a :
  ilrep m L ns -> avail m a -> a ∉ L :: ns ->
  exists m', append L (a, 0%nat) m = Some (tt, m') /\ linked m m' L [] ns a.
Proof.
  intros [Hs Hl Hx Hnd] [[vp Hp] [vn Hn]] Ha. rewrite not_elem_of_cons in Ha. destruct Ha as [HaL Ha].
  pose proof (dseg_head _ _ _ _ _ _ Hs) as Hf. unfold first, last in *.
  unfold append, ilink.prev, ilink.next, first, last. cbn [fst snd].
  destruct ns as [|y ns]; cbn [dhead] in *.
  - irun. eexists; split; [reflexivity|].
    split; cbn [dhead app dend]; unfold obj, first, last; [lk|lk|lk|done|lk|not_here].
  - rewrite not_elem_of_cons in Ha. rewrite NoDup_cons_iff, not_elem_of_cons in Hnd.
    destruct Ha as [Hay _], Hnd as [[HLy _] _], Hs as (_ & Hyp & _).
    irun. eexists; split; [reflexivity|].
    split; cbn [dhead app dend]; unfold obj, first, last; [lk|lk|lk|lk|lk|not_here].
Qed.

Lemma last_cell_facts L xs a :
  L ∉ xs -> a ∉ L :: xs ->
  last_cell (first L) xs <> (a, 0%nat) /\ last_cell (first L) xs <> (a, 1%nat) /\
  last_cell (first L) xs <> (L, 1%nat) /\ (forall y, y <> L -> last_cell (first L) xs <> (y, 0%nat)).
Proof.
  intros HL Ha. rewrite not_elem_of_cons in Ha. destruct Ha.
  split; [apply last_cell_ne; auto|]. split; [apply last_cell_ne; auto|]. split; [apply last_cell_ne; auto|].
  intros y Hy E. destruct (last_cell_cases L xs) as [E'|(x & Hx & E')]; rewrite E' in E; [|done].
  injection E as ->. done.
Qed.

Lemma ilist_push_back_ok m L ns a :
  ilrep m L ns -> avail m a -> a ∉ L :: ns ->
  exists m', push_back L (a, 0%nat) m = Some (tt, m') /\ linked m m' L ns [] a.
Proof.
  intros [Hs Hl Hx Hnd] [[vp Hp] [vn Hn]] Ha. rewrite NoDup_cons_iff in Hnd. destruct Hnd as [HL _].
  destruct (last_cell_facts L ns a HL Ha) as (N1 & N2 & N3 & N4).
  rewrite not_elem_of_cons in Ha. destruct Ha as [HaL Ha].
  pose proof (dseg_end _ _ _ _ _ _ Hs) as He.
  assert (Hend : last_cell (first L) (ns ++ [a]) = (a, 1%nat)) by (by rewrite dend_app).
  unfold last in *. remember (last_cell (first L) ns) as e eqn:Ee.
  unfold push_back, ilink.prev, ilink.next, last. cbn [fst snd].
  irun. eexists; split; [reflexivity|].
  split; unfold obj, last; rewrite <- ?Ee, ?Hend; cbn [dhead]; [lk|lk|lk|done|lk|].
  rewrite Ee. not_here.
Qed.

Lemma unlink_ok m L xs a ys :
  ilrep m L (xs ++ a :: ys) ->
  exists m', ilink.unlink (a, 0%nat) m = Some (tt, m') /\ unlinked m m' L xs ys a.
Proof.
  intros [Hs Hl Hx Hnd].
  rewrite NoDup_cons_iff, not_elem_of_app, not_elem_of_cons in Hnd. destruct Hnd as [(HLx & HLa & HLy) Hnd].
  apply NoDup_app_iff in Hnd as (_ & Hxy & Hnd). apply NoDup_cons_iff in Hnd as [Hay _].
  assert (Hax : a ∉ xs) by (intros Hin; apply (Hxy a Hin); left).
  apply dseg_app in Hs as [Hxs (_ & Hap & Hy)].
  pose proof (dseg_head _ _ _ _ _ _ Hy) as Han. pose proof (dseg_end _ _ _ _ _ _ Hxs) as He.
  destruct (last_cell_facts L xs a HLx ltac:(by apply not_elem_of_cons)) as (N1 & N2 & N3 & N4).
  remember (last_cell (first L) xs) as e eqn:Ee.
  unfold ilink.unlink, ilink.prev, ilink.next. cbn [fst snd].
  destruct ys as [|y ys]; cbn [dhead] in *; unfold last in *.
  - irun. eexists; split; [reflexivity|].
    split; unfold free_link, obj, last; rewrite <- ?Ee; cbn [dhead]; rewrite ?app_nil_r, <- ?Ee;
      [lk|done|lk|split; lk|rewrite Ee; not_here].
  - rewrite not_elem_of_cons in *. destruct Hay as [Hay _], HLy as [HLy _], Hy as (_ & Hyp & _).
    specialize (N4 y ltac:(congruence)).
    assert (Hend : last_cell (first L) (xs ++ a :: y :: ys) = last_cell (first L) (xs ++ y :: ys))
      by (by rewrite !dend_app). rewrite Hend in Hl.
    irun. eexists; split; [reflexivity|].
    split; unfold free_link, obj, last; rewrite <- ?Ee; cbn [dhead];
      [lk|lk|lk|split; lk|rewrite Ee; not_here].
Qed.

(** * Successions of operations *)

Inductive cmd :=
| Append (a : nat) | PushBack (a : nat) | Unlink (a : nat) | Get | Head | IsEmpty | IsLast (a : nat).
Inductive result := RUnit | RElement (n : option nat) | RBool (b : bool).

Definition of_ptr (v : val) : option nat := match v with Vptr l => Some l.1 | _ => None end.

Definition run_cmd (L : nat) (c : cmd) : M result :=
  match c with
  | Append a => append L (a, 0%nat) ;;; ret RUnit
  | PushBack a => push_back L (a, 0%nat) ;;; ret RUnit
  | Unlink a => ilink.unlink (a, 0%nat) ;;; ret RUnit
  | Get => let* v := get L in ret (RElement (of_ptr v))
  | Head => let* v := head L in ret (RElement (of_ptr v))
  | IsEmpty => let* b := is_empty L in ret (RBool b)
  | IsLast a => let* b := is_last L (a, 0%nat) in ret (RBool b)
  end.

Fixpoint run_cmds (L : nat) (cs : list cmd) : M (list result) :=
  match cs with
  | [] => ret []
  | c :: cs => let* r := run_cmd L c in let* rs := run_cmds L cs in ret (r :: rs)
  end.

(** The sequence; [None]: the element is already in the list, or not in it. *)
Definition astep (c : cmd) (ns : list nat) : option (result * list nat) :=
  match c with
  | Append a => if decide (a ∈ ns) then None else Some (RUnit, a :: ns)
  | PushBack a => if decide (a ∈ ns) then None else Some (RUnit, ns ++ [a])
  | Unlink a => if decide (a ∈ ns) then Some (RUnit, delete_element a ns) else None
  | Get => Some (RElement (list.head ns), tail ns)
  | Head => Some (RElement (list.head ns), ns)
  | IsEmpty => Some (RBool (match ns with [] => true | _ => false end), ns)
  | IsLast a => if decide (a ∈ ns) then Some (RBool (bool_decide (list.last ns = Some a)), ns) else None
  end.

Fixpoint arun (cs : list cmd) (ns : list nat) : option (list result * list nat) :=
  match cs with
  | [] => Some ([], ns)
  | c :: cs =>
    match astep c ns with
    | None => None
    | Some (r, ns) =>
      match arun cs ns with
      | None => None
      | Some (rs, ns) => Some (r :: rs, ns)
      end
    end
  end.

Definition new_elements (c : cmd) : list nat :=
  match c with Append a | PushBack a => [a] | _ => [] end.

(** Link cells of elements other than the list object stay allocated. *)
Definition keeps (m m' : mem) (L : nat) : Prop := forall n, n <> L -> avail m n -> avail m' n.

Lemma elsewhere_dec L xs ys a (l : loc) : l.1 <> L ->
  l = last_cell (first L) xs \/ l.1 = a \/ (exists y, list.head ys = Some y /\ l = (y, 0%nat)) \/
  elsewhere L xs ys a l.
Proof.
  intros HL. destruct (decide (l = last_cell (first L) xs)); [auto|]. destruct (decide (l.1 = a)); [auto|].
  destruct (decide (Some l = (fun y => (y, 0%nat)) <$> list.head ys)) as [E|E].
  { destruct (list.head ys) as [y|]; [|done]. injection E as E. right; right; left. by exists y. }
  right; right; right. split; [done|]. split; [done|]. split; [intros ->; done|].
  intros y Hy ->. by rewrite Hy in E.
Qed.

Lemma linked_keeps m m' L xs ys a : linked m m' L xs ys a -> keeps m m' L.
Proof.
  intros [H1 H2 H3 H4 _ Hf] n HL [Hp Hn].
  assert (Hs : forall f, (f = 0%nat \/ f = 1%nat) -> is_Some (m !! (n, f)) -> is_Some (m' !! (n, f))).
  { intros f Hfld Hl. destruct (elsewhere_dec L xs ys a (n, f) HL) as [E|[E|[(y & Hy & E)|E]]].
    - rewrite E. eauto.
    - cbn in E. subst n. destruct Hfld; subst f; eauto.
    - rewrite E. destruct ys; [done|]. injection Hy as ->. eauto.
    - by rewrite Hf. }
  split; apply Hs; auto.
Qed.

Lemma unlinked_keeps m m' L xs ys a : unlinked m m' L xs ys a -> keeps m m' L.
Proof.
  intros [H1 H4 _ [Ho1 Ho2] Hf] n HL [Hp Hn].
  assert (Hs : forall f, (f = 0%nat \/ f = 1%nat) -> is_Some (m !! (n, f)) -> is_Some (m' !! (n, f))).
  { intros f Hfld Hl. destruct (elsewhere_dec L xs ys a (n, f) HL) as [E|[E|[(y & Hy & E)|E]]].
    - rewrite E. eauto.
    - cbn in E. subst n. destruct Hfld; subst f; eauto.
    - rewrite E. destruct ys; [done|]. injection Hy as ->. eauto.
    - by rewrite Hf. }
  split; apply Hs; auto.
Qed.

Lemma last_is_last m L ns a :
  ilrep m L ns -> a ∈ ns ->
  is_last L (a, 0%nat) m = Some (bool_decide (list.last ns = Some a), m).
Proof.
  intros [Hs _ _ Hnd] Ha. destruct (split_at a ns Ha) as (xs & ys & -> & Hax).
  apply dseg_app in Hs as [_ (_ & _ & Hs)]. apply dseg_head in Hs.
  unfold is_last, ilink.next, last. cbn [fst snd]. mrun. unfold ret. do 2 f_equal.
  rewrite last_app, last_cons.
  rewrite NoDup_cons_iff, not_elem_of_app, not_elem_of_cons, NoDup_app_iff in Hnd.
  destruct Hnd as ((_ & HLa & HLy) & _ & _ & Hnd). apply NoDup_cons_iff in Hnd as [Hay _].
  destruct ys as [|y ys]; cbn [dhead is_ptr negb orb].
  - rewrite !bool_decide_eq_true_2 by done. done.
  - rewrite bool_decide_eq_false_2 by (intros [= ->]; apply HLy; left).
    symmetry. apply bool_decide_eq_false_2. intros E. apply Hay.
    destruct (list.last (y :: ys)) as [z|] eqn:El; [|by apply last_None in El].
    injection E as ->. apply last_Some_elem_of in El. done.
Qed.

Lemma ilist_run_cmd_ok m L ns c r ns' :
  ilrep m L ns -> (forall a, a ∈ new_elements c -> a <> L /\ avail m a) ->
  astep c ns = Some (r, ns') ->
  exists m', run_cmd L c m = Some (r, m') /\ ilrep m' L ns' /\ keeps m m' L.
Proof.
  intros Hp Hnew Hs. pose proof (dseg_head _ _ _ _ _ _ (il_seg _ _ _ Hp)) as Hhd.
  pose proof (il_nodup _ _ _ Hp) as Hnd. apply NoDup_cons_iff in Hnd as [HLn _].
  destruct c as [a|a|a| | | |a]; cbn [astep run_cmd new_elements] in *.
  - destruct (decide (a ∈ ns)); [done|]. injection Hs as <- <-. destruct (Hnew a ltac:(left)) as [HaL Hav].
    assert (Ha : a ∉ L :: ns) by (by apply not_elem_of_cons).
    destruct (ilist_append_ok m L ns a Hp Hav Ha) as (m' & E & Hi).
    exists m'. rewrite (run_bind _ _ _ _ _ E). split; [done|].
    split; [by apply (ilrep_linked m m' L [] ns a)|by eapply linked_keeps].
  - destruct (decide (a ∈ ns)); [done|]. injection Hs as <- <-. destruct (Hnew a ltac:(left)) as [HaL Hav].
    assert (Ha : a ∉ L :: ns) by (by apply not_elem_of_cons).
    destruct (ilist_push_back_ok m L ns a Hp Hav Ha) as (m' & E & Hi).
    exists m'. rewrite (run_bind _ _ _ _ _ E). split; [done|].
    split; [apply (ilrep_linked m m' L ns [] a); rewrite ?app_nil_r; done|by eapply linked_keeps].
  - destruct (decide (a ∈ ns)) as [Ha|]; [|done]. injection Hs as <- <-.
    destruct (split_at a ns Ha) as (xs & ys & -> & Hax).
    destruct (unlink_ok m L xs a ys Hp) as (m' & E & Hi).
    exists m'. rewrite (run_bind _ _ _ _ _ E), delete_element_eq by done. split; [done|].
    split; [by eapply ilrep_unlinked|by eapply unlinked_keeps].
  - injection Hs as <- <-. unfold get. unfold first, last in *. destruct ns as [|a ns]; cbn [dhead] in Hhd.
    + exists m. mrun. rewrite bool_decide_eq_true_2 by done. split; [done|]. by split; [|intros ?].
    + destruct (unlink_ok m L [] a ns Hp) as (m' & E & Hi).
      exists m'. unfold obj in Hhd. mrun.
      rewrite bool_decide_eq_false_2 by (intros [= ->]; apply HLn; left). mrun.
      rewrite (run_bind _ _ _ _ _ E). split; [done|].
      split; [by apply (ilrep_unlinked m m' L [] ns a)|by eapply unlinked_keeps].
  - injection Hs as <- <-. exists m. unfold head. unfold first, last in *. mrun.
    split; [|by split; [|intros ?]]. destruct ns as [|a ns]; cbn [dhead].
    + by rewrite bool_decide_eq_true_2.
    + rewrite bool_decide_eq_false_2 by (intros [= ->]; apply HLn; left). done.
  - injection Hs as <- <-. exists m. unfold is_empty. unfold first, last in *. mrun.
    split; [|by split; [|intros ?]]. destruct ns as [|a ns]; cbn [dhead].
    + by rewrite bool_decide_eq_true_2.
    + rewrite bool_decide_eq_false_2 by (intros [= ->]; apply HLn; left). done.
  - destruct (decide (a ∈ ns)) as [Ha|]; [|done]. injection Hs as <- <-.
    exists m. rewrite (run_bind _ _ _ _ _ (last_is_last m L ns a Hp Ha)). split; [done|]. by split; [|intros ?].
Qed.

Lemma ilist_run_cmds_ok L cs : forall m ns rs ns',
  ilrep m L ns -> (forall c a, c ∈ cs -> a ∈ new_elements c -> a <> L /\ avail m a) ->
  arun cs ns = Some (rs, ns') ->
  exists m', run_cmds L cs m = Some (rs, m') /\ ilrep m' L ns' /\ keeps m m' L.
Proof.
  induction cs as [|c cs IH]; intros m ns rs ns' Hp Hnew Hr; cbn [arun run_cmds] in *.
  - injection Hr as <- <-. exists m. split; [done|]. by split; [|intros ?].
  - destruct (astep c ns) as [[r ns1]|] eqn:Es; [|done].
    destruct (arun cs ns1) as [[rs1 ns2]|] eqn:Er; [|done]. injection Hr as <- <-.
    destruct (ilist_run_cmd_ok m L ns c r ns1 Hp) as (m1 & E1 & Hp1 & Ht1); [|done|].
    { intros a Ha. apply (Hnew c); [left|done]. }
    destruct (IH m1 ns1 rs1 ns2 Hp1) as (m2 & E2 & Hp2 & Ht2); [|done|].
    { intros c' a Hc Ha. destruct (Hnew c' a ltac:(by right) Ha) as [? ?]. split; [done|]. by apply Ht1. }
    exists m2. rewrite (run_bind _ _ _ _ _ E1), (run_bind _ _ _ _ _ E2). split; [done|].
    split; [done|]. intros n Hn Hav. by apply Ht2, Ht1.
Qed.

(** * Iterating, and moving the elements to another list *)

(** [n] calls of [next] *)
Fixpoint next_n (n : nat) (it : base_ilist_iterator.iterator) : M (list val) :=
  match n with
  | O => ret []
  | S n => let* r := base_ilist_iterator.next it in let* vs := next_n n r.2 in ret (r.1 :: vs)
  end.

Lemma next_element m L e n cur :
  m !! e = Some (obj n) -> n <> L ->
  base_ilist_iterator.next (base_ilist_iterator.mkIterator L e cur) m =
    Some ((obj n, base_ilist_iterator.mkIterator L (n, 1%nat) (obj n)), m).
Proof.
  intros He Hn. unfold base_ilist_iterator.next. cbn [base_ilist_iterator.el base_ilist_iterator.it_list].
  unfold obj in *. mrun. rewrite bool_decide_eq_false_2 by (unfold last; intros [= ->]; done). mrun. done.
Qed.

(** The sentinel of another list is not recognised. *)
Lemma next_sentinel m L N e cur :
  N <> L -> m !! e = Some (Vptr (last L)) ->
  base_ilist_iterator.next (base_ilist_iterator.mkIterator N e cur) m =
    Some ((Vptr (last L), base_ilist_iterator.mkIterator N (L, 2%nat) (Vptr (last L))), m).
Proof.
  intros Hn He. unfold base_ilist_iterator.next. cbn [base_ilist_iterator.el base_ilist_iterator.it_list].
  unfold last in *. mrun. rewrite bool_decide_eq_false_2 by (intros [= ->]; done). mrun. done.
Qed.

(** Following the chain [ns] from the cell [e]. *)
Lemma next_n_chain m L ns : forall e cur t k,
  iseg m e ns t -> L ∉ ns ->
  next_n (length ns + k) (base_ilist_iterator.mkIterator L e cur) m =
    match next_n k (base_ilist_iterator.mkIterator L (last_cell e ns) (default cur (obj <$> list.last ns))) m with
    | Some (vs, m') => Some (map obj ns ++ vs, m')
    | None => None
    end.
Proof.
  induction ns as [|n ns IH]; intros e cur t k Hs HL.
  - cbn. by destruct (next_n k _ m) as [[vs m']|].
  - rewrite not_elem_of_cons in HL. destruct HL as [HLn HL], Hs as (He & _ & Hs).
    cbn [length Nat.add next_n]. rewrite (run_bind _ _ _ _ _ (next_element m L e n cur He ltac:(congruence))).
    cbn [fst snd]. unfold bind at 1. rewrite (IH _ (obj n) t k Hs HL). cbn [dend].
    replace (default (obj n) (obj <$> list.last ns)) with (default cur (obj <$> list.last (n :: ns)))
      by (rewrite last_cons; by destruct (list.last ns)).
    by destruct (next_n k _ m) as [[vs m']|].
Qed.

Lemma move_elements_ok m L N ns :
  ilrep m L ns -> ilrep m N [] -> N ∉ L :: ns ->
  exists m', move_elements_to L N m = Some (tt, m') /\ ilrep m' L [] /\
    m' !! first N = Some (dhead ns (Vptr (last L))) /\
    (forall n f, n ∈ ns -> m' !! (n, f) = m !! (n, f)).
Proof.
  intros [Hs Hl [vx Hx] Hnd] [Hs' Hl' [vx' Hx'] _] HN. rewrite not_elem_of_cons in HN. destruct HN as [HNL HN].
  apply dseg_head in Hs, Hs'. apply NoDup_cons_iff in Hnd as [HLn _].
  unfold move_elements_to, is_empty, empty, ilink.prev, ilink.next, first, last in *. cbn [dhead fst snd] in *.
  irun. rewrite bool_decide_eq_true_2 by done. irun.
  eexists; split; [reflexivity|]. split; [|split].
  - split; unfold first, last; cbn [dseg dend]; [lk|lk|eexists; lk|apply NoDup_singleton].
  - lk.
  - intros n f Hn. rewrite !lookup_insert_ne; [done|..]; intros [= ? ?]; congruence.
Qed.

(** * Properties *)

(** C23: Any allowed succession of append (at the front), push_back, get, head,
    is_empty, is_last and [ilink::unlink] of a list's element returns what the
    same operations on a sequence return, and keeps the list linked in both
    directions between its head and its sentinel; elements that leave can be
    put back. *)
Theorem ilist_simulates_sequence (m : mem) (L : nat) (ns : list nat) (cs : list cmd)
    (rs : list result) (ns' : list nat) :
  ilrep m L ns -> (forall a, a ∈ mjoin (new_elements <$> cs) -> a <> L /\ avail m a) ->
  arun cs ns = Some (rs, ns') ->
  exists m', run_cmds L cs m = Some (rs, m') /\ ilrep m' L ns'.
Proof.
  intros Hp Hnew Hr. destruct (ilist_run_cmds_ok L cs m ns rs ns' Hp) as (m' & E & Hp' & _); [|done|by exists m'].
  intros c a Hc Ha. apply Hnew, list_elem_of_join. exists (new_elements c).
  split; [done|]. by apply list_elem_of_fmap_2.
Qed.

(** List 5, empty, and three unlinked elements; list 6, empty. *)
Definition ilist_mem : mem := list_to_map
  ([((5, 0)%nat, Vptr (5, 1)%nat); ((5, 1)%nat, Vptr (5, 0)%nat); ((5, 2)%nat, Vnull);
    ((6, 0)%nat, Vptr (6, 1)%nat); ((6, 1)%nat, Vptr (6, 0)%nat); ((6, 2)%nat, Vnull)] ++
   ((fun n => ((n, 0)%nat, Vnull)) <$> [10; 11; 12]%nat) ++
   ((fun n => ((n, 1)%nat, Vnull)) <$> [10; 11; 12]%nat)).

Lemma ilist_mem_rep L : L ∈ [5; 6]%nat -> ilrep ilist_mem L [].
Proof.
  rewrite !elem_of_cons, elem_of_nil. intros [->|[->|[]]];
    (split; [reflexivity|reflexivity|eexists; reflexivity|apply NoDup_singleton]).
Qed.

Lemma ilist_mem_avail a : a ∈ [10; 11; 12; 10]%nat -> a <> 5%nat /\ avail ilist_mem a.
Proof.
  rewrite !elem_of_cons, elem_of_nil. intros [->|[->|[->|[->|[]]]]]; (split; [done|]); split; eexists; reflexivity.
Qed.

Lemma ilist_simulates_witness :
  exists m', run_cmds 5 [PushBack 10; Append 11; PushBack 12; Unlink 10; Get; IsLast 12; Append 10; Head] ilist_mem =
      Some ([RUnit; RUnit; RUnit; RUnit; RElement (Some 11%nat); RBool true; RUnit; RElement (Some 10%nat)], m') /\
    ilrep m' 5 [10; 12]%nat.
Proof.
  exact (ilist_simulates_sequence ilist_mem 5 []
    [PushBack 10; Append 11; PushBack 12; Unlink 10; Get; IsLast 12; Append 10; Head]
    [RUnit; RUnit; RUnit; RUnit; RElement (Some 11%nat); RBool true; RUnit; RElement (Some 10%nat)] [10; 12]%nat
    (ilist_mem_rep 5 ltac:(left)) ilist_mem_avail ltac:(vm_compute; reflexivity)).
Defined.

(** [move_elements_to] empties the list and gives the first element to the
    new owner, but the last element keeps pointing to the sentinel of the old
    list: iterating over the new owner returns the moved elements and then the
    sentinel inside the old list as if it were an element, and a new owner that
    was given no element at all is not empty. *)
Theorem ilist_move_elements_stale (m : mem) (L N : nat) (ns : list nat) :
  ilrep m L ns -> ilrep m N [] -> N ∉ L :: ns ->
  exists m', move_elements_to L N m = Some (tt, m') /\ ilrep m' L [] /\
    is_empty N m' = Some (false, m') /\
    next_n (length ns + 1) (base_ilist_iterator.init N) m' = Some (map obj ns ++ [Vptr (last L)], m').
Proof.
  intros Hp HN Hd. destruct (move_elements_ok m L N ns Hp HN Hd) as (m' & E & HL & Hf & Hold).
  exists m'. split; [done|]. split; [done|]. rewrite not_elem_of_cons in Hd. destruct Hd as [HNL HNn].
  pose proof (il_seg _ _ _ Hp) as Hs. pose proof (il_nodup _ _ _ Hp) as Hnd. split.
  - unfold is_empty. mrun. unfold ret. rewrite bool_decide_eq_false_2; [done|].
    unfold last. destruct ns as [|n ns]; cbn [dhead]; [intros [= ->]; done|intros [=]].
  - unfold base_ilist_iterator.init. destruct ns as [|n ns]; cbn [dhead length Nat.add] in *.
    + cbn [next_n]. by rewrite (run_bind _ _ _ _ _ (next_sentinel m' L N _ _ HNL Hf)).
    + rewrite not_elem_of_cons in HNn. destruct HNn as [HNn HNns], Hs as (_ & _ & Hs).
      assert (Hs' : iseg m' (n, 1%nat) ns (Vptr (last L))).
      { apply (dseg_frame 1 0 m); [done|apply Hold; left|]. intros x Hx. split; apply Hold; by right. }
      cbn [next_n]. rewrite (run_bind _ _ _ _ _ (next_element m' N _ n _ Hf ltac:(congruence))).
      cbn [fst snd]. unfold bind at 1. rewrite (next_n_chain m' N ns _ (obj n) _ 1 Hs' HNns). cbn [next_n].
      by rewrite (run_bind _ _ _ _ _ (next_sentinel m' L N _ _ HNL (dseg_end _ _ _ _ _ _ Hs'))).
Qed.

Lemma ilist_move_witness :
  exists m', move_elements_to 5 6 ilist_mem = Some (tt, m') /\ ilrep m' 5 [] /\
    is_empty 6 m' = Some (false, m') /\
    next_n 1 (base_ilist_iterator.init 6) m' = Some ([Vptr (5, 1)%nat], m').
Proof.
  exact (ilist_move_elements_stale ilist_mem 5 6 [] (ilist_mem_rep 5 ltac:(left))
    (ilist_mem_rep 6 ltac:(right; left)) ltac:(apply (bool_decide_unpack _); vm_compute; exact Logic.I)).
Defined.
