(* ===== verification/IntrusiveList.v ===== *)
(** ilist.h: [ilist_node], [ilist], its iterators, and [sized_ilist].

    A node is an object with the cells [next] (field 0) and [prev] (field 1); a
    list object is its sentinel node, followed, in a [sized_ilist], by [size_]
    (field 2).  The conversions between an element and its node are the
    identity.  [dbug] says whether the debug code is compiled in. *)
From S2P Require Import Prelude Memory DList.
Open Scope Z_scope.
Open Scope mem_scope.

Class Dbug := DBUG : bool.

(** [DBUG_ASSERT(p != nullptr)], where debug code is compiled in *)
Definition assert_ptr `{Dbug} (p : val) : M unit :=
  if DBUG && negb (is_ptr p) then undefined else ret tt.

(** * Nodes and iterators *)

Module ilist_node.
Definition next (n : loc) : loc := (n.1, 0%nat).
Definition prev (n : loc) : loc := (n.1, 1%nat).
Definition new (next prev : val) : list val := [next; prev].
(** A node that is in no list; uninitialised in a release build. *)
Definition default (dbug : bool) (junk_next junk_prev : val) : list val :=
  if dbug then [Vnull; Vnull] else [junk_next; junk_prev].
End ilist_node.

Module Iterator.
Section Dbug.
Context `{Dbug}.

Record Iterator := mkIterator { node_ : val }.

Definition make (node : val) : M Iterator :=
  assert_ptr node ;;; ret (mkIterator node).

Definition incr (it : Iterator) : M Iterator :=
  let* n := as_ptr (node_ it) in
  let* v := load (ilist_node.next n) in
  assert_ptr v ;;; ret (mkIterator v).

(** The old value and the new one. *)
Definition incr_post (it : Iterator) : M (Iterator * Iterator) :=
  let* it' := incr it in ret (it, it').

Definition decr (it : Iterator) : M Iterator :=
  let* n := as_ptr (node_ it) in
  let* v := load (ilist_node.prev n) in
  assert_ptr v ;;; ret (mkIterator v).

Definition decr_post (it : Iterator) : M (Iterator * Iterator) :=
  let* it' := decr it in ret (it, it').

(** A reference is the address of the element. *)
Definition deref (it : Iterator) : val := node_ it.
Definition arrow (it : Iterator) : val := node_ it.
Definition eqb (lhs rhs : Iterator) : bool := bool_decide (node_ lhs = node_ rhs).
Definition neqb (lhs rhs : Iterator) : bool := negb (eqb lhs rhs).
End Dbug.
End Iterator.

(** [std::reverse_iterator]: holds the iterator after the element. *)
Module reverse_iterator.
Definition deref `{Dbug} (it : Iterator.Iterator) : M val :=
  let* it' := Iterator.decr it in ret (Iterator.deref it').
Definition incr `{Dbug} (it : Iterator.Iterator) : M Iterator.Iterator := Iterator.decr it.
End reverse_iterator.

(** * [ilist] *)

Module ilist.
Section Dbug.
Context `{Dbug}.
Import Iterator.

Definition sentinel_ (L : nat) : loc := (L, 0%nat).

Definition ilist_new (L : nat) : list val :=
  ilist_node.new (Vptr (sentinel_ L)) (Vptr (sentinel_ L)).

Definition begin (L : nat) : M Iterator :=
  let* v := load (ilist_node.next (sentinel_ L)) in make v.
Definition end_ (L : nat) : M Iterator := make (Vptr (sentinel_ L)).
Definition rbegin (L : nat) : M Iterator := end_ L.
Definition rend (L : nat) : M Iterator := begin L.

Definition front (L : nat) : M val := let* it := begin L in ret (deref it).
Definition back (L : nat) : M val :=
  let* it := end_ L in let* it := decr it in ret (deref it).

Definition empty (L : nat) : M bool :=
  let* v := load (ilist_node.next (sentinel_ L)) in
  ret (bool_decide (v = Vptr (sentinel_ L))).

Definition clear (L : nat) : M unit :=
  store (ilist_node.next (sentinel_ L)) (Vptr (sentinel_ L)) ;;;
  store (ilist_node.prev (sentinel_ L)) (Vptr (sentinel_ L)).

Definition insert (pos : Iterator) (value : loc) : M Iterator :=
  let* curr := as_ptr (node_ pos) in
  let* prev := load_ptr (ilist_node.prev curr) in
  store (ilist_node.next prev) (Vptr value) ;;;
  store (ilist_node.prev curr) (Vptr value) ;;;
  store (ilist_node.prev value) (Vptr prev) ;;;
  store (ilist_node.next value) (Vptr curr) ;;;
  make (Vptr value).

Definition erase (pos : Iterator) : M Iterator :=
  let* curr := as_ptr (node_ pos) in
  let* prev := load_ptr (ilist_node.prev curr) in
  let* next := load_ptr (ilist_node.next curr) in
  store (ilist_node.next prev) (Vptr next) ;;;
  store (ilist_node.prev next) (Vptr prev) ;;;
  (if DBUG then
     store (ilist_node.prev curr) Vnull ;;;
     store (ilist_node.next curr) Vnull
   else ret tt) ;;;
  make (Vptr next).

Definition push_back (L : nat) (value : loc) : M unit :=
  let* e := end_ L in insert e value ;;; ret tt.
Definition pop_back (L : nat) : M unit :=
  let* e := end_ L in erase e ;;; ret tt.
Definition push_front (L : nat) (value : loc) : M unit :=
  let* b := begin L in insert b value ;;; ret tt.
Definition pop_front (L : nat) : M unit :=
  let* b := begin L in erase b ;;; ret tt.
Definition remove (L : nat) (value : loc) : M unit :=
  let* it := make (Vptr value) in erase it ;;; ret tt.
End Dbug.
End ilist.

(** * [sized_ilist] *)

Module sized_ilist.
Section Dbug.
Context `{Dbug}.
Import Iterator.

Definition size_ (L : nat) : loc := (L, 2%nat).

Definition sized_ilist_new (L : nat) : list val := ilist.ilist_new L ++ [Vint 0].

Definition size (L : nat) : M Z := load_int (size_ L).

Definition clear (L : nat) : M unit :=
  ilist.clear L ;;; store (size_ L) (Vint 0).

Definition insert (L : nat) (pos : Iterator) (value : loc) : M Iterator :=
  let* n := load_int (size_ L) in
  store (size_ L) (Vint (u64 (n + 1))) ;;;
  ilist.insert pos value.

Definition erase (L : nat) (pos : Iterator) : M Iterator :=
  let* n := load_int (size_ L) in
  store (size_ L) (Vint (u64 (n - 1))) ;;;
  ilist.erase pos.

Definition push_back (L : nat) (value : loc) : M unit :=
  let* e := ilist.end_ L in insert L e value ;;; ret tt.
Definition pop_back (L : nat) : M unit :=
  let* e := ilist.end_ L in erase L e ;;; ret tt.
Definition push_front (L : nat) (value : loc) : M unit :=
  let* b := ilist.begin L in insert L b value ;;; ret tt.
Definition pop_front (L : nat) : M unit :=
  let* b := ilist.begin L in erase L b ;;; ret tt.
Definition remove (L : nat) (value : loc) : M unit :=
  let* it := make (Vptr value) in erase L it ;;; ret tt.
End Dbug.
End sized_ilist.
