(* ===== verification/IntrusiveSpec.v ===== *)
(** Correctness of [ilist] and [sized_ilist]: rings of nodes through a
    sentinel. *)
From S2P Require Import Prelude Memory DList IntrusiveList.
Import Iterator.
Open Scope Z_scope.
Open Scope mem_scope.

(** * Rings *)

Definition link (m : mem) (a b : nat) : Prop :=
  m !! (a, 0%nat) = Some (obj b) /\ m !! (b, 1%nat) = Some (obj a).

(** Consecutive nodes know each other. *)
Fixpoint linked (m : mem) (l : list nat) : Prop :=
  match l with
  | a :: (b :: _) as t => link m a b /\ linked m t
  | _ => True
  end.

Record ring (m : mem) (L : nat) (ns : list nat) : Prop := {
  ring_linked : linked m (L :: ns ++ [L]);
  ring_nodup : NoDup (L :: ns) }.

Lemma linked_app m xs a ys :
  linked m (xs ++ a :: ys) <-> linked m (xs ++ [a]) /\ linked m (a :: ys).
Proof.
  induction xs as [|x xs IH]; [cbn; tauto|].
  destruct xs as [|x' xs]; cbn in *; [tauto|]. rewrite IH. tauto.
Qed.

(** Only the [next] cells of all but the last node and the [prev] cells of all
    but the first matter. *)
Lemma linked_frame m m' l :
  linked m l ->
  (forall a, a ∈ removelast l -> m' !! (a, 0%nat) = m !! (a, 0%nat)) ->
  (forall b, b ∈ tail l -> m' !! (b, 1%nat) = m !! (b, 1%nat)) -> linked m' l.
Proof.
  induction l as [|a l IH]; intros Hl Hn Hp; [done|]. destruct l as [|b l]; [done|].
  destruct Hl as [[H1 H2] Hl]. split.
  - unfold link. rewrite Hn by left. rewrite Hp by left. done.
  - apply IH; [done|intros x Hx; apply Hn; by right|intros x Hx; apply Hp; by right].
Qed.

(** A position in a ring: the node [p] before it and the node [c] after it. *)
Record cut (L : nat) (xs ys pre : list nat) (p c : nat) (post : list nat) : Prop := {
  cut_left : L :: xs = pre ++ [p];
  cut_right : ys ++ [L] = c :: post;
  cut_p : p ∉ pre /\ p ∉ ys;
  cut_c : c ∉ xs /\ c ∉ post;
  cut_in : p ∈ L :: xs ++ ys /\ c ∈ L :: xs ++ ys }.

Lemma cut_exists L xs ys : NoDup (L :: xs ++ ys) -> exists pre p c post, cut L xs ys pre p c post.
Proof.
  intros Hnd. rewrite NoDup_cons_iff, NoDup_app_iff, not_elem_of_app in Hnd.
  destruct Hnd as ((HLx & HLy) & Hx & Hxy & Hy).
  assert (Hl : exists pre p, L :: xs = pre ++ [p] /\ p ∉ pre /\ p ∉ ys /\ p ∈ L :: xs).
  { destruct xs as [|x xs _] using rev_ind.
    - exists [], L. repeat split; [apply not_elem_of_nil|done|left].
    - exists (L :: xs), x. apply NoDup_app_iff in Hx as (_ & Hx & _).
      assert (Hin : x ∈ xs ++ [x]) by (rewrite elem_of_app; right; left).
      repeat split; [|by apply Hxy|by right]. apply not_elem_of_cons. split; [by intros ->|].
      intros Hx'. by apply (Hx x Hx'); left. }
  assert (Hr : exists c post, ys ++ [L] = c :: post /\ c ∉ xs /\ c ∉ post /\ c ∈ L :: ys).
  { destruct ys as [|y ys].
    - exists L, []. repeat split; [done|apply not_elem_of_nil|left].
    - exists y, (ys ++ [L]). apply NoDup_cons_iff in Hy as [Hy _]. rewrite not_elem_of_cons in HLy.
      repeat split; [intros Hx'; by apply (Hxy y Hx'); left| |right; left].
      rewrite not_elem_of_app, list_elem_of_singleton. split; [done|]. intros ->. tauto. }
  destruct Hl as (pre & p & ? & ? & ? & Hp), Hr as (c & post & ? & ? & ? & Hc).
  exists pre, p, c, post. split; auto. rewrite app_comm_cons, elem_of_app.
  split; [by left|]. rewrite elem_of_app, elem_of_cons. apply elem_of_cons in Hc. tauto.
Qed.

Section Cut.
Context {L : nat} {xs ys pre : list nat} {p c : nat} {post : list nat} (HC : cut L xs ys pre p c post).

Lemma cut_ring m zs :
  linked m (L :: (xs ++ zs ++ ys) ++ [L]) <->
  linked m (pre ++ [p]) /\ linked m (p :: zs ++ [c]) /\ linked m (c :: post).
Proof using HC.
  destruct HC as [H1 H2 _ _ _].
  replace (L :: (xs ++ zs ++ ys) ++ [L]) with (pre ++ p :: zs ++ c :: post).
  2: { rewrite <- H2. change (L :: (xs ++ zs ++ ys) ++ [L]) with (((L :: xs) ++ zs ++ ys) ++ [L]).
       rewrite H1, <- !app_assoc. done. }
  rewrite (linked_app m pre). change (p :: zs ++ c :: post) with ((p :: zs) ++ c :: post).
  by rewrite (linked_app m (p :: zs)).
Qed.

(** The two parts do not depend on [p]'s next link and [c]'s previous one. *)
Lemma cut_frame m m' :
  (forall n f, (n, f) <> (p, 0%nat) -> (n, f) <> (c, 1%nat) -> n ∈ L :: xs ++ ys -> m' !! (n, f) = m !! (n, f)) ->
  linked m (pre ++ [p]) -> linked m (c :: post) -> linked m' (pre ++ [p]) /\ linked m' (c :: post).
Proof using HC.
  destruct HC as [H1 H2 [Hp1 Hp2] [Hc1 Hc2] _]. intros Hf Hl Hr. split.
  - apply (linked_frame m); [done|..].
    + rewrite removelast_last. intros a Ha. apply Hf; [congruence|congruence|].
      rewrite app_comm_cons, H1, !elem_of_app. tauto.
    + rewrite <- H1. cbn [tail]. intros b Hb. apply Hf; [congruence|congruence|].
      rewrite elem_of_cons, elem_of_app. tauto.
  - apply (linked_frame m); [done|..].
    + rewrite <- H2, removelast_last. intros a Ha. apply Hf; [congruence|congruence|].
      rewrite elem_of_cons, elem_of_app. tauto.
    + cbn [tail]. intros b Hb. apply Hf; [congruence|congruence|].
      assert (Hin : b ∈ ys ++ [L]) by (rewrite H2; by right).
      rewrite elem_of_app, list_elem_of_singleton in Hin. rewrite elem_of_cons, elem_of_app. tauto.
Qed.
End Cut.

(** * The operations *)

Definition avail (m : mem) (n : nat) : Prop := is_Some (m !! (n, 0%nat)) /\ is_Some (m !! (n, 1%nat)).

(** Nothing but link cells of nodes in [ns] changes, and nothing is freed. *)
Record touches (m m' : mem) (ns : list nat) : Prop := {
  touches_frame : forall n f, n ∉ ns \/ (2 <= f)%nat -> m' !! (n, f) = m !! (n, f);
  touches_keep : forall l, is_Some (m !! l) -> is_Some (m' !! l) }.

Lemma insert_keep (m : mem) l k v : is_Some (m !! l) -> is_Some (<[k := v]> m !! l).
Proof. rewrite lookup_insert_is_Some. destruct (decide (k = l)); auto. Qed.

Lemma touches_refl m ns : touches m m ns.
Proof. by split. Qed.

Lemma touches_insert m m' ns n f v :
  touches m m' ns -> n ∈ ns -> (f < 2)%nat -> touches m (<[(n, f) := v]> m') ns.
Proof.
  intros [H1 H2] Hn Hf. split.
  - intros k g Hk. rewrite lookup_insert_ne; [by apply H1|]. intros [= -> ->]. destruct Hk; [done|lia].
  - intros l Hl. by apply insert_keep, H2.
Qed.

Lemma nodup_middle (L : nat) xs ys a :
  NoDup (L :: xs ++ a :: ys) <-> a ∉ L :: xs ++ ys /\ NoDup (L :: xs ++ ys).
Proof.
  rewrite app_comm_cons, (app_comm_cons xs ys L), <- Permutation_middle. by rewrite NoDup_cons_iff.
Qed.

Ltac irun := unfold ilist_node.next, ilist_node.prev, obj in *; cbn [fst snd node_];
  repeat first [progress cbn [is_ptr negb fst snd] | mstep]; cbn beta iota zeta.

Ltac touched := repeat (apply touches_insert; [|rewrite ?elem_of_cons in *; tauto|lia]); apply touches_refl.

Section Dbug.
Context `{Dbug}.

Lemma make_ok l m : make (Vptr l) m = Some (mkIterator (Vptr l), m).
Proof. unfold make, assert_ptr. cbn [is_ptr negb]. by rewrite andb_false_r. Qed.

Lemma head_cut L xs ys pre p c post : cut L xs ys pre p c post -> default L (head ys) = c.
Proof. intros [_ Hr _ _ _]. destruct ys; by injection Hr. Qed.

Lemma insert_ok m L xs ys a :
  ring m L (xs ++ ys) -> avail m a -> a ∉ L :: xs ++ ys ->
  exists m', ilist.insert (mkIterator (obj (default L (head ys)))) (a, 0%nat) m = Some (mkIterator (obj a), m') /\
    ring m' L (xs ++ a :: ys) /\ touches m m' (a :: L :: xs ++ ys).
Proof.
  intros [Hl Hnd] [[vn Hn] [vp Hp]] Ha. destruct (cut_exists L xs ys Hnd) as (pre & p & c & post & HC).
  apply (cut_ring HC m []) in Hl as (H1 & [[H2 H3] _] & H4). rewrite (head_cut _ _ _ _ _ _ _ HC).
  destruct (cut_in _ _ _ _ _ _ _ HC) as [Hpin Hcin].
  assert (Hpa : p <> a) by congruence. assert (Hca : c <> a) by congruence.
  unfold ilist.insert. irun. rewrite make_ok.
  eexists; split; [reflexivity|]. split; [split|].
  - apply (cut_ring HC _ [a]).
    edestruct (cut_frame HC m) as [Hl Hr]; [|exact H1|exact H4|split; [exact Hl|split; [|exact Hr]]].
    + intros n f Hnp Hnc Hin. rewrite !lookup_insert_ne by congruence. done.
    + cbn. unfold link, obj. repeat split; lk.
  - by apply nodup_middle.
  - touched.
Qed.

Lemma erase_ok m L xs ys a :
  ring m L (xs ++ a :: ys) ->
  exists m', ilist.erase (mkIterator (obj a)) m = Some (mkIterator (obj (default L (head ys))), m') /\
    ring m' L (xs ++ ys) /\ touches m m' (a :: L :: xs ++ ys).
Proof.
  intros [Hl Hnd]. apply nodup_middle in Hnd as [Ha Hnd].
  destruct (cut_exists L xs ys Hnd) as (pre & p & c & post & HC).
  apply (cut_ring HC m [a]) in Hl as (H1 & [[H2 H3] [[H4 H5] _]] & H6). rewrite (head_cut _ _ _ _ _ _ _ HC).
  destruct (cut_in _ _ _ _ _ _ _ HC) as [Hpin Hcin].
  assert (Hpa : p <> a) by congruence. assert (Hca : c <> a) by congruence.
  unfold ilist.erase. destruct DBUG; irun; rewrite make_ok;
  (eexists; split; [reflexivity|]; split; [split; [|done]|touched]).
  all: apply (cut_ring HC _ []);
    edestruct (cut_frame HC m) as [Hl Hr]; [|exact H1|exact H6|split; [exact Hl|split; [|exact Hr]]].
  1, 3: intros n f Hnp Hnc Hin; rewrite !lookup_insert_ne by congruence; done.
  all: cbn; unfold link, obj; repeat split; lk.
Qed.
End Dbug.
