(* ===== verification/IntrusiveSim.v ===== *)
(** Successions of operations on [ilist] and [sized_ilist], and their
    iterators. *)
From S2P Require Import Prelude Memory DList IntrusiveList IntrusiveSpec.
Import Iterator.
Open Scope Z_scope.
Open Scope mem_scope.

(** * Sequences *)

Inductive cmd :=
| PushFront (a : nat) | PushBack (a : nat) | Insert (b a : nat) | InsertEnd (a : nat)
| Erase (a : nat) | Remove (a : nat) | PopFront | Clear | Front | Back | Empty | Size.
Inductive result := RUnit | RNode (v : val) | RBool (b : bool) | RSize (z : Z).

Section Sized.
Context `{Dbug} (sized : bool).

Definition insert (L : nat) (it : Iterator) (a : nat) : M Iterator :=
  if sized then sized_ilist.insert L it (a, 0%nat) else ilist.insert it (a, 0%nat).
Definition erase (L : nat) (it : Iterator) : M Iterator :=
  if sized then sized_ilist.erase L it else ilist.erase it.

Definition run_cmd (L : nat) (c : cmd) : M result :=
  match c with
  | PushFront a =>
    (if sized then sized_ilist.push_front L (a, 0%nat) else ilist.push_front L (a, 0%nat)) ;;; ret RUnit
  | PushBack a =>
    (if sized then sized_ilist.push_back L (a, 0%nat) else ilist.push_back L (a, 0%nat)) ;;; ret RUnit
  | Insert b a =>
    let* it := make (obj b) in let* it := insert L it a in ret (RNode (deref it))
  | InsertEnd a =>
    let* it := ilist.end_ L in let* it := insert L it a in ret (RNode (deref it))
  | Erase a =>
    let* it := make (obj a) in let* it := erase L it in ret (RNode (node_ it))
  | Remove a =>
    (if sized then sized_ilist.remove L (a, 0%nat) else ilist.remove L (a, 0%nat)) ;;; ret RUnit
  | PopFront => (if sized then sized_ilist.pop_front L else ilist.pop_front L) ;;; ret RUnit
  | Clear => (if sized then sized_ilist.clear L else ilist.clear L) ;;; ret RUnit
  | Front => let* v := ilist.front L in ret (RNode v)
  | Back => let* v := ilist.back L in ret (RNode v)
  | Empty => let* b := ilist.empty L in ret (RBool b)
  | Size => let* n := sized_ilist.size L in ret (RSize n)
  end.

Fixpoint run_cmds (L : nat) (cs : list cmd) : M (list result) :=
  match cs with
  | [] => ret []
  | c :: cs => let* r := run_cmd L c in let* rs := run_cmds L cs in ret (r :: rs)
  end.

(** The sequence; [None]: an element to insert is in the list already, one to
    erase is not, an element of an empty list is asked for, or the size of a
    list that does not keep it. *)
Fixpoint insert_before (b a : nat) (ns : list nat) : list nat :=
  match ns with
  | [] => []
  | n :: ns => if decide (n = b) then a :: n :: ns else n :: insert_before b a ns
  end.

Fixpoint after (a : nat) (ns : list nat) : option nat :=
  match ns with
  | [] => None
  | n :: ns => if decide (n = a) then head ns else after a ns
  end.

Definition astep (L : nat) (c : cmd) (ns : list nat) : option (result * list nat) :=
  match c with
  | PushFront a => if decide (a ∈ ns) then None else Some (RUnit, a :: ns)
  | PushBack a => if decide (a ∈ ns) then None else Some (RUnit, ns ++ [a])
  | InsertEnd a => if decide (a ∈ ns) then None else Some (RNode (obj a), ns ++ [a])
  | Insert b a =>
    if decide (a ∈ ns) then None else
    if decide (b ∈ ns) then Some (RNode (obj a), insert_before b a ns) else None
  | Erase a =>
    if decide (a ∈ ns) then Some (RNode (obj (default L (after a ns))), delete_element a ns) else None
  | Remove a => if decide (a ∈ ns) then Some (RUnit, delete_element a ns) else None
  | PopFront => match ns with [] => None | _ :: ns => Some (RUnit, ns) end
  | Clear => Some (RUnit, [])
  | Front => match ns with [] => None | n :: _ => Some (RNode (obj n), ns) end
  | Back => match list.last ns with None => None | Some n => Some (RNode (obj n), ns) end
  | Empty => Some (RBool (match ns with [] => true | _ => false end), ns)
  | Size => if sized then Some (RSize (u64 (Z.of_nat (length ns))), ns) else None
  end.

Fixpoint arun (L : nat) (cs : list cmd) (ns : list nat) : option (list result * list nat) :=
  match cs with
  | [] => Some ([], ns)
  | c :: cs =>
    match astep L c ns with
    | None => None
    | Some (r, ns) =>
      match arun L cs ns with
      | None => None
      | Some (rs, ns) => Some (r :: rs, ns)
      end
    end
  end.

Definition new_elements (c : cmd) : list nat :=
  match c with PushFront a | PushBack a | Insert _ a | InsertEnd a => [a] | _ => [] end.

(** * Representation *)

Record irep (m : mem) (L : nat) (ns : list nat) : Prop := {
  irep_ring : ring m L ns;
  irep_size : sized = true -> m !! (L, 2%nat) = Some (Vint (u64 (Z.of_nat (length ns)))) }.

Definition keeps (m m' : mem) : Prop := forall n, avail m n -> avail m' n.

Lemma touches_keeps m m' ns : touches m m' ns -> keeps m m'.
Proof. intros [_ Hk] n [H1 H2]. split; by apply Hk. Qed.

Lemma ring_size m L ns v : ring m L ns -> ring (<[(L, 2%nat) := v]> m) L ns.
Proof.
  intros [Hl Hnd]. split; [|done]. apply (linked_frame m); [done|..];
    intros n _; rewrite lookup_insert_ne; done || congruence.
Qed.

Lemma avail_size m L v n : avail m n -> avail (<[(L, 2%nat) := v]> m) n.
Proof. intros [H1 H2]. split; by apply insert_keep. Qed.

Lemma insert_rep m L xs ys a :
  irep m L (xs ++ ys) -> avail m a -> a ∉ L :: xs ++ ys ->
  exists m', insert L (mkIterator (obj (default L (head ys)))) a m = Some (mkIterator (obj a), m') /\
    irep m' L (xs ++ a :: ys) /\ keeps m m'.
Proof using.
  intros [Hr Hs] Hav Ha. unfold insert. destruct sized eqn:Esz.
  - specialize (Hs eq_refl). unfold sized_ilist.insert, sized_ilist.size_. mrun.
    match goal with |- context [<[_ := ?v]> m] => set (z := v) end.
    destruct (insert_ok _ L xs ys a (ring_size m L _ z Hr) (avail_size m L z a Hav) Ha) as (m' & E & Hr' & Ht).
    exists m'. split; [exact E|]. split; [split; [done|]|].
    + intros _. rewrite (touches_frame _ _ _ Ht) by (by right). unfold z. rewrite lookup_insert_eq, wrap_add_l.
      rewrite !length_app. cbn [length]. do 3 f_equal. lia.
    + intros n Hn. eapply touches_keeps; [done|]. by apply avail_size.
  - destruct (insert_ok m L xs ys a Hr Hav Ha) as (m' & E & Hr' & Ht).
    exists m'. split; [done|]. split; [split; [done|by rewrite Esz]|]. by eapply touches_keeps.
Qed.

Lemma erase_rep m L xs ys a :
  irep m L (xs ++ a :: ys) ->
  exists m', erase L (mkIterator (obj a)) m = Some (mkIterator (obj (default L (head ys))), m') /\
    irep m' L (xs ++ ys) /\ keeps m m'.
Proof using.
  intros [Hr Hs]. unfold erase. destruct sized eqn:Esz.
  - specialize (Hs eq_refl). unfold sized_ilist.erase, sized_ilist.size_. mrun.
    match goal with |- context [<[_ := ?v]> m] => set (z := v) end.
    destruct (erase_ok _ L xs ys a (ring_size m L _ z Hr)) as (m' & E & Hr' & Ht).
    exists m'. split; [exact E|]. split; [split; [done|]|].
    + intros _. rewrite (touches_frame _ _ _ Ht) by (by right). unfold z. rewrite lookup_insert_eq.
      rewrite <- Z.add_opp_r, wrap_add_l, !length_app. cbn [length]. do 3 f_equal. lia.
    + intros n Hn. eapply touches_keeps; [done|]. by apply avail_size.
  - destruct (erase_ok m L xs ys a Hr) as (m' & E & Hr' & Ht).
    exists m'. split; [done|]. split; [split; [done|by rewrite Esz]|]. by eapply touches_keeps.
Qed.

(** ** The ends of a ring *)

Lemma ring_first m L ns : ring m L ns -> m !! (L, 0%nat) = Some (obj (default L (head ns))).
Proof using. intros [Hl _]. destruct ns; apply Hl. Qed.

Lemma ring_last m L ns : ring m L ns -> m !! (L, 1%nat) = Some (obj (default L (list.last ns))).
Proof using.
  intros [Hl _]. destruct ns as [|n ns _] using rev_ind; [apply Hl|].
  rewrite last_snoc. change (L :: (ns ++ [n]) ++ [L]) with ((L :: ns ++ [n]) ++ [L]) in Hl.
  rewrite (app_comm_cons ns), <- app_assoc in Hl. apply linked_app in Hl as [_ Hl]. apply Hl.
Qed.

Lemma begin_ok m L ns : ring m L ns -> ilist.begin L m = Some (mkIterator (obj (default L (head ns))), m).
Proof using.
  intros Hr%ring_first. unfold ilist.begin, ilist_node.next, ilist.sentinel_. cbn [fst]. mrun. apply make_ok.
Qed.

Lemma end_ok m L : ilist.end_ L m = Some (mkIterator (obj L), m).
Proof using. apply make_ok. Qed.

Lemma decr_ok m n v : m !! (n, 1%nat) = Some (obj v) -> decr (mkIterator (obj n)) m = Some (mkIterator (obj v), m).
Proof using.
  intros E. unfold decr, ilist_node.prev. cbn [node_]. unfold obj in *. mrun. cbn [fst]. mrun.
  unfold assert_ptr. cbn [is_ptr negb]. by rewrite andb_false_r.
Qed.

Lemma incr_ok m n v : m !! (n, 0%nat) = Some (obj v) -> incr (mkIterator (obj n)) m = Some (mkIterator (obj v), m).
Proof using.
  intros E. unfold incr, ilist_node.next. cbn [node_]. unfold obj in *. mrun. cbn [fst]. mrun.
  unfold assert_ptr. cbn [is_ptr negb]. by rewrite andb_false_r.
Qed.

(** ** One operation *)

Lemma insert_before_eq b a xs ys : b ∉ xs -> insert_before b a (xs ++ b :: ys) = xs ++ a :: b :: ys.
Proof using.
  intros Hb. induction xs as [|x xs IH]; cbn; [by rewrite decide_True|].
  apply not_elem_of_cons in Hb as [Hx Hb]. rewrite decide_False by congruence. by rewrite IH.
Qed.

Lemma after_eq a xs ys : a ∉ xs -> after a (xs ++ a :: ys) = head ys.
Proof using.
  intros Ha. induction xs as [|x xs IH]; cbn; [by rewrite decide_True|].
  apply not_elem_of_cons in Ha as [Hx Ha]. rewrite decide_False by congruence. by apply IH.
Qed.

Lemma keeps_refl m : keeps m m.
Proof using. by intros n. Qed.

Definition done_cmd (m : mem) (L : nat) (c : cmd) (r : result) (ns' : list nat) : Prop :=
  exists m', run_cmd L c m = Some (r, m') /\ irep m' L ns' /\ keeps m m'.

Lemma insert_cmd m L xs ys a c r :
  irep m L (xs ++ ys) -> avail m a -> a ∉ L :: xs ++ ys ->
  run_cmd L c m = (let* it := insert L (mkIterator (obj (default L (head ys)))) a in ret (r it)) m ->
  done_cmd m L c (r (mkIterator (obj a))) (xs ++ a :: ys).
Proof using.
  intros Hp Hav Ha E. destruct (insert_rep m L xs ys a Hp Hav Ha) as (m' & E' & Hp' & Hk).
  exists m'. by rewrite E, (run_bind _ _ _ _ _ E').
Qed.

Lemma erase_cmd m L xs ys a c r :
  irep m L (xs ++ a :: ys) ->
  run_cmd L c m = (let* it := erase L (mkIterator (obj a)) in ret (r it)) m ->
  done_cmd m L c (r (mkIterator (obj (default L (head ys))))) (xs ++ ys).
Proof using.
  intros Hp E. destruct (erase_rep m L xs ys a Hp) as (m' & E' & Hp' & Hk).
  exists m'. by rewrite E, (run_bind _ _ _ _ _ E').
Qed.

Ltac into_base E :=
  cbn [run_cmd]; unfold insert, erase, sized_ilist.push_front, sized_ilist.push_back, sized_ilist.remove,
    sized_ilist.pop_front, ilist.push_front, ilist.push_back, ilist.remove, ilist.pop_front;
  destruct sized; rewrite ?bind_bind; rewrite (run_bind _ _ _ _ _ E), ?bind_bind; reflexivity.

Lemma clear_cmd m L ns : irep m L ns -> done_cmd m L Clear RUnit [].
Proof using.
  intros [Hr Hs]. pose proof (ring_first _ _ _ Hr) as Hf. pose proof (ring_last _ _ _ Hr) as Hl.
  assert (Hnd : NoDup [L]) by apply NoDup_singleton. unfold done_cmd. cbn [run_cmd].
  unfold sized_ilist.clear, ilist.clear, ilist_node.next, ilist_node.prev, ilist.sentinel_, sized_ilist.size_.
  destruct sized eqn:Esz; cbn [fst]; [specialize (Hs eq_refl)|]; mrun;
    (eexists; split; [reflexivity|]; split; [split; [split; [|done]|]|]).
  1, 4: repeat split; lk.
  1: intros _; lk.
  2: by rewrite Esz.
  all: intros n [? ?]; split; by repeat apply insert_keep.
Qed.

Ltac unchanged :=
  match goal with m : mem |- _ => exists m; split; [cbn [run_cmd]|split; [assumption|apply keeps_refl]] end.

Lemma ilist_cmd_ok m L ns c r ns' :
  irep m L ns -> (forall a, a ∈ new_elements c -> a <> L /\ avail m a) ->
  astep L c ns = Some (r, ns') -> done_cmd m L c r ns'.
Proof using.
  intros Hp Hnew Hs. pose proof (irep_ring _ _ _ Hp) as Hr. pose proof (begin_ok _ _ _ Hr) as Hb.
  pose proof (end_ok m L) as He.
  destruct c as [a|a|b a|a|a|a| | | | | |]; cbn [astep new_elements] in *.
  - destruct (decide (a ∈ ns)); [done|]. injection Hs as <- <-. destruct (Hnew a ltac:(left)) as [HaL Hav].
    apply (insert_cmd m L [] ns a _ (fun _ => RUnit)); [done|done|by apply not_elem_of_cons|]. into_base Hb.
  - destruct (decide (a ∈ ns)); [done|]. injection Hs as <- <-. destruct (Hnew a ltac:(left)) as [HaL Hav].
    apply (insert_cmd m L ns [] a _ (fun _ => RUnit)); rewrite ?app_nil_r; [done|done|by apply not_elem_of_cons|].
    into_base He.
  - destruct (decide (a ∈ ns)); [done|]. destruct (decide (b ∈ ns)) as [Hb'|]; [|done]. injection Hs as <- <-.
    destruct (Hnew a ltac:(left)) as [HaL Hav]. destruct (split_at b ns Hb') as (xs & ys & -> & Hbx).
    rewrite insert_before_eq by done.
    apply (insert_cmd m L xs (b :: ys) a _ (fun it => RNode (deref it))); [done|done|by apply not_elem_of_cons|].
    into_base (make_ok (b, 0%nat) m).
  - destruct (decide (a ∈ ns)); [done|]. injection Hs as <- <-. destruct (Hnew a ltac:(left)) as [HaL Hav].
    apply (insert_cmd m L ns [] a _ (fun it => RNode (deref it))); rewrite ?app_nil_r; [done|done|by apply not_elem_of_cons|].
    into_base He.
  - destruct (decide (a ∈ ns)) as [Ha|]; [|done]. injection Hs as <- <-.
    destruct (split_at a ns Ha) as (xs & ys & -> & Hax). rewrite delete_element_eq, after_eq by done.
    apply (erase_cmd m L xs ys a _ (fun it => RNode (node_ it))); [done|]. into_base (make_ok (a, 0%nat) m).
  - destruct (decide (a ∈ ns)) as [Ha|]; [|done]. injection Hs as <- <-.
    destruct (split_at a ns Ha) as (xs & ys & -> & Hax). rewrite delete_element_eq by done.
    apply (erase_cmd m L xs ys a _ (fun it => RUnit)); [done|]. into_base (make_ok (a, 0%nat) m).
  - destruct ns as [|a ns]; [done|]. injection Hs as <- <-.
    apply (erase_cmd m L [] ns a _ (fun it => RUnit)); [done|]. into_base Hb.
  - injection Hs as <- <-. by apply (clear_cmd m L ns).
  - destruct ns as [|n ns]; [done|]. injection Hs as <- <-. unchanged.
    unfold ilist.front. by rewrite bind_bind, (run_bind _ _ _ _ _ Hb).
  - destruct (list.last ns) as [n|] eqn:El; [|done]. injection Hs as <- <-. unchanged.
    pose proof (ring_last _ _ _ Hr) as Hl. rewrite El in Hl. unfold ilist.back.
    by rewrite bind_bind, (run_bind _ _ _ _ _ He), bind_bind, (run_bind _ _ _ _ _ (decr_ok _ _ _ Hl)).
  - injection Hs as <- <-. unchanged. pose proof (ring_first _ _ _ Hr) as Hf.
    unfold ilist.empty, ilist_node.next, ilist.sentinel_. cbn [fst]. mrun.
    unfold ret. do 3 f_equal. destruct ns as [|n ns]; [by apply bool_decide_eq_true_2|].
    apply bool_decide_eq_false_2. unfold obj. intros [= ->].
    destruct Hr as [_ Hnd]. apply NoDup_cons_iff in Hnd as [Hnd _]. apply Hnd. left.
  - destruct sized eqn:Esz; [|done]. injection Hs as <- <-. unchanged.
    pose proof (irep_size _ _ _ Hp Esz) as Hz. unfold sized_ilist.size, sized_ilist.size_. mrun. done.
Qed.

Lemma ilist_cmds_ok L cs : forall m ns rs ns',
  irep m L ns -> (forall c a, c ∈ cs -> a ∈ new_elements c -> a <> L /\ avail m a) ->
  arun L cs ns = Some (rs, ns') ->
  exists m', run_cmds L cs m = Some (rs, m') /\ irep m' L ns' /\ keeps m m'.
Proof using.
  induction cs as [|c cs IH]; intros m ns rs ns' Hp Hnew Hr; cbn [arun run_cmds] in *.
  - injection Hr as <- <-. exists m. split; [done|]. split; [done|apply keeps_refl].
  - destruct (astep L c ns) as [[r ns1]|] eqn:Es; [|done].
    destruct (arun L cs ns1) as [[rs1 ns2]|] eqn:Er; [|done]. injection Hr as <- <-.
    destruct (ilist_cmd_ok m L ns c r ns1 Hp) as (m1 & E1 & Hp1 & Hk1); [|done|].
    { intros a Ha. apply (Hnew c); [left|done]. }
    destruct (IH m1 ns1 rs1 ns2 Hp1) as (m2 & E2 & Hp2 & Hk2); [|done|].
    { intros c' a Hc Ha. destruct (Hnew c' a ltac:(by right) Ha) as [? ?]. split; [done|]. by apply Hk1. }
    exists m2. rewrite (run_bind _ _ _ _ _ E1), (run_bind _ _ _ _ _ E2). split; [done|].
    split; [done|]. intros n Hn. by apply Hk2, Hk1.
Qed.

(** * Iteration *)

(** [for (it = begin; it != end; ++it)]: the elements seen, [None] when
    [fuel] rounds were not enough. *)
Fixpoint traverse (fuel : nat) (it e : Iterator) : M (option (list val)) :=
  match fuel with
  | O => ret None
  | S fuel =>
    if neqb it e then
      let* it' := incr it in
      let* r := traverse fuel it' e in
      ret (option_map (cons (deref it)) r)
    else ret (Some [])
  end.

(** The same with [std::reverse_iterator]. *)
Fixpoint rtraverse (fuel : nat) (it e : Iterator) : M (option (list val)) :=
  match fuel with
  | O => ret None
  | S fuel =>
    if neqb it e then
      let* v := reverse_iterator.deref it in
      let* it' := reverse_iterator.incr it in
      let* r := rtraverse fuel it' e in
      ret (option_map (cons v) r)
    else ret (Some [])
  end.

Definition for_each (fuel L : nat) : M (option (list val)) :=
  let* b := ilist.begin L in let* e := ilist.end_ L in traverse fuel b e.
Definition rfor_each (fuel L : nat) : M (option (list val)) :=
  let* b := ilist.rbegin L in let* e := ilist.rend L in rtraverse fuel b e.

Lemma neqb_obj a b : neqb (mkIterator (obj a)) (mkIterator (obj b)) = bool_decide (a <> b).
Proof using.
  unfold neqb, eqb, obj. cbn. destruct (decide (a = b)) as [->|Hne].
  - rewrite bool_decide_eq_true_2 by done. by rewrite bool_decide_eq_false_2 by congruence.
  - rewrite bool_decide_eq_false_2 by congruence. by rewrite bool_decide_eq_true_2.
Qed.

Lemma traverse_ok m e ns : forall k,
  (forall a, a ∈ ns -> a <> e) -> linked m (ns ++ [e]) -> (length ns < k)%nat ->
  traverse k (mkIterator (obj (default e (head ns)))) (mkIterator (obj e)) m = Some (Some (map obj ns), m).
Proof using.
  induction ns as [|n ns IH]; intros k Hne Hl Hk; (destruct k as [|k]; [cbn in Hk; lia|]); cbn [traverse head default].
  - by rewrite neqb_obj, bool_decide_eq_false_2 by congruence.
  - rewrite neqb_obj, bool_decide_eq_true_2 by (apply Hne; left).
    assert (Hn : link m n (default e (head ns))) by (destruct ns; apply Hl).
    rewrite (run_bind _ _ _ _ _ (incr_ok m n _ (proj1 Hn))).
    assert (E := IH k ltac:(intros a Ha; apply Hne; by right) ltac:(by destruct ns; [|apply Hl]) ltac:(cbn in Hk; lia)).
    by rewrite (run_bind _ _ _ _ _ E).
Qed.

Lemma rtraverse_ok m ns : forall k l,
  NoDup (ns ++ [l]) -> linked m (ns ++ [l]) -> (length ns < k)%nat ->
  rtraverse k (mkIterator (obj l)) (mkIterator (obj (default l (head ns)))) m =
    Some (Some (map obj (reverse ns)), m).
Proof using.
  induction ns as [|n ns IH] using rev_ind; intros k l Hnd Hl Hk;
    (destruct k as [|k]; [cbn in Hk; lia|]); cbn [rtraverse].
  - cbn [head default]. by rewrite neqb_obj, bool_decide_eq_false_2 by congruence.
  - rewrite <- app_assoc in Hl. apply linked_app in Hl as [Hl [[Hln1 Hln2] _]].
    apply NoDup_app_iff in Hnd as (Hnd & Hd & _).
    assert (Hhd : default l (head (ns ++ [n])) = default n (head ns)) by (by destruct ns).
    rewrite Hhd, neqb_obj, bool_decide_eq_true_2.
    2: { intros ->. apply (Hd (default n (head ns))); [|left]. destruct ns; left. }
    unfold reverse_iterator.deref, reverse_iterator.incr.
    rewrite bind_bind, !(run_bind _ _ _ _ _ (decr_ok m l n Hln2)), bind_ret.
    rewrite (run_bind _ _ _ _ _ (decr_ok m l n Hln2)).
    rewrite length_app in Hk. cbn in Hk. assert (E := IH k n Hnd Hl ltac:(lia)).
    rewrite (run_bind _ _ _ _ _ E), reverse_snoc. done.
Qed.

Lemma ring_iterates m L ns k :
  ring m L ns -> (length ns < k)%nat ->
  for_each k L m = Some (Some (map obj ns), m) /\
  rfor_each k L m = Some (Some (map obj (reverse ns)), m).
Proof using.
  intros Hr Hk. pose proof (begin_ok _ _ _ Hr) as Hb. pose proof (end_ok m L) as He.
  destruct Hr as [Hl Hnd]. change (L :: ns ++ [L]) with ([] ++ L :: ns ++ [L]) in Hl.
  assert (Hl' : linked m (ns ++ [L])) by (destruct ns; apply Hl).
  pose proof Hnd as Hnd'. rewrite Permutation_cons_append in Hnd'. apply NoDup_cons_iff in Hnd as [HL _].
  unfold for_each, rfor_each, ilist.rbegin, ilist.rend.
  rewrite !(run_bind _ _ _ _ _ Hb), !(run_bind _ _ _ _ _ He), (run_bind _ _ _ _ _ Hb). split.
  - apply traverse_ok; [by intros a Ha ->|done|done].
  - by apply rtraverse_ok.
Qed.
(** ** [pop_back] *)

Lemma linked_next m L ns a :
  linked m (ns ++ [L]) -> a ∈ ns -> exists b, (b ∈ ns \/ b = L) /\ link m a b.
Proof using.
  intros Hl Ha. apply list_elem_of_split in Ha as (xs & ys & ->).
  rewrite <- app_assoc in Hl. cbn in Hl. apply linked_app in Hl as [_ Hl]. destruct ys as [|y ys].
  - exists L. split; [by right|apply Hl].
  - exists y. split; [left; rewrite elem_of_app; right; right; left|apply Hl].
Qed.

(** The sentinel is taken out of the ring of its elements. *)
Lemma erase_sentinel m L n ns :
  ring m L (n :: ns) ->
  exists m', ilist.erase (mkIterator (obj L)) m = Some (mkIterator (obj n), m') /\
    touches m m' (L :: n :: ns) /\
    (if DBUG then m' !! (L, 0%nat) = Some Vnull
     else m' !! (L, 0%nat) = Some (obj n) /\
          forall a, a ∈ n :: ns -> exists b, b ∈ n :: ns /\ m' !! (a, 0%nat) = Some (obj b)).
Proof using.
  intros Hr. pose proof (ring_first _ _ _ Hr) as Hf. pose proof (ring_last _ _ _ Hr) as Hl.
  destruct Hr as [Hlk Hnd]. apply NoDup_cons_iff in Hnd as [HL _]. cbn [head default id] in Hf.
  destruct (list.last (n :: ns)) as [p|] eqn:Ep; [|by apply last_None in Ep]. cbn [default id] in Hl.
  apply last_Some_elem_of in Ep as Hp. assert (HpL : p <> L) by (by intros ->).
  assert (Hlk' : linked m ((n :: ns) ++ [L])) by apply Hlk.
  destruct (linked_next m L (n :: ns) p Hlk' Hp) as (pn & _ & [Hpn _]).
  assert (Hnp : m !! (n, 1%nat) = Some (obj L)) by apply Hlk.
  assert (HnL : n <> L) by (intros ->; apply HL; left).
  unfold ilist.erase. unfold ilist_node.next, ilist_node.prev, obj in *. cbn [node_]. destruct DBUG; mrun; cbn [fst]; mrun;
    rewrite make_ok; (eexists; split; [reflexivity|]; split).
  1, 3: repeat (apply touches_insert; [|rewrite ?elem_of_cons in *; tauto|lia]); apply touches_refl.
  - lk.
  - split; [lk|]. intros a Ha. assert (a <> L) by (by intros ->).
    destruct (decide (a = p)) as [->|Hap]; [exists n; split; [left|lk]|].
    destruct (linked_next m L (n :: ns) a Hlk' Ha) as (b & [Hb|Hb] & [Han Hbp]).
    + exists b. split; [done|]. unfold obj in Han. lk.
    + subst b. unfold obj in Hbp. congruence.
Qed.

(** Following next links within [ns] never leaves it. *)
Lemma traverse_diverges m L (ns : list nat) :
  (forall a, a ∈ ns -> exists b, b ∈ ns /\ m !! (a, 0%nat) = Some (obj b)) -> L ∉ ns ->
  forall fuel a, a ∈ ns -> traverse fuel (mkIterator (obj a)) (mkIterator (obj L)) m = Some (None, m).
Proof using.
  intros Hn HL fuel. induction fuel as [|fuel IH]; intros a Ha; [done|]. cbn [traverse].
  rewrite neqb_obj, bool_decide_eq_true_2 by (by intros ->).
  destruct (Hn a Ha) as (b & Hb & E). rewrite (run_bind _ _ _ _ _ (incr_ok m a b E)).
  by rewrite (run_bind _ _ _ _ _ (IH b Hb)).
Qed.

Definition pop_back (L : nat) : M unit :=
  if sized then sized_ilist.pop_back L else ilist.pop_back L.

Lemma pop_back_erases m L n ns :
  irep m L (n :: ns) ->
  exists m1 m', ring m1 L (n :: ns) /\
    ilist.erase (mkIterator (obj L)) m1 = Some (mkIterator (obj n), m') /\ pop_back L m = Some (tt, m') /\
    (sized = true -> m1 !! (L, 2%nat) = Some (Vint (u64 (Z.of_nat (length ns))))).
Proof using.
  intros [Hr Hs]. unfold pop_back. destruct sized eqn:Esz.
  - specialize (Hs eq_refl). unfold sized_ilist.pop_back, sized_ilist.erase, sized_ilist.size_.
    rewrite (run_bind _ _ _ _ _ (end_ok m L)). mrun.
    match goal with |- context [<[_ := ?v]> m] => set (z := v) end.
    destruct (erase_sentinel _ L n ns (ring_size m L _ z Hr)) as (m' & E & _).
    exists (<[(L, 2%nat) := z]> m), m'. split; [by apply ring_size|]. split; [done|].
    rewrite (run_bind _ _ _ _ _ E). split; [done|]. intros _. unfold z.
    rewrite lookup_insert_eq, <- Z.add_opp_r, wrap_add_l. cbn [length]. do 3 f_equal. lia.
  - destruct (erase_sentinel _ L n ns Hr) as (m' & E & _). exists m, m'.
    unfold ilist.pop_back. by rewrite (run_bind _ _ _ _ _ (end_ok m L)), (run_bind _ _ _ _ _ E).
Qed.
End Sized.

(** * Properties *)

(** C7: For [ilist] and [sized_ilist], with and without debug code: any allowed
    succession of push_front, push_back, insert, erase, remove, pop_front,
    clear, front, back, empty and size returns what the same operations on a
    sequence of elements return (the size modulo 2^64), and leaves a ring
    through the sentinel in which iterating forwards gives the sequence,
    iterating backwards its reverse, and both end. *)
Theorem ilist_simulates_list `{Dbug} (sized : bool) (m : mem) (L : nat) (ns : list nat) (cs : list cmd)
    (rs : list result) (ns' : list nat) (fuel : nat) :
  irep sized m L ns -> (forall a, a ∈ mjoin (new_elements <$> cs) -> a <> L /\ avail m a) ->
  arun sized L cs ns = Some (rs, ns') -> (length ns' < fuel)%nat ->
  exists m', run_cmds sized L cs m = Some (rs, m') /\ irep sized m' L ns' /\
    for_each fuel L m' = Some (Some (map obj ns'), m') /\
    rfor_each fuel L m' = Some (Some (map obj (reverse ns')), m').
Proof.
  intros Hp Hnew Hr Hk. destruct (ilist_cmds_ok sized L cs m ns rs ns' Hp) as (m' & E & Hp' & _); [|done|].
  { intros c a Hc Ha. apply Hnew, list_elem_of_join. exists (new_elements c).
    split; [done|]. by apply list_elem_of_fmap_2. }
  exists m'. split; [done|]. split; [done|]. apply ring_iterates; [apply Hp'|done].
Qed.

(** A sized list 5, empty, and three elements that are in no list. *)
Definition ring_mem : mem := list_to_map
  ([((5, 0)%nat, Vptr (5, 0)%nat); ((5, 1)%nat, Vptr (5, 0)%nat); ((5, 2)%nat, Vint 0)] ++
   ((fun n => ((n, 0)%nat, Vnull)) <$> [10; 11; 12]%nat) ++
   ((fun n => ((n, 1)%nat, Vnull)) <$> [10; 11; 12]%nat)).

Lemma ring_mem_rep : irep true ring_mem 5 [].
Proof. split; [split; [cbn; repeat split; reflexivity|apply NoDup_singleton]|reflexivity]. Qed.

Lemma ring_mem_avail a : a ∈ [10; 11; 12; 10]%nat -> a <> 5%nat /\ avail ring_mem a.
Proof.
  rewrite !elem_of_cons, elem_of_nil. intros [->|[->|[->|[->|[]]]]]; (split; [done|]); split; eexists; reflexivity.
Qed.

Lemma ilist_simulates_list_witness :
  exists m', @run_cmds true true 5 [PushBack 10; PushFront 11; Insert 10 12; Size; Remove 10; Back; PushFront 10; Erase 11] ring_mem =
      Some ([RUnit; RUnit; RNode (obj 12); RSize 3; RUnit; RNode (obj 12); RUnit; RNode (obj 12)], m') /\
    irep true m' 5 [10; 12]%nat /\
    @for_each true 3 5 m' = Some (Some [obj 10; obj 12], m') /\
    @rfor_each true 3 5 m' = Some (Some [obj 12; obj 10], m').
Proof.
  exact (@ilist_simulates_list true true ring_mem 5 []
    [PushBack 10; PushFront 11; Insert 10 12; Size; Remove 10; Back; PushFront 10; Erase 11]
    [RUnit; RUnit; RNode (obj 12); RSize 3; RUnit; RNode (obj 12); RUnit; RNode (obj 12)] [10; 12]%nat 3
    ring_mem_rep ring_mem_avail ltac:(vm_compute; reflexivity) ltac:(cbn; lia)).
Defined.

(** C38: pop_back does not remove the last element but takes the sentinel out of
    the ring: in a release build the first element is still there and iterating
    over the list never ends, whatever the number of rounds, although a sized
    list reports one element less; in a debug build the list can no longer be
    iterated at all (begin() fails its assertion). *)
Theorem ilist_pop_back_loses_sentinel `{Dbug} (sized : bool) (m : mem) (L n : nat) (ns : list nat) :
  irep sized m L (n :: ns) ->
  exists m', pop_back sized L m = Some (tt, m') /\
    (sized = true -> sized_ilist.size L m' = Some (u64 (Z.of_nat (length ns)), m')) /\
    (DBUG = false -> ilist.front L m' = Some (obj n, m') /\
       forall fuel, for_each fuel L m' = Some (None, m')) /\
    (DBUG = true -> ilist.begin L m' = None).
Proof.
  intros Hp. destruct (pop_back_erases sized m L n ns Hp) as (m1 & m' & Hr & E & Epop & Hs).
  destruct (erase_sentinel m1 L n ns Hr) as (m2 & E' & Ht & Hm). assert (m2 = m') as -> by congruence.
  exists m'. split; [done|]. split; [|split].
  - intros Hz. specialize (Hs Hz). rewrite <- (touches_frame _ _ _ Ht) in Hs by (by right).
    unfold sized_ilist.size, sized_ilist.size_, load_int. mrun. done.
  - intros Hd. rewrite Hd in Hm. destruct Hm as [Hf Hn].
    assert (Hb : ilist.begin L m' = Some (mkIterator (obj n), m')).
    { unfold ilist.begin, ilist_node.next, ilist.sentinel_. cbn [fst]. mrun. apply make_ok. }
    unfold ilist.front, for_each. rewrite !(run_bind _ _ _ _ _ Hb). split; [done|]. intros fuel.
    rewrite !(run_bind _ _ _ _ _ Hb), (run_bind _ _ _ _ _ (end_ok m' L)).
    apply (traverse_diverges m' L (n :: ns)); [done| |left].
    destruct Hr as [_ Hnd]. by apply NoDup_cons_iff in Hnd as [? _].
  - intros Hd. rewrite Hd in Hm. unfold ilist.begin, ilist_node.next, ilist.sentinel_. cbn [fst]. mrun.
    unfold make, assert_ptr. rewrite Hd. done.
Qed.

(** The sized list 5 with the elements 10 and 11. *)
Definition ring_mem2 : mem := list_to_map
  [((5, 0)%nat, obj 10); ((5, 1)%nat, obj 11); ((5, 2)%nat, Vint 2);
   ((10, 0)%nat, obj 11); ((10, 1)%nat, obj 5); ((11, 0)%nat, obj 5); ((11, 1)%nat, obj 10)].

Lemma ilist_pop_back_witness :
  exists m', @pop_back false true 5 ring_mem2 = Some (tt, m') /\
    sized_ilist.size 5 m' = Some (1, m') /\ @ilist.front false 5 m' = Some (obj 10, m') /\
    @for_each false 1000 5 m' = Some (None, m').
Proof.
  assert (Hr : irep true ring_mem2 5 [10; 11]%nat).
  { split; [split; [cbn; repeat split; reflexivity|]|reflexivity].
    apply (bool_decide_unpack _). vm_compute. exact Logic.I. }
  destruct (@ilist_pop_back_loses_sentinel false true ring_mem2 5 10 [11]%nat Hr) as (m' & H1 & H2 & H3 & _).
  exists m'. split; [exact H1|]. split; [exact (H2 eq_refl)|]. destruct (H3 eq_refl) as [H4 H5].
  split; [exact H4|exact (H5 1000%nat)].
Defined.
