(* ===== verification/LifoBuffer.v ===== *)
(** sql_lifo_buffer.h: last-in-first-out buffers on memory given by the user.

    Memory is a byte at each address, a pointer is an address; [size_t] and
    pointer arithmetic wrap at 64 bits.  The two classes are the two
    directions; a function that is virtual in the source is a method of the
    type class [Lifo_buffer_class], and the functions of the base class and of
    the iterator are written against it.  [TRASH_ALLOC] and [my_qsort2] are
    parameters. *)
From S2P Require Import Prelude.
Open Scope Z_scope.

(** * Memory *)

Definition memcpy (dst src n : Z) (m : Z -> Z) : Z -> Z :=
  fun a => if (dst <=? a) && (a <? dst + n) then m (src + (a - dst)) else m a.

(** The [n] bytes at an address. *)
Definition bytes (m : Z -> Z) (p : Z) (n : nat) : list Z :=
  (fun i => m (p + Z.of_nat i)) <$> seq 0 n.

(** * Class Lifo_buffer *)

Record Lifo_buffer := mkBuffer {
  size1 : Z; size2 : Z;
  write_ptr1 : Z; write_ptr2 : Z;
  read_ptr1 : Z; read_ptr2 : Z;
  start : Z; end_ : Z;
  pos : Z }.

Inductive enum_direction := BACKWARD | FORWARD.

Definition set_pos p b := mkBuffer (size1 b) (size2 b) (write_ptr1 b) (write_ptr2 b)
  (read_ptr1 b) (read_ptr2 b) (start b) (end_ b) p.
Definition set_space s e b := mkBuffer (size1 b) (size2 b) (write_ptr1 b) (write_ptr2 b)
  (read_ptr1 b) (read_ptr2 b) s e (pos b).
Definition set_sizes s1 s2 b := mkBuffer s1 s2 (write_ptr1 b) (write_ptr2 b)
  (read_ptr1 b) (read_ptr2 b) (start b) (end_ b) (pos b).
Definition set_read r1 r2 b := mkBuffer (size1 b) (size2 b) (write_ptr1 b) (write_ptr2 b)
  r1 r2 (start b) (end_ b) (pos b).

(** Reading functions return whether there is no element (TRUE is end of file)
    with the new position and pointers.  [None] is a failed assertion. *)
Class Lifo_buffer_class := {
  type : enum_direction;
  used_size : Lifo_buffer -> Z;
  reset : Lifo_buffer -> Lifo_buffer;
  end_of_space : Lifo_buffer -> Z;
  have_space_for : Lifo_buffer -> Z -> bool;
  write : Lifo_buffer -> (Z -> Z) -> option (Lifo_buffer * (Z -> Z));
  read_at : Lifo_buffer -> Z -> Z -> Z -> option (bool * Z * Z * Z);
  remove_unused_space : Lifo_buffer -> option (Lifo_buffer * Z * Z);
  grow : Lifo_buffer -> Z -> Z -> (Z -> Z) -> option (Lifo_buffer * (Z -> Z));
  used_area : Lifo_buffer -> Z;
  get_pos : Lifo_buffer -> Z }.

Class Trash := TRASH_ALLOC : Z -> Z -> (Z -> Z) -> (Z -> Z).
(** It changes nothing outside of the given area. *)
Class LawfulTrash `{Trash} : Prop :=
  trash_outside p n m a : ~ (p <= a < p + n) -> TRASH_ALLOC p n m a = m a.

Section Base.
Context `{Lifo_buffer_class, Trash}.

Definition set_buffer_space (b : Lifo_buffer) (start_arg end_arg : Z) (m : Z -> Z) :
    Lifo_buffer * (Z -> Z) :=
  let b := set_space start_arg end_arg b in
  let m := if end_ b =? start b then m else TRASH_ALLOC (start b) (u64 (end_ b - start b)) m in
  (reset b, m).

Definition setup_writing (b : Lifo_buffer) (len1 len2 : Z) : Lifo_buffer := set_sizes len1 len2 b.

Definition setup_reading (b : Lifo_buffer) (len1 len2 : Z) : option Lifo_buffer :=
  if (len1 =? size1 b) && (len2 =? size2 b) then Some b else None.

Definition can_write (b : Lifo_buffer) : bool := have_space_for b (u64 (size1 b + size2 b)).

Definition is_empty (b : Lifo_buffer) : bool := used_size b =? 0.

Definition read (b : Lifo_buffer) : option (bool * Lifo_buffer) :=
  match read_at b (pos b) (read_ptr1 b) (read_ptr2 b) with
  | None => None
  | Some (eof, p, r1, r2) => Some (eof, set_pos p (set_read r1 r2 b))
  end.

(** The sorting function gets the area, the number and the size of elements. *)
Definition sort (my_qsort2 : Z -> Z -> Z -> (Z -> Z) -> (Z -> Z)) (b : Lifo_buffer) (m : Z -> Z) :
    Z -> Z :=
  let elem_size := u64 (size1 b + size2 b) in
  let n_elements := used_size b / elem_size in
  my_qsort2 (used_area b) n_elements elem_size m.
End Base.

(** ** Class Forward_lifo_buffer *)
Module Forward.
Definition used_size (b : Lifo_buffer) : Z := u64 (pos b - start b).
Definition reset (b : Lifo_buffer) : Lifo_buffer := set_pos (start b) b.
Definition end_of_space (b : Lifo_buffer) : Z := pos b.
Definition have_space_for (b : Lifo_buffer) (bytes : Z) : bool := u64 (pos b + bytes) <? end_ b.

Definition write_bytes (b : Lifo_buffer) (data bytes : Z) (m : Z -> Z) :
    option (Lifo_buffer * (Z -> Z)) :=
  if have_space_for b bytes then
    Some (set_pos (u64 (pos b + bytes)) b, memcpy (pos b) data bytes m)
  else None.

Definition write (b : Lifo_buffer) (m : Z -> Z) : option (Lifo_buffer * (Z -> Z)) :=
  match write_bytes b (write_ptr1 b) (size1 b) m with
  | None => None
  | Some (b, m) =>
    if truth (size2 b) then write_bytes b (write_ptr2 b) (size2 b) m else Some (b, m)
  end.

Definition have_data (b : Lifo_buffer) (position bytes : Z) : bool :=
  s64 (position - start b) >=? s64 bytes.

Definition read_bytes (b : Lifo_buffer) (position bytes : Z) : option (Z * Z) :=
  if have_data b position bytes then
    let position := u64 (position - bytes) in Some (position, position)
  else None.

Definition read_at (b : Lifo_buffer) (position ptr1 ptr2 : Z) : option (bool * Z * Z * Z) :=
  if negb (have_data b position (u64 (size1 b + size2 b))) then Some (true, position, ptr1, ptr2)
  else
    match (if truth (size2 b) then read_bytes b position (size2 b) else Some (position, ptr2)) with
    | None => None
    | Some (position, ptr2) =>
      match read_bytes b position (size1 b) with
      | None => None
      | Some (position, ptr1) => Some (false, position, ptr1, ptr2)
      end
    end.

(** DBUG_ASSERT(0). *)
Definition remove_unused_space (b : Lifo_buffer) : option (Lifo_buffer * Z * Z) := None.

Definition grow `{Trash} (b : Lifo_buffer) (unused_start unused_end : Z) (m : Z -> Z) :
    option (Lifo_buffer * (Z -> Z)) :=
  if (unused_end >=? unused_start) && (end_ b =? unused_start) then
    Some (set_space (start b) unused_end b,
          TRASH_ALLOC unused_start (u64 (unused_end - unused_start)) m)
  else None.

Definition used_area (b : Lifo_buffer) : Z := start b.
Definition get_pos (b : Lifo_buffer) : Z := pos b.
End Forward.

Definition Forward_lifo_buffer `{Trash} : Lifo_buffer_class := {|
  type := FORWARD;
  used_size := Forward.used_size; reset := Forward.reset;
  end_of_space := Forward.end_of_space; have_space_for := Forward.have_space_for;
  write := Forward.write; read_at := Forward.read_at;
  remove_unused_space := Forward.remove_unused_space; grow := Forward.grow;
  used_area := Forward.used_area; get_pos := Forward.get_pos |}.

(** ** Class Backward_lifo_buffer *)
Module Backward.
Definition used_size (b : Lifo_buffer) : Z := u64 (end_ b - pos b).
Definition reset (b : Lifo_buffer) : Lifo_buffer := set_pos (end_ b) b.
Definition end_of_space (b : Lifo_buffer) : Z := end_ b.
Definition have_space_for (b : Lifo_buffer) (bytes : Z) : bool := u64 (pos b - bytes) >=? start b.

Definition write_bytes (b : Lifo_buffer) (data bytes : Z) (m : Z -> Z) :
    option (Lifo_buffer * (Z -> Z)) :=
  if have_space_for b bytes then
    let b := set_pos (u64 (pos b - bytes)) b in
    Some (b, memcpy (pos b) data bytes m)
  else None.

Definition write (b : Lifo_buffer) (m : Z -> Z) : option (Lifo_buffer * (Z -> Z)) :=
  match (if truth (write_ptr2 b) then write_bytes b (write_ptr2 b) (size2 b) m
         else Some (b, m)) with
  | None => None
  | Some (b, m) => write_bytes b (write_ptr1 b) (size1 b) m
  end.

Definition have_data (b : Lifo_buffer) (position bytes : Z) : bool :=
  s64 (end_ b - position) >=? s64 bytes.

Definition read_bytes (b : Lifo_buffer) (position bytes : Z) : option (Z * Z) :=
  if have_data b position bytes then Some (u64 (position + bytes), position) else None.

Definition read_at (b : Lifo_buffer) (position ptr1 ptr2 : Z) : option (bool * Z * Z * Z) :=
  if negb (have_data b position (u64 (size1 b + size2 b))) then Some (true, position, ptr1, ptr2)
  else
    match read_bytes b position (size1 b) with
    | None => None
    | Some (position, ptr1) =>
      match (if truth (size2 b) then read_bytes b position (size2 b) else Some (position, ptr2)) with
      | None => None
      | Some (position, ptr2) => Some (false, position, ptr1, ptr2)
      end
    end.

Definition remove_unused_space (b : Lifo_buffer) : option (Lifo_buffer * Z * Z) :=
  Some (set_space (pos b) (end_ b) b, start b, pos b).

(** DBUG_ASSERT(0). *)
Definition grow (b : Lifo_buffer) (unused_start unused_end : Z) (m : Z -> Z) :
    option (Lifo_buffer * (Z -> Z)) := None.

Definition used_area (b : Lifo_buffer) : Z := pos b.
Definition get_pos (b : Lifo_buffer) : Z := pos b.
End Backward.

Definition Backward_lifo_buffer : Lifo_buffer_class := {|
  type := BACKWARD;
  used_size := Backward.used_size; reset := Backward.reset;
  end_of_space := Backward.end_of_space; have_space_for := Backward.have_space_for;
  write := Backward.write; read_at := Backward.read_at;
  remove_unused_space := Backward.remove_unused_space; grow := Backward.grow;
  used_area := Backward.used_area; get_pos := Backward.get_pos |}.

(** ** Class Lifo_buffer_iterator *)
Record Lifo_buffer_iterator := mkIterator {
  it_pos : Z; it_read_ptr1 : Z; it_read_ptr2 : Z }.

Definition iterator_init `{Lifo_buffer_class} (b : Lifo_buffer) (it : Lifo_buffer_iterator) :
    Lifo_buffer_iterator :=
  mkIterator (get_pos b) (it_read_ptr1 it) (it_read_ptr2 it).

Definition iterator_read `{Lifo_buffer_class} (b : Lifo_buffer) (it : Lifo_buffer_iterator) :
    option (bool * Lifo_buffer_iterator) :=
  match read_at b (it_pos it) (it_read_ptr1 it) (it_read_ptr2 it) with
  | None => None
  | Some (eof, p, r1, r2) => Some (eof, mkIterator p r1 r2)
  end.
