(* ===== verification/LifoSpec.v ===== *)
(** The contract of the LIFO buffers: a stack of elements.

    [LawfulLifo] states what a buffer class promises, independently of the
    direction: its bytes represent a stack, [write] pushes, [read_at] gives the
    top and the position of the rest.  The client theorems are proved against
    it; both classes of sql_lifo_buffer.h satisfy it. *)
From S2P Require Import Prelude LifoBuffer.
Open Scope Z_scope.

(** * Bytes *)

Lemma length_bytes m p n : length (bytes m p n) = n.
Proof. unfold bytes. by rewrite length_fmap, length_seq. Qed.

Lemma bytes_ext m m' p p' n :
  (forall i, 0 <= i < Z.of_nat n -> m (p + i) = m' (p' + i)) -> bytes m p n = bytes m' p' n.
Proof.
  intros E. unfold bytes. apply list_fmap_ext. intros i x Hx.
  apply lookup_seq in Hx. apply E. lia.
Qed.

Lemma memcpy_in d s n m a : d <= a < d + n -> memcpy d s n m a = m (s + (a - d)).
Proof.
  intros. unfold memcpy. destruct (Z.leb_spec d a), (Z.ltb_spec a (d + n)); cbn; [done|lia..].
Qed.
Lemma memcpy_out d s n m a : ~ (d <= a < d + n) -> memcpy d s n m a = m a.
Proof.
  intros. unfold memcpy. destruct (Z.leb_spec d a), (Z.ltb_spec a (d + n)); cbn; [lia|done..].
Qed.

(** An area lies outside of another. *)
Definition apart (p n q k : Z) : Prop := p + n <= q \/ q + k <= p.

Lemma bytes_memcpy_same d s n m : bytes (memcpy d s (Z.of_nat n) m) d n = bytes m s n.
Proof. apply bytes_ext. intros i Hi. rewrite memcpy_in by lia. f_equal. lia. Qed.

Lemma bytes_memcpy_other d s k m p n :
  apart p (Z.of_nat n) d k -> bytes (memcpy d s k m) p n = bytes m p n.
Proof. intros. apply bytes_ext. intros i Hi. apply memcpy_out. unfold apart in *. lia. Qed.

(** * Elements *)

Abbreviation element := (list Z * list Z)%type.

Definition n1 (b : Lifo_buffer) : nat := Z.to_nat (size1 b).
Definition n2 (b : Lifo_buffer) : nat := Z.to_nat (size2 b).
Definition esize (b : Lifo_buffer) : Z := size1 b + size2 b.

(** An element at an address: its first part, then its second. *)
Definition block (b : Lifo_buffer) (m : Z -> Z) (p : Z) (e : element) : Prop :=
  bytes m p (n1 b) = fst e /\ bytes m (p + size1 b) (n2 b) = snd e.

(** Sizes and addresses for which nothing wraps around; the source areas are
    outside of the buffer. *)
Record wf (b : Lifo_buffer) : Prop := {
  wf_size1 : 0 <= size1 b; wf_size2 : 0 <= size2 b;
  wf_esize : 0 < esize b;
  wf_low : esize b <= start b;
  wf_space : start b <= end_ b;
  wf_high : end_ b + esize b < 2 ^ 63;
  wf_ptr2 : 0 < size2 b -> write_ptr2 b <> 0;
  wf_src1 : apart (write_ptr1 b) (size1 b) (start b) (end_ b - start b);
  wf_src2 : apart (write_ptr2 b) (size2 b) (start b) (end_ b - start b) }.

(** * The interface *)

Class LifoModel := {
  (** the stack, top first, in the part of the buffer that ends at a position *)
  stack : Lifo_buffer -> (Z -> Z) -> Z -> list element -> Prop;
  (** whether one more element fits above so many *)
  fits : Lifo_buffer -> nat -> bool }.

Class LawfulLifo `{Lifo_buffer_class, LifoModel} : Prop := {
  lifo_reset b m : wf b -> stack b m (pos (reset b)) [] /\ reset b = set_pos (pos (reset b)) b;
  lifo_frame b m m' p es : wf b -> stack b m p es ->
    (forall a, start b <= a < end_ b -> m' a = m a) -> stack b m' p es;
  lifo_set_pos b m p q r1 r2 es :
    stack (set_pos q (set_read r1 r2 b)) m p es <-> stack b m p es;
  lifo_fits b q r1 r2 n : fits (set_pos q (set_read r1 r2 b)) n = fits b n;
  lifo_empty b m es : wf b -> stack b m (pos b) es ->
    is_empty b = match es with [] => true | _ => false end;
  lifo_can_write b m es : wf b -> stack b m (pos b) es -> can_write b = fits b (length es);
  lifo_write b m es : wf b -> stack b m (pos b) es -> can_write b = true ->
    exists p m', write b m = Some (set_pos p b, m') /\
      stack b m' p ((bytes m (write_ptr1 b) (n1 b), bytes m (write_ptr2 b) (n2 b)) :: es) /\
      (forall a, ~ (start b <= a < end_ b) -> m' a = m a);
  lifo_read b m p e es r1 r2 : wf b -> stack b m p (e :: es) ->
    exists p' q1 q2, read_at b p r1 r2 = Some (false, p', q1, q2) /\
      bytes m q1 (n1 b) = fst e /\ bytes m q2 (n2 b) = snd e /\ stack b m p' es;
  lifo_eof b m p r1 r2 : wf b -> stack b m p [] ->
    read_at b p r1 r2 = Some (true, p, r1, r2);
  lifo_get_pos b : get_pos b = pos b }.

(** * Forward buffers *)

Fixpoint forward_stack (b : Lifo_buffer) (m : Z -> Z) (p : Z) (es : list element) : Prop :=
  match es with
  | [] => p = start b
  | e :: es => p <= end_ b /\ block b m (p - esize b) e /\ forward_stack b m (p - esize b) es
  end.

Definition forward_fits (b : Lifo_buffer) (n : nat) : bool :=
  (Z.of_nat n + 1) * esize b <? end_ b - start b.

Definition forward_model : LifoModel := {| stack := forward_stack; fits := forward_fits |}.

(** * Backward buffers *)

Fixpoint backward_stack (b : Lifo_buffer) (m : Z -> Z) (p : Z) (es : list element) : Prop :=
  match es with
  | [] => p = end_ b
  | e :: es => start b <= p /\ block b m p e /\ backward_stack b m (p + esize b) es
  end.

Definition backward_fits (b : Lifo_buffer) (n : nat) : bool :=
  (Z.of_nat n + 1) * esize b <=? end_ b - start b.

Definition backward_model : LifoModel := {| stack := backward_stack; fits := backward_fits |}.

Lemma block_frame b m m' p e :
  0 <= size1 b -> 0 <= size2 b ->
  (forall a, p <= a < p + esize b -> m' a = m a) -> block b m p e -> block b m' p e.
Proof.
  unfold block, esize, n1, n2. intros H1 H2 E [<- <-].
  split; apply bytes_ext; intros i Hi; apply E; lia.
Qed.

Section Instances.
Context (b : Lifo_buffer) (Hwf : wf b).

Lemma forward_position m p es :
  forward_stack b m p es -> p = start b + Z.of_nat (length es) * esize b /\ p <= end_ b.
Proof using Hwf.
  revert p. induction es as [|e es IH]; cbn [forward_stack length]; intros p.
  - intros ->. pose proof (wf_space b Hwf). lia.
  - intros (Hp & _ & Hs%IH). lia.
Qed.

Lemma backward_position m p es :
  backward_stack b m p es -> p = end_ b - Z.of_nat (length es) * esize b /\ start b <= p.
Proof using Hwf.
  revert p. induction es as [|e es IH]; cbn [backward_stack length]; intros p.
  - intros ->. pose proof (wf_space b Hwf). lia.
  - intros (Hp & _ & Hs%IH). lia.
Qed.

Lemma forward_frame m m' p es :
  forward_stack b m p es -> (forall a, start b <= a < p -> m' a = m a) ->
  forward_stack b m' p es.
Proof using Hwf.
  destruct Hwf. revert p. induction es as [|e es IH]; cbn [forward_stack]; intros p; [done|].
  intros (Hp & Hb & Hs) E. pose proof (forward_position _ _ _ Hs) as [? _].
  split; [done|]. split; [apply (block_frame b m); auto; intros; apply E; nia|].
  apply IH; [done|]. intros. apply E. lia.
Qed.

Lemma backward_frame m m' p es :
  backward_stack b m p es -> (forall a, p <= a < end_ b -> m' a = m a) ->
  backward_stack b m' p es.
Proof using Hwf.
  destruct Hwf. revert p. induction es as [|e es IH]; cbn [backward_stack]; intros p; [done|].
  intros (Hp & Hb & Hs) E. pose proof (backward_position _ _ _ Hs) as [? _].
  split; [done|]. split; [apply (block_frame b m); auto; intros; apply E; nia|].
  apply IH; [done|]. intros. apply E. lia.
Qed.
End Instances.

Lemma forward_set_pos b q r1 r2 m p es :
  forward_stack (set_pos q (set_read r1 r2 b)) m p es <-> forward_stack b m p es.
Proof. revert p. induction es as [|e es IH]; intros p; cbn; [done|]. by rewrite IH. Qed.

Lemma backward_set_pos b q r1 r2 m p es :
  backward_stack (set_pos q (set_read r1 r2 b)) m p es <-> backward_stack b m p es.
Proof. revert p. induction es as [|e es IH]; intros p; cbn; [done|]. by rewrite IH. Qed.

(** * Both classes satisfy the interface *)

(** Remove wrap-arounds whose argument is in range. *)
Ltac nowrap :=
  repeat match goal with
  | |- context [wrap 64 ?x] => rewrite (wrap_small 64 x) by (unfold in_u; lia)
  | |- context [swrap 64 ?x] => rewrite (swrap_small 64 x) by (lia || unfold in_s; lia)
  end.
Ltac unwf H :=
  destruct H as [Hs1 Hs2 Hes Hlow Hsp Hhigh Hp2 Hsrc1 Hsrc2]; unfold apart, esize in *.

Lemma bytes_0 m p n : n = 0%nat -> bytes m p n = [].
Proof. by intros ->. Qed.

(** The effect of the two copies of an element to an address. *)
Lemma copied_block b m p d :
  wf b -> d = p + size1 b -> start b <= p -> d + size2 b <= end_ b ->
  let m1 := memcpy p (write_ptr1 b) (size1 b) m in
  let m2 := memcpy d (write_ptr2 b) (size2 b) m in
  let e := (bytes m (write_ptr1 b) (n1 b), bytes m (write_ptr2 b) (n2 b)) in
  block b (memcpy d (write_ptr2 b) (size2 b) m1) p e /\
  block b (memcpy p (write_ptr1 b) (size1 b) m2) p e /\
  (size2 b = 0 -> block b m1 p e).
Proof.
  intros Hwf Hd Hp He. unwf Hwf. unfold block, n1, n2. cbn [fst snd].
  assert (E1 : Z.of_nat (Z.to_nat (size1 b)) = size1 b) by lia.
  assert (E2 : Z.of_nat (Z.to_nat (size2 b)) = size2 b) by lia. subst d.
  assert (Same : forall q s n k m', k = Z.of_nat n -> bytes (memcpy q s k m') q n = bytes m' s n)
    by (intros; subst; apply bytes_memcpy_same).
  assert (Src1 : forall q s k m', start b <= q -> q + k <= end_ b ->
    bytes (memcpy q s k m') (write_ptr1 b) (Z.to_nat (size1 b)) =
    bytes m' (write_ptr1 b) (Z.to_nat (size1 b)))
    by (intros; apply bytes_memcpy_other; unfold apart; rewrite E1; lia).
  assert (Src2 : forall q s k m', start b <= q -> q + k <= end_ b ->
    bytes (memcpy q s k m') (write_ptr2 b) (Z.to_nat (size2 b)) =
    bytes m' (write_ptr2 b) (Z.to_nat (size2 b)))
    by (intros; apply bytes_memcpy_other; unfold apart; rewrite E2; lia).
  repeat split.
  - rewrite bytes_memcpy_other by (unfold apart; lia). by apply Same.
  - rewrite Same by done. apply Src2; lia.
  - rewrite Same by done. apply Src1; lia.
  - rewrite bytes_memcpy_other by (unfold apart; lia). by apply Same.
  - by apply Same.
  - by rewrite !bytes_0 by lia.
Qed.

Section Forward.
Context `{Trash}.
Local Existing Instance Forward_lifo_buffer.
Local Existing Instance forward_model.

Lemma forward_write b m es : wf b -> forward_stack b m (pos b) es -> can_write b = true ->
  exists p m', Forward.write b m = Some (set_pos p b, m') /\
    forward_stack b m' p ((bytes m (write_ptr1 b) (n1 b), bytes m (write_ptr2 b) (n2 b)) :: es) /\
    (forall a, ~ (start b <= a < end_ b) -> m' a = m a).
Proof.
  intros Hwf Hst. pose proof (forward_position b Hwf _ _ _ Hst) as [Hpos Hend].
  pose proof (fun d => copied_block b m (pos b) d Hwf) as Hcopy.
  pose proof (forward_frame b Hwf m) as Hframe.
  unwf Hwf. assert (0 <= Z.of_nat (length es) * (size1 b + size2 b)) by lia.
  unfold can_write. cbn [have_space_for Forward_lifo_buffer]. unfold Forward.have_space_for. nowrap.
  intros Hc%Z.ltb_lt.
  unfold Forward.write, Forward.write_bytes, Forward.have_space_for. nowrap.
  destruct (Z.ltb_spec (pos b + size1 b) (end_ b)); [|lia]. cbn [pos set_pos size2 write_ptr2 end_].
  destruct (Hcopy _ eq_refl) as (Hb1 & _ & Hb0); [lia..|].
  unfold truth. destruct (Z.eqb_spec (size2 b) 0) as [E|E]; cbn [negb].
  - eexists _, _. split; [done|]. cbn [forward_stack]. unfold esize.
    replace (pos b + size1 b - (size1 b + size2 b)) with (pos b) by lia.
    split; [split; [lia|]; split; [by apply Hb0|]|].
    + apply (Hframe _ (pos b)); [done|]. intros. apply memcpy_out. lia.
    + intros a Ha. apply memcpy_out. lia.
  - nowrap. destruct (Z.ltb_spec (pos b + size1 b + size2 b) (end_ b)); [|lia].
    eexists _, _. split; [done|]. cbn [forward_stack]. unfold esize.
    replace (pos b + size1 b + size2 b - (size1 b + size2 b)) with (pos b) by lia.
    split; [split; [lia|]; split; [by apply Hb1|]|].
    + apply (Hframe _ (pos b)); [done|]. intros. rewrite !memcpy_out by lia. done.
    + intros a Ha. by rewrite !memcpy_out by lia.
Qed.

Lemma forward_read b m p e es r1 r2 : wf b -> forward_stack b m p (e :: es) ->
  exists p' q1 q2, Forward.read_at b p r1 r2 = Some (false, p', q1, q2) /\
    bytes m q1 (n1 b) = fst e /\ bytes m q2 (n2 b) = snd e /\ forward_stack b m p' es.
Proof.
  intros Hwf Hst. pose proof (forward_position b Hwf _ _ _ Hst) as [Hpos Hend].
  destruct Hst as (_ & [He1 He2] & Hs). pose proof (forward_position b Hwf _ _ _ Hs) as [Hpos' _].
  unwf Hwf. cbn [length] in Hpos.
  assert (0 <= Z.of_nat (length es) * (size1 b + size2 b)) by lia.
  unfold Forward.read_at, Forward.have_data, Forward.read_bytes, Forward.have_data. nowrap.
  destruct (Z.geb_spec (p - start b) (size1 b + size2 b)); [|lia]. cbn [negb].
  exists (p - (size1 b + size2 b)), (p - (size1 b + size2 b)).
  unfold truth. destruct (Z.eqb_spec (size2 b) 0) as [E|E]; cbn [negb]; nowrap.
  - destruct (Z.geb_spec (p - start b) (size1 b)); [|lia]. exists r2.
    replace (p - size1 b) with (p - (size1 b + size2 b)) by lia.
    repeat split; try done. rewrite <- He2, !bytes_0 by (unfold n2; lia). done.
  - destruct (Z.geb_spec (p - start b) (size2 b)); [|lia]. nowrap.
    destruct (Z.geb_spec (p - size2 b - start b) (size1 b)); [|lia]. nowrap.
    exists (p - size2 b). replace (p - size2 b - size1 b) with (p - (size1 b + size2 b)) by lia.
    repeat split; try done. rewrite <- He2. f_equal. lia.
Qed.

Lemma forward_lawful : LawfulLifo.
Proof.
  split; cbn [stack fits forward_model reset write read_at get_pos Forward_lifo_buffer].
  - intros b m Hwf. by split.
  - intros b m m' p es Hwf Hs E. apply (forward_frame b Hwf m); [done|].
    intros a Ha. apply E. pose proof (forward_position b Hwf _ _ _ Hs). lia.
  - intros. apply forward_set_pos.
  - done.
  - intros b m es Hwf Hs. pose proof (forward_position b Hwf _ _ _ Hs) as [Hp ?].
    unwf Hwf. unfold is_empty. cbn [used_size Forward_lifo_buffer]. unfold Forward.used_size.
    assert (0 <= Z.of_nat (length es) * (size1 b + size2 b)) by lia. nowrap.
    rewrite Hp. destruct es; cbn [length] in *; [rewrite Z.eqb_eq|rewrite Z.eqb_neq]; nia.
  - intros b m es Hwf Hs. pose proof (forward_position b Hwf _ _ _ Hs) as [Hp ?].
    unwf Hwf. unfold can_write, forward_fits, esize. cbn [have_space_for Forward_lifo_buffer].
    unfold Forward.have_space_for.
    assert (0 <= Z.of_nat (length es) * (size1 b + size2 b)) by lia. nowrap.
    apply eq_true_iff_eq. rewrite !Z.ltb_lt. lia.
  - intros. by apply forward_write.
  - intros. by apply forward_read.
  - intros b m p r1 r2 Hwf ->. unwf Hwf. unfold Forward.read_at, Forward.have_data. nowrap.
    destruct (Z.geb_spec (start b - start b) (size1 b + size2 b)); [lia|done].
  - done.
Qed.
End Forward.

Section Backward.
Local Existing Instance Backward_lifo_buffer.
Local Existing Instance backward_model.

Lemma backward_write b m es : wf b -> backward_stack b m (pos b) es -> can_write b = true ->
  exists p m', Backward.write b m = Some (set_pos p b, m') /\
    backward_stack b m' p ((bytes m (write_ptr1 b) (n1 b), bytes m (write_ptr2 b) (n2 b)) :: es) /\
    (forall a, ~ (start b <= a < end_ b) -> m' a = m a).
Proof.
  intros Hwf Hst. pose proof (backward_position b Hwf _ _ _ Hst) as [Hpos Hend].
  pose proof (fun p d => copied_block b m p d Hwf) as Hcopy.
  pose proof (backward_frame b Hwf m) as Hframe.
  unwf Hwf. assert (0 <= Z.of_nat (length es) * (size1 b + size2 b)) by lia.
  unfold can_write. cbn [have_space_for Backward_lifo_buffer]. unfold Backward.have_space_for. nowrap.
  rewrite Z.geb_leb, Z.leb_le. intros Hc.
  destruct (Hcopy (pos b - size2 b - size1 b) (pos b - size2 b)) as (_ & Hb1 & Hb0); [lia..|].
  unfold Backward.write, Backward.write_bytes, Backward.have_space_for. nowrap.
  unfold truth. destruct (Z.eqb_spec (write_ptr2 b) 0) as [E|E]; cbn [negb].
  - assert (Hz : size2 b = 0) by (destruct (Z.eq_dec (size2 b) 0); [done|lia]).
    nowrap. destruct (Z.geb_spec (pos b - size1 b) (start b)); [|lia].
    eexists _, _. split; [done|]. cbn [backward_stack pos set_pos]. unfold esize.
    replace (pos b - size2 b - size1 b) with (pos b - size1 b) in Hb0 by lia.
    replace (pos b - size1 b + (size1 b + size2 b)) with (pos b) by lia.
    split; [split; [lia|]; split; [by apply Hb0|]|].
    + apply (Hframe _ (pos b)); [done|]. intros. apply memcpy_out. lia.
    + intros a Ha. apply memcpy_out. lia.
  - destruct (Z.geb_spec (pos b - size2 b) (start b)); [|lia].
    cbn [pos set_pos size1 write_ptr1 start]. nowrap.
    destruct (Z.geb_spec (pos b - size2 b - size1 b) (start b)); [|lia].
    eexists _, _. split; [done|]. cbn [backward_stack pos set_pos]. unfold esize.
    replace (pos b - size2 b - size1 b + (size1 b + size2 b)) with (pos b) by lia.
    split; [split; [lia|]; split; [by apply Hb1|]|].
    + apply (Hframe _ (pos b)); [done|]. intros. rewrite !memcpy_out by lia. done.
    + intros a Ha. by rewrite !memcpy_out by lia.
Qed.

Lemma backward_read b m p e es r1 r2 : wf b -> backward_stack b m p (e :: es) ->
  exists p' q1 q2, Backward.read_at b p r1 r2 = Some (false, p', q1, q2) /\
    bytes m q1 (n1 b) = fst e /\ bytes m q2 (n2 b) = snd e /\ backward_stack b m p' es.
Proof.
  intros Hwf Hst. pose proof (backward_position b Hwf _ _ _ Hst) as [Hpos Hend].
  destruct Hst as (_ & [He1 He2] & Hs). pose proof (backward_position b Hwf _ _ _ Hs) as [Hpos' _].
  unwf Hwf. cbn [length] in Hpos.
  assert (0 <= Z.of_nat (length es) * (size1 b + size2 b)) by lia.
  unfold Backward.read_at, Backward.have_data, Backward.read_bytes, Backward.have_data. nowrap.
  destruct (Z.geb_spec (end_ b - p) (size1 b + size2 b)); [|lia]. cbn [negb].
  destruct (Z.geb_spec (end_ b - p) (size1 b)); [|lia]. nowrap.
  exists (p + (size1 b + size2 b)), p.
  unfold truth. destruct (Z.eqb_spec (size2 b) 0) as [E|E]; cbn [negb]; nowrap.
  - exists r2. replace (p + size1 b) with (p + (size1 b + size2 b)) by lia.
    repeat split; try done. rewrite <- He2, !bytes_0 by (unfold n2; lia). done.
  - destruct (Z.geb_spec (end_ b - (p + size1 b)) (size2 b)); [|lia]. nowrap.
    exists (p + size1 b). replace (p + size1 b + size2 b) with (p + (size1 b + size2 b)) by lia.
    repeat split; done.
Qed.

Lemma backward_lawful : LawfulLifo.
Proof.
  split; cbn [stack fits backward_model reset write read_at get_pos Backward_lifo_buffer].
  - intros b m Hwf. by split.
  - intros b m m' p es Hwf Hs E. apply (backward_frame b Hwf m); [done|].
    intros a Ha. apply E. pose proof (backward_position b Hwf _ _ _ Hs). lia.
  - intros. apply backward_set_pos.
  - done.
  - intros b m es Hwf Hs. pose proof (backward_position b Hwf _ _ _ Hs) as [Hp ?].
    unwf Hwf. unfold is_empty. cbn [used_size Backward_lifo_buffer]. unfold Backward.used_size.
    assert (0 <= Z.of_nat (length es) * (size1 b + size2 b)) by lia. nowrap.
    rewrite Hp. destruct es; cbn [length] in *; [rewrite Z.eqb_eq|rewrite Z.eqb_neq]; nia.
  - intros b m es Hwf Hs. pose proof (backward_position b Hwf _ _ _ Hs) as [Hp ?].
    unwf Hwf. unfold can_write, backward_fits, esize. cbn [have_space_for Backward_lifo_buffer].
    unfold Backward.have_space_for.
    assert (0 <= Z.of_nat (length es) * (size1 b + size2 b)) by lia. nowrap.
    apply eq_true_iff_eq. rewrite Z.geb_leb, !Z.leb_le. lia.
  - intros. by apply backward_write.
  - intros. by apply backward_read.
  - intros b m p r1 r2 Hwf ->. unwf Hwf. unfold Backward.read_at, Backward.have_data. nowrap.
    destruct (Z.geb_spec (end_ b - end_ b) (size1 b + size2 b)); [lia|done].
  - done.
Qed.
End Backward.
