(* ===== verification/LifoStack.v ===== *)
(** The LIFO buffers as seen by their clients: both directions are stacks, the
    iterator walks over the stack, and two buffers on adjacent memory can pass
    space from one to the other. *)
From S2P Require Import Prelude LifoBuffer LifoSpec.
Open Scope Z_scope.

(** * A client *)

Definition store_bytes (p : Z) (xs : list Z) (m : Z -> Z) : Z -> Z :=
  fun a => if p <=? a then default (m a) (xs !! Z.to_nat (a - p)) else m a.

Inductive cmd := Put (x1 x2 : list Z) | Get.
Inductive obs := Wrote (ok : bool) | Got (e : option element).

Section Client.
Context `{Lifo_buffer_class}.

(** Stage the two parts of an element where [write] finds them, and write it if
    there is space; or read an element and look at it. *)
Definition step (c : cmd) (b : Lifo_buffer) (m : Z -> Z) : option (obs * Lifo_buffer * (Z -> Z)) :=
  match c with
  | Put x1 x2 =>
    let m := store_bytes (write_ptr1 b) x1 (store_bytes (write_ptr2 b) x2 m) in
    if can_write b then
      match write b m with Some (b, m) => Some (Wrote true, b, m) | None => None end
    else Some (Wrote false, b, m)
  | Get =>
    match read b with
    | None => None
    | Some (true, b) => Some (Got None, b, m)
    | Some (false, b) =>
      Some (Got (Some (bytes m (read_ptr1 b) (n1 b), bytes m (read_ptr2 b) (n2 b))), b, m)
    end
  end.

Fixpoint run (cs : list cmd) (b : Lifo_buffer) (m : Z -> Z) :
    option (list obs * Lifo_buffer * (Z -> Z)) :=
  match cs with
  | [] => Some ([], b, m)
  | c :: cs =>
    match step c b m with
    | None => None
    | Some (o, b, m) =>
      match run cs b m with
      | None => None
      | Some (os, b, m) => Some (o :: os, b, m)
      end
    end
  end.

(** Everything the iterator reads. *)
Fixpoint walk (fuel : nat) (b : Lifo_buffer) (m : Z -> Z) (it : Lifo_buffer_iterator) :
    option (list element) :=
  match fuel with
  | O => None
  | S fuel =>
    match iterator_read b it with
    | None => None
    | Some (true, _) => Some []
    | Some (false, it) =>
      match walk fuel b m it with
      | None => None
      | Some es => Some ((bytes m (it_read_ptr1 it) (n1 b), bytes m (it_read_ptr2 it) (n2 b)) :: es)
      end
    end
  end.
End Client.

(** The abstract stack, top first, with the test for space. *)
Definition astep (fits : nat -> bool) (c : cmd) (es : list element) : obs * list element :=
  match c with
  | Put x1 x2 => if fits (length es) then (Wrote true, (x1, x2) :: es) else (Wrote false, es)
  | Get => match es with [] => (Got None, []) | e :: es => (Got (Some e), es) end
  end.

Fixpoint arun (fits : nat -> bool) (cs : list cmd) (es : list element) : list obs * list element :=
  match cs with
  | [] => ([], es)
  | c :: cs =>
    let '(o, es) := astep fits c es in
    let '(os, es) := arun fits cs es in (o :: os, es)
  end.

(** * Stores *)

Lemma store_bytes_out p xs m a :
  ~ (p <= a < p + Z.of_nat (length xs)) -> store_bytes p xs m a = m a.
Proof.
  intros Ha. unfold store_bytes. destruct (Z.leb_spec p a); [|done].
  rewrite lookup_ge_None_2 by lia. done.
Qed.

Lemma bytes_store_same p xs m n : n = length xs -> bytes (store_bytes p xs m) p n = xs.
Proof.
  intros ->. apply list_eq. intros i. unfold bytes. rewrite list_lookup_fmap.
  destruct (decide (i < length xs)%nat) as [Hi|Hi].
  - rewrite lookup_seq_lt by done. cbn. unfold store_bytes.
    destruct (Z.leb_spec p (p + Z.of_nat i)); [|lia].
    replace (Z.to_nat (p + Z.of_nat i - p)) with i by lia.
    destruct (lookup_lt_is_Some_2 xs i Hi) as [x ->]. done.
  - rewrite lookup_seq_ge by lia. cbn. symmetry. apply lookup_ge_None_2. lia.
Qed.

Lemma bytes_store_other p xs m q n :
  apart q (Z.of_nat n) p (Z.of_nat (length xs)) -> bytes (store_bytes p xs m) q n = bytes m q n.
Proof. intros. apply bytes_ext. intros i Hi. apply store_bytes_out. unfold apart in *. lia. Qed.

(** * Clients against the interface *)

(** The staged parts have the sizes of the buffer, and do not overlap. *)
Definition cmd_ok (b : Lifo_buffer) (c : cmd) : Prop :=
  match c with Put x1 x2 => length x1 = n1 b /\ length x2 = n2 b | Get => True end.
Definition sources_apart (b : Lifo_buffer) : Prop :=
  apart (write_ptr2 b) (size2 b) (write_ptr1 b) (size1 b).

Lemma wf_moved b q r1 r2 : wf b -> wf (set_pos q (set_read r1 r2 b)).
Proof. by intros []. Qed.

Section Interface.
Context `{HC : Lifo_buffer_class, HM : !LifoModel, HL : !LawfulLifo}.

(** The part of a buffer that no operation changes. *)
Definition same_buffer (b b' : Lifo_buffer) : Prop :=
  exists q r1 r2, b' = set_pos q (set_read r1 r2 b).

Lemma same_refl b : same_buffer b b.
Proof. exists (pos b), (read_ptr1 b), (read_ptr2 b). by destruct b. Qed.
Lemma same_trans b b' b'' : same_buffer b b' -> same_buffer b' b'' -> same_buffer b b''.
Proof. intros (?&?&?&->) (q&r1&r2&->). by exists q, r1, r2. Qed.

Lemma step_ok b0 c b m es :
  wf b0 -> same_buffer b0 b -> sources_apart b0 -> cmd_ok b0 c ->
  stack b0 m (pos b) es -> exists b' m',
  step c b m = Some (fst (astep (fits b0) c es), b', m') /\ same_buffer b0 b' /\
  stack b0 m' (pos b') (snd (astep (fits b0) c es)).
Proof using HL.
  intros Hwf (q & r1 & r2 & ->) Hsrc Hc Hs. set (b := set_pos q (set_read r1 r2 b0)) in *.
  pose proof (wf_moved b0 q r1 r2 Hwf) as Hwf'. fold b in Hwf'.
  destruct c as [x1 x2|]; cbn [step astep].
  - destruct Hc as [H1 H2]. set (m1 := store_bytes _ _ _).
    assert (Hin : forall a, start b0 <= a < end_ b0 -> m1 a = m a).
    { intros a Ha. destruct Hwf. unfold apart, n1, n2 in *. unfold m1. cbn [write_ptr1 write_ptr2 b set_pos set_read].
      rewrite !store_bytes_out by lia. done. }
    assert (Hs1 : stack b m1 (pos b) es) by (apply lifo_set_pos; by apply (lifo_frame b0 m)).
    pose proof (lifo_can_write b m1 es Hwf' Hs1) as Hcw. unfold b in Hcw at 2.
    rewrite lifo_fits in Hcw. rewrite Hcw.
    destruct (fits b0 (length es)) eqn:Hf; cbn [fst snd].
    + destruct (lifo_write b m1 es Hwf' Hs1) as (p & m' & -> & Hs' & _); [congruence|].
      eexists _, _. split; [done|]. split; [by exists p, r1, r2|]. apply lifo_set_pos in Hs'.
      replace (bytes m1 (write_ptr1 b) (n1 b)) with x1 in Hs'.
      2: { symmetry. apply bytes_store_same. done. }
      replace (bytes m1 (write_ptr2 b) (n2 b)) with x2 in Hs'; [done|].
      symmetry. unfold m1. rewrite bytes_store_other; [by apply bytes_store_same|].
      destruct Hwf. unfold sources_apart, apart, n1, n2 in *.
      cbn [write_ptr1 write_ptr2 b set_pos set_read size1 size2]. lia.
    + eexists _, _. split; [done|]. split; [by exists q, r1, r2|]. by apply lifo_set_pos in Hs1.
  - unfold read. destruct es as [|e es].
    + rewrite (lifo_eof b m (pos b)); [|done|by apply (lifo_set_pos b0)].
      eexists _, _. split; [done|]. split; [by exists q, r1, r2|done].
    + destruct (lifo_read b m (pos b) e es (read_ptr1 b) (read_ptr2 b) Hwf')
        as (p' & q1 & q2 & -> & E1 & E2 & Hs'); [by apply lifo_set_pos|].
      eexists _, _. cbn [read_ptr1 read_ptr2 set_pos set_read fst snd].
      split; [|split; [by exists p', q1, q2|by apply lifo_set_pos in Hs']].
      destruct e as [e1 e2]. cbn in E1, E2. by rewrite <- E1, <- E2.
Qed.

Lemma run_ok b0 cs : wf b0 -> sources_apart b0 -> Forall (cmd_ok b0) cs -> forall b m es,
  same_buffer b0 b -> stack b0 m (pos b) es -> exists b' m',
  run cs b m = Some (fst (arun (fits b0) cs es), b', m') /\ same_buffer b0 b' /\
  stack b0 m' (pos b') (snd (arun (fits b0) cs es)).
Proof using HL.
  intros Hwf Hsrc. induction 1 as [|c cs Hc _ IH]; intros b m es Hsame Hs; cbn [run arun].
  - by eexists _, _.
  - destruct (step_ok b0 c b m es Hwf Hsame Hsrc Hc Hs) as (b1 & m1 & -> & Hsame1 & Hs1).
    destruct (astep (fits b0) c es) as [o es1]. cbn [fst snd] in *.
    destruct (IH b1 m1 es1 Hsame1 Hs1) as (b2 & m2 & -> & Hsame2 & Hs2).
    destruct (arun (fits b0) cs es1). by eexists _, _.
Qed.

Lemma walk_ok b m : wf b -> forall es fuel it,
  stack b m (it_pos it) es -> (length es < fuel)%nat -> walk fuel b m it = Some es.
Proof using HL.
  intros Hwf. induction es as [|e es IH]; intros fuel it Hs Hf; (destruct fuel as [|fuel]; [cbn in Hf; lia|]);
    cbn [walk]; unfold iterator_read.
  - by rewrite (lifo_eof b m).
  - destruct (lifo_read b m (it_pos it) e es (it_read_ptr1 it) (it_read_ptr2 it) Hwf Hs)
      as (p' & q1 & q2 & -> & E1 & E2 & Hs').
    rewrite IH by (done || (cbn in Hf; lia)). cbn. rewrite E1, E2. by destruct e.
Qed.
End Interface.

(** * The two classes *)

Definition class_of `{Trash} (d : enum_direction) : Lifo_buffer_class :=
  match d with FORWARD => Forward_lifo_buffer | BACKWARD => Backward_lifo_buffer end.
Definition model_of (d : enum_direction) : LifoModel :=
  match d with FORWARD => forward_model | BACKWARD => backward_model end.

Lemma class_lawful `{Trash} d : @LawfulLifo (class_of d) (model_of d).
Proof. destruct d; [apply backward_lawful|apply forward_lawful]. Qed.

(** Whether an element fits above [n] others: a forward buffer keeps at least
    one byte free. *)
Definition room (d : enum_direction) (space size : Z) (n : nat) : bool :=
  match d with
  | FORWARD => (Z.of_nat n + 1) * size <? space
  | BACKWARD => (Z.of_nat n + 1) * size <=? space
  end.

(** C24: A buffer of either direction, set up on any space and element sizes, is
    a stack: whatever sequence of writes and reads a client makes, each write
    is accepted exactly when the element fits, each read gives back the bytes
    of the element written last and not yet read, or reports the end on an
    empty buffer, and no assertion fails.  An iterator then reads what is left
    from the top down, without changing it.  A backward buffer uses its whole
    space; a forward buffer of exactly n elements' size accepts only n - 1. *)
Theorem lifo_buffers_are_stacks `{HT : Trash} (d : enum_direction) (b : Lifo_buffer) (s e : Z)
    (m : Z -> Z) (cmds : list cmd) (it : Lifo_buffer_iterator) :
  wf (set_space s e b) -> sources_apart b -> Forall (cmd_ok b) cmds ->
  let cls := class_of d in
  let '(b0, m0) := set_buffer_space b s e m in
  let '(os, es) := arun (room d (e - s) (esize b)) cmds [] in
  exists b1 m1,
    run cmds b0 m0 = Some (os, b1, m1) /\
    is_empty b1 = match es with [] => true | _ => false end /\
    walk (S (length es)) b1 m1 (iterator_init b1 it) = Some es.
Proof.
  intros Hwf Hsrc Hcs cls. pose proof (class_lawful d) as HL. set (b' := set_space s e b) in *.
  unfold set_buffer_space. fold b'. 
  pose (m0 := if end_ b' =? start b' then m else TRASH_ALLOC (start b') (u64 (end_ b' - start b')) m).
  fold m0.
  destruct (@lifo_reset cls (model_of d) HL b' m0 Hwf) as [Hs0 Hr].
  destruct (run_ok (HC := cls) (HM := model_of d) b' cmds Hwf Hsrc Hcs (reset b') m0 [])
    as (b1 & m1 & Hrun & Hsame & Hst); [|done|].
  { exists (pos (reset b')), (read_ptr1 b), (read_ptr2 b). rewrite Hr at 1. by destruct b. }
  replace (arun (@fits (model_of d) b') cmds []) with (arun (room d (e - s) (esize b)) cmds []) in *
    by (by destruct d).
  destruct (arun (room d (e - s) (esize b)) cmds []) as [os es]. cbn [fst snd] in *.
  exists b1, m1. split; [exact Hrun|]. destruct Hsame as (q & r1 & r2 & ->).
  assert (Hst' : @stack (model_of d) (set_pos q (set_read r1 r2 b')) m1 q es)
    by (by apply (@lifo_set_pos cls (model_of d) HL)).
  split.
  - by apply (@lifo_empty cls (model_of d) HL _ m1); [apply wf_moved|].
  - apply (walk_ok (HC := cls) (HM := model_of d)); [by apply wf_moved| |lia].
    unfold iterator_init. cbn [it_pos]. by rewrite (@lifo_get_pos cls (model_of d) HL).
Qed.

Definition demo_trash : Trash := fun p n m a => if (p <=? a) && (a <? p + n) then 0xA5 else m a.

(** One-byte keys with two-byte data in six bytes of memory. *)
Definition demo_buffer : Lifo_buffer := mkBuffer 1 2 10 20 0 0 0 0 0.
Definition demo_cmds : list cmd :=
  [Put [1] [2; 3]; Put [4] [5; 6]; Get; Put [7] [8; 9]; Get; Get; Put [1] [1; 1]].

Lemma lifo_buffers_witness :
  exists b m, @run (@class_of demo_trash BACKWARD) demo_cmds
      (Backward.reset (set_space 100 106 demo_buffer))
      (@TRASH_ALLOC demo_trash 100 6 (fun _ => 0)) =
    Some ([Wrote true; Wrote true; Got (Some ([4], [5; 6])); Wrote true;
           Got (Some ([7], [8; 9])); Got (Some ([1], [2; 3])); Wrote true], b, m) /\
  exists b' m', @run (@class_of demo_trash FORWARD) demo_cmds
      (Forward.reset (set_space 100 106 demo_buffer))
      (@TRASH_ALLOC demo_trash 100 6 (fun _ => 0)) =
    Some ([Wrote true; Wrote false; Got (Some ([1], [2; 3])); Wrote true;
           Got (Some ([7], [8; 9])); Got None; Wrote true], b', m').
Proof.
  assert (Hwf : wf (set_space 100 106 demo_buffer)) by (split; vm_compute; intuition congruence).
  assert (Hcs : Forall (cmd_ok demo_buffer) demo_cmds) by (repeat constructor).
  assert (Hsrc : sources_apart demo_buffer) by (right; vm_compute; congruence).
  destruct (@lifo_buffers_are_stacks demo_trash BACKWARD demo_buffer 100 106 (fun _ => 0) demo_cmds
    (mkIterator 0 0 0) Hwf Hsrc Hcs) as (b & m & Hr & _).
  destruct (@lifo_buffers_are_stacks demo_trash FORWARD demo_buffer 100 106 (fun _ => 0) demo_cmds
    (mkIterator 0 0 0) Hwf Hsrc Hcs) as (b' & m' & Hr' & _).
  exists b, m. split; [exact Hr|]. exists b', m'. exact Hr'.
Defined.

(** * Two buffers on adjacent memory *)

Lemma wf_shrink k s : wf k -> start k <= s <= end_ k -> wf (set_space s (end_ k) k).
Proof.
  intros [? ? ? ? ? ? ? H1 H2] Hs. unfold apart in *.
  split; cbn; unfold esize, apart in *; cbn; auto; lia.
Qed.

Lemma wf_grow f limit e :
  wf f -> end_ f <= e <= limit -> esize f + limit < 2 ^ 63 ->
  apart (write_ptr1 f) (size1 f) (start f) (limit - start f) ->
  apart (write_ptr2 f) (size2 f) (start f) (limit - start f) ->
  wf (set_space (start f) e f).
Proof.
  intros [? ? ? ? ? ? ? _ _] He Hl H1 H2. unfold apart in *.
  split; cbn; unfold esize, apart in *; cbn; auto; lia.
Qed.

Lemma forward_grow f m e es p :
  end_ f <= e -> forward_stack f m p es -> forward_stack (set_space (start f) e f) m p es.
Proof.
  intros He. revert p. induction es as [|x es IH]; intros p; cbn [forward_stack]; [done|].
  intros (Hp & Hb & Hs). split; [cbn; lia|]. split; [done|]. by apply IH.
Qed.

Lemma backward_shrink k m s es p :
  0 < esize k -> s <= p -> backward_stack k m p es ->
  backward_stack (set_space s (end_ k) k) m p es.
Proof.
  intros He. revert p. induction es as [|x es IH]; intros p Hp; cbn [backward_stack]; [done|].
  intros (_ & Hb & Hs). split; [done|]. split; [done|]. apply IH; [|done].
  unfold esize in *. cbn in *. lia.
Qed.

(** The arrangement the buffers are made for: a forward buffer that is
    written to, and behind it, on adjacent memory, a backward buffer that is
    read from.  When the backward buffer gives up its unused space and the
    forward buffer grows by it, both keep their elements, the two areas remain
    adjacent, and the forward buffer then has room up to the first unread
    element of the backward one, whatever had been read before. *)
Theorem adjacent_buffers_share_space `{HT : Trash} (HL : LawfulTrash) (f k : Lifo_buffer)
    (m : Z -> Z) (fs ks : list element) :
  wf f -> wf k -> end_ f = start k ->
  apart (write_ptr1 f) (size1 f) (start f) (end_ k - start f) ->
  apart (write_ptr2 f) (size2 f) (start f) (end_ k - start f) ->
  esize f + end_ k < 2 ^ 63 ->
  forward_stack f m (pos f) fs -> backward_stack k m (pos k) ks ->
  exists k' f' m' us ue,
    Backward.remove_unused_space k = Some (k', us, ue) /\
    Forward.grow f us ue m = Some (f', m') /\
    wf f' /\ wf k' /\ end_ f' = start k' /\
    forward_stack f' m' (pos f') fs /\ backward_stack k' m' (pos k') ks /\
    can_write (H := Forward_lifo_buffer) f' =
      ((Z.of_nat (length fs) + 1) * esize f <? pos k - start f) /\
    (forall a, ~ (start k <= a < pos k) -> m' a = m a).
Proof.
  intros Hf Hk Hadj Ha1 Ha2 Hh Hfs Hks.
  pose proof (forward_position f Hf _ _ _ Hfs) as [Hfp Hfe].
  pose proof (backward_position k Hk _ _ _ Hks) as [Hkp Hks'].
  set (f' := set_space (start f) (pos k) f). set (k' := set_space (pos k) (end_ k) k).
  set (m' := TRASH_ALLOC (start k) (u64 (pos k - start k)) m).
  assert (Hke : pos k <= end_ k) by (pose proof (wf_esize k Hk); lia).
  assert (Hwk : wf k') by (apply wf_shrink; auto with lia).
  assert (Hwf : wf f') by (apply (wf_grow f (end_ k)); auto with lia).
  assert (Hout : forall a, ~ (start k <= a < pos k) -> m' a = m a).
  { intros a Ha. apply trash_outside. destruct Hk. unfold esize in *.
    rewrite wrap_small by (unfold in_u; lia). lia. }
  assert (Hs : forward_stack f' m' (pos f) fs).
  { apply (forward_frame f' Hwf m); [apply forward_grow; auto with lia|].
    intros a Ha. apply Hout. cbn in *. lia. }
  exists k', f', m', (start k), (pos k). split; [done|]. split.
  { unfold Forward.grow. rewrite Hadj, Z.eqb_refl, Z.geb_leb.
    by destruct (Z.leb_spec (start k) (pos k)); [|lia]. }
  split; [done|]. split; [done|]. split; [done|]. split; [done|]. split; [|split; [|done]].
  - apply (backward_frame k' Hwk m); [apply backward_shrink; [by apply wf_esize|cbn; lia|done]|].
    intros a Ha. apply Hout. cbn in *. lia.
  - rewrite (@lifo_can_write _ _ forward_lawful f' m' fs Hwf Hs). done.
Qed.

#[local] Instance demo_lawful : @LawfulTrash demo_trash.
Proof.
  intros p n m a Ha. unfold TRASH_ALLOC, demo_trash.
  destruct (Z.leb_spec p a), (Z.ltb_spec a (p + n)); cbn; lia || done.
Qed.

(** A forward buffer of one element on [100, 104), followed by a backward one
    of one element, with three unused bytes, on [104, 110). *)
Definition demo_forward : Lifo_buffer := mkBuffer 3 0 10 0 0 0 100 104 103.
Definition demo_backward : Lifo_buffer := mkBuffer 3 0 10 0 0 0 104 110 107.

Ltac demo_wf := split; cbn; unfold apart, esize; cbn; lia.
Ltac demo_stack := cbn; unfold block, bytes, esize; cbn; repeat split; reflexivity || discriminate.

Lemma adjacent_buffers_witness :
  exists k' f' m' us ue,
    Backward.remove_unused_space demo_backward = Some (k', us, ue) /\
    @Forward.grow demo_trash demo_forward us ue (fun a => a) = Some (f', m') /\
    can_write (H := @Forward_lifo_buffer demo_trash) f' = true /\
    backward_stack k' m' (pos k') [([107; 108; 109], [])].
Proof.
  destruct (@adjacent_buffers_share_space demo_trash demo_lawful demo_forward demo_backward
    (fun a => a) [([100; 101; 102], [])] [([107; 108; 109], [])]
    ltac:(demo_wf) ltac:(demo_wf) eq_refl ltac:(left; discriminate) ltac:(left; discriminate)
    eq_refl ltac:(demo_stack) ltac:(demo_stack))
    as (k' & f' & m' & us & ue & H1 & H2 & _ & _ & _ & _ & H3 & H4 & _).
  exists k', f', m', us, ue. split; [exact H1|]. split; [exact H2|]. split; [exact H4|exact H3].
Defined.
