(* ===== verification/RootArray.v ===== *)
(** mem_root_array.h: [Mem_root_array], a growing array on a memory root.

    The storage is a set of blocks, each with a size in bytes, obtained from
    [alloc_root]; a block is never given back.  An element lives at an index of
    a block from its construction to its destruction; constructing outside the
    block, reading or destroying what does not live is undefined ([None]).
    Elements with a trivial destructor are never destroyed.  [sizeof] is
    [sizeof(Element_type)]. *)
From S2P Require Import Prelude.
Open Scope Z_scope.

(** * Storage *)

Section Storage.
Context {T : Type}.

Record heap := mkHeap {
  objs : gmap (nat * Z) T;      (* living elements, by block and index *)
  blocks : gmap nat Z }.        (* size of each block *)

(** [alloc_root]: NULL or a new block.  No object is larger than half of the
    address space. *)
Class MemRoot := alloc_root : heap -> Z -> option nat.
Class LawfulRoot `{MemRoot} : Prop := {
  root_fresh : forall h n b, alloc_root h n = Some b -> blocks h !! b = None;
  root_bound : forall h n b, alloc_root h n = Some b -> n < 2 ^ 63 }.

Definition read (h : heap) (p : nat * Z) : option T := objs h !! p.

(** [new (p) Element_type(v)] *)
Definition construct (sizeof : Z) (p : nat * Z) (v : T) (h : heap) : option heap :=
  match blocks h !! p.1 with
  | Some bytes =>
    if (0 <=? p.2) && ((p.2 + 1) * sizeof <=? bytes)
    then Some (mkHeap (<[p := v]> (objs h)) (blocks h)) else None
  | None => None
  end.

(** [p->~Element_type()] *)
Definition destroy (p : nat * Z) (h : heap) : option heap :=
  match objs h !! p with
  | Some _ => Some (mkHeap (delete p (objs h)) (blocks h))
  | None => None
  end.

(** A [const Element_type &]: an object of the caller, or an element. *)
Inductive const_ref := Object (v : T) | Element (p : nat * Z).
Definition deref (r : const_ref) (h : heap) : option T :=
  match r with Object v => Some v | Element p => read h p end.
End Storage.
Arguments heap : clear implicits.
Arguments const_ref : clear implicits.

(** * The code *)

Record Mem_root_array := mkArray {
  m_array : option nat;
  m_size : Z;
  m_capacity : Z }.

Section Code.
Context {T : Type} `{MemRoot T} (sizeof : Z) (has_trivial_destructor : bool).
Implicit Types (h : heap T) (a : Mem_root_array).

Definition Mem_root_array_new : Mem_root_array := mkArray None 0 0.

Definition capacity (a : Mem_root_array) : Z := m_capacity a.
Definition element_size : Z := sizeof.
Definition size (a : Mem_root_array) : Z := m_size a.
Definition empty (a : Mem_root_array) : bool := size a =? 0.

(** [&m_array[n]] *)
Definition address (a : Mem_root_array) (n : Z) : option (nat * Z) :=
  b ← m_array a; Some (b, n).

Definition at_ (a : Mem_root_array) (n : Z) : option (nat * Z) :=
  if n <? size a then address a n else None.

Definition subscript (a : Mem_root_array) (n : Z) : option (nat * Z) := at_ a n.

Definition back (a : Mem_root_array) : option (nat * Z) := at_ a (u64 (size a - 1)).

Definition begin (a : Mem_root_array) : option (nat * Z) := address a 0.
Definition end_ (a : Mem_root_array) : option (nat * Z) := address a (size a).

(** The loop of [chop]: [k] elements from [ix] on. *)
Fixpoint chop_loop (a : Mem_root_array) (k : nat) (ix : Z) (h : heap T) : option (heap T) :=
  match k with
  | O => Some h
  | S k =>
    p ← address a ix;
    h ← destroy p h;
    chop_loop a k (ix + 1) h
  end.

Definition chop (a : Mem_root_array) (pos : Z) (h : heap T) : option (Mem_root_array * heap T) :=
  if pos <? m_size a then
    h ← (if has_trivial_destructor then Some h
         else chop_loop a (Z.to_nat (m_size a - pos)) pos h);
    Some (mkArray (m_array a) pos (m_capacity a), h)
  else None.

Definition clear (a : Mem_root_array) (h : heap T) : option (Mem_root_array * heap T) :=
  if negb (empty a) then chop a 0 h else Some (a, h).

(** The destructor. *)
Definition Mem_root_array_delete (a : Mem_root_array) (h : heap T) : option (heap T) :=
  '(_, h) ← clear a h; Some h.

(** The loop of [reserve]: [k] elements from [ix] on, into the block [array]. *)
Fixpoint reserve_loop (a : Mem_root_array) (array : nat) (k : nat) (ix : Z) (h : heap T) : option (heap T) :=
  match k with
  | O => Some h
  | S k =>
    old_p ← address a ix;
    v ← read h old_p;
    h ← construct sizeof (array, ix) v h;
    h ← (if has_trivial_destructor then Some h else destroy old_p h);
    reserve_loop a array k (ix + 1) h
  end.

Definition reserve (a : Mem_root_array) (n : Z) (h : heap T) : option (bool * Mem_root_array * heap T) :=
  if n <=? m_capacity a then Some (false, a, h)
  else
    let bytes := u64 (n * element_size) in
    match alloc_root h bytes with
    | None => Some (true, a, h)
    | Some array =>
      let h := mkHeap (objs h) (<[array := bytes]> (blocks h)) in
      h ← reserve_loop a array (Z.to_nat (m_size a)) 0 h;
      Some (false, mkArray (Some array) (m_size a) n, h)
    end.

Definition min_capacity : Z := 20.
Definition expansion_factor : Z := 2.

Definition push_back (a : Mem_root_array) (element : const_ref T) (h : heap T) :
    option (bool * Mem_root_array * heap T) :=
  '(oom, a, h) ← (if 0 =? m_capacity a then reserve a min_capacity h else Some (false, a, h));
  if (oom : bool) then Some (true, a, h) else
  '(oom, a, h) ← (if m_size a =? m_capacity a
                  then reserve a (u64 (m_capacity a * expansion_factor)) h
                  else Some (false, a, h));
  if (oom : bool) then Some (true, a, h) else
  p ← address a (m_size a);
  let a := mkArray (m_array a) (u64 (m_size a + 1)) (m_capacity a) in
  v ← deref element h;
  h ← construct sizeof p v h;
  Some (false, a, h).

Definition pop_back (a : Mem_root_array) (h : heap T) : option (Mem_root_array * heap T) :=
  if empty a then None else
  h ← (if has_trivial_destructor then Some h else p ← back a; destroy p h);
  Some (mkArray (m_array a) (u64 (m_size a - 1)) (m_capacity a), h).

(** The loops of [resize], with a bound on the rounds. *)
Fixpoint push_loop (fuel : nat) (a : Mem_root_array) (n : Z) (val : const_ref T) (h : heap T) :
    option (Mem_root_array * heap T) :=
  match fuel with
  | O => None
  | S fuel =>
    if n =? m_size a then Some (a, h)
    else '(_, a, h) ← push_back a val h; push_loop fuel a n val h
  end.

Fixpoint pop_loop (fuel : nat) (a : Mem_root_array) (n : Z) (h : heap T) :
    option (Mem_root_array * heap T) :=
  match fuel with
  | O => None
  | S fuel =>
    if n =? m_size a then Some (a, h)
    else '(a, h) ← pop_back a h; pop_loop fuel a n h
  end.

Definition resize (a : Mem_root_array) (n : Z) (val : const_ref T) (h : heap T) :
    option (Mem_root_array * heap T) :=
  if n =? m_size a then Some (a, h)
  else if m_size a <? n then
    '(oom, a, h) ← reserve a n h;
    if negb oom then push_loop (S (Z.to_nat (n - m_size a))) a n val h else Some (a, h)
  else
    '(a, h) ← (if has_trivial_destructor then Some (a, h)
               else pop_loop (S (Z.to_nat (m_size a - n))) a n h);
    Some (mkArray (m_array a) n (m_capacity a), h).

(** The constructor that takes a size. *)
Definition Mem_root_array_new_n (n : Z) (val : const_ref T) (h : heap T) :
    option (Mem_root_array * heap T) := resize Mem_root_array_new n val h.
End Code.
