(* ===== verification/RootArraySpec.v ===== *)
(** Correctness of [Mem_root_array]: a sequence of elements with a capacity. *)
From S2P Require Import Prelude RootArray.
Open Scope Z_scope.

(** Indices [ix, ix + k) *)
Definition within (ix : Z) (k : nat) (i : Z) : bool := (ix <=? i) && (i <? ix + Z.of_nat k).

Lemma within_S ix k i : within ix (S k) i = (i =? ix) || within (ix + 1) k i.
Proof.
  unfold within. destruct (Z.eqb_spec i ix), (Z.leb_spec ix i), (Z.leb_spec (ix + 1) i),
    (Z.ltb_spec i (ix + Z.of_nat (S k))), (Z.ltb_spec i (ix + 1 + Z.of_nat k)); cbn; lia || done.
Qed.

Section Spec.
Context {T : Type} `{HM : MemRoot T} (sizeof : Z) (trivial : bool).
Context (Hsz : 0 < sizeof < 2 ^ 58).
Implicit Types (h : heap T) (a : Mem_root_array) (vs ws : list T) (b : nat).

Abbreviation reserve := (reserve sizeof trivial).
Abbreviation push_back := (push_back sizeof trivial).
Abbreviation pop_back := (pop_back trivial).

(** The elements [ws] live in block [b] from index [ix] on. *)
Definition stored h b (ix : Z) ws : Prop :=
  forall j v, ws !! j = Some v -> objs h !! (b, ix + Z.of_nat j) = Some v.

Lemma stored_cons h b ix v ws : stored h b ix (v :: ws) <-> objs h !! (b, ix) = Some v /\ stored h b (ix + 1) ws.
Proof using.
  split.
  - intros Hs. split; [rewrite <- (Hs 0%nat v eq_refl); do 2 f_equal; lia|].
    intros j w Hj. rewrite <- (Hs (S j) w Hj). do 2 f_equal. lia.
  - intros [H1 H2] [|j] w Hj; cbn in Hj.
    + injection Hj as ->. rewrite <- H1. do 2 f_equal. lia.
    + rewrite <- (H2 j w Hj). do 2 f_equal. lia.
Qed.

Record rep h a vs (cap : Z) : Prop := {
  rep_size : m_size a = Z.of_nat (length vs);
  rep_capacity : m_capacity a = cap;
  rep_fits : Z.of_nat (length vs) <= cap;
  rep_store : cap = 0 \/
    exists b bytes, m_array a = Some b /\ blocks h !! b = Some bytes /\
      cap * sizeof <= bytes < 2 ^ 63 /\ stored h b 0 vs }.

(** ** Storage *)

Lemma construct_ok h b i v bytes :
  blocks h !! b = Some bytes -> 0 <= i -> (i + 1) * sizeof <= bytes ->
  construct sizeof (b, i) v h = Some (mkHeap (<[(b, i) := v]> (objs h)) (blocks h)).
Proof using.
  intros Hb Hi Hf. unfold construct. cbn [fst snd]. rewrite Hb.
  destruct (Z.leb_spec 0 i), (Z.leb_spec ((i + 1) * sizeof) bytes); [done|lia..].
Qed.

Lemma destroy_ok h p v :
  objs h !! p = Some v -> destroy p h = Some (mkHeap (delete p (objs h)) (blocks h)).
Proof using. intros E. unfold destroy. by rewrite E. Qed.

(** Destroying [k] elements. *)
Lemma chop_loop_ok a b ws : forall ix h,
  m_array a = Some b -> stored h b ix ws ->
  exists h', chop_loop a (length ws) ix h = Some h' /\ blocks h' = blocks h /\
    forall c i, objs h' !! (c, i) =
      if bool_decide (c = b) && within ix (length ws) i then None else objs h !! (c, i).
Proof using.
  induction ws as [|v ws IH]; intros ix h Ha Hs; cbn [length chop_loop].
  - exists h. split; [done|]. split; [done|]. intros c i. unfold within.
    destruct (Z.leb_spec ix i), (Z.ltb_spec i (ix + Z.of_nat 0)); cbn; rewrite ?andb_false_r; done || lia.
  - apply stored_cons in Hs as [Hv Hs]. unfold address. rewrite Ha. cbn [mbind option_bind].
    rewrite (destroy_ok h _ v Hv). cbn [mbind option_bind].
    destruct (IH (ix + 1) (mkHeap (delete (b, ix) (objs h)) (blocks h)) Ha) as (h' & E & Hb & Ho).
    { intros j w Hj. cbn. rewrite lookup_delete_ne by (intros [=]; lia). by apply Hs. }
    exists h'. split; [done|]. split; [done|]. intros c i. rewrite Ho, within_S. cbn [objs].
    destruct (bool_decide_reflect (c = b)) as [->|Hc]; cbn [andb].
    + destruct (Z.eqb_spec i ix) as [->|Hi]; cbn [orb].
      * rewrite lookup_delete_eq. by destruct (within _ _ _).
      * by rewrite lookup_delete_ne by congruence.
    + by rewrite lookup_delete_ne by congruence.
Qed.

(** Moving elements to the block [array]. *)
Lemma reserve_loop_ok a b array bytes ws : forall ix h,
  m_array a = Some b -> b <> array -> blocks h !! array = Some bytes -> 0 <= ix ->
  (ix + Z.of_nat (length ws)) * sizeof <= bytes -> stored h b ix ws ->
  exists h', reserve_loop sizeof trivial a array (length ws) ix h = Some h' /\ blocks h' = blocks h /\
    forall c i, objs h' !! (c, i) =
      if within ix (length ws) i then
        if bool_decide (c = array) then ws !! Z.to_nat (i - ix)
        else if bool_decide (c = b) && negb trivial then None else objs h !! (c, i)
      else objs h !! (c, i).
Proof using Hsz.
  induction ws as [|v ws IH]; intros ix h Ha Hne Hb Hix Hfit Hs; cbn [length reserve_loop].
  - exists h. split; [done|]. split; [done|]. intros c i. unfold within.
    destruct (Z.leb_spec ix i), (Z.ltb_spec i (ix + Z.of_nat 0)); cbn; done || lia.
  - apply stored_cons in Hs as [Hv Hs]. unfold address. rewrite Ha. cbn [mbind option_bind].
    unfold read. rewrite Hv. cbn [mbind option_bind].
    assert ((ix + 1) * sizeof <= bytes) by (cbn [length] in Hfit; nia).
    rewrite (construct_ok h array ix v bytes) by done. cbn [mbind option_bind].
    set (h1 := mkHeap (<[(array, ix) := v]> (objs h)) (blocks h)).
    set (h2 := if trivial then h1 else mkHeap (delete (b, ix) (objs h1)) (blocks h)).
    replace (if trivial then Some h1 else destroy (b, ix) h1) with (Some h2).
    2: { unfold h2. destruct trivial; [done|]. rewrite (destroy_ok h1 _ v); [done|].
         cbn. rewrite lookup_insert_ne by congruence. done. }
    cbn [mbind option_bind].
    assert (Ho2 : forall c i, i <> ix -> objs h2 !! (c, i) = objs h !! (c, i)).
    { intros c i Hi. unfold h2, h1. destruct trivial; cbn; rewrite ?lookup_delete_ne, lookup_insert_ne by congruence; done. }
    destruct (IH (ix + 1) h2 Ha Hne) as (h' & E & Hb' & Ho); [| | | |].
    + unfold h2, h1. by destruct trivial.
    + lia.
    + cbn [length] in Hfit. replace (ix + 1 + Z.of_nat (length ws)) with (ix + Z.of_nat (S (length ws))) by lia. done.
    + intros j w Hj. rewrite Ho2 by lia. by apply Hs.
    + exists h'. split; [done|]. split; [rewrite Hb'; unfold h2, h1; by destruct trivial|].
      intros c i. rewrite Ho, within_S. destruct (Z.eqb_spec i ix) as [->|Hi]; cbn [orb].
      * assert (within (ix + 1) (length ws) ix = false) as ->.
        { unfold within. destruct (Z.leb_spec (ix + 1) ix); [lia|done]. }
        rewrite Z.sub_diag. cbn. unfold h2, h1.
        destruct (bool_decide_reflect (c = array)) as [->|Hca].
        { destruct trivial; cbn; rewrite ?lookup_delete_ne by congruence; by rewrite lookup_insert_eq. }
        destruct (bool_decide_reflect (c = b)) as [->|Hcb], trivial; cbn;
          rewrite ?lookup_delete_eq, ?lookup_delete_ne, ?lookup_insert_ne by congruence; done.
      * destruct (within (ix + 1) (length ws) i) eqn:Ew; [|by apply Ho2].
        rewrite Ho2 by done. replace (Z.to_nat (i - ix)) with (S (Z.to_nat (i - (ix + 1)))).
        2: { unfold within in Ew. apply andb_prop in Ew as [Ew _]. lia. }
        done.
Qed.

(** ** Growing *)

Context {HL : LawfulRoot}.

(** A grown array: the elements are in the new block; in the old one they are
    only if they have not been destroyed. *)
Record grown h a vs (n : Z) (array : nat) h' : Prop := {
  grown_rep : rep h' (mkArray (Some array) (m_size a) n) vs n;
  grown_old : forall b j v, m_array a = Some b -> vs !! j = Some v ->
    objs h' !! (b, Z.of_nat j) = if trivial then objs h !! (b, Z.of_nat j) else None }.

Lemma rep_bytes h a vs cap : rep h a vs cap -> 0 <= cap /\ cap * sizeof < 2 ^ 63.
Proof using Hsz.
  intros [_ _ Hf Hs]. split; [lia|]. destruct Hs as [->|(b & bytes & _ & _ & Hb & _)]; lia.
Qed.

Lemma reserve_ok h a vs cap n :
  rep h a vs cap -> cap < n -> n * sizeof < 2 ^ 64 ->
  match alloc_root h (n * sizeof) with
  | None => reserve a n h = Some (true, a, h)
  | Some array =>
    exists h', reserve a n h = Some (false, mkArray (Some array) (m_size a) n, h') /\ grown h a vs n array h'
  end.
Proof using Hsz HL.
  intros Hr Hn Hov. pose proof Hr as [Hz Hc Hf Hs]. unfold RootArray.reserve, element_size.
  destruct (Z.leb_spec n (m_capacity a)); [lia|]. rewrite wrap_small by (unfold in_u; nia).
  destruct (alloc_root h (n * sizeof)) as [array|] eqn:Ea; [|done].
  pose proof (root_fresh _ _ _ Ea) as Hfr. pose proof (root_bound _ _ _ Ea) as Hbd.
  set (h1 := mkHeap (objs h) (<[array := n * sizeof]> (blocks h))).
  rewrite Hz, Nat2Z.id.
  assert (Hb1 : blocks h1 !! array = Some (n * sizeof)) by apply lookup_insert_eq.
  destruct Hs as [->|(b & bytes & Hab & Hbb & Hby & Hst)].
  { destruct vs; [|cbn in Hf; lia]. exists h1. split; [done|]. split; [|by intros ? ? ? _ ?].
    split; [done|done|cbn in *; lia|]. right. exists array, (n * sizeof). do 3 (split; [done || lia|]). by intros j v. }
  assert (Hne : b <> array) by congruence.
  destruct (reserve_loop_ok a b array (n * sizeof) vs 0 h1 Hab Hne Hb1) as (h' & E & Hbk & Ho); [lia|nia|done|].
  assert (Hin : forall j v, vs !! j = Some v -> within 0 (length vs) (Z.of_nat j) = true).
  { intros j v Hj%lookup_lt_Some. unfold within. apply andb_true_intro. split; [lia|]. lia. }
  exists h'. rewrite E. split; [done|]. split.
  - split; [done|done|cbn; lia|]. right. exists array, (n * sizeof). cbn [m_array].
    split; [done|]. split; [by rewrite Hbk|]. split; [lia|].
    intros j v Hj. rewrite Z.add_0_l, Ho, (Hin j v Hj), bool_decide_eq_true_2 by done.
    by rewrite Z.sub_0_r, Nat2Z.id.
  - intros b' j v Hb' Hj. assert (b' = b) as -> by congruence.
    rewrite Ho, (Hin j v Hj), bool_decide_eq_false_2, (bool_decide_eq_true_2 (b = b)) by done.
    by destruct trivial.
Qed.

Lemma reserve_small h a vs cap n : rep h a vs cap -> n <= cap -> reserve a n h = Some (false, a, h).
Proof using.
  intros [_ Hc _ _] Hn. unfold RootArray.reserve. destruct (Z.leb_spec n (m_capacity a)); [done|lia].
Qed.

(** ** Adding *)

(** The end of [push_back], with space for an element. *)
Definition append_element a (v : T) h : option (bool * Mem_root_array * heap T) :=
  p ← address a (m_size a);
  h ← construct sizeof p v h;
  Some (false, mkArray (m_array a) (u64 (m_size a + 1)) (m_capacity a), h).

Lemma root_append_ok h a vs cap v :
  rep h a vs cap -> Z.of_nat (length vs) < cap ->
  exists a' h', append_element a v h = Some (false, a', h') /\ rep h' a' (vs ++ [v]) cap.
Proof using Hsz.
  intros Hr Hlt. pose proof (rep_bytes _ _ _ _ Hr) as [_ Hcap]. destruct Hr as [Hz Hc Hf Hs].
  destruct Hs as [->|(b & bytes & Hab & Hbb & Hby & Hst)]; [lia|].
  unfold append_element, address. rewrite Hab. cbn [mbind option_bind].
  rewrite (construct_ok h b (m_size a) v bytes) by (done || lia || nia). cbn [mbind option_bind].
  eexists _, _. split; [reflexivity|]. rewrite Hz, Hc.
  rewrite wrap_small by (unfold in_u; nia).
  split; cbn [m_size m_capacity m_array]; [rewrite length_app; cbn; lia|done|rewrite length_app; cbn; lia|].
  right. exists b, bytes. split; [done|]. split; [done|]. split; [done|].
  intros j w Hj. cbn [objs]. rewrite Z.add_0_l. destruct (decide (j = length vs)) as [->|Hne].
  - rewrite lookup_app_r, Nat.sub_diag in Hj by lia. injection Hj as ->. apply lookup_insert_eq.
  - rewrite lookup_insert_ne by (intros [=]; lia). rewrite lookup_app_l in Hj.
    + rewrite <- (Hst j w Hj). done.
    + apply lookup_lt_Some in Hj. rewrite length_app in Hj. cbn in Hj. lia.
Qed.

(** The capacity [push_back] asks for when the array is full. *)
Definition next_capacity (cap : Z) : Z := if cap =? 0 then 20 else 2 * cap.

Lemma next_capacity_bytes h a vs cap :
  rep h a vs cap -> cap < next_capacity cap /\ next_capacity cap * sizeof < 2 ^ 64.
Proof using Hsz.
  intros Hr%rep_bytes. unfold next_capacity. destruct (Z.eqb_spec cap 0); lia.
Qed.

Lemma push_back_room h a vs cap r :
  rep h a vs cap -> Z.of_nat (length vs) < cap ->
  push_back a r h = (v ← deref r h; append_element a v h).
Proof using.
  intros [Hz Hc Hf _] Hlt. unfold RootArray.push_back, append_element.
  destruct (Z.eqb_spec 0 (m_capacity a)); [lia|]. cbn [mbind option_bind].
  destruct (Z.eqb_spec (m_size a) (m_capacity a)); [lia|]. cbn [mbind option_bind].
  unfold address. destruct (m_array a), (deref r h); done.
Qed.

Lemma push_back_full h a vs cap r :
  rep h a vs cap -> Z.of_nat (length vs) = cap ->
  push_back a r h =
    ('(oom, a, h) ← reserve a (next_capacity cap) h;
     if (oom : bool) then Some (true, a, h) else v ← deref r h; append_element a v h).
Proof using Hsz HL.
  intros Hr Hfull. pose proof (rep_bytes _ _ _ _ Hr) as [Hc0 Hcap].
  destruct (next_capacity_bytes _ _ _ _ Hr) as [Hn1 Hn2].
  pose proof (reserve_ok h a vs cap _ Hr Hn1 Hn2) as Hres. destruct Hr as [Hz Hc _ _].
  assert (Hfin : forall a h, (v ← deref r h; append_element a v h) =
    (p ← address a (m_size a); v ← deref r h; h ← construct sizeof p v h;
     Some (false, mkArray (m_array a) (u64 (m_size a + 1)) (m_capacity a), h))).
  { intros a1 h1. unfold append_element, address. destruct (m_array a1), (deref r h1); done. }
  unfold RootArray.push_back, min_capacity, expansion_factor, next_capacity in *. rewrite Hc.
  rewrite (Z.eqb_sym 0). destruct (Z.eqb_spec cap 0) as [->|Hne].
  - destruct (alloc_root h (20 * sizeof)) as [array|]; [destruct Hres as (h' & Hres & _)|];
      rewrite Hres; cbn [mbind option_bind]; [|done].
    cbn [m_size m_capacity]. rewrite Hz, Hfull. cbn [Z.eqb mbind option_bind]. rewrite Hfin. done.
  - cbn [mbind option_bind]. rewrite Hc, Hz, Hfull, Z.eqb_refl, (Z.mul_comm cap 2).
    rewrite wrap_small by (unfold in_u; nia).
    destruct (alloc_root h (2 * cap * sizeof)) as [array|]; [destruct Hres as (h' & Hres & _)|];
      rewrite Hres; cbn [mbind option_bind]; [|done]. by rewrite Hfin.
Qed.

(** [push_back] of an object of the caller. *)
Lemma push_object h a vs cap v :
  rep h a vs cap ->
  if (Z.of_nat (length vs) <? cap) || bool_decide (is_Some (alloc_root h (next_capacity cap * sizeof)))
  then exists a' h', push_back a (Object v) h = Some (false, a', h') /\
    rep h' a' (vs ++ [v]) (if Z.of_nat (length vs) <? cap then cap else next_capacity cap)
  else push_back a (Object v) h = Some (true, a, h).
Proof using Hsz HL.
  intros Hr. destruct (Z.ltb_spec (Z.of_nat (length vs)) cap) as [Hlt|Hge]; cbn [orb].
  { rewrite (push_back_room _ _ _ _ _ Hr Hlt). exact (root_append_ok h a vs cap v Hr Hlt). }
  assert (Hfull : Z.of_nat (length vs) = cap) by (destruct Hr; lia).
  destruct (next_capacity_bytes _ _ _ _ Hr) as [Hn1 Hn2].
  rewrite (push_back_full _ _ _ _ _ Hr Hfull).
  pose proof (reserve_ok h a vs cap _ Hr Hn1 Hn2) as Hres.
  destruct (alloc_root h (next_capacity cap * sizeof)) as [array|].
  - destruct Hres as (h' & -> & [Hg _]). cbn [mbind option_bind deref].
    rewrite bool_decide_eq_true_2 by eauto. apply (root_append_ok h' _ vs); [done|lia].
  - rewrite Hres. rewrite bool_decide_eq_false_2 by (by intros [? ?]). done.
Qed.

(** ** Removing *)

Lemma rep_take h a vs cap k h' :
  rep h a vs cap -> (k <= length vs)%nat -> blocks h' = blocks h ->
  (forall b i, 0 <= i < Z.of_nat k -> m_array a = Some b -> objs h' !! (b, i) = objs h !! (b, i)) ->
  rep h' (mkArray (m_array a) (Z.of_nat k) (m_capacity a)) (take k vs) cap.
Proof using.
  intros [Hz Hc Hf Hs] Hk Hb Ho. split; cbn [m_size m_capacity m_array]; rewrite ?length_take; [lia|done|lia|].
  destruct Hs as [->|(b & bytes & Hab & Hbb & Hby & Hst)]; [by left|]. right. exists b, bytes.
  rewrite Hb. do 3 (split; [done|]). intros j v Hj. apply lookup_take_Some in Hj as [Hj Hjk].
  rewrite Ho by (done || lia). by apply Hst.
Qed.

Lemma rep_array h a vs cap : rep h a vs cap -> vs <> [] -> exists b, m_array a = Some b /\ stored h b 0 vs.
Proof using.
  intros [Hz Hc Hf Hs] Hne. destruct Hs as [->|(b & bytes & Hab & _ & _ & Hst)]; [|by exists b].
  destruct vs; [done|]. cbn in Hf. lia.
Qed.

Lemma stored_drop h b ix k vs : stored h b ix vs -> stored h b (ix + Z.of_nat k) (drop k vs).
Proof using.
  intros Hs j v Hj. rewrite lookup_drop in Hj. rewrite <- (Hs _ _ Hj). do 2 f_equal. lia.
Qed.

Lemma chop_ok h a vs cap k :
  rep h a vs cap -> (k < length vs)%nat ->
  exists a' h', chop trivial a (Z.of_nat k) h = Some (a', h') /\ rep h' a' (take k vs) cap.
Proof using.
  intros Hr Hk. pose proof (rep_size _ _ _ _ Hr) as Hz. unfold chop.
  destruct (Z.ltb_spec (Z.of_nat k) (m_size a)); [|lia].
  destruct (rep_array _ _ _ _ Hr) as (b & Hb & Hst); [by intros ->; cbn in Hk; lia|].
  destruct trivial eqn:Et; cbn [mbind option_bind].
  { eexists _, _. split; [reflexivity|]. apply (rep_take h); [done|lia|done|done]. }
  pose proof (stored_drop _ _ _ k _ Hst) as Hd. rewrite Z.add_0_l in Hd.
  destruct (chop_loop_ok a b (drop k vs) (Z.of_nat k) h Hb Hd) as (h' & E & Hbk & Ho).
  rewrite length_drop in E. replace (Z.to_nat (m_size a - Z.of_nat k)) with (length vs - k)%nat by lia.
  rewrite E. eexists _, _. split; [reflexivity|]. apply (rep_take h); [done|lia|done|].
  intros b' i Hi Hb'. rewrite Ho. unfold within. destruct (Z.leb_spec (Z.of_nat k) i); [lia|].
  cbn [andb]. by rewrite andb_false_r.
Qed.

Lemma root_pop_ok h a vs cap v :
  rep h a (vs ++ [v]) cap -> exists a' h', pop_back a h = Some (a', h') /\ rep h' a' vs cap.
Proof using Hsz.
  intros Hr. pose proof (rep_size _ _ _ _ Hr) as Hz. rewrite length_app in Hz. cbn in Hz.
  pose proof (rep_bytes _ _ _ _ Hr) as [_ Hcap]. pose proof (rep_fits _ _ _ _ Hr) as Hf.
  rewrite length_app in Hf. cbn in Hf.
  destruct (rep_array _ _ _ _ Hr) as (b & Hb & Hst); [by destruct vs|].
  assert (E : u64 (m_size a - 1) = Z.of_nat (length vs)) by (rewrite wrap_small; unfold in_u; nia).
  unfold RootArray.pop_back, empty, back, at_, size, address. destruct (Z.eqb_spec (m_size a) 0); [lia|].
  rewrite E, Hb. destruct (Z.ltb_spec (Z.of_nat (length vs)) (m_size a)); [|lia]. cbn [mbind option_bind].
  assert (Hl : objs h !! (b, Z.of_nat (length vs)) = Some v).
  { rewrite <- (Hst (length vs) v); [done|]. by rewrite lookup_app_r, Nat.sub_diag by lia. }
  assert (Hrep : forall h', blocks h' = blocks h ->
    (forall i, 0 <= i < Z.of_nat (length vs) -> objs h' !! (b, i) = objs h !! (b, i)) ->
    rep h' (mkArray (Some b) (Z.of_nat (length vs)) (m_capacity a)) vs cap).
  { intros h' Hbk Ho. pose proof (rep_take h a (vs ++ [v]) cap (length vs) h' Hr) as Ht.
    rewrite take_app_length, Hb in Ht. apply Ht; [rewrite length_app; lia|done|].
    intros b' i Hi [= ->]. by apply Ho. }
  destruct trivial; cbn [mbind option_bind].
  - eexists _, _. split; [reflexivity|]. by apply Hrep.
  - rewrite (destroy_ok h _ v Hl). eexists _, _. split; [reflexivity|]. apply Hrep; [done|].
    intros i Hi. cbn. rewrite lookup_delete_ne; [done|]. intros [=]; lia.
Qed.

(** ** Resizing *)

Lemma push_loop_ok v k : forall h a vs cap n,
  rep h a vs cap -> n = Z.of_nat (length vs) + Z.of_nat k -> n <= cap ->
  exists a' h', push_loop sizeof trivial (S k) a n (Object v) h = Some (a', h') /\
    rep h' a' (vs ++ replicate k v) cap.
Proof using Hsz HL.
  induction k as [|k IH]; intros h a vs cap n Hr Hn Hc; pose proof (rep_size _ _ _ _ Hr) as Hz.
  - exists a, h. cbn [push_loop replicate]. rewrite app_nil_r. destruct (Z.eqb_spec n (m_size a)); [done|lia].
  - cbn [push_loop]. destruct (Z.eqb_spec n (m_size a)); [lia|].
    assert (Hlt : Z.of_nat (length vs) < cap) by lia.
    destruct (root_append_ok h a vs cap v Hr Hlt) as (a1 & h1 & E & Hr1).
    rewrite (push_back_room _ _ _ _ _ Hr Hlt). cbn [deref mbind option_bind].
    change (m_size a) with (m_size a). rewrite E. cbn [mbind option_bind].
    destruct (IH h1 a1 (vs ++ [v]) cap n Hr1) as (a' & h' & E' & Hr'); [rewrite length_app; cbn; lia|done|].
    exists a', h'. split; [exact E'|]. by rewrite <- app_assoc in Hr'.
Qed.

Lemma pop_loop_ok k : forall h a vs cap n,
  rep h a vs cap -> Z.of_nat (length vs) = n + Z.of_nat k -> 0 <= n ->
  exists a' h', pop_loop trivial (S k) a n h = Some (a', h') /\ rep h' a' (take (Z.to_nat n) vs) cap.
Proof using Hsz.
  induction k as [|k IH]; intros h a vs cap n Hr Hn H0; pose proof (rep_size _ _ _ _ Hr) as Hz.
  - exists a, h. cbn [pop_loop]. rewrite take_ge by lia. destruct (Z.eqb_spec n (m_size a)); [done|lia].
  - cbn [pop_loop]. destruct (Z.eqb_spec n (m_size a)); [lia|].
    destruct vs as [|v vs _] using rev_ind; [cbn in Hn; lia|]. rewrite length_app in Hn. cbn in Hn.
    destruct (root_pop_ok h a vs cap v Hr) as (a1 & h1 & E & Hr1). rewrite E. cbn [mbind option_bind].
    destruct (IH h1 a1 vs cap n Hr1 ltac:(lia) H0) as (a' & h' & E' & Hr').
    exists a', h'. split; [exact E'|]. by rewrite take_app_le by lia.
Qed.

Lemma resize_shrinks h a vs cap n v :
  rep h a vs cap -> 0 <= n < Z.of_nat (length vs) ->
  exists a' h', resize sizeof trivial a n (Object v) h = Some (a', h') /\ rep h' a' (take (Z.to_nat n) vs) cap.
Proof using Hsz.
  intros Hr Hn. pose proof (rep_size _ _ _ _ Hr) as Hz. unfold resize.
  destruct (Z.eqb_spec n (m_size a)); [lia|]. destruct (Z.ltb_spec (m_size a) n); [lia|].
  destruct trivial eqn:Et; cbn [mbind option_bind].
  - eexists _, _. split; [reflexivity|]. rewrite <- (Z2Nat.id n) at 1 by lia. apply (rep_take h); [done|lia|done|done].
  - destruct (pop_loop_ok (Z.to_nat (m_size a - n)) h a vs cap n Hr) as (a' & h' & E & Hr'); [lia|lia|].
    rewrite Et in E. rewrite E. cbn [mbind option_bind]. eexists _, _. split; [reflexivity|].
    pose proof (rep_size _ _ _ _ Hr') as Hz'. rewrite length_take in Hz'.
    replace (mkArray (m_array a') n (m_capacity a')) with a'; [done|]. destruct a'; cbn in *. f_equal. lia.
Qed.

Lemma resize_grows h a vs cap n v :
  rep h a vs cap -> Z.of_nat (length vs) < n -> n * sizeof < 2 ^ 64 ->
  if (n <=? cap) || bool_decide (is_Some (alloc_root h (n * sizeof)))
  then exists a' h', resize sizeof trivial a n (Object v) h = Some (a', h') /\
    rep h' a' (vs ++ replicate (Z.to_nat n - length vs) v) (Z.max cap n)
  else resize sizeof trivial a n (Object v) h = Some (a, h).
Proof using Hsz HL.
  intros Hr Hn Hov. pose proof (rep_size _ _ _ _ Hr) as Hz. unfold resize.
  destruct (Z.eqb_spec n (m_size a)); [lia|]. destruct (Z.ltb_spec (m_size a) n); [|lia].
  assert (Hloop : forall a1 h1 cap1, rep h1 a1 vs cap1 -> n <= cap1 -> exists a' h',
    push_loop sizeof trivial (S (Z.to_nat (n - m_size a1))) a1 n (Object v) h1 = Some (a', h') /\
    rep h' a' (vs ++ replicate (Z.to_nat n - length vs) v) cap1).
  { intros a1 h1 cap1 Hr1 Hc1. pose proof (rep_size _ _ _ _ Hr1) as Hz1.
    replace (Z.to_nat (n - m_size a1)) with (Z.to_nat n - length vs)%nat by lia.
    apply push_loop_ok; [done|lia|done]. }
  destruct (Z.leb_spec n cap) as [Hle|Hgt]; cbn [orb].
  { rewrite (reserve_small _ _ _ _ _ Hr Hle). cbn [mbind option_bind negb].
    rewrite Z.max_l by lia. by apply Hloop. }
  pose proof (reserve_ok h a vs cap n Hr Hgt Hov) as Hres.
  destruct (alloc_root h (n * sizeof)) as [array|].
  - destruct Hres as (h' & -> & [Hg _]). rewrite bool_decide_eq_true_2 by eauto.
    cbn [mbind option_bind negb]. rewrite Z.max_r by lia. apply Hloop; [done|lia].
  - rewrite Hres. rewrite bool_decide_eq_false_2 by (by intros [? ?]). done.
Qed.
End Spec.
