(* ===== verification/RootArrayProps.v ===== *)
(** What [Mem_root_array] promises, and where it fails. *)
From S2P Require Import Prelude RootArray RootArraySpec.
Open Scope Z_scope.

(** * Operations on a sequence *)

Inductive cmd (T : Type) :=
| PushBack (v : T) | PopBack | Resize (n : Z) (v : T) | Chop (pos : Z) | Clear | Reserve (n : Z)
| At (n : Z) | Back | Size | Capacity | Empty.
Arguments PushBack {T}. Arguments PopBack {T}. Arguments Resize {T}. Arguments Chop {T}.
Arguments Clear {T}. Arguments Reserve {T}. Arguments At {T}. Arguments Back {T}.
Arguments Size {T}. Arguments Capacity {T}. Arguments Empty {T}.

Inductive result (T : Type) := RUnit | RBool (b : bool) | RVal (v : T) | RNum (z : Z).
Arguments RUnit {T}. Arguments RBool {T}. Arguments RVal {T}. Arguments RNum {T}.

Section Ops.
Context {T : Type} `{HM : MemRoot T} (sizeof : Z) (trivial : bool).
Implicit Types (h : heap T) (a : Mem_root_array) (vs : list T) (c : cmd T).

Definition run_cmd a c h : option (result T * Mem_root_array * heap T) :=
  match c with
  | PushBack v => '(oom, a, h) ← push_back sizeof trivial a (Object v) h; Some (RBool oom, a, h)
  | PopBack => '(a, h) ← pop_back trivial a h; Some (RUnit, a, h)
  | Resize n v => '(a, h) ← resize sizeof trivial a n (Object v) h; Some (RUnit, a, h)
  | Chop pos => '(a, h) ← chop trivial a pos h; Some (RUnit, a, h)
  | Clear => '(a, h) ← clear trivial a h; Some (RUnit, a, h)
  | Reserve n => '(oom, a, h) ← reserve sizeof trivial a n h; Some (RBool oom, a, h)
  | At n => p ← at_ a n; v ← read h p; Some (RVal v, a, h)
  | Back => p ← back a; v ← read h p; Some (RVal v, a, h)
  | Size => Some (RNum (size a), a, h)
  | Capacity => Some (RNum (capacity a), a, h)
  | Empty => Some (RBool (empty a), a, h)
  end.

(** The elements and the capacity; [grant n]: there is memory for a capacity of
    [n]; [None]: not allowed. *)
Definition astep (grant : Z -> bool) c (s : list T * Z) : option (result T * (list T * Z)) :=
  let '(vs, cap) := s in
  let len := Z.of_nat (length vs) in
  match c with
  | PushBack v =>
    Some (if len <? cap then (RBool false, (vs ++ [v], cap))
          else if grant (next_capacity cap) then (RBool false, (vs ++ [v], next_capacity cap))
          else (RBool true, s))
  | PopBack => match vs with [] => None | _ => Some (RUnit, (removelast vs, cap)) end
  | Resize n v =>
    Some (RUnit,
      if n <=? len then (take (Z.to_nat n) vs, cap)
      else if (n <=? cap) || grant n
      then (vs ++ replicate (Z.to_nat n - length vs) v, Z.max cap n) else s)
  | Chop pos => if pos <? len then Some (RUnit, (take (Z.to_nat pos) vs, cap)) else None
  | Clear => Some (RUnit, ([], cap))
  | Reserve n =>
    Some (if n <=? cap then (RBool false, s) else if grant n then (RBool false, (vs, n)) else (RBool true, s))
  | At n => v ← vs !! Z.to_nat n; Some (RVal v, s)
  | Back => v ← list.last vs; Some (RVal v, s)
  | Size => Some (RNum len, s)
  | Capacity => Some (RNum cap, s)
  | Empty => Some (RBool (len =? 0), s)
  end.

(** Sizes and indices are natural numbers, and the number of bytes asked for
    does not overflow. *)
Definition cmd_ok c : Prop :=
  match c with
  | Resize n _ | Reserve n => 0 <= n /\ n * sizeof < 2 ^ 64
  | Chop n | At n => 0 <= n
  | _ => True
  end.

Definition grants h (n : Z) : bool := bool_decide (is_Some (alloc_root h (n * sizeof))).

Context (Hsz : 0 < sizeof < 2 ^ 58) {HL : LawfulRoot}.
Abbreviation rep := (rep sizeof).

Lemma read_at h a vs cap n v :
  rep h a vs cap -> 0 <= n -> vs !! Z.to_nat n = Some v ->
  exists p, at_ a n = Some p /\ read h p = Some v.
Proof using.
  intros Hr Hn Hv. pose proof (lookup_lt_Some _ _ _ Hv) as Hlt. pose proof (rep_size _ _ _ _ _ Hr) as Hz.
  destruct (rep_array _ _ _ _ _ Hr) as (b & Hb & Hst); [by intros ->|].
  exists (b, n). unfold at_, size, address. destruct (Z.ltb_spec n (m_size a)); [|lia].
  rewrite Hb. split; [done|]. unfold read. rewrite <- (Hst _ _ Hv). do 2 f_equal. lia.
Qed.

Lemma root_cmd_ok h a vs cap c r vs' cap' :
  rep h a vs cap -> cmd_ok c -> astep (grants h) c (vs, cap) = Some (r, (vs', cap')) ->
  exists a' h', run_cmd a c h = Some (r, a', h') /\ rep h' a' vs' cap'.
Proof using Hsz HL.
  intros Hr Hok Hs. pose proof (rep_size _ _ _ _ _ Hr) as Hz. pose proof (rep_fits _ _ _ _ _ Hr) as Hf.
  pose proof (rep_bytes _ Hsz _ _ _ _ Hr) as Hby.
  unfold grants in Hs. destruct c as [v| |n v|n| |n|n| | | |]; cbn [run_cmd astep cmd_ok] in *.
  - pose proof (push_object sizeof trivial Hsz h a vs cap v Hr) as Hp.
    destruct (Z.of_nat (length vs) <? cap); cbn [orb] in Hp; [|destruct (bool_decide _)];
      injection Hs as <- <- <-; [destruct Hp as (a' & h' & -> & Hr')..|rewrite Hp]; eauto.
  - destruct vs as [|v0 vs0] eqn:Ev; [done|]. rewrite <- Ev in *. injection Hs as <- <- <-.
    destruct (exists_last (l := vs) ltac:(by rewrite Ev)) as (ws & v & ->). rewrite removelast_last.
    destruct (root_pop_ok sizeof trivial Hsz h a ws cap v Hr) as (a' & h' & -> & Hr'). eauto.
  - destruct Hok as [Hn Hov]. destruct (Z.leb_spec n (Z.of_nat (length vs))).
    + injection Hs as <- <- <-. destruct (Z.eqb_spec n (m_size a)) as [E|].
      { unfold resize. destruct (Z.eqb_spec n (m_size a)); [|done]. rewrite take_ge by lia. cbn. eauto. }
      destruct (resize_shrinks sizeof trivial Hsz h a vs cap n v Hr ltac:(lia)) as (a' & h' & -> & Hr'). cbn. eauto.
    + pose proof (resize_grows sizeof trivial Hsz h a vs cap n v Hr ltac:(lia) Hov) as Hp.
      destruct (_ || _); injection Hs as <- <- <-; [destruct Hp as (a' & h' & -> & Hr')|rewrite Hp]; cbn; eauto.
  - destruct (Z.ltb_spec n (Z.of_nat (length vs))); [|done]. injection Hs as <- <- <-.
    destruct (chop_ok sizeof trivial h a vs cap (Z.to_nat n) Hr ltac:(lia)) as (a' & h' & E & Hr').
    rewrite Z2Nat.id in E by done. rewrite E. cbn. eauto.
  - injection Hs as <- <- <-. unfold clear, empty, size.
    destruct vs as [|v vs]; [destruct (Z.eqb_spec (m_size a) 0); [cbn; eauto|cbn in Hz; lia]|].
    destruct (Z.eqb_spec (m_size a) 0); [cbn in Hz; lia|]. cbn [negb].
    destruct (chop_ok sizeof trivial h a (v :: vs) cap 0 Hr ltac:(cbn; lia)) as (a' & h' & E & Hr').
    change 0 with (Z.of_nat 0). rewrite E. cbn. eauto.
  - destruct Hok as [Hn Hov]. destruct (Z.leb_spec n cap) as [Hle|Hgt].
    { injection Hs as <- <- <-. rewrite (reserve_small sizeof trivial _ _ _ _ _ Hr Hle). cbn. eauto. }
    pose proof (reserve_ok sizeof trivial Hsz h a vs cap n Hr Hgt Hov) as Hp.
    destruct (alloc_root h (n * sizeof)) as [array|].
    + rewrite bool_decide_eq_true_2 in Hs by eauto. injection Hs as <- <- <-.
      destruct Hp as (h' & -> & [Hg _]). cbn. eauto.
    + rewrite bool_decide_eq_false_2 in Hs by (by intros [? ?]). injection Hs as <- <- <-. rewrite Hp. cbn. eauto.
  - destruct (vs !! Z.to_nat n) as [v|] eqn:Ev; [|done]. injection Hs as <- <- <-.
    destruct (read_at h a vs cap n v Hr Hok Ev) as (p & -> & E). cbn. rewrite E. cbn. eauto.
  - destruct (list.last vs) as [v|] eqn:Ev; [|done]. injection Hs as <- <- <-.
    apply last_Some in Ev as [ws ->]. rewrite length_app in *. cbn in *.
    unfold back, size. rewrite wrap_small by (unfold in_u; nia).
    destruct (read_at h a (ws ++ [v]) cap (m_size a - 1) v Hr) as (p & -> & E); [lia| |cbn; rewrite E; cbn; eauto].
    replace (Z.to_nat (m_size a - 1)) with (length ws) by lia. by rewrite lookup_app_r, Nat.sub_diag by lia.
  - injection Hs as <- <- <-. unfold size. rewrite Hz. eauto.
  - injection Hs as <- <- <-. unfold capacity. rewrite (rep_capacity _ _ _ _ _ Hr). eauto.
  - injection Hs as <- <- <-. unfold empty, size. rewrite Hz. eauto.
Qed.
End Ops.

(** ** When memory is asked for *)

(** The capacity does not shrink, and while it stays no block is added. *)
Definition asks {T} (a : Mem_root_array) (h : heap T) (a' : Mem_root_array) (h' : heap T) : Prop :=
  m_capacity a <= m_capacity a' /\ (m_capacity a' = m_capacity a -> blocks h' = blocks h).

Section Asks.
Context {T : Type} `{HM : MemRoot T} (sizeof : Z) (trivial : bool).
Implicit Types (h : heap T) (a : Mem_root_array) (c : cmd T).

Lemma asks_trans a1 h1 a2 h2 a3 h3 : asks a1 h1 a2 h2 -> asks a2 h2 a3 h3 -> asks a1 h1 a3 h3.
Proof. intros [L1 B1] [L2 B2]. split; [lia|]. intros E. rewrite B2, B1 by lia. done. Qed.
Lemma asks_same a h a' h' : m_capacity a' = m_capacity a -> blocks h' = blocks h -> asks a h a' h'.
Proof. split; [lia|done]. Qed.

Lemma construct_blocks p v h h' : construct sizeof p v h = Some h' -> blocks h' = blocks h.
Proof. unfold construct. destruct (blocks h !! p.1); [|done]. destruct (_ && _); [|done]. by intros [= <-]. Qed.
Lemma destroy_blocks p h h' : destroy p h = Some h' -> blocks h' = blocks h.
Proof. unfold destroy. destruct (objs h !! p); [|done]. by intros [= <-]. Qed.
Lemma chop_loop_blocks a k : forall ix h h', chop_loop a k ix h = Some h' -> blocks h' = blocks h.
Proof.
  induction k as [|k IH]; intros ix h h'; cbn; [by intros [= <-]|].
  destruct (address a ix) as [p|]; [|done]. cbn. destruct (destroy p h) as [h1|] eqn:E; [|done]. cbn.
  intros R. apply IH in R. by rewrite R, (destroy_blocks _ _ _ E).
Qed.

Lemma asks_reserve a n h oom a' h' : reserve sizeof trivial a n h = Some (oom, a', h') -> asks a h a' h'.
Proof.
  unfold reserve. destruct (Z.leb_spec n (m_capacity a)) as [L|L]; [intros [= <- <- <-]; by apply asks_same|].
  destruct (alloc_root _ _) as [b|]; [|intros [= <- <- <-]; by apply asks_same].
  destruct (reserve_loop _ _ _ _ _ _ _); [|done]. intros [= <- <- <-]. split; cbn; lia.
Qed.

Lemma asks_push a x h oom a' h' : push_back sizeof trivial a x h = Some (oom, a', h') -> asks a h a' h'.
Proof.
  unfold push_back. destruct (if 0 =? m_capacity a then _ else _) as [[[o1 a1] h1]|] eqn:E1; [|done]. cbn.
  assert (A1 : asks a h a1 h1).
  { destruct (0 =? m_capacity a); [by eapply asks_reserve|]. injection E1 as <- <- <-. by apply asks_same. }
  destruct o1; [by intros [= <- <- <-]|].
  destruct (if m_size a1 =? m_capacity a1 then _ else _) as [[[o2 a2] h2]|] eqn:E2; [|done]. cbn.
  assert (A2 : asks a1 h1 a2 h2).
  { destruct (m_size a1 =? m_capacity a1); [by eapply asks_reserve|]. injection E2 as <- <- <-. by apply asks_same. }
  pose proof (asks_trans _ _ _ _ _ _ A1 A2) as A. destruct o2; [by intros [= <- <- <-]|].
  destruct (address a2 _) as [p|]; [|done]. cbn. destruct (deref x h2) as [v|]; [|done]. cbn.
  destruct (construct _ _ _ _) as [h3|] eqn:E3; [|done]. cbn. intros [= <- <- <-].
  eapply asks_trans; [exact A|]. apply asks_same; [done|]. by eapply construct_blocks.
Qed.

Lemma asks_pop a h a' h' : pop_back trivial a h = Some (a', h') -> asks a h a' h'.
Proof.
  unfold pop_back. destruct (empty a); [done|]. destruct trivial; cbn; [intros [= <- <-]; by apply asks_same|].
  destruct (back a) as [p|]; [|done]. cbn. destruct (destroy p h) eqn:E; [|done]. cbn. intros [= <- <-].
  apply asks_same; [done|]. by eapply destroy_blocks.
Qed.

Lemma asks_push_loop fuel n x : forall a h a' h', push_loop sizeof trivial fuel a n x h = Some (a', h') -> asks a h a' h'.
Proof.
  induction fuel as [|fuel IH]; intros a h a' h'; cbn [push_loop]; [done|].
  destruct (n =? m_size a); [intros [= <- <-]; by apply asks_same|].
  destruct (push_back _ _ _ _ _) as [[[o a1] h1]|] eqn:E; [|done]. cbn. intros R.
  eapply asks_trans; [by eapply asks_push|by apply IH].
Qed.
Lemma asks_pop_loop fuel n : forall a h a' h', pop_loop trivial fuel a n h = Some (a', h') -> asks a h a' h'.
Proof.
  induction fuel as [|fuel IH]; intros a h a' h'; cbn [pop_loop]; [done|].
  destruct (n =? m_size a); [intros [= <- <-]; by apply asks_same|].
  destruct (pop_back _ _ _) as [[a1 h1]|] eqn:E; [|done]. cbn. intros R.
  eapply asks_trans; [by eapply asks_pop|by apply IH].
Qed.
Lemma asks_chop a pos h a' h' : chop trivial a pos h = Some (a', h') -> asks a h a' h'.
Proof.
  unfold chop. destruct (pos <? m_size a); [|done]. destruct trivial; cbn; [intros [= <- <-]; by apply asks_same|].
  destruct (chop_loop _ _ _ _) eqn:E; [|done]. cbn. intros [= <- <-]. apply asks_same; [done|]. by eapply chop_loop_blocks.
Qed.

Lemma asks_resize a n x h a' h' : resize sizeof trivial a n x h = Some (a', h') -> asks a h a' h'.
Proof.
  unfold resize. destruct (n =? m_size a); [intros [= <- <-]; by apply asks_same|].
  destruct (m_size a <? n).
  - destruct (reserve _ _ _ _ _) as [[[o a1] h1]|] eqn:E; [|done]. cbn [mbind option_bind]. apply asks_reserve in E.
    destruct o; cbn [negb]; [by intros [= <- <-]|]. intros R. eapply asks_trans; [exact E|by eapply asks_push_loop].
  - destruct (if trivial then _ else _) as [[a1 h1]|] eqn:E; [|done]. cbn. intros [= <- <-].
    assert (A : asks a h a1 h1).
    { revert E. case_eq trivial; intros Et E; [injection E as <- <-; by apply asks_same|].
      eapply asks_pop_loop. rewrite Et. exact E. }
    eapply asks_trans; [exact A|by apply asks_same].
Qed.

Lemma asks_cmd a c h r a' h' : run_cmd sizeof trivial a c h = Some (r, a', h') -> asks a h a' h'.
Proof.
  destruct c; cbn [run_cmd]; intros E;
    repeat match goal with H : (_ ≫= _) = Some _ |- _ => apply bind_Some in H as (? & ? & ?) end;
    repeat match goal with p : (_ * _)%type |- _ => destruct p end; simplify_eq/=;
    try (by apply asks_same); eauto using asks_push, asks_pop, asks_resize, asks_chop, asks_reserve.
  unfold clear in *. destruct (negb (empty a)); [by eapply asks_chop|]. simplify_eq. by apply asks_same.
Qed.
End Asks.

(** * Properties *)

(** C25: Every operation of Mem_root_array implements the operation on a sequence
    of elements with a capacity, provided that the number of bytes asked for, the
    capacity times the size of an element, fits in 64 bits and that the argument
    of push_back and resize is not an element of the array (for these two see
    root_array_reserve_overflow and root_array_push_own_element): an array starts
    empty, and from any array that holds a sequence, push_back, pop_back, resize,
    chop, clear, reserve, at, back, size, capacity and empty are defined where the
    operation on the sequence is, return the same and leave the resulting
    sequence.  No block is asked for while the capacity stays the same; push_back
    grows a full array to 20 elements at first, then to twice as many.  When the
    memory root has no memory the array is unchanged: push_back and reserve return
    true, resize reports nothing. *)
Theorem root_array_refines_sequence {T} `{HM : MemRoot T, !LawfulRoot} (sizeof : Z) (trivial : bool)
    (h : heap T) (a : Mem_root_array) (vs : list T) (cap : Z) (c : cmd T) (r : result T)
    (vs' : list T) (cap' : Z) :
  0 < sizeof < 2 ^ 58 ->
  rep sizeof h Mem_root_array_new [] 0 /\
  (rep sizeof h a vs cap -> cmd_ok sizeof c ->
   astep (grants sizeof h) c (vs, cap) = Some (r, (vs', cap')) ->
   exists a' h', run_cmd sizeof trivial a c h = Some (r, a', h') /\ rep sizeof h' a' vs' cap' /\
     (cap' = cap -> blocks h' = blocks h)).
Proof.
  intros Hsz. split.
  - split; [done|done|cbn; lia|by left].
  - intros Hr Hok Hs. destruct (root_cmd_ok sizeof trivial Hsz h a vs cap c r vs' cap' Hr Hok Hs) as (a' & h' & E & Hr').
    exists a', h'. split; [done|]. split; [done|]. intros Ec. apply (asks_cmd _ _ _ _ _ _ _ _ E).
    by rewrite (rep_capacity _ _ _ _ _ Hr), (rep_capacity _ _ _ _ _ Hr').
Qed.

(** A memory root that numbers its blocks and has 1000 bytes for each. *)
Definition demo_root : @MemRoot Z := fun h n =>
  if n <? 1000 then Some (fresh (dom (blocks h))) else None.

#[local] Instance demo_root_lawful : @LawfulRoot Z demo_root.
Proof.
  split; intros h n b; unfold alloc_root, demo_root; destruct (Z.ltb_spec n 1000) as [Hn|Hn]; intros [= <-].
  - apply not_elem_of_dom, is_fresh.
  - lia.
Qed.

Definition demo_heap : heap Z := mkHeap ∅ ∅.

Lemma root_array_refines_witness :
  exists a' h', @run_cmd Z demo_root 8 false Mem_root_array_new (Resize 3 7) demo_heap = Some (RUnit, a', h') /\
    rep 8 h' a' [7; 7; 7] 3 /\ (3 = 0 -> blocks h' = blocks demo_heap).
Proof.
  destruct (@root_array_refines_sequence Z demo_root demo_root_lawful 8 false demo_heap Mem_root_array_new [] 0
    (Resize 3 7) RUnit [7; 7; 7] 3 ltac:(lia)) as [H1 H2].
  exact (H2 H1 ltac:(cbn; lia) ltac:(vm_compute; reflexivity)).
Defined.

(** ** Overflow *)

(** [push_back] of each of [vs]. *)
Fixpoint push_all {T} `{MemRoot T} (sizeof : Z) (trivial : bool) (a : Mem_root_array) (vs : list T) (h : heap T) :
    option (Mem_root_array * heap T) :=
  match vs with
  | [] => Some (a, h)
  | v :: vs =>
    '(_, a, h) ← push_back sizeof trivial a (Object v) h;
    push_all sizeof trivial a vs h
  end.

(** Pushing into a block of [bytes] bytes while the capacity says [cap]. *)
Lemma push_into {T} `{MemRoot T} sizeof trivial (h : heap T) b k cap bytes v :
  blocks h !! b = Some bytes -> 0 <= k < cap -> cap < 2 ^ 64 ->
  push_back sizeof trivial (mkArray (Some b) k cap) (Object v) h =
    if (k + 1) * sizeof <=? bytes
    then Some (false, mkArray (Some b) (k + 1) cap, mkHeap (<[(b, k) := v]> (objs h)) (blocks h)) else None.
Proof.
  intros Hb Hk Hcap. unfold push_back. cbn [m_capacity m_size m_array].
  destruct (Z.eqb_spec 0 cap); [lia|]. cbn [mbind option_bind m_capacity m_size].
  destruct (Z.eqb_spec k cap); [lia|]. cbn [mbind option_bind address m_array m_size m_capacity deref].
  unfold construct. cbn [fst snd]. rewrite Hb, wrap_small by (unfold in_u; lia).
  destruct (Z.leb_spec 0 k); [|lia]. cbn [andb]. by destruct ((k + 1) * sizeof <=? bytes).
Qed.

Lemma push_all_into {T} `{MemRoot T} sizeof trivial b cap bytes (vs : list T) : forall h k,
  blocks h !! b = Some bytes -> 0 <= k -> k + Z.of_nat (length vs) <= cap -> cap < 2 ^ 64 -> 0 < sizeof ->
  (k + Z.of_nat (length vs)) * sizeof <= bytes ->
  exists h', push_all sizeof trivial (mkArray (Some b) k cap) vs h =
    Some (mkArray (Some b) (k + Z.of_nat (length vs)) cap, h') /\ blocks h' = blocks h.
Proof.
  induction vs as [|v vs IH]; intros h k Hb Hk Hc Hcap Hsz Hf; cbn [push_all length] in *.
  - exists h. by rewrite Z.add_0_r.
  - rewrite (push_into sizeof trivial h b k cap bytes v Hb) by lia.
    destruct (Z.leb_spec ((k + 1) * sizeof) bytes); [|nia]. cbn [mbind option_bind].
    destruct (IH (mkHeap (<[(b, k) := v]> (objs h)) (blocks h)) (k + 1)) as (h' & E & Hb'); [done|lia..| |].
    { replace (k + 1 + Z.of_nat (length vs)) with (k + Z.of_nat (S (length vs))) by lia. done. }
    exists h'. rewrite E. split; [do 3 f_equal; lia|done].
Qed.

(** When the number of bytes for the requested capacity does not fit in 64
    bits, reserve asks for the truncated number: it reports success and a
    capacity of which the block holds only a part.  The array then accepts as
    many elements as the block really holds, and the next push_back, far below
    the capacity, writes outside the block. *)
Theorem root_array_reserve_overflow {T} `{HM : MemRoot T} (sizeof : Z) (trivial : bool)
    (h : heap T) (n : Z) (b : nat) (vs : list T) (v : T) :
  0 < sizeof -> 0 < n < 2 ^ 64 -> 2 ^ 64 <= n * sizeof ->
  alloc_root h (u64 (n * sizeof)) = Some b ->
  Z.of_nat (length vs) = u64 (n * sizeof) / sizeof ->
  exists a h' a'' h'', reserve sizeof trivial Mem_root_array_new n h = Some (false, a, h') /\
    capacity a = n /\ push_all sizeof trivial a vs h' = Some (a'', h'') /\
    size a'' = Z.of_nat (length vs) /\ Z.of_nat (length vs) < n /\
    push_back sizeof trivial a'' (Object v) h'' = None.
Proof.
  intros Hsz Hn Hov Ha Hk. set (bytes := u64 (n * sizeof)) in *.
  assert (Hb : 0 <= bytes < 2 ^ 64) by (unfold bytes, wrap; apply Z.mod_pos_bound; lia).
  assert (Hmod : bytes = sizeof * (bytes / sizeof) + bytes mod sizeof) by (apply Z.div_mod; lia).
  assert (Hrem : 0 <= bytes mod sizeof < sizeof) by (apply Z.mod_pos_bound; lia).
  rewrite <- Hk in Hmod. assert (Hlt : Z.of_nat (length vs) < n) by nia.
  set (h1 := mkHeap (objs h) (<[b := bytes]> (blocks h))).
  assert (Hb1 : blocks h1 !! b = Some bytes) by apply lookup_insert_eq.
  destruct (push_all_into sizeof trivial b n bytes vs h1 0 Hb1) as (h2 & E & Hb2); [lia..|].
  exists (mkArray (Some b) 0 n), h1, (mkArray (Some b) (Z.of_nat (length vs)) n), h2.
  split.
  { unfold reserve, element_size. cbn [m_capacity Mem_root_array_new]. fold bytes.
    destruct (Z.leb_spec n 0); [lia|]. by rewrite Ha. }
  split; [done|]. split; [done|]. split; [done|]. split; [done|].
  rewrite (push_into sizeof trivial h2 b _ n bytes v) by (lia || by rewrite Hb2).
  destruct (Z.leb_spec ((Z.of_nat (length vs) + 1) * sizeof) bytes); [nia|done].
Qed.

Lemma root_array_overflow_witness :
  exists a h' a'' h'', @reserve Z demo_root 8 true Mem_root_array_new (2 ^ 61 + 2) demo_heap = Some (false, a, h') /\
    capacity a = 2 ^ 61 + 2 /\ @push_all Z demo_root 8 true a [1; 2] h' = Some (a'', h'') /\
    size a'' = 2 /\ 2 < 2 ^ 61 + 2 /\ @push_back Z demo_root 8 true a'' (Object 3) h'' = None.
Proof.
  exact (@root_array_reserve_overflow Z demo_root 8 true demo_heap (2 ^ 61 + 2) _ [1; 2] 3
    ltac:(lia) ltac:(lia) ltac:(lia) ltac:(vm_compute; reflexivity) ltac:(vm_compute; reflexivity)).
Defined.

(** ** Aliasing *)

(** push_back of an element of the same array: with space left, or when
    elements have a trivial destructor, it appends a copy of that element; but
    when the array is full and grows, elements with a destructor have been
    destroyed in the old block before the argument, which refers to it, is
    copied: undefined. *)
Theorem root_array_push_own_element {T} `{HM : MemRoot T, !LawfulRoot} (sizeof : Z) (trivial : bool)
    (h : heap T) (a : Mem_root_array) (vs : list T) (cap : Z) (b i : nat) (v : T) :
  0 < sizeof < 2 ^ 58 -> rep sizeof h a vs cap -> m_array a = Some b -> vs !! i = Some v ->
  let push := push_back sizeof trivial a (Element (b, Z.of_nat i)) h in
  if Z.of_nat (length vs) <? cap then
    exists a' h', push = Some (false, a', h') /\ rep sizeof h' a' (vs ++ [v]) cap
  else if negb (grants sizeof h (next_capacity cap)) then push = Some (true, a, h)
  else if trivial then
    exists a' h', push = Some (false, a', h') /\ rep sizeof h' a' (vs ++ [v]) (next_capacity cap)
  else push = None.
Proof.
  intros Hsz Hr Hb Hi push. unfold push.
  assert (Hv : objs h !! (b, Z.of_nat i) = Some v).
  { destruct (rep_array _ _ _ _ _ Hr) as (b' & Hb' & Hst); [by intros ->|]. assert (b' = b) as -> by congruence.
    exact (Hst i v Hi). }
  destruct (Z.ltb_spec (Z.of_nat (length vs)) cap) as [Hlt|Hge].
  { rewrite (push_back_room _ _ _ _ _ _ _ Hr Hlt). cbn [deref]. unfold read. rewrite Hv.
    exact (root_append_ok sizeof Hsz h a vs cap v Hr Hlt). }
  assert (Hfull : Z.of_nat (length vs) = cap) by (destruct Hr; lia).
  destruct (next_capacity_bytes sizeof Hsz _ _ _ _ Hr) as [Hn1 Hn2].
  rewrite (push_back_full sizeof trivial Hsz _ _ _ _ _ Hr Hfull).
  pose proof (reserve_ok sizeof trivial Hsz h a vs cap _ Hr Hn1 Hn2) as Hres. unfold grants.
  destruct (alloc_root h (next_capacity cap * sizeof)) as [array|].
  - rewrite bool_decide_eq_true_2 by eauto. destruct Hres as (h' & -> & [Hg Hold]).
    cbn [negb mbind option_bind deref]. unfold read. rewrite (Hold b i v Hb Hi), Hv.
    destruct trivial; [|done]. cbn [mbind option_bind]. apply (root_append_ok sizeof Hsz h' _ vs); [done|lia].
  - rewrite bool_decide_eq_false_2 by (by intros [? ?]). by rewrite Hres.
Qed.

(** A full array of two elements. *)
Definition full_heap : heap Z := mkHeap (<[(0%nat, 0) := 4]> (<[(0%nat, 1) := 5]> ∅)) {[0%nat := 16]}.

Lemma root_array_push_own_witness :
  @push_back Z demo_root 8 false (mkArray (Some 0%nat) 2 2) (Element (0%nat, 1)) full_heap = None.
Proof.
  assert (Hr : rep 8 full_heap (mkArray (Some 0%nat) 2 2) [4; 5] 2).
  { split; [done|done|cbn; lia|]. right. exists 0%nat, 16. do 2 (split; [done|]). split; [lia|].
    intros [|[|j]] v [= <-]; reflexivity. }
  exact (@root_array_push_own_element Z demo_root demo_root_lawful 8 false full_heap (mkArray (Some 0%nat) 2 2)
    [4; 5] 2 0 1 5 ltac:(lia) Hr eq_refl eq_refl).
Defined.
