(* ===== verification/ArrayViews.v ===== *)
(** span.h, [st_::span], and sql_array.h, [Bounds_checked_array]: views of
    arrays that they do not own.

    Addresses and sizes are 64-bit numbers, elements have [sizeof] bytes; the
    memory gives the element at an address, if there is one.  A failed
    assertion is undefined ([None]). *)
From S2P Require Import Prelude.
Open Scope Z_scope.

(** [p + n] for a pointer to elements *)
Definition advance (sizeof p n : Z) : Z := u64 (p + n * sizeof).

(** * [span] *)

Module span.
Record span := mkSpan { data_ : Z; size_ : Z }.

Section Code.
Context {T : Type} (sizeof : Z) (m : Z -> option T).

Definition span_new : span := mkSpan 0 0.
Definition span_count (ptr count : Z) : span := mkSpan ptr count.
(** The difference of two pointers counts elements. *)
Definition span_range (first last : Z) : span := mkSpan first (u64 (Z.quot (last - first) sizeof)).
Definition span_array (arr : Z) (N : Z) : span := mkSpan arr N.
(** A container is given by what its data() and size() return. *)
Definition span_container (cont_data cont_size : Z) : span := mkSpan cont_data cont_size.
Definition span_copy (other : span) : span := mkSpan (data_ other) (size_ other).

Definition size (s : span) : Z := size_ s.
Definition data (s : span) : Z := data_ s.
Definition assign (s other : span) : span := mkSpan (data other) (size other).
Definition empty (s : span) : bool := size s =? 0.
Definition size_bytes (s : span) : Z := u64 (size s * sizeof).

Definition first_t (Count : Z) (s : span) : option span :=
  if empty s then None else Some (span_count (data s) 1).
Definition last_t (Count : Z) (s : span) : option span :=
  if empty s then None
  else Some (span_count (advance sizeof (advance sizeof (data s) (size s)) (-1)) 1).
Definition first (count : Z) (s : span) : option span :=
  if empty s then None else Some (span_count (data s) 1).
Definition last (count : Z) (s : span) : option span :=
  if empty s then None
  else Some (span_count (advance sizeof (advance sizeof (data s) (size s)) (-1)) 1).

Definition subspan (offset count : Z) (s : span) : option span :=
  if empty s then None
  else if size s >=? u64 (offset + count)
  then Some (span_count (advance sizeof (data s) offset) count) else None.

Definition subscript (s : span) (idx : Z) : option T :=
  if size s >? idx then m (advance sizeof (data s) idx) else None.
Definition front (s : span) : option T :=
  if empty s then None else m (advance sizeof (data s) 0).
Definition back (s : span) : option T :=
  if empty s then None else m (advance sizeof (data s) (u64 (size s - 1))).

Definition begin (s : span) : Z := data_ s.
Definition end_ (s : span) : Z := advance sizeof (data_ s) (size_ s).
(** A [std::reverse_iterator] holds the pointer after its element. *)
Definition rbegin (s : span) : Z := end_ s.
Definition rend (s : span) : Z := begin s.
End Code.
End span.

(** * [Bounds_checked_array] *)

Module Bounds_checked_array.
Record Bounds_checked_array := mkArray { m_array : Z; m_size : Z }.

Section Code.
Context {T : Type} (sizeof : Z) (m : Z -> option T).

Definition array_default : Bounds_checked_array := mkArray 0 0.
Definition array_new (el size_arg : Z) : Bounds_checked_array := mkArray el size_arg.
Definition reset : Bounds_checked_array := mkArray 0 0.
Definition reset_to (array_arg size_arg : Z) : Bounds_checked_array := mkArray array_arg size_arg.

Definition resize (new_size : Z) (a : Bounds_checked_array) : option Bounds_checked_array :=
  if new_size <=? m_size a then Some (mkArray (m_array a) new_size) else None.

Definition subscript (a : Bounds_checked_array) (n : Z) : option T :=
  if n <? m_size a then m (advance sizeof (m_array a) n) else None.

Definition element_size : Z := sizeof.
Definition size (a : Bounds_checked_array) : Z := m_size a.
Definition is_null (a : Bounds_checked_array) : bool := m_array a =? 0.

Definition pop_front (a : Bounds_checked_array) : option Bounds_checked_array :=
  if m_size a >? 0 then Some (mkArray (advance sizeof (m_array a) 1) (u64 (m_size a - 1))) else None.

Definition array (a : Bounds_checked_array) : Z := m_array a.
Definition begin (a : Bounds_checked_array) : Z := array a.
Definition end_ (a : Bounds_checked_array) : Z := advance sizeof (array a) (m_size a).

Definition eqb (a rhs : Bounds_checked_array) : bool :=
  (m_array a =? m_array rhs) && (m_size a =? m_size rhs).
Definition neqb (a rhs : Bounds_checked_array) : bool :=
  negb (m_array a =? m_array rhs) || negb (m_size a =? m_size rhs).
End Code.
End Bounds_checked_array.

(** * Views *)

Section Views.
Context {T : Type} (sizeof : Z) (Hsz : 0 < sizeof) (m : Z -> option T).

(** The elements [vs] are at [p], inside the address space. *)
Record view (p : Z) (vs : list T) : Prop := {
  view_low : 0 <= p;
  view_high : p + Z.of_nat (length vs) * sizeof < 2 ^ 63;
  view_at : forall i v, vs !! i = Some v -> m (p + Z.of_nat i * sizeof) = Some v }.

Definition is_view (p n : Z) (vs : list T) : Prop := n = Z.of_nat (length vs) /\ view p vs.

Lemma advance_small p n : 0 <= p + n * sizeof < 2 ^ 64 -> advance sizeof p n = p + n * sizeof.
Proof using. intros H. by apply wrap_small. Qed.

Lemma view_slice p vs k n :
  view p vs -> (k + n <= length vs)%nat -> view (p + Z.of_nat k * sizeof) (take n (drop k vs)).
Proof using Hsz.
  intros [Hl Hh Ha] Hk. assert (Hlen : length (take n (drop k vs)) = n) by (rewrite length_take, length_drop; lia).
  pose proof (Z.mul_le_mono_nonneg_r (Z.of_nat (k + n)) (Z.of_nat (length vs)) sizeof ltac:(lia) ltac:(lia)).
  pose proof (Z.mul_nonneg_nonneg (Z.of_nat k) sizeof). split; [lia|rewrite Hlen; lia|].
  intros i v Hi. apply lookup_take_Some in Hi as [Hi _]. rewrite lookup_drop in Hi.
  rewrite <- (Ha _ _ Hi). f_equal. lia.
Qed.

Lemma view_advance p vs k :
  view p vs -> (k <= length vs)%nat -> advance sizeof p (Z.of_nat k) = p + Z.of_nat k * sizeof.
Proof using Hsz.
  intros [Hl Hh _] Hk. apply advance_small.
  pose proof (Z.mul_le_mono_nonneg_r (Z.of_nat k) (Z.of_nat (length vs)) sizeof ltac:(lia) ltac:(lia)).
  pose proof (Z.mul_nonneg_nonneg (Z.of_nat k) sizeof). lia.
Qed.

Lemma view_read p vs i :
  view p vs -> 0 <= i < Z.of_nat (length vs) -> m (advance sizeof p i) = vs !! Z.to_nat i.
Proof using Hsz.
  intros Hv Hi. destruct (lookup_lt_is_Some_2 vs (Z.to_nat i)) as [v Ev]; [lia|].
  rewrite Ev, <- (view_at _ _ Hv _ _ Ev), <- (view_advance p vs (Z.to_nat i) Hv) by lia. do 2 f_equal. lia.
Qed.

Lemma view_size p vs : view p vs -> Z.of_nat (length vs) < 2 ^ 63.
Proof using Hsz.
  intros [Hl Hh _]. pose proof (Z.mul_le_mono_nonneg_l 1 sizeof (Z.of_nat (length vs))). lia.
Qed.

Lemma view_last p vs : view p vs -> vs <> [] ->
  advance sizeof (advance sizeof p (Z.of_nat (length vs))) (-1) = p + Z.of_nat (length vs - 1) * sizeof /\
  view (p + Z.of_nat (length vs - 1) * sizeof) (drop (length vs - 1) vs).
Proof using Hsz.
  intros Hv Hne. assert (Hlen : (0 < length vs)%nat) by (destruct vs; [done|cbn; lia]).
  pose proof (view_slice p vs (length vs - 1) 1 Hv ltac:(lia)) as Hs.
  rewrite take_ge in Hs by (rewrite length_drop; lia). split; [|done].
  rewrite (view_advance p vs _ Hv) by lia. destruct Hs as [Hl _ _].
  pose proof (view_high _ _ Hv) as Hh.
  replace (Z.of_nat (length vs - 1)) with (Z.of_nat (length vs) - 1) in * by lia.
  rewrite advance_small by lia. lia.
Qed.

Lemma subspan_wraps p k : 0 < k -> k * sizeof <= p -> p < 2 ^ 63 ->
  advance sizeof p (2 ^ 64 - k) = p - k * sizeof.
Proof using Hsz.
  intros Hk Hp Hh. unfold advance, wrap.
  replace (p + (2 ^ 64 - k) * sizeof) with (p - k * sizeof + sizeof * 2 ^ 64) by ring.
  rewrite Z_mod_plus_full. apply Z.mod_small. pose proof (Z.mul_pos_pos k sizeof). lia.
Qed.
End Views.

(** * Properties *)

(** On a span of a sequence, subscripting reads exactly the elements of the
    sequence and nothing outside it, front and back are its ends, and subspan
    is the slice of the sequence whenever offset + count does not exceed the
    size.  But the bound is tested after a 64-bit addition, so an offset of
    2^64 - k with a count of k or more passes it and gives a span that starts
    k elements before the data; and first and last return one element,
    whatever count they are asked for. *)
Theorem span_views {T} (sizeof : Z) (m : Z -> option T) (s : span.span) (vs : list T)
    (offset count k : Z) :
  0 < sizeof -> is_view sizeof m (span.data_ s) (span.size_ s) vs -> vs <> [] ->
  0 <= offset -> 0 <= count -> 0 < k <= count -> count - k <= span.size_ s ->
  k * sizeof <= span.data_ s -> count < 2 ^ 64 ->
  (forall i, 0 <= i -> span.subscript sizeof m s i = vs !! Z.to_nat i) /\
  span.front sizeof m s = head vs /\ span.back sizeof m s = list.last vs /\
  (offset + count <= span.size_ s ->
   exists t, span.subspan sizeof offset count s = Some t /\
     is_view sizeof m (span.data_ t) (span.size_ t) (take (Z.to_nat count) (drop (Z.to_nat offset) vs))) /\
  span.subspan sizeof (2 ^ 64 - k) count s =
    Some (span.span_count (span.data_ s - k * sizeof) count) /\
  (exists t, span.first count s = Some t /\ is_view sizeof m (span.data_ t) (span.size_ t) (take 1 vs)) /\
  (exists t, span.last sizeof count s = Some t /\
     is_view sizeof m (span.data_ t) (span.size_ t) (drop (length vs - 1) vs)).
Proof.
  intros Hsz [Hn Hv] Hne Ho Hc Hk Hck Hkp Hcc. destruct s as [p n]. cbn [span.data_ span.size_] in *. subst n.
  assert (Hlen : (0 < length vs)%nat) by (destruct vs; [done|cbn; lia]).
  pose proof (view_size sizeof Hsz m p vs Hv) as Hsize.
  assert (Hempty : span.empty (span.mkSpan p (Z.of_nat (length vs))) = false) by (apply Z.eqb_neq; cbn; lia).
  assert (Hread := fun i => view_read sizeof Hsz m p vs i Hv).
  unfold span.front, span.back, span.subspan, span.first, span.last, span.subscript, span.size, span.data.
  rewrite Hempty. cbn [span.data_ span.size_ span.span_count]. split; [|split; [|split; [|split; [|split; [|split]]]]].
  - intros i Hi. rewrite Z.gtb_ltb. destruct (Z.ltb_spec i (Z.of_nat (length vs))); [by apply Hread|].
    symmetry. apply lookup_ge_None. lia.
  - rewrite Hread by lia. by destruct vs.
  - rewrite wrap_small by (unfold in_u; lia). rewrite Hread by lia. rewrite last_lookup. f_equal. lia.
  - intros Hle. rewrite wrap_small by (unfold in_u; lia). rewrite Z.geb_leb.
    destruct (Z.leb_spec (offset + count) (Z.of_nat (length vs))); [|lia]. eexists. split; [reflexivity|].
    cbn [span.data_ span.size_ span.span_count]. split; [rewrite length_take, length_drop; lia|].
    rewrite <- (Z2Nat.id offset) by lia. rewrite (view_advance sizeof Hsz m p vs) by (done || lia).
    rewrite Nat2Z.id. apply view_slice; [done|done|lia].
  - replace (u64 (2 ^ 64 - k + count)) with (count - k).
    2: { unfold wrap. replace (2 ^ 64 - k + count) with (count - k + 1 * 2 ^ 64) by ring.
         rewrite Z_mod_plus_full, Z.mod_small; lia. }
    rewrite Z.geb_leb. destruct (Z.leb_spec (count - k) (Z.of_nat (length vs))); [|lia].
    rewrite (subspan_wraps sizeof Hsz p k); [done|lia|done|]. pose proof (view_high _ _ _ _ Hv).
    pose proof (Z.mul_nonneg_nonneg (Z.of_nat (length vs)) sizeof). lia.
  - eexists. split; [reflexivity|]. cbn [span.data_ span.size_ span.span_count]. split; [by rewrite length_take_le by lia|].
    pose proof (view_slice sizeof Hsz m p vs 0 1 Hv ltac:(lia)) as Hs. by rewrite Z.mul_0_l, Z.add_0_r in Hs.
  - destruct (view_last sizeof Hsz m p vs Hv Hne) as [E Hl]. eexists. split; [reflexivity|].
    cbn [span.data_ span.size_ span.span_count]. split; [rewrite length_drop; lia|]. by rewrite E.
Qed.

Definition demo_memory (a : Z) : option Z := if (100 <=? a) && (a <? 112) then Some a else None.

Lemma span_views_witness :
  span.subscript 4 demo_memory (span.mkSpan 100 3) 2 = Some 108 /\
  span.subspan 4 (2 ^ 64 - 1) 2 (span.mkSpan 100 3) = Some (span.mkSpan 96 2).
Proof.
  destruct (span_views 4 demo_memory (span.mkSpan 100 3) [100; 104; 108] 1 2 1) as (H1 & _ & _ & _ & H2 & _);
    [lia| |discriminate|cbn; lia..|].
  - split; [reflexivity|]. split; [cbn; lia|cbn; lia|].
    intros [|[|[|i]]] v [= <-]; reflexivity.
  - split; [exact (H1 2 ltac:(lia))|exact H2].
Defined.

(** Walking a checked array with pop_front: the sizes shrink to zero and the
    first element at each step runs through the sequence; a subscript below the
    size reads the sequence, any other is refused; and resize keeps a prefix. *)
Lemma bounds_checked_array_views {T} (sizeof : Z) (m : Z -> option T)
    (a : Bounds_checked_array.Bounds_checked_array) (v : T) (vs : list T) (n : Z) :
  0 < sizeof ->
  is_view sizeof m (Bounds_checked_array.m_array a) (Bounds_checked_array.m_size a) (v :: vs) ->
  0 <= n <= Bounds_checked_array.m_size a ->
  Bounds_checked_array.subscript sizeof m a 0 = Some v /\
  (exists a', Bounds_checked_array.pop_front sizeof a = Some a' /\
     is_view sizeof m (Bounds_checked_array.m_array a') (Bounds_checked_array.m_size a') vs) /\
  (exists a', Bounds_checked_array.resize n a = Some a' /\
     is_view sizeof m (Bounds_checked_array.m_array a') (Bounds_checked_array.m_size a') (take (Z.to_nat n) (v :: vs))).
Proof.
  intros Hsz [Hn Hv] Hr. destruct a as [p k]. cbn [Bounds_checked_array.m_array Bounds_checked_array.m_size] in *. subst k.
  pose proof (view_size sizeof Hsz m p _ Hv) as Hsize. cbn [length] in *. split; [|split].
  - unfold Bounds_checked_array.subscript. cbn [Bounds_checked_array.m_array Bounds_checked_array.m_size].
    destruct (Z.ltb_spec 0 (Z.of_nat (S (length vs)))); [|lia].
    by rewrite (view_read sizeof Hsz m p (v :: vs) 0 Hv) by (cbn; lia).
  - unfold Bounds_checked_array.pop_front. cbn [Bounds_checked_array.m_array Bounds_checked_array.m_size].
    rewrite Z.gtb_ltb. destruct (Z.ltb_spec 0 (Z.of_nat (S (length vs)))); [|lia]. eexists. split; [reflexivity|].
    cbn [Bounds_checked_array.m_array Bounds_checked_array.m_size].
    split; [rewrite wrap_small; unfold in_u; lia|].
    pose proof (view_advance sizeof Hsz m p (v :: vs) 1 Hv ltac:(cbn; lia)) as E.
    change (Z.of_nat 1) with 1 in E. rewrite E.
    pose proof (view_slice sizeof Hsz m p (v :: vs) 1 (length vs) Hv ltac:(cbn; lia)) as Hs.
    change (drop 1 (v :: vs)) with vs in Hs. change (Z.of_nat 1) with 1 in Hs.
    by rewrite take_ge in Hs by lia.
  - unfold Bounds_checked_array.resize. cbn [Bounds_checked_array.m_array Bounds_checked_array.m_size].
    destruct (Z.leb_spec n (Z.of_nat (S (length vs)))); [|lia]. eexists. split; [reflexivity|].
    cbn [Bounds_checked_array.m_array Bounds_checked_array.m_size]. split; [rewrite length_take; cbn; lia|].
    pose proof (view_slice sizeof Hsz m p (v :: vs) 0 (Z.to_nat n) Hv ltac:(cbn; lia)) as Hs.
    by rewrite Z.mul_0_l, Z.add_0_r in Hs.
Qed.
