(* ===== verification/FilesortBuffer.v ===== *)
(** filesort_utils.h: [Filesort_buffer], the memory in which filesort() collects
    records: records grow from the left, pointers to them from the right.

    Addresses are 64-bit numbers.  The memory [m] holds the record pointers, by
    the address of the cell; the bytes of the records are written by the
    callers. *)
From S2P Require Import Prelude.
Open Scope Z_scope.

Record Filesort_buffer := mkFilesort {
  m_next_rec_ptr : Z;
  m_rawmem : Z;
  m_record_pointers : Z;
  m_sort_keys : Z;
  m_num_records : Z;      (* uint *)
  m_record_length : Z;    (* uint *)
  m_sort_length : Z;      (* uint *)
  m_size_in_bytes : Z;    (* size_t *)
  m_idx : Z }.            (* longlong *)

Definition with_batch (next keys idx : Z) (b : Filesort_buffer) : Filesort_buffer :=
  mkFilesort next (m_rawmem b) (m_record_pointers b) keys (m_num_records b) (m_record_length b)
    (m_sort_length b) (m_size_in_bytes b) idx.

Definition sizeof_ptr : Z := 8.

(** [&p[i]], reading and writing [p[i]] for an array of pointers *)
Definition cell (p i : Z) : Z := u64 (p + i * sizeof_ptr).
Definition store_ptr (a v : Z) (m : Z -> Z) : Z -> Z := fun x => if x =? a then v else m x.

Definition Filesort_buffer_new : Filesort_buffer := mkFilesort 0 0 0 0 0 0 0 0 0.

Definition get_sort_keys (b : Filesort_buffer) : Z :=
  if m_idx b =? 0 then 0 else cell (m_record_pointers b) (1 - m_idx b).

(** The loop of [reverse_record_pointers]: [k] rounds from [ix] on. *)
Fixpoint reverse_loop (keys count : Z) (k : nat) (ix : Z) (m : Z -> Z) : Z -> Z :=
  match k with
  | O => m
  | S k =>
    let tmp := m (cell keys (count - ix)) in
    let m := store_ptr (cell keys (count - ix)) (m (cell keys ix)) m in
    let m := store_ptr (cell keys ix) tmp m in
    reverse_loop keys count k (ix + 1) m
  end.

Definition reverse_record_pointers (b : Filesort_buffer) (m : Z -> Z) : Z -> Z :=
  if m_idx b <? 2 then m
  else
    let keys := get_sort_keys b in
    let count := m_idx b - 1 in
    reverse_loop keys count (Z.to_nat (Z.quot count 2 + 1)) 0 m.

Definition init_next_record_pointer (b : Filesort_buffer) : Filesort_buffer :=
  with_batch (m_rawmem b) 0 0 b.

Definition space_used_for_data (b : Filesort_buffer) : Z :=
  if truth (m_next_rec_ptr b) then u64 (m_next_rec_ptr b - m_rawmem b) else 0.

Definition spaceleft (b : Filesort_buffer) : option Z :=
  if m_next_rec_ptr b >=? m_rawmem b then
    let spaceused := u64 (m_next_rec_ptr b - m_rawmem b + u64 (m_idx b) * sizeof_ptr) in
    Some (u64 (m_size_in_bytes b - spaceused))
  else None.

Definition isfull (b : Filesort_buffer) : option bool :=
  if m_idx b <? m_num_records b then Some false
  else left ← spaceleft b; Some (left <? u64 (m_record_length b + sizeof_ptr)).

Definition get_next_record_pointer (b : Filesort_buffer) (m : Z -> Z) :
    Z * Filesort_buffer * (Z -> Z) :=
  let retval := m_next_rec_ptr b in
  let m := store_ptr (cell (m_record_pointers b) (- m_idx b)) (m_next_rec_ptr b) m in
  (retval, with_batch (u64 (m_next_rec_ptr b + m_record_length b)) (m_sort_keys b) (m_idx b + 1) b, m).

(** The difference of two [uint] is a [uint]. *)
Definition adjust_next_record_pointer (val : Z) (b : Filesort_buffer) : Filesort_buffer :=
  with_batch (u64 (m_next_rec_ptr b - u32 (m_record_length b - val))) (m_sort_keys b) (m_idx b) b.

(** The loop of [init_record_pointers], with a bound on the rounds. *)
Fixpoint init_loop (fuel : nat) (b : Filesort_buffer) (m : Z -> Z) : option (Filesort_buffer * (Z -> Z)) :=
  match fuel with
  | O => None
  | S fuel =>
    if m_idx b <? m_num_records b then
      let '(_, b, m) := get_next_record_pointer b m in init_loop fuel b m
    else Some (b, m)
  end.

Definition init_record_pointers (fuel : nat) (b : Filesort_buffer) (m : Z -> Z) :
    option (Filesort_buffer * (Z -> Z)) :=
  '(b, m) ← init_loop fuel (init_next_record_pointer b) m;
  Some (b, reverse_record_pointers b m).

Definition sort_buffer_size (b : Filesort_buffer) : Z := m_size_in_bytes b.
Definition is_allocated (b : Filesort_buffer) : bool := truth (m_rawmem b).

Definition reset (b : Filesort_buffer) : Filesort_buffer :=
  mkFilesort (m_next_rec_ptr b) 0 (m_record_pointers b) (m_sort_keys b) (m_num_records b)
    (m_record_length b) (m_sort_length b) (m_size_in_bytes b) (m_idx b).

Definition get_sorted_record (b : Filesort_buffer) (m : Z -> Z) (ix : Z) : Z := m (cell (m_sort_keys b) ix).

(** A [Bounds_checked_array]: the address and the size. *)
Definition get_raw_buf (b : Filesort_buffer) : Z * Z := (m_rawmem b, m_size_in_bytes b).

Definition get_sort_length (b : Filesort_buffer) : Z := m_sort_length b.
Definition set_sort_length (val : Z) (b : Filesort_buffer) : Filesort_buffer :=
  mkFilesort (m_next_rec_ptr b) (m_rawmem b) (m_record_pointers b) (m_sort_keys b) (m_num_records b)
    (m_record_length b) val (m_size_in_bytes b) (m_idx b).
