(* ===== verification/FilesortSpec.v ===== *)
(** Correctness of [Filesort_buffer]: records and pointers never meet, and the
    pointers can be read as an array. *)
From S2P Require Import Prelude FilesortBuffer.
Open Scope Z_scope.

(** What [alloc_sort_buffer] sets up, by the comments of the class: room for
    [m_num_records] records with their pointers, and the pointer to the first
    record at the very end. *)
Record layout (b : Filesort_buffer) : Prop := {
  lay_raw : 0 < m_rawmem b;
  lay_end : m_rawmem b + m_size_in_bytes b < 2 ^ 63;
  lay_pointers : m_record_pointers b = m_rawmem b + m_size_in_bytes b - 8;
  lay_length : in_u 32 (m_record_length b);
  lay_records : in_u 32 (m_num_records b);
  lay_size : m_num_records b * (m_record_length b + 8) <= m_size_in_bytes b }.

(** The cell of the pointer to record [i]. *)
Definition slot (b : Filesort_buffer) (i : Z) : Z := m_rawmem b + m_size_in_bytes b - 8 * (i + 1).

(** The records [ps] have been inserted. *)
Record batch (b : Filesort_buffer) (m : Z -> Z) (ps : list Z) : Prop := {
  bat_layout : layout b;
  bat_idx : m_idx b = Z.of_nat (length ps);
  bat_pointers : forall i p, ps !! i = Some p -> m (slot b (Z.of_nat i)) = p;
  bat_start : m_rawmem b <= m_next_rec_ptr b;
  bat_packed : m_next_rec_ptr b - m_rawmem b <= m_idx b * m_record_length b;
  bat_room : m_next_rec_ptr b + 8 * m_idx b <= m_rawmem b + m_size_in_bytes b }.

Lemma cell_slot b i : layout b -> 0 <= slot b i -> -1 <= i -> cell (m_record_pointers b) (- i) = slot b i.
Proof.
  intros [? ? Hp ? ? ?] Hs Hi. unfold cell, sizeof_ptr, slot in *. rewrite Hp, wrap_small by (unfold in_u; lia). lia.
Qed.

Lemma isfull_eq b m ps :
  batch b m ps ->
  isfull b = Some ((m_num_records b <=? m_idx b) &&
    (m_rawmem b + m_size_in_bytes b - 8 * m_idx b - m_next_rec_ptr b <? m_record_length b + 8)).
Proof.
  intros [[? ? ? Hl Hn ?] Hi _ Hs _ Hr]. unfold in_u in *. unfold isfull, spaceleft.
  destruct (Z.ltb_spec (m_idx b) (m_num_records b)), (Z.leb_spec (m_num_records b) (m_idx b)); try lia; [done|].
  rewrite Z.geb_leb. destruct (Z.leb_spec (m_rawmem b) (m_next_rec_ptr b)); [|lia]. cbn [mbind option_bind andb].
  unfold sizeof_ptr. rewrite (wrap_small 64 (m_idx b)) by (unfold in_u; lia).
  rewrite (wrap_small 64 (m_next_rec_ptr b - _ + _)) by (unfold in_u; lia).
  rewrite !wrap_small by (unfold in_u; lia). do 2 f_equal. lia.
Qed.

(** Insert a record and shrink it to its actual length [v]. *)
Lemma insert_record b m ps v :
  batch b m ps -> isfull b = Some false -> 0 <= v <= m_record_length b ->
  let '(p, b1, m1) := get_next_record_pointer b m in
  let b2 := adjust_next_record_pointer v b1 in
  p = m_next_rec_ptr b /\ batch b2 m1 (ps ++ [p]) /\ m_next_rec_ptr b2 = p + v /\
  p + m_record_length b <= slot b (Z.of_nat (length ps)) /\
  (forall q, q < slot b (Z.of_nat (length ps)) -> m1 q = m q).
Proof.
  intros Hb Hf Hv. rewrite (isfull_eq b m ps Hb) in Hf. injection Hf as Hf.
  pose proof Hb as [Hlay Hi Hp Hs Hpk Hr]. pose proof Hlay as [? ? ? Hl Hn Hsz]. unfold in_u in *.
  assert (Hroom : m_next_rec_ptr b + m_record_length b <= slot b (Z.of_nat (length ps))).
  { unfold slot. rewrite <- Hi. apply andb_false_iff in Hf as [Hf|Hf]; [|lia].
    pose proof (Z.mul_le_mono_nonneg_r (m_idx b + 1) (m_num_records b) (m_record_length b + 8)). lia. }
  assert (Hcell : cell (m_record_pointers b) (- m_idx b) = slot b (Z.of_nat (length ps))).
  { rewrite Hi. apply cell_slot; [done| |lia]. lia. }
  cbn [get_next_record_pointer]. unfold adjust_next_record_pointer.
  cbn [with_batch m_next_rec_ptr m_record_length m_idx m_rawmem m_size_in_bytes].
  assert (E1 : u64 (m_next_rec_ptr b + m_record_length b) = m_next_rec_ptr b + m_record_length b).
  { apply wrap_small. unfold in_u, slot in *. lia. }
  assert (E2 : u64 (m_next_rec_ptr b + m_record_length b - u32 (m_record_length b - v)) = m_next_rec_ptr b + v).
  { rewrite (wrap_small 32) by (unfold in_u; lia). rewrite wrap_small; unfold in_u, slot in *; lia. }
  rewrite E1, E2, Hcell. split; [done|]. split; [|split; [done|split; [done|]]].
  - split; cbn [with_batch m_next_rec_ptr m_record_length m_idx m_rawmem m_size_in_bytes].
    + by destruct Hlay.
    + rewrite length_app. cbn. lia.
    + intros i p Hip. change (slot _ (Z.of_nat i)) with (slot b (Z.of_nat i)). unfold store_ptr.
      destruct (decide (i = length ps)) as [->|Hne].
      * rewrite lookup_app_r, Nat.sub_diag in Hip by lia. injection Hip as <-. by rewrite Z.eqb_refl.
      * rewrite lookup_app_l in Hip by (apply lookup_lt_Some in Hip; rewrite length_app in Hip; cbn in Hip; lia).
        destruct (Z.eqb_spec (slot b (Z.of_nat i)) (slot b (Z.of_nat (length ps)))); [unfold slot in *; lia|].
        by apply Hp.
    + lia.
    + lia.
    + unfold slot in Hroom. lia.
  - intros q Hq. unfold store_ptr. destruct (Z.eqb_spec q (slot b (Z.of_nat (length ps)))); [lia|done].
Qed.

(** * Filling the buffer *)

(** The callers' loop: records of actual lengths [vals] until the buffer is
    full; the positions they got. *)
Fixpoint fill (vals : list Z) (b : Filesort_buffer) (m : Z -> Z) : option (list Z * Filesort_buffer * (Z -> Z)) :=
  match vals with
  | [] => Some ([], b, m)
  | v :: vals =>
    full ← isfull b;
    if (full : bool) then Some ([], b, m) else
    let '(p, b, m) := get_next_record_pointer b m in
    '(ps, b, m) ← fill vals (adjust_next_record_pointer v b) m;
    Some (p :: ps, b, m)
  end.

(** Where records of these lengths are without gaps. *)
Fixpoint positions (p : Z) (vals : list Z) : list Z :=
  match vals with [] => [] | v :: vals => p :: positions (p + v) vals end.

Lemma length_record_positions p vals : length (positions p vals) = length vals.
Proof. revert p. induction vals as [|v vals IH]; intros p; cbn; [done|]. by rewrite IH. Qed.

Lemma positions_replicate p k v j : (j < k)%nat ->
  positions p (replicate k v) !! j = Some (p + Z.of_nat j * v).
Proof.
  revert p j. induction k as [|k IH]; intros p [|j] Hj; cbn; try lia.
  - f_equal. lia.
  - rewrite IH by lia. f_equal. lia.
Qed.

Lemma init_batch b m : layout b -> batch (init_next_record_pointer b) m [].
Proof.
  intros [? ? ? ? ? ?]. unfold in_u in *. split; cbn; [done|done|by intros|lia|lia|].
  pose proof (Z.mul_nonneg_nonneg (m_num_records b) (m_record_length b + 8)). lia.
Qed.

Definition same_buffer (b b' : Filesort_buffer) : Prop :=
  m_rawmem b' = m_rawmem b /\ m_record_pointers b' = m_record_pointers b /\
  m_size_in_bytes b' = m_size_in_bytes b /\ m_record_length b' = m_record_length b /\
  m_num_records b' = m_num_records b.

Lemma fill_ok vals : forall b m ps,
  batch b m ps -> Forall (fun v => 0 <= v <= m_record_length b) vals ->
  exists qs b' m', fill vals b m = Some (qs, b', m') /\ batch b' m' (ps ++ qs) /\ same_buffer b b' /\
    qs = take (length qs) (positions (m_next_rec_ptr b) vals) /\ (length qs <= length vals)%nat /\
    ((length qs < length vals)%nat -> isfull b' = Some true) /\
    (forall i q, qs !! i = Some q -> m_rawmem b <= q /\ q + m_record_length b <= slot b (Z.of_nat (length ps + i))).
Proof.
  induction vals as [|v vals IH]; intros b m ps Hb Hv; cbn [fill positions].
  - exists [], b, m. rewrite app_nil_r. do 3 (split; [done|]). split; [done|]. split; [cbn; lia|].
    split; [cbn; lia|]. by intros i q.
  - pose proof (Forall_inv Hv) as Hv1. pose proof (Forall_inv_tail Hv) as Hv2.
    rewrite (isfull_eq b m ps Hb). cbn [mbind option_bind]. destruct (_ && _) eqn:Ef.
    { exists [], b, m. rewrite app_nil_r. do 3 (split; [done|]). split; [done|]. split; [cbn; lia|].
      split; [|by intros i q]. intros _. by rewrite (isfull_eq b m ps Hb), Ef. }
    assert (Hf : isfull b = Some false) by (by rewrite (isfull_eq b m ps Hb), Ef).
    pose proof (insert_record b m ps v Hb Hf Hv1) as Hins.
    destruct (get_next_record_pointer b m) as [[p b1] m1] eqn:Eg.
    destruct Hins as (-> & Hb2 & Hnext & Hroom & _).
    set (b2 := adjust_next_record_pointer v b1) in *.
    assert (Hsame : same_buffer b b2) by (unfold b2; injection Eg as <- _; by repeat split).
    pose proof Hsame as (S1 & S2 & S3 & S4 & S5).
    destruct (IH b2 m1 (ps ++ [m_next_rec_ptr b]) Hb2) as (qs & b' & m' & E & Hb' & Hs' & Hq & Hle & Hfull & Hin).
    { by rewrite S4. }
    exists (m_next_rec_ptr b :: qs), b', m'. rewrite E. split; [done|].
    rewrite <- app_assoc in Hb'. split; [done|].
    destruct Hs' as (T1 & T2 & T3 & T4 & T5). split; [repeat split; congruence|].
    split; [cbn [length take]; rewrite <- Hnext; by f_equal|]. split; [cbn; lia|].
    split; [cbn; intros; apply Hfull; lia|].
    intros [|i] q Hq'; cbn in Hq'.
    + injection Hq' as <-. rewrite Nat.add_0_r. split; [apply Hb|done].
    + specialize (Hin i q Hq'). rewrite S1, S4 in Hin. unfold slot in *. rewrite S1, S3 in Hin.
      rewrite length_app in Hin. cbn in Hin. split; [lia|].
      replace (length ps + S i)%nat with (length ps + 1 + i)%nat by lia. lia.
Qed.

(** * Reading the pointers *)

Lemma slot_nonneg b m ps i :
  batch b m ps -> i < Z.of_nat (length ps) -> 0 < slot b i.
Proof. intros [[? ? ? ? ? ?] Hi _ Hs _ Hr] Hlt. unfold slot. lia. Qed.

(** The pointers, from the last record to the first. *)
Lemma sort_keys_cell b m ps j :
  batch b m ps -> 0 <= j < Z.of_nat (length ps) ->
  cell (get_sort_keys b) j = slot b (Z.of_nat (length ps) - 1 - j).
Proof.
  intros Hb Hj. pose proof (slot_nonneg b m ps (Z.of_nat (length ps) - 1) Hb ltac:(lia)) as Hk.
  pose proof (bat_layout _ _ _ Hb) as Hlay. pose proof (bat_idx _ _ _ Hb) as Hi. unfold get_sort_keys.
  destruct (Z.eqb_spec (m_idx b) 0); [lia|].
  replace (1 - m_idx b) with (- (Z.of_nat (length ps) - 1)) by lia. rewrite cell_slot by (done || lia).
  unfold cell, sizeof_ptr. destruct Hlay. unfold slot in *. rewrite wrap_small by (unfold in_u; lia). lia.
Qed.

Lemma sort_keys_read b m ps j p :
  batch b m ps -> ps !! j = Some p ->
  m (cell (get_sort_keys b) (Z.of_nat (length ps) - 1 - Z.of_nat j)) = p.
Proof.
  intros Hb Hj. pose proof (lookup_lt_Some _ _ _ Hj) as Hlt.
  rewrite (sort_keys_cell b m ps) by (done || lia). rewrite <- (bat_pointers _ _ _ Hb j p Hj). f_equal. f_equal. lia.
Qed.

(** Swapping from both ends. *)
Lemma reverse_loop_ok keys count k : forall ix m,
  (forall i j, 0 <= i <= count -> 0 <= j <= count -> cell keys i = cell keys j -> i = j) ->
  0 <= ix -> 2 * (ix + Z.of_nat k - 1) <= count ->
  forall j, 0 <= j <= count ->
  reverse_loop keys count k ix m (cell keys j) =
    if ((ix <=? j) && (j <? ix + Z.of_nat k)) || ((ix <=? count - j) && (count - j <? ix + Z.of_nat k))
    then m (cell keys (count - j)) else m (cell keys j).
Proof.
  induction k as [|k IH]; intros ix m Hinj Hix Hk j Hj; cbn [reverse_loop].
  - destruct (Z.leb_spec ix j), (Z.ltb_spec j (ix + Z.of_nat 0)), (Z.leb_spec ix (count - j)),
      (Z.ltb_spec (count - j) (ix + Z.of_nat 0)); cbn; lia || done.
  - assert (Heq : forall i, 0 <= i <= count -> forall l, 0 <= l <= count -> (cell keys i =? cell keys l) = (i =? l)).
    { intros i Hi l Hl. destruct (Z.eqb_spec i l) as [->|Hne]; [apply Z.eqb_refl|].
      apply Z.eqb_neq. intros E. by apply Hne, Hinj. }
    rewrite IH by (done || lia). unfold store_ptr. rewrite !Heq by lia.
    destruct (Z.leb_spec (ix + 1) j), (Z.ltb_spec j (ix + 1 + Z.of_nat k)), (Z.leb_spec (ix + 1) (count - j)),
      (Z.ltb_spec (count - j) (ix + 1 + Z.of_nat k)), (Z.leb_spec ix j), (Z.ltb_spec j (ix + Z.of_nat (S k))),
      (Z.leb_spec ix (count - j)), (Z.ltb_spec (count - j) (ix + Z.of_nat (S k))); cbn [andb orb]; try lia;
    destruct (Z.eqb_spec (count - j) ix), (Z.eqb_spec (count - j) (count - ix)), (Z.eqb_spec j ix),
      (Z.eqb_spec j (count - ix)); try lia; try reflexivity; f_equal; f_equal; lia.
Qed.

Lemma reverse_pointers_ok b m ps j p :
  batch b m ps -> ps !! j = Some p ->
  reverse_record_pointers b m (cell (get_sort_keys b) (Z.of_nat j)) = p.
Proof.
  intros Hb Hj. pose proof (lookup_lt_Some _ _ _ Hj) as Hlt. pose proof (bat_idx _ _ _ Hb) as Hi.
  pose proof (sort_keys_read b m ps j p Hb Hj) as Hr. unfold reverse_record_pointers.
  destruct (Z.ltb_spec (m_idx b) 2).
  { rewrite <- Hr. f_equal. f_equal. lia. }
  rewrite Z.quot_div_nonneg by lia. pose proof (Z.div_mod (m_idx b - 1) 2). pose proof (Z.mod_pos_bound (m_idx b - 1) 2).
  rewrite reverse_loop_ok; [|..|lia].
  - rewrite <- Hr. destruct (Z.leb_spec 0 (Z.of_nat j)); [|lia]. destruct (Z.leb_spec 0 (m_idx b - 1 - Z.of_nat j)); [|lia].
    destruct (Z.ltb_spec (Z.of_nat j) (0 + Z.of_nat (Z.to_nat ((m_idx b - 1) / 2 + 1)))),
      (Z.ltb_spec (m_idx b - 1 - Z.of_nat j) (0 + Z.of_nat (Z.to_nat ((m_idx b - 1) / 2 + 1)))); cbn [andb orb];
      lia || (f_equal; f_equal; lia).
  - intros x y Hx Hy. rewrite !(sort_keys_cell b m ps) by (done || lia). unfold slot. lia.
  - lia.
  - lia.
Qed.

Lemma init_loop_ok k : forall fuel b m ps,
  batch b m ps -> Z.of_nat k = m_num_records b - m_idx b -> (k < fuel)%nat ->
  exists b' m', init_loop fuel b m = Some (b', m') /\ same_buffer b b' /\
    batch b' m' (ps ++ positions (m_next_rec_ptr b) (replicate k (m_record_length b))).
Proof.
  induction k as [|k IH]; intros fuel b m ps Hb Hk Hf; (destruct fuel as [|fuel]; [lia|]); cbn [init_loop].
  - exists b, m. destruct (Z.ltb_spec (m_idx b) (m_num_records b)); [lia|]. cbn. by rewrite app_nil_r.
  - destruct (Z.ltb_spec (m_idx b) (m_num_records b)) as [Hlt|]; [|lia].
    pose proof (lay_length _ (bat_layout _ _ _ Hb)) as Hl. unfold in_u in Hl.
    assert (Hnf : isfull b = Some false) by (unfold isfull; destruct (Z.ltb_spec (m_idx b) (m_num_records b)); [done|lia]).
    pose proof (insert_record b m ps (m_record_length b) Hb Hnf ltac:(lia)) as Hins.
    destruct (get_next_record_pointer b m) as [[p b1] m1] eqn:Eg. destruct Hins as (-> & Hb1 & Hn & _ & _).
    assert (E : adjust_next_record_pointer (m_record_length b) b1 = b1).
    { injection Eg as <- _. unfold adjust_next_record_pointer. cbn -[wrap]. rewrite Z.sub_diag.
      change (u32 0) with 0. by rewrite Z.sub_0_r, wrap_wrap. }
    rewrite E in *. assert (Hs : same_buffer b b1) by (injection Eg as <- _; by repeat split).
    assert (Hidx : m_idx b1 = m_idx b + 1) by (by injection Eg as <- _).
    pose proof Hs as (S1 & S2 & S3 & S4 & S5).
    destruct (IH fuel b1 m1 (ps ++ [m_next_rec_ptr b]) Hb1) as (b' & m' & E' & Hs' & Hb'); [lia|lia|].
    exists b', m'. split; [done|]. destruct Hs' as (T1 & T2 & T3 & T4 & T5).
    split; [repeat split; congruence|]. rewrite S4, Hn, <- app_assoc in Hb'. done.
Qed.

(** * Properties *)

(** C39: Records of any lengths up to the maximum, inserted until the buffer is
    full: every record is given room for the maximum length that lies inside
    the buffer and before the pointer cells in use; the records follow each
    other without gaps; at least as many fit as were asked for at allocation,
    and the buffer only refuses a record when the space left cannot hold one of
    maximum length and its pointer; and the array of sort keys holds the
    pointers from the last record to the first. *)
Theorem filesort_buffer_batch (b : Filesort_buffer) (m : Z -> Z) (vals : list Z) :
  layout b -> Forall (fun v => 0 <= v <= m_record_length b) vals ->
  exists ps b' m', fill vals (init_next_record_pointer b) m = Some (ps, b', m') /\
    ps = take (length ps) (positions (m_rawmem b) vals) /\
    (forall i p, ps !! i = Some p ->
       m_rawmem b <= p /\ p + m_record_length b <= slot b (Z.of_nat i) /\
       m' (cell (get_sort_keys b') (Z.of_nat (length ps) - 1 - Z.of_nat i)) = p) /\
    ((length ps < length vals)%nat ->
       m_num_records b <= Z.of_nat (length ps) /\
       exists left, spaceleft b' = Some left /\ left < m_record_length b + 8).
Proof.
  intros Hlay Hv. pose proof (init_batch b m Hlay) as Hb.
  destruct (fill_ok vals _ m [] Hb Hv) as (ps & b' & m' & E & Hb' & Hs & Hps & _ & Hfull & Hin).
  exists ps, b', m'. split; [done|]. split; [done|]. split.
  - intros i p Hi. destruct (Hin i p Hi) as [H1 H2]. split; [done|]. split; [done|].
    by apply (sort_keys_read b' m' ps).
  - intros Hlt. specialize (Hfull Hlt). destruct Hs as (T1 & T2 & T3 & T4 & T5). cbn in T4, T5.
    pose proof (bat_idx _ _ _ Hb') as Hi. cbn in Hi. unfold isfull in Hfull.
    destruct (Z.ltb_spec (m_idx b') (m_num_records b')); [done|]. split; [lia|].
    destruct (spaceleft b') as [left|]; [|done]. exists left. split; [done|].
    injection Hfull as Hfull. unfold sizeof_ptr in Hfull.
    rewrite wrap_small in Hfull by (pose proof (lay_length _ Hlay); unfold in_u in *; lia). lia.
Qed.

(** [init_record_pointers] ends and makes the sort keys an array of the
    records in order: key j points to the j-th slot of maximum length; and
    [reverse_record_pointers] turns the pointers of any batch from
    last-to-first into first-to-last. *)
Theorem filesort_record_pointers (b : Filesort_buffer) (m : Z -> Z) (fuel : nat) :
  layout b -> (Z.to_nat (m_num_records b) < fuel)%nat ->
  (exists b' m', init_record_pointers fuel b m = Some (b', m') /\ m_idx b' = m_num_records b /\
     forall j, 0 <= j < m_num_records b ->
       m' (cell (get_sort_keys b') j) = m_rawmem b + j * m_record_length b) /\
  (forall ps j p, batch b m ps -> ps !! j = Some p ->
     m (cell (get_sort_keys b) (Z.of_nat (length ps) - 1 - Z.of_nat j)) = p /\
     reverse_record_pointers b m (cell (get_sort_keys b) (Z.of_nat j)) = p).
Proof.
  intros Hlay Hf. split.
  - pose proof (init_batch b m Hlay) as Hb. pose proof (lay_records _ Hlay) as Hn. unfold in_u in Hn.
    destruct (init_loop_ok (Z.to_nat (m_num_records b)) fuel _ m [] Hb ltac:(cbn; lia) Hf) as (b' & m' & E & Hs & Hb').
    exists b', (reverse_record_pointers b' m'). unfold init_record_pointers. rewrite E. split; [done|].
    cbn in Hb'. pose proof (bat_idx _ _ _ Hb') as Hi. rewrite length_record_positions, length_replicate in Hi.
    split; [lia|]. intros j Hj. rewrite <- (Z2Nat.id j) at 1 by lia.
    apply (reverse_pointers_ok b' m' _ _ _ Hb'). rewrite positions_replicate by lia. by rewrite Z2Nat.id by lia.
  - intros ps j p Hb Hj. split; [by apply sort_keys_read|by apply (reverse_pointers_ok b m ps)].
Qed.

(** A buffer of 96 bytes at address 1000 for four records of up to 16 bytes. *)
Definition demo_filesort : Filesort_buffer := mkFilesort 1000 1000 1088 0 4 16 8 96 0.

Lemma demo_layout : layout demo_filesort.
Proof. split; cbn; unfold in_u; lia. Qed.

(** Seven short records fit. *)
Lemma filesort_batch_witness :
  exists ps b' m', fill [4; 4; 4; 4; 4; 4; 4; 4] (init_next_record_pointer demo_filesort) (fun _ => 0) =
    Some (ps, b', m') /\ ps = [1000; 1004; 1008; 1012; 1016; 1020; 1024].
Proof.
  destruct (filesort_buffer_batch demo_filesort (fun _ => 0) [4; 4; 4; 4; 4; 4; 4; 4] demo_layout
    ltac:(repeat constructor; cbn; discriminate)) as (ps & b' & m' & E & _).
  exists ps, b', m'. split; [exact E|]. apply (f_equal (fmap (fun r => r.1.1))) in E.
  vm_compute in E. injection E as <-. reflexivity.
Defined.

Lemma filesort_pointers_witness :
  exists b' m', init_record_pointers 5 demo_filesort (fun _ => 0) = Some (b', m') /\
    m' (cell (get_sort_keys b') 3) = 1048.
Proof.
  destruct (filesort_record_pointers demo_filesort (fun _ => 0) 5 demo_layout ltac:(cbn; lia)) as [(b' & m' & E & _ & H) _].
  exists b', m'. split; [exact E|exact (H 3 ltac:(cbn; lia))].
Defined.
