(* ===== verification/SqlLimit.v ===== *)
(** sql_limit.h: the counters of LIMIT and OFFSET, and their use by
    [select_result_sink::send_data_with_check] (sql_class.h).

    [ha_rows] is an unsigned 64-bit number; [HA_POS_ERROR], its largest value,
    stands for "no limit". *)
From S2P Require Import Prelude.
Open Scope Z_scope.

Definition HA_POS_ERROR : Z := u64 (Z.lnot 0).

Record Select_limit_counters := mkCounters {
  select_limit_cnt : Z;
  offset_limit_cnt : Z;
  with_ties : bool }.

Definition Select_limit_counters_new : Select_limit_counters := mkCounters 0 0 false.

Definition Select_limit_counters_copy (orig : Select_limit_counters) : Select_limit_counters :=
  mkCounters (select_limit_cnt orig) (offset_limit_cnt orig) (with_ties orig).

Definition set_limit (limit offset : Z) (with_ties_arg : bool) (c : Select_limit_counters) :
    Select_limit_counters :=
  let offset := if limit =? 0 then 0 else offset in
  let offset_limit_cnt := offset in
  let select_limit_cnt := limit in
  let select_limit_cnt :=
    if u64 (select_limit_cnt + offset_limit_cnt) >=? select_limit_cnt
    then u64 (select_limit_cnt + offset_limit_cnt)
    else HA_POS_ERROR in
  mkCounters select_limit_cnt offset_limit_cnt with_ties_arg.

Definition set_single_row (c : Select_limit_counters) : Select_limit_counters :=
  mkCounters 1 0 false.

Definition send_first_row (c : Select_limit_counters) : Select_limit_counters :=
  let select_limit_cnt := u64 (offset_limit_cnt c + 1) in
  let select_limit_cnt :=
    if select_limit_cnt =? 0 then offset_limit_cnt c else select_limit_cnt in
  mkCounters select_limit_cnt (offset_limit_cnt c) (with_ties c).

Definition is_unlimited (c : Select_limit_counters) : bool := select_limit_cnt c =? HA_POS_ERROR.

Definition set_unlimited (c : Select_limit_counters) : Select_limit_counters :=
  mkCounters HA_POS_ERROR (offset_limit_cnt c) (with_ties c).

Definition clear (c : Select_limit_counters) : Select_limit_counters :=
  mkCounters HA_POS_ERROR 0 false.

Definition check_offset (c : Select_limit_counters) (sent : Z) : bool := sent <? offset_limit_cnt c.

Definition remove_offset (c : Select_limit_counters) : Select_limit_counters :=
  mkCounters (select_limit_cnt c) 0 (with_ties c).

Definition get_select_limit (c : Select_limit_counters) : Z := select_limit_cnt c.
Definition get_offset_limit (c : Select_limit_counters) : Z := offset_limit_cnt c.
Definition is_with_ties (c : Select_limit_counters) : bool := with_ties c.

(** [send_data_with_check] of a result sink: the rows passed to [send_data] are
    collected; a row below the offset, or any row of a query that is being
    aborted, is skipped and counts as sent without error. *)
Definition send_data_with_check {Row} (send_data : Row -> Z) (killed : bool)
    (lim : Select_limit_counters) (items : Row) (sent : Z) : Z * list Row :=
  if check_offset lim sent then (0, [])
  else if killed then (0, [])
  else (send_data items, [items]).

(** Row number [sent], from 0, is neither below the offset nor at or above the
    limit. *)
Definition in_window (c : Select_limit_counters) (sent : Z) : Prop :=
  check_offset c sent = false /\ sent < get_select_limit c.

(** * Reachable counters *)

Inductive step : Select_limit_counters -> Select_limit_counters -> Prop :=
| step_set_limit c limit offset ties :
    in_u 64 limit -> in_u 64 offset -> step c (set_limit limit offset ties c)
| step_set_single_row c : step c (set_single_row c)
| step_send_first_row c : step c (send_first_row c)
| step_set_unlimited c : step c (set_unlimited c)
| step_clear c : step c (clear c)
| step_remove_offset c : step c (remove_offset c)
| step_copy c : step c (Select_limit_counters_copy c).

Inductive reachable : Select_limit_counters -> Prop :=
| reachable_new : reachable Select_limit_counters_new
| reachable_step c c' : reachable c -> step c c' -> reachable c'.

(** The offset never exceeds the limit, and both are [ha_rows]. *)
Record counters_ok (c : Select_limit_counters) : Prop := {
  ok_limit : in_u 64 (select_limit_cnt c);
  ok_offset : in_u 64 (offset_limit_cnt c);
  ok_order : offset_limit_cnt c <= select_limit_cnt c }.

Lemma HA_POS_ERROR_eq : HA_POS_ERROR = 2 ^ 64 - 1.
Proof. reflexivity. Qed.

(** The two outcomes of [set_limit]. *)
Lemma set_limit_eq limit offset ties c :
  in_u 64 limit -> in_u 64 offset ->
  let o := if limit =? 0 then 0 else offset in
  set_limit limit offset ties c =
    mkCounters (if limit + o <? 2 ^ 64 then limit + o else HA_POS_ERROR) o ties.
Proof.
  intros Hl Ho o. unfold in_u in *. unfold set_limit. fold o. f_equal.
  assert (0 <= o < 2 ^ 64) by (unfold o; destruct (limit =? 0); lia).
  destruct (Z.ltb_spec (limit + o) (2 ^ 64)).
  - rewrite wrap_small by (unfold in_u; lia). rewrite Z.geb_leb.
    destruct (Z.leb_spec limit (limit + o)); lia.
  - assert (E : u64 (limit + o) = limit + o - 2 ^ 64).
    { unfold wrap. rewrite <- (Z_mod_plus_full _ (-1)), Z.mod_small; lia. }
    rewrite E, Z.geb_leb. destruct (Z.leb_spec limit (limit + o - 2 ^ 64)); lia.
Qed.

Lemma send_first_row_eq c : in_u 64 (offset_limit_cnt c) ->
  send_first_row c =
    mkCounters (if offset_limit_cnt c =? 2 ^ 64 - 1 then offset_limit_cnt c else offset_limit_cnt c + 1)
      (offset_limit_cnt c) (with_ties c).
Proof.
  unfold in_u, send_first_row. intros Ho. f_equal.
  destruct (Z.eqb_spec (offset_limit_cnt c) (2 ^ 64 - 1)) as [->|Hne]; [reflexivity|].
  rewrite wrap_small by (unfold in_u; lia). destruct (Z.eqb_spec (offset_limit_cnt c + 1) 0); lia.
Qed.

Lemma limit_step_ok c c' : counters_ok c -> step c c' -> counters_ok c'.
Proof.
  intros [Hl Ho Hle] Hs. unfold in_u in *. pose proof HA_POS_ERROR_eq.
  destruct Hs; try (split; cbn -[HA_POS_ERROR]; unfold in_u; lia).
  - rewrite set_limit_eq by done. unfold in_u in *. rewrite HA_POS_ERROR_eq.
    destruct (Z.eqb_spec limit 0), (Z.ltb_spec (limit + (if limit =? 0 then 0 else offset)) (2 ^ 64));
      split; cbn; unfold in_u; repeat case_match; lia.
  - rewrite send_first_row_eq by done.
    destruct (Z.eqb_spec (offset_limit_cnt c) (2 ^ 64 - 1)); split; cbn; unfold in_u; lia.
Qed.

Lemma reachable_ok c : reachable c -> counters_ok c.
Proof.
  induction 1 as [|c c' _ IH Hs]; [|by eapply limit_step_ok]. split; cbn; unfold in_u; lia.
Qed.

(** * The rows between the offset and the limit *)

(** In every state the counters can reach by their operations, the offset and
    the limit are 64-bit numbers and the offset does not exceed the limit. *)
Theorem limit_counters_invariant (c : Select_limit_counters) : reachable c -> counters_ok c.
Proof. apply reachable_ok. Qed.

Lemma in_window_spec c r : in_window c r <-> offset_limit_cnt c <= r < select_limit_cnt c.
Proof.
  unfold in_window, check_offset, get_select_limit. destruct (Z.ltb_spec r (offset_limit_cnt c)); split;
    [intros [? _]; done|lia|lia|split; [done|lia]].
Qed.

(** C34: After [set_limit l o], whatever the counters were, row number [r] (any
    64-bit number but the last, which stands for no limit) is at or above the
    offset and below the limit exactly when [l] is not 0 and [o <= r < o + l],
    without wrapping around; [set_single_row] leaves row 0, [send_first_row] after
    [set_limit] row [o], [clear] every row; WITH TIES is as it was set, and off
    after [set_single_row] and [clear], but [send_first_row] keeps it.  A window
    that ends exactly at row 2^64 - 1 is reported as unlimited although it is not.
    The sink passes a row on exactly when its number is not below the offset and
    the query is not being aborted, and then returns what [send_data] returns. *)
Theorem limit_selects_rows {Row} (limit offset : Z) (ties : bool) (c : Select_limit_counters)
    (send_data : Row -> Z) (killed : bool) (items : Row) (r : Z) :
  in_u 64 limit -> in_u 64 offset -> 0 <= r < 2 ^ 64 - 1 ->
  let lim := set_limit limit offset ties c in
  (in_window lim r <-> limit <> 0 /\ offset <= r < offset + limit)
  /\ (in_window (set_single_row c) r <-> r = 0)
  /\ (limit <> 0 -> offset < 2 ^ 64 - 1 -> in_window (send_first_row lim) r <-> r = offset)
  /\ in_window (clear c) r
  /\ (is_with_ties lim = ties /\ is_with_ties (send_first_row lim) = ties
      /\ is_with_ties (set_single_row c) = false /\ is_with_ties (clear c) = false)
  /\ (is_unlimited lim = true <-> limit + (if limit =? 0 then 0 else offset) >= 2 ^ 64 - 1)
  /\ send_data_with_check send_data killed lim items r =
       (if (negb (limit =? 0) && (r <? offset)) || killed then (0, []) else (send_data items, [items])).
Proof.
  intros Hl Ho Hr lim. pose proof (set_limit_eq limit offset ties c Hl Ho) as E. cbn zeta in E. fold lim in E.
  unfold in_u in Hl, Ho. pose proof HA_POS_ERROR_eq as EH. rewrite !in_window_spec.
  split; [|split; [|split; [|split; [|split; [|split]]]]].
  - rewrite E. cbn [select_limit_cnt offset_limit_cnt].
    destruct (Z.eqb_spec limit 0), (Z.ltb_spec (limit + (if limit =? 0 then 0 else offset)) (2 ^ 64));
      repeat case_match; lia.
  - cbn. lia.
  - intros Hl0 Ho1. rewrite send_first_row_eq by (rewrite E; cbn [offset_limit_cnt]; unfold in_u; destruct (limit =? 0); lia). rewrite E.
    cbn [select_limit_cnt offset_limit_cnt]. destruct (Z.eqb_spec limit 0); [done|].
    destruct (Z.eqb_spec offset (2 ^ 64 - 1)); lia.
  - cbn [clear select_limit_cnt offset_limit_cnt]. lia.
  - done.
  - unfold is_unlimited. rewrite E, Z.eqb_eq, EH. cbn [select_limit_cnt].
    destruct (Z.eqb_spec limit 0), (Z.ltb_spec (limit + (if limit =? 0 then 0 else offset)) (2 ^ 64));
      repeat case_match; lia.
  - unfold send_data_with_check, check_offset. rewrite E. cbn [offset_limit_cnt].
    destruct (Z.eqb_spec limit 0); cbn [negb andb].
    + destruct (Z.ltb_spec r 0); [lia|]. by destruct killed.
    + by destruct (r <? offset), killed.
Qed.

Lemma limit_selects_witness :
  in_window (set_limit 2 3 false Select_limit_counters_new) 4 <-> 2 <> 0 /\ 3 <= 4 < 3 + 2.
Proof.
  exact (proj1 (limit_selects_rows 2 3 false Select_limit_counters_new (fun row : Z => row) false 0 4
    ltac:(split; reflexivity || discriminate) ltac:(split; reflexivity || discriminate)
    ltac:(split; reflexivity || discriminate))).
Defined.
