(* ===== verification/ThreadCache.v ===== *)
(** The thread cache: thread_cache.h.

    Threads that have served a connection park in the cache; a new connection
    is queued for a parked thread; a flush asks the parked threads to leave and
    waits for them.  What a member does while it holds LOCK_thread_cache is one
    function on the fields of the class.  A system of threads moves from one
    such part of a member to the next, in any order.  The condition variables
    are those of POSIX: a signal wakes one of the threads that wait, a broadcast
    all, a thread may be woken for no reason, and a timed wait may end by
    itself.  [I_List<CONNECT>] is the sequence that it implements.

    The unlocked [kill_cached_threads++] with which [final_flush] begins is one
    step of [exec].  In the program its load and its store are separate, and a
    flush that begins in between is lost from the count; [final_flush_undone] of
    ThreadCacheMain.v shows what follows.  The count only decides whether threads
    park and leave: the order of service and the numbers of threads do not
    depend on it, and with one flush at a time nothing comes in between. *)
From S2P Require Import Prelude.
Open Scope Z_scope.

Module Thread_cache.
(** [ulong] and [uint32_t] have 32 bits; a connection is a number. *)
Record t := mk { list : list nat; cached_thread_count : Z; kill_cached_threads : Z }.

Definition init : t := mk [] 0 0.
Definition destroy (c : t) : option unit :=
  if (cached_thread_count c =? 0) && match list c with [] => true | _ => false end then Some tt else None.

(** [kill_cached_threads++], and the loop of [flush]: whether it is over. *)
Definition flush_begin (c : t) : t :=
  mk (list c) (cached_thread_count c) (u32 (kill_cached_threads c + 1)).
Definition flush_check (c : t) : t * bool :=
  if truth (cached_thread_count c) then (c, false)
  else (mk (list c) (cached_thread_count c) (u32 (kill_cached_threads c - 1)), true).

(** The first statement of [final_flush], which does not hold the lock. *)
Definition final_flush_load (c : t) : Z := kill_cached_threads c.
Definition final_flush_store (loaded : Z) (c : t) : t :=
  mk (list c) (cached_thread_count c) (u32 (loaded + 1)).

Definition enqueue (connect : nat) (c : t) : t * bool :=
  if truth (cached_thread_count c)
  then (mk (list c ++ [connect]) (u32 (cached_thread_count c - 1)) (kill_cached_threads c), true)
  else (c, false).

(** How a part of [park] ends: the thread waits, or leaves the critical section
    with the values of [flushed] and [connect]. *)
Inductive outcome := Wait | Leave (flushed : bool) (connect : option nat).

(** [park] up to the first wait; [thread_cache_size] is a global variable. *)
Definition park (thread_cache_size : Z) (c : t) : t * outcome :=
  match list c with
  | connect :: rest =>
      (mk rest (u32 (cached_thread_count c + 1)) (kill_cached_threads c), Leave false (Some connect))
  | [] =>
      if (cached_thread_count c <? thread_cache_size) && negb (truth (kill_cached_threads c))
      then (mk [] (u32 (cached_thread_count c + 1)) (kill_cached_threads c), Wait)
      else (c, Leave false None)
  end.

(** From the end of a wait to the next one or to the end of [park]. *)
Definition park_awake (timeout : bool) (c : t) : t * outcome :=
  let flushed := truth (kill_cached_threads c) in
  match list c with
  | connect :: rest => (mk rest (cached_thread_count c) (kill_cached_threads c), Leave flushed (Some connect))
  | [] =>
      if flushed || timeout
      then (mk [] (u32 (cached_thread_count c - 1)) (kill_cached_threads c), Leave flushed None)
      else (c, Wait)
  end.

Definition size (c : t) : Z := cached_thread_count c.
End Thread_cache.

(** * Threads *)

(** Where a thread is inside a member. *)
Inductive place :=
| Parked (woken : bool)                             (* in the wait of park *)
| Leaving (flushed : bool) (connect : option nat)   (* park, after the unlock *)
| Enqueued                                          (* enqueue, before the signal *)
| Flushing (woken : bool)                           (* in the wait of flush *)
| Finishing.                                        (* final_flush, before flush *)

(** [accepted]: the connections for which [enqueue] returned true; [taken]: those
    that [park] took from the queue; [finals]: how often [final_flush] began. *)
Record system := mkSystem
  { shared : Thread_cache.t; threads : gmap nat place;
    accepted : list nat; taken : list nat; finals : nat }.

Definition start : system := mkSystem Thread_cache.init ∅ [] [] 0.

(** The next part of a member, with what is chosen outside: the thread that a
    signal wakes and the value of thread_cache_size. *)
Inductive event :=
| EPark (t : nat) (thread_cache_size : Z) | EAwake (t : nat) (timeout : bool) | EReturn (t : nat) (pick : option nat)
| EEnqueue (t : nat) (connect : nat) | ESignal (t : nat) (pick : option nat)
| EFlush (t : nat) | EFlushAwake (t : nat) | EFinalFlush (t : nat) | EFinish (t : nat)
| ESpurious (t : nat).

(** Sums over the threads. *)
Definition total (f : place -> nat) (m : gmap nat place) : nat := map_fold (fun _ p n => f p + n)%nat 0%nat m.

Definition parked (p : place) : nat := match p with Parked _ => 1 | _ => 0 end.
Definition parked_woken (p : place) : nat := match p with Parked true => 1 | _ => 0 end.
Definition parked_asleep (p : place) : nat := match p with Parked false => 1 | _ => 0 end.
Definition leaving (p : place) : nat := match p with Leaving _ _ => 1 | _ => 0 end.
Definition enqueued (p : place) : nat := match p with Enqueued => 1 | _ => 0 end.
Definition flushing (p : place) : nat := match p with Flushing _ => 1 | _ => 0 end.
Definition flushing_woken (p : place) : nat := match p with Flushing true => 1 | _ => 0 end.
Definition flushing_asleep (p : place) : nat := match p with Flushing false => 1 | _ => 0 end.
Definition finishing (p : place) : nat := match p with Finishing => 1 | _ => 0 end.

Definition rouse (p : place) : place :=
  match p with Parked _ => Parked true | Flushing _ => Flushing true | _ => p end.
Definition rouse_parked (p : place) : place := match p with Parked _ => Parked true | _ => p end.

(** mysql_cond_signal: one of the threads for which [asleep] is 1 wakes up, if
    there is one. *)
Definition cond_signal (asleep : place -> nat) (pick : option nat) (m : gmap nat place) : option (gmap nat place) :=
  match pick with
  | Some u => match m !! u with
              | Some p => if (asleep p =? 1)%nat then Some (<[u := rouse p]> m) else None
              | None => None
              end
  | None => if (total asleep m =? 0)%nat then Some m else None
  end.

(** A thread that is in no member can enter one.  Fewer than [2^32] threads and
    final flushes fit in the counters. *)
Definition may_enter (t : nat) (s : system) : bool :=
  match threads s !! t with
  | None => Z.of_nat (finals s + size (threads s)) + 2 <? 2 ^ 32
  | Some _ => false
  end.

Definition set_place (t : nat) (p : place) (s : system) : system :=
  mkSystem (shared s) (<[t := p]> (threads s)) (accepted s) (taken s) (finals s).
Definition set_threads (m : gmap nat place) (s : system) : system :=
  mkSystem (shared s) m (accepted s) (taken s) (finals s).
Definition set_shared (c : Thread_cache.t) (s : system) : system :=
  mkSystem c (threads s) (accepted s) (taken s) (finals s).

Definition after_park (t : nat) (r : Thread_cache.t * Thread_cache.outcome) (s : system) : system :=
  match r.2 with
  | Thread_cache.Wait => set_place t (Parked false) (set_shared r.1 s)
  | Thread_cache.Leave flushed connect =>
      mkSystem r.1 (<[t := Leaving flushed connect]> (threads s)) (accepted s) (taken s ++ option_list connect) (finals s)
  end.

(** The loop of flush: it ends, or wakes the parked threads and waits. *)
Definition flush_loop (t : nat) (s : system) : system :=
  match Thread_cache.flush_check (shared s) with
  | (c, true) => mkSystem c (delete t (threads s)) (accepted s) (taken s) (finals s)
  | (c, false) => mkSystem c (<[t := Flushing false]> (rouse_parked <$> threads s)) (accepted s) (taken s) (finals s)
  end.

Definition exec (e : event) (s : system) : option system :=
  match e with
  | EPark t thread_cache_size =>
      if may_enter t s then Some (after_park t (Thread_cache.park thread_cache_size (shared s)) s) else None
  | EAwake t timeout =>
      match threads s !! t with
      | Some (Parked woken) =>
          if woken || timeout then Some (after_park t (Thread_cache.park_awake timeout (shared s)) s) else None
      | _ => None
      end
  | EReturn t pick =>
      match threads s !! t with
      | Some (Leaving flushed _) =>
          let m := delete t (threads s) in
          if flushed
          then m' ← cond_signal flushing_asleep pick m; Some (set_threads m' s)
          else Some (set_threads m s)
      | _ => None
      end
  | EEnqueue t connect =>
      if may_enter t s then
        match Thread_cache.enqueue connect (shared s) with
        | (c, true) => Some (mkSystem c (<[t := Enqueued]> (threads s)) (accepted s ++ [connect]) (taken s) (finals s))
        | (_, false) => Some s
        end
      else None
  | ESignal t pick =>
      match threads s !! t with
      | Some Enqueued => m' ← cond_signal parked_asleep pick (delete t (threads s)); Some (set_threads m' s)
      | _ => None
      end
  | EFlush t => if may_enter t s then Some (flush_loop t (set_shared (Thread_cache.flush_begin (shared s)) s)) else None
  | EFlushAwake t =>
      match threads s !! t with Some (Flushing true) => Some (flush_loop t s) | _ => None end
  | EFinalFlush t =>
      if may_enter t s
      then Some (mkSystem (Thread_cache.final_flush_store (Thread_cache.final_flush_load (shared s)) (shared s)) (<[t := Finishing]> (threads s))
                   (accepted s) (taken s) (S (finals s)))
      else None
  | EFinish t =>
      match threads s !! t with
      | Some Finishing => Some (flush_loop t (set_shared (Thread_cache.flush_begin (shared s)) s))
      | _ => None
      end
  | ESpurious t => p ← threads s !! t; Some (set_place t (rouse p) s)
  end.

Definition step (s s' : system) : Prop := exists e, exec e s = Some s'.

(** Without the wake-ups for no reason. *)
Definition is_spurious (e : event) : bool := match e with ESpurious _ => true | _ => false end.
Definition caused (s s' : system) : Prop := exists e, is_spurious e = false /\ exec e s = Some s'.

(** What the threads inside can do by themselves: no thread enters, no wait times
    out, none ends for no reason. *)
Definition is_internal (e : event) : bool :=
  match e with EAwake _ false | EReturn _ _ | ESignal _ _ | EFlushAwake _ | EFinish _ => true | _ => false end.
Definition internal (s s' : system) : Prop := exists e, is_internal e = true /\ exec e s = Some s'.

(** At most one flush at a time. *)
Definition one_flush (s : system) : Prop :=
  (total flushing (threads s) + total finishing (threads s) <= 1)%nat.

Definition run (es : list event) (s : system) : option system := foldl (fun o e => s' ← o; exec e s') (Some s) es.
