(* ===== verification/ThreadCacheProps.v ===== *)
(** The thread cache: what holds in every state that its threads can reach. *)
From S2P Require Import Prelude ThreadCache.
From Stdlib Require Import Relation_Operators Wellfounded.
Open Scope Z_scope.

(** * Sums over the threads *)

Section totals.
Implicit Types (f g : place -> nat) (m : gmap nat place).

Lemma total_empty f : total f ∅ = 0%nat.
Proof. apply map_fold_empty. Qed.
Lemma total_enter f t p m : m !! t = None -> total f (<[t := p]> m) = (f p + total f m)%nat.
Proof. intros. unfold total. rewrite map_fold_insert_L; [done| |done]. intros; lia. Qed.
Lemma total_leave f t p m : m !! t = Some p -> (total f (delete t m) + f p = total f m)%nat.
Proof.
  intros E. rewrite <- (insert_delete_id m t p E) at 2. rewrite total_enter by apply lookup_delete_eq. lia.
Qed.
Lemma total_move f t p q m : m !! t = Some p -> (total f (<[t := q]> m) + f p = total f m + f q)%nat.
Proof.
  intros E. rewrite <- (total_leave f t p m E), <- insert_delete_eq, total_enter by apply lookup_delete_eq. lia.
Qed.
Lemma total_fmap f (h : place -> place) m : total f (h <$> m) = total (f ∘ h) m.
Proof.
  induction m as [|t p m E IH] using map_ind; [by rewrite fmap_empty, !total_empty|].
  rewrite fmap_insert, !total_enter, IH by (rewrite ?lookup_fmap, ?E; done). done.
Qed.
Lemma total_mono f g m : (forall p, f p <= g p)%nat -> (total f m <= total g m)%nat.
Proof.
  intros L. induction m as [|t p m E IH] using map_ind; [by rewrite !total_empty|].
  rewrite !total_enter by done. specialize (L p). lia.
Qed.
Lemma total_ext f g m : (forall p, f p = g p) -> total f m = total g m.
Proof. intros L. apply Nat.le_antisymm; apply total_mono; intros p; by rewrite L. Qed.
Lemma total_pos f m : (0 < total f m)%nat <-> exists t p, m !! t = Some p /\ (0 < f p)%nat.
Proof.
  split.
  - induction m as [|t p m E IH] using map_ind; [rewrite total_empty; lia|]. rewrite total_enter by done. intros L.
    destruct (decide (0 < f p)%nat); [by exists t, p; rewrite lookup_insert_eq|].
    destruct IH as (u & q & Eu & ?); [lia|]. exists u, q. rewrite lookup_insert_ne by congruence. done.
  - intros (t & p & E & L). pose proof (total_leave f t p m E). lia.
Qed.
Lemma total_size f m : (forall p, f p <= 1)%nat -> (total f m <= size m)%nat.
Proof.
  intros L. induction m as [|t p m E IH] using map_ind; [by rewrite total_empty|].
  rewrite total_enter, map_size_insert_None by done. specialize (L p). lia.
Qed.
End totals.

(** A signal wakes one of the threads that it is for, if there is one. *)
Lemma cond_signal_spec asleep pick m m' : cond_signal asleep pick m = Some m' ->
  (m' = m /\ total asleep m = 0%nat)
  \/ exists u p, m !! u = Some p /\ asleep p = 1%nat /\ m' = <[u := rouse p]> m.
Proof.
  unfold cond_signal. destruct pick as [u|].
  - destruct (m !! u) as [p|] eqn:E; [|done]. destruct (Nat.eqb_spec (asleep p) 1); [|done]. intros [= <-]. right. eauto 6.
  - destruct (Nat.eqb_spec (total asleep m) 0); [|done]. intros [= <-]. auto.
Qed.

(** * The invariant *)

Record inv (s : system) : Prop := {
  (** the threads that wait are the cached ones and one for each connection *)
  inv_count : Z.of_nat (total parked (threads s))
    = Thread_cache.cached_thread_count (shared s) + Z.of_nat (length (Thread_cache.list (shared s)));
  inv_unsigned : 0 <= Thread_cache.cached_thread_count (shared s);
  inv_kill : Thread_cache.kill_cached_threads (shared s) = Z.of_nat (total flushing (threads s) + finals s);
  inv_room : Z.of_nat (finals s + size (threads s)) < 2 ^ 32;
  (** connections are taken in order, each once *)
  inv_fifo : accepted s = taken s ++ Thread_cache.list (shared s);
  (** for each connection that waits a thread is awake or about to be woken *)
  inv_awake : (length (Thread_cache.list (shared s))
    <= total parked_woken (threads s) + total enqueued (threads s))%nat }.

Lemma cache_inv_start : inv start.
Proof. constructor; cbn; rewrite ?total_empty; done. Qed.

Lemma rouse_total f asleep u p m :
  (forall q, asleep q = 1%nat -> f (rouse q) = f q) -> m !! u = Some p -> asleep p = 1%nat ->
  total f (<[u := rouse p]> m) = total f m.
Proof. intros Hf E A. pose proof (total_move f u p (rouse p) m E) as T. rewrite (Hf p A) in T. lia. Qed.

Lemma signal_total f asleep pick m m' :
  (forall q, asleep q = 1%nat -> f (rouse q) = f q) -> cond_signal asleep pick m = Some m' -> total f m' = total f m.
Proof.
  intros Hf [[-> _]|(u & p & E & A & ->)]%cond_signal_spec; [done|]. by eapply rouse_total.
Qed.
Lemma signal_size asleep pick m m' : cond_signal asleep pick m = Some m' -> size m' = size m.
Proof.
  intros [[-> _]|(u & p & E & A & ->)]%cond_signal_spec; [done|].
  rewrite map_size_insert_Some by eauto. done.
Qed.
(** What the signal of [enqueue] does to the threads that are awake. *)
Lemma signal_parked pick m m' : cond_signal parked_asleep pick m = Some m' ->
  total parked_woken m' = S (total parked_woken m) \/ total parked_woken m' = total parked m'.
Proof.
  intros [[-> N]|(u & p & E & A & ->)]%cond_signal_spec.
  - right. assert (T : forall m, total parked m = (total parked_woken m + total parked_asleep m)%nat).
    { clear. intros m. induction m as [|t p m E IH] using map_ind; [by rewrite !total_empty|].
      rewrite !total_enter, IH by done. destruct p as [[]| | | |]; cbn; lia. }
    rewrite T. lia.
  - left. pose proof (total_move parked_woken u p (rouse p) m E) as T.
    destruct p as [[]| | | |]; try discriminate A. cbn in *. lia.
Qed.

Lemma total_rouse f m : (forall p, f (rouse_parked p) = f p) -> total f (rouse_parked <$> m) = total f m.
Proof. intros Hf. rewrite total_fmap. by apply total_ext. Qed.

Lemma total_insert f t p m : total f (<[t := p]> m) = (f p + total f (delete t m))%nat.
Proof. rewrite <- insert_delete_eq. apply total_enter, lookup_delete_eq. Qed.
Lemma total_split f t m :
  total f m = (total f (delete t m) + match m !! t with None => 0 | Some p => f p end)%nat.
Proof.
  destruct (m !! t) as [p|] eqn:E; [by rewrite (total_leave f t p)|]. rewrite delete_id by done. lia.
Qed.

Definition count_bound (s : system) : Prop :=
  0 <= Thread_cache.cached_thread_count (shared s)
    <= Z.of_nat (total parked (threads s)) /\ (total parked (threads s) <= size (threads s))%nat
  /\ (total flushing (threads s) <= size (threads s))%nat.
Lemma inv_bound s : inv s -> count_bound s.
Proof.
  intros I. pose proof (inv_count s I). pose proof (inv_unsigned s I). split; [lia|].
  split; apply total_size; intros [[]| | |[]|]; cbn; lia.
Qed.

(** The sums that the invariant mentions. *)
Ltac sums lemma :=
  pose proof (lemma parked); pose proof (lemma parked_woken); pose proof (lemma enqueued);
  pose proof (lemma flushing); cbn [parked parked_woken enqueued flushing] in *.

Lemma u32_id x : 0 <= x < 2 ^ 32 -> u32 x = x.
Proof. apply wrap_small. Qed.
Ltac invariant := constructor;
  cbn [shared threads accepted taken finals Thread_cache.list Thread_cache.cached_thread_count
       Thread_cache.kill_cached_threads set_place set_threads set_shared];
  rewrite ?length_app; cbn [length] in *; try lia; auto.

Lemma may_enter_spec t s : may_enter t s = true ->
  threads s !! t = None /\ Z.of_nat (finals s + size (threads s)) + 2 < 2 ^ 32.
Proof. unfold may_enter. destruct (threads s !! t); [done|]. intros ?%Z.ltb_lt. auto. Qed.

Lemma inv_park t n s : inv s -> may_enter t s = true -> inv (after_park t (Thread_cache.park n (shared s)) s).
Proof.
  intros I [E R]%may_enter_spec. destruct (inv_bound s I) as (B1 & B2 & B3). destruct I as [I1 I2 I3 I4 I5 I6].
  unfold Thread_cache.park, after_park.
  destruct (Thread_cache.list (shared s)) as [|x l] eqn:El; [destruct (_ && _)|]; cbn [fst snd].
  - sums (fun f => total_enter f t (Parked false) _ E). rewrite u32_id by lia.
    pose proof (map_size_insert_None t (Parked false) _ E).
    invariant; cbn; lia.
  - sums (fun f => total_enter f t (Leaving false None) _ E).
    pose proof (map_size_insert_None t (Leaving false None) _ E).
    invariant; rewrite El; cbn; rewrite ?app_nil_r in *; auto; lia.
  - sums (fun f => total_enter f t (Leaving false (Some x)) _ E).
    pose proof (map_size_insert_None t (Leaving false (Some x)) _ E). cbn [length] in *.
    rewrite u32_id by lia. invariant. rewrite <- app_assoc. exact I5.
Qed.

Lemma inv_awake_park t w b s : inv s -> threads s !! t = Some (Parked w) ->
  inv (after_park t (Thread_cache.park_awake b (shared s)) s).
Proof.
  intros I E. destruct (inv_bound s I) as (B1 & B2 & B3). destruct I as [I1 I2 I3 I4 I5 I6].
  pose proof (fun q => map_size_insert_Some t q (threads s) (mk_is_Some _ _ E)) as Sz.
  unfold Thread_cache.park_awake, after_park.
  destruct (Thread_cache.list (shared s)) as [|x l] eqn:El; [destruct (_ || _)|]; cbn [fst snd].
  - sums (fun f => total_move f t _ (Leaving (truth (Thread_cache.kill_cached_threads (shared s))) None) _ E).
    rewrite u32_id by (cbn [length] in *; destruct w; lia). invariant; rewrite ?Sz, ?app_nil_r in *; auto; lia.
  - sums (fun f => total_move f t _ (Parked false) _ E).
    invariant; rewrite ?Sz, ?El; auto; cbn [length] in *; destruct w; lia.
  - sums (fun f => total_move f t _ (Leaving (truth (Thread_cache.kill_cached_threads (shared s))) (Some x)) _ E).
    invariant; rewrite ?Sz; auto; cbn [length] in *; try (destruct w; lia).
    cbn. rewrite <- app_assoc. exact I5.
Qed.

(** Nothing changes but the threads. *)
Lemma inv_threads m s : inv s ->
  total parked m = total parked (threads s) -> total flushing m = total flushing (threads s) ->
  (size m <= size (threads s))%nat ->
  (length (Thread_cache.list (shared s)) <= total parked_woken m + total enqueued m)%nat -> inv (set_threads m s).
Proof. intros [I1 I2 I3 I4 I5 I6] E1 E2 E3 E4. invariant. Qed.

Lemma inv_return t fl x pick s s' : inv s -> threads s !! t = Some (Leaving fl x) ->
  exec (EReturn t pick) s = Some s' -> inv s'.
Proof.
  intros I E. cbn. rewrite E. sums (fun f => total_leave f t _ _ E).
  pose proof (map_size_delete_Some t (threads s) (mk_is_Some _ _ E)). destruct I as [I1 I2 I3 I4 I5 I6] eqn:EI. clear EI.
  destruct fl.
  - destruct (cond_signal flushing_asleep pick (delete t (threads s))) as [m|] eqn:Es; [|done]. intros [= <-].
    pose proof (signal_size _ _ _ _ Es).
    assert (T : forall f, (forall q, flushing_asleep q = 1%nat -> f (rouse q) = f q) ->
      total f m = total f (delete t (threads s))) by (intros f Hf; by apply (signal_total f _ _ _ _ Hf Es)).
    apply inv_threads; [done|..]; rewrite ?T by (by intros [[]| | |[]|]); lia.
  - intros [= <-]. apply inv_threads; [done|..]; lia.
Qed.

Lemma inv_enqueue t x s s' : inv s -> exec (EEnqueue t x) s = Some s' -> inv s'.
Proof.
  intros I. cbn. destruct (may_enter t s) eqn:Em; [|done]. apply may_enter_spec in Em as [E R].
  destruct (inv_bound s I) as (B1 & B2 & B3). unfold Thread_cache.enqueue, truth.
  destruct (Z.eqb_spec (Thread_cache.cached_thread_count (shared s)) 0); [by intros [= <-]|]. intros [= <-].
  destruct I as [I1 I2 I3 I4 I5 I6].
  sums (fun f => total_enter f t Enqueued _ E). pose proof (map_size_insert_None t Enqueued _ E).
  rewrite u32_id by lia. invariant. rewrite I5. by rewrite app_assoc.
Qed.

Lemma inv_signal t pick s s' : inv s -> exec (ESignal t pick) s = Some s' -> inv s'.
Proof.
  intros I. cbn. destruct (threads s !! t) as [[]|] eqn:E; try done. sums (fun f => total_leave f t _ _ E).
  pose proof (map_size_delete_Some t (threads s) (mk_is_Some _ _ E)).
  destruct (cond_signal parked_asleep pick (delete t (threads s))) as [m|] eqn:Es; [|done]. intros [= <-].
  pose proof (signal_size _ _ _ _ Es). pose proof (inv_count s I). pose proof (inv_unsigned s I).
  pose proof (inv_awake s I).
  assert (T : forall f, (forall q, parked_asleep q = 1%nat -> f (rouse q) = f q) ->
    total f m = total f (delete t (threads s))) by (intros f Hf; by apply (signal_total f _ _ _ _ Hf Es)).
  pose proof (T parked ltac:(by intros [[]| | |[]|])). pose proof (T enqueued ltac:(by intros [[]| | |[]|])).
  pose proof (T flushing ltac:(by intros [[]| | |[]|])).
  destruct (signal_parked _ _ _ Es); apply inv_threads; auto; lia.
Qed.

(** A thread outside park and enqueue does not count there. *)
Definition outside (o : option place) : Prop :=
  match o with None | Some (Flushing _) | Some Finishing => True | _ => False end.

(** The loop of flush, by a thread whose request is counted. *)
Lemma inv_flush_loop t s :
  let s0 := set_place t (Flushing false) s in
  outside (threads s !! t) -> inv s0 -> inv (flush_loop t s).
Proof.
  intros s0 Ot I. destruct (inv_bound s0 I) as (B1 & B2 & B3). destruct I as [I1 I2 I3 I4 I5 I6].
  unfold s0 in *. cbn [shared threads accepted taken finals set_place] in *.
  assert (Ss : (size (delete t (threads s)) <= size (<[t := Flushing false]> (threads s)))%nat)
    by (rewrite map_size_insert, map_size_delete; destruct (threads s !! t); cbn; lia).
  sums (fun f => total_insert f t (Flushing false) (threads s)).
  unfold flush_loop, Thread_cache.flush_check, truth.
  destruct (Z.eqb_spec (Thread_cache.cached_thread_count (shared s)) 0); cbn [negb].
  - rewrite u32_id by lia. invariant.
  - assert (Si : size (<[t := Flushing false]> (rouse_parked <$> threads s)) = size (<[t := Flushing false]> (threads s)))
      by (rewrite !map_size_insert, map_size_fmap, lookup_fmap; by destruct (threads s !! t)).
    assert (T : forall f, (forall p, f (rouse_parked p) = f p) ->
      total f (<[t := Flushing false]> (rouse_parked <$> threads s)) = total f (<[t := Flushing false]> (threads s)))
      by (intros f Hf; rewrite !total_insert, <- fmap_delete, total_rouse; done).
    assert (W : total parked_woken (<[t := Flushing false]> (rouse_parked <$> threads s))
      = total parked (<[t := Flushing false]> (threads s))).
    { rewrite !total_insert, <- fmap_delete, total_fmap. cbn. apply total_ext. by intros []. }
    invariant; rewrite ?Si, ?W, ?T by (by intros []); auto; lia.
Qed.

Lemma inv_flush_begin t s : inv s -> (threads s !! t = None \/ threads s !! t = Some Finishing) ->
  Z.of_nat (finals s + size (<[t := Flushing false]> (threads s))) < 2 ^ 32 ->
  inv (flush_loop t (set_shared (Thread_cache.flush_begin (shared s)) s)).
Proof.
  intros I Ot R. destruct (inv_bound s I) as (B1 & B2 & B3). destruct I as [I1 I2 I3 I4 I5 I6].
  assert (F : (total flushing (<[t := Flushing false]> (threads s)) <= size (<[t := Flushing false]> (threads s)))%nat)
    by (apply total_size; intros [[]| | |[]|]; cbn; lia).
  sums (fun f => total_insert f t (Flushing false) (threads s)). sums (fun f => total_split f t (threads s)).
  apply inv_flush_loop; cbn [shared threads set_shared]; [by destruct Ot as [-> | ->]|].
  destruct Ot as [E|E]; rewrite E in *; cbn [parked parked_woken enqueued flushing] in *;
    unfold Thread_cache.flush_begin; invariant; rewrite u32_id; lia.
Qed.

Lemma inv_spurious t s s' : inv s -> exec (ESpurious t) s = Some s' -> inv s'.
Proof.
  intros I. cbn. destruct (threads s !! t) as [p|] eqn:E; [|done]. intros [= <-].
  change (set_place t (rouse p) s) with (set_threads (<[t := rouse p]> (threads s)) s).
  sums (fun f => total_move f t p (rouse p) _ E). pose proof (inv_awake s I).
  pose proof (map_size_insert_Some t (rouse p) (threads s) (mk_is_Some _ _ E)).
  apply inv_threads; auto; destruct p as [[]| | |[]|]; cbn in *; lia.
Qed.

Lemma inv_exec e s s' : inv s -> exec e s = Some s' -> inv s'.
Proof.
  intros I Ex. destruct e as [t n|t b|t pick|t x|t pick|t|t|t|t|t].
  - cbn in Ex. destruct (may_enter t s) eqn:Em; [|done]. injection Ex as <-. by apply inv_park.
  - cbn in Ex. destruct (threads s !! t) as [[w| | | |]|] eqn:E; try done. destruct (w || b); [|done].
    injection Ex as <-. by eapply inv_awake_park.
  - destruct (threads s !! t) as [[]|] eqn:E; try (cbn in Ex; by rewrite E in Ex). by eapply inv_return.
  - by eapply inv_enqueue.
  - by eapply inv_signal.
  - cbn in Ex. destruct (may_enter t s) eqn:Em; [|done]. injection Ex as <-.
    apply may_enter_spec in Em as [E R]. apply inv_flush_begin; [done|by left|].
    rewrite map_size_insert_None by done. lia.
  - cbn in Ex. destruct (threads s !! t) as [[]|] eqn:E; try done. destruct woken; [|done]. injection Ex as <-.
    apply inv_flush_loop; [by rewrite E|].
    change (set_place t (Flushing false) s) with (set_threads (<[t := Flushing false]> (threads s)) s).
    sums (fun f => total_move f t _ (Flushing false) _ E). pose proof (inv_awake s I).
    pose proof (map_size_insert_Some t (Flushing false) (threads s) (mk_is_Some _ _ E)). apply inv_threads; auto; lia.
  - cbn in Ex. destruct (may_enter t s) eqn:Em; [|done]. injection Ex as <-.
    apply may_enter_spec in Em as [E R]. destruct (inv_bound s I) as (B1 & B2 & B3). destruct I as [I1 I2 I3 I4 I5 I6].
    sums (fun f => total_enter f t Finishing _ E). pose proof (map_size_insert_None t Finishing _ E).
    unfold Thread_cache.final_flush_store, Thread_cache.final_flush_load. invariant. rewrite u32_id; lia.
  - cbn in Ex. destruct (threads s !! t) as [[]|] eqn:E; try done. injection Ex as <-.
    apply inv_flush_begin; [done|by right|]. rewrite map_size_insert_Some by eauto. apply (inv_room s I).
  - by eapply inv_spurious.
Qed.

Definition reachable (s : system) : Prop := rtc step start s.

Lemma inv_rtc s s' : rtc step s s' -> inv s -> inv s'.
Proof. induction 1 as [|x y z [e Ex] _ IH]; [done|]. intros I. apply IH. by eapply inv_exec. Qed.
Lemma reachable_inv s : reachable s -> inv s.
Proof. intros R. exact (inv_rtc start s R cache_inv_start). Qed.

(** * Threads left to themselves come to rest *)

(** Parked threads, then the others in the order in which they can wake each
    other. *)
Definition rank (s : system) : nat * (nat * (nat * (nat * (nat * nat)))) :=
  let n f := total f (threads s) in
  (n parked, (n finishing, (n leaving, (n flushing_woken, (n enqueued, n parked_woken))))).
Definition lower : relation (nat * (nat * (nat * (nat * (nat * nat))))) :=
  slexprod _ _ lt (slexprod _ _ lt (slexprod _ _ lt (slexprod _ _ lt (slexprod _ _ lt lt)))).
Lemma lower_wf : well_founded lower.
Proof. repeat apply wf_slexprod; apply Nat.lt_wf_0. Qed.

Lemma lower_intro a b c d e f a' b' c' d' e' f' :
  (a' < a \/ a' = a /\ (b' < b \/ b' = b /\ (c' < c \/ c' = c /\ (d' < d \/ d' = d /\ (e' < e \/ e' = e /\ f' < f)))))%nat ->
  lower (a', (b', (c', (d', (e', f'))))) (a, (b, (c, (d, (e, f))))).
Proof.
  intros H. repeat (destruct H as [H|[-> H]]; [by apply left_slex|apply right_slex]). done.
Qed.

Ltac sums_all lemma :=
  sums lemma; pose proof (lemma leaving); pose proof (lemma finishing); pose proof (lemma flushing_woken);
  cbn [leaving finishing flushing_woken] in *.

Lemma flush_loop_lower t s q : (q = Finishing \/ q = Flushing true) -> threads s !! t = Some q ->
  lower (rank (flush_loop t s)) (rank s).
Proof.
  intros Hq E. unfold flush_loop, Thread_cache.flush_check.
  sums_all (fun f => total_leave f t q _ E).
  destruct (truth _); cbn [rank threads]; apply lower_intro.
  - assert (T : forall f, f (Flushing false) = 0%nat -> (forall p, f (rouse_parked p) = f p) ->
      total f (<[t := Flushing false]> (rouse_parked <$> threads s)) = total f (delete t (threads s)))
      by (intros f Z0 Hf; rewrite total_insert, <- fmap_delete, total_rouse, Z0; done).
    rewrite !T by (done || by intros []). destruct Hq as [-> | ->]; cbn in *; lia.
  - destruct Hq as [-> | ->]; cbn in *; lia.
Qed.

Lemma internal_lower s s' : inv s -> internal s s' -> lower (rank s') (rank s).
Proof.
  intros I (e & Hi & Ex). destruct e as [t n|t b|t pick|t x|t pick|t|t|t|t|t]; try done.
  - destruct b; [done|]. cbn in Ex. destruct (threads s !! t) as [[w| | | |]|] eqn:E; try done.
    destruct w; [|done]. injection Ex as <-. unfold after_park, Thread_cache.park_awake.
    destruct (Thread_cache.list (shared s)) as [|x l]; [destruct (_ || _)|]; cbn [fst snd];
      apply lower_intro; cbn [threads set_place set_shared].
    + sums_all (fun f => total_move f t _ (Leaving (truth (Thread_cache.kill_cached_threads (shared s))) None) _ E). lia.
    + sums_all (fun f => total_move f t _ (Parked false) _ E). lia.
    + sums_all (fun f => total_move f t _ (Leaving (truth (Thread_cache.kill_cached_threads (shared s))) (Some x)) _ E). lia.
  - cbn in Ex. destruct (threads s !! t) as [[|fl x| | |]|] eqn:E; try done.
    sums_all (fun f => total_leave f t _ _ E). destruct fl; [|injection Ex as <-; apply lower_intro; cbn; lia].
    destruct (cond_signal flushing_asleep pick (delete t (threads s))) as [m|] eqn:Es; [|done]. injection Ex as <-.
    assert (T : forall f, (forall q, flushing_asleep q = 1%nat -> f (rouse q) = f q) ->
      total f m = total f (delete t (threads s))) by (intros f Hf; by apply (signal_total f _ _ _ _ Hf Es)).
    apply lower_intro. cbn [set_threads threads].
    rewrite (T parked), (T finishing), (T leaving) by (by intros [[]| | |[]|]). lia.
  - cbn in Ex. destruct (threads s !! t) as [[]|] eqn:E; try done. sums_all (fun f => total_leave f t _ _ E).
    destruct (cond_signal parked_asleep pick (delete t (threads s))) as [m|] eqn:Es; [|done]. injection Ex as <-.
    assert (T : forall f, (forall q, parked_asleep q = 1%nat -> f (rouse q) = f q) ->
      total f m = total f (delete t (threads s))) by (intros f Hf; by apply (signal_total f _ _ _ _ Hf Es)).
    apply lower_intro. cbn [set_threads threads].
    rewrite (T parked), (T finishing), (T leaving), (T flushing_woken), (T enqueued) by (by intros [[]| | |[]|]). lia.
  - cbn in Ex. destruct (threads s !! t) as [[]|] eqn:E; try done. destruct woken; [|done]. injection Ex as <-.
    eapply flush_loop_lower; [by right|done].
  - cbn in Ex. destruct (threads s !! t) as [[]|] eqn:E; try done. injection Ex as <-.
    apply (flush_loop_lower t (set_shared _ s) Finishing); [by left|done].
Qed.

Lemma internal_step s s' : internal s s' -> step s s'.
Proof. intros (e & _ & Ex). by exists e. Qed.
Lemma internal_acc s : inv s -> Acc (flip internal) s.
Proof.
  intros I. remember (rank s) as r eqn:Er. revert s Er I.
  induction r as [r IH] using (well_founded_induction lower_wf). intros s -> I. constructor. intros s' St.
  apply (IH (rank s')); [by apply internal_lower|done|]. destruct (internal_step s s' St) as [e Ex]. by eapply inv_exec.
Qed.

(** Nothing is left to do. *)
Definition at_rest (s : system) : Prop := forall s', ~ internal s s'.

Lemma signal_enabled asleep m : (forall p, asleep p <= 1)%nat -> exists pick m', cond_signal asleep pick m = Some m'.
Proof.
  intros L. destruct (Nat.eq_0_gt_0_cases (total asleep m)) as [E|(u & p & E & P)%total_pos].
  - exists None, m. cbn. by rewrite E.
  - exists (Some u), (<[u := rouse p]> m). cbn. rewrite E. specialize (L p).
    destruct (Nat.eqb_spec (asleep p) 1); [done|lia].
Qed.

(** At rest, a thread that is inside waits and has not been woken. *)
Lemma at_rest_places s t p : at_rest s -> threads s !! t = Some p -> p = Parked false \/ p = Flushing false.
Proof.
  intros R E. destruct p as [[]|fl x| |[]|]; auto; exfalso.
  - eapply R. exists (EAwake t false). split; [done|]. cbn. by rewrite E.
  - destruct (signal_enabled flushing_asleep (delete t (threads s)) ltac:(intros [[]| | |[]|]; cbn; lia)) as (pick & m & Es).
    destruct fl; eapply R; exists (EReturn t pick); (split; [done|]); cbn; by rewrite E, ?Es.
  - destruct (signal_enabled parked_asleep (delete t (threads s)) ltac:(intros [[]| | |[]|]; cbn; lia)) as (pick & m & Es).
    eapply R. exists (ESignal t pick). split; [done|]. cbn. by rewrite E, Es.
  - eapply R. exists (EFlushAwake t). split; [done|]. cbn. by rewrite E.
  - eapply R. exists (EFinish t). split; [done|]. cbn. by rewrite E.
Qed.
Lemma at_rest_total f s : at_rest s -> f (Parked false) = 0%nat -> f (Flushing false) = 0%nat -> total f (threads s) = 0%nat.
Proof.
  intros R E1 E2. destruct (Nat.eq_0_gt_0_cases (total f (threads s))) as [|(t & p & E & P)%total_pos]; [done|].
  destruct (at_rest_places s t p R E) as [-> | ->]; lia.
Qed.
Lemma at_rest_queue s : inv s -> at_rest s -> Thread_cache.list (shared s) = [] /\ taken s = accepted s.
Proof.
  intros I R. pose proof (inv_awake s I) as A. rewrite !at_rest_total in A by auto.
  pose proof (inv_fifo s I) as F. destruct (Thread_cache.list (shared s)); [|cbn in A; lia]. by rewrite F, app_nil_r.
Qed.

(** * One flush at a time *)

(** A thread that is going to wake the flush. *)
Definition stirring (p : place) : nat := match p with Parked true | Leaving true _ => 1 | _ => 0 end.
Definition flush_attended (s : system) : Prop :=
  total flushing_asleep (threads s) = 0%nat \/ (0 < total stirring (threads s))%nat.

Lemma flush_loop_attended t s : outside (threads s !! t) -> inv (flush_loop t s) -> flush_attended s ->
  flush_attended (flush_loop t s).
Proof.
  intros Ot I A. unfold flush_attended in *. revert I. unfold flush_loop, Thread_cache.flush_check, truth.
  destruct (Z.eqb_spec (Thread_cache.cached_thread_count (shared s)) 0); cbn [negb threads]; intros I.
  - pose proof (total_split flushing_asleep t (threads s)). pose proof (total_split stirring t (threads s)).
    destruct (threads s !! t) as [[]|]; try done; cbn in *; lia.
  - right. pose proof (inv_count _ I). pose proof (inv_unsigned _ I). cbn in *.
    rewrite total_insert, <- fmap_delete, total_fmap in *. cbn in *.
    assert (L : (total (parked ∘ rouse_parked) (delete t (threads s)) <= total (stirring ∘ rouse_parked) (delete t (threads s)))%nat)
      by (apply total_mono; intros [[]| | |[]|]; cbn; lia). lia.
Qed.

Lemma kill_flushing s : inv s -> (0 < total flushing_asleep (threads s) \/ 0 < finals s)%nat ->
  truth (Thread_cache.kill_cached_threads (shared s)) = true.
Proof.
  intros I Z. rewrite (inv_kill s I). unfold truth.
  assert (L : (total flushing_asleep (threads s) <= total flushing (threads s))%nat)
    by (apply total_mono; intros [[]| | |[]|]; cbn; lia).
  destruct (Z.eqb_spec (Z.of_nat (total flushing (threads s) + finals s)) 0); [lia|done].
Qed.

Ltac two_sums lemma :=
  pose proof (lemma flushing_asleep); pose proof (lemma stirring); cbn [flushing_asleep stirring] in *.

Lemma attended_exec e s s' : inv s -> one_flush s -> flush_attended s -> exec e s = Some s' -> flush_attended s'.
Proof.
  intros I O A Ex. pose proof (inv_exec e s s' I Ex) as I'. unfold flush_attended in *.
  destruct e as [t n|t b|t pick|t x|t pick|t|t|t|t|t]; cbn in Ex.
  - destruct (may_enter t s) eqn:Em; [|done]. injection Ex as <-. apply may_enter_spec in Em as [E _].
    unfold after_park, Thread_cache.park.
    destruct (Thread_cache.list (shared s)); [destruct (_ && _)|]; cbn [fst snd threads set_place set_shared];
      rewrite !(total_enter _ t) by done; cbn; lia.
  - destruct (threads s !! t) as [[w| | | |]|] eqn:E; try done. destruct (w || b); [|done]. injection Ex as <-.
    unfold after_park, Thread_cache.park_awake.
    destruct (Nat.eq_0_gt_0_cases (total flushing_asleep (threads s))) as [Z|Z].
    + left. destruct (Thread_cache.list (shared s)) as [|x l]; [destruct (_ || _)|]; cbn [fst snd threads set_place set_shared];
        rewrite total_insert; pose proof (total_split flushing_asleep t (threads s)); cbn; lia.
    + right. rewrite (kill_flushing s I) by auto. cbn [orb].
      destruct (Thread_cache.list (shared s)) as [|x l]; cbn [fst snd threads]; rewrite total_insert; cbn; lia.
  - destruct (threads s !! t) as [[|fl x| | |]|] eqn:E; try done. two_sums (fun f => total_leave f t _ _ E).
    destruct fl; [|injection Ex as <-; cbn; lia].
    destruct (cond_signal flushing_asleep pick (delete t (threads s))) as [m|] eqn:Es; [|done]. injection Ex as <-.
    left. cbn. apply cond_signal_spec in Es as [[-> Z]|(u & p & Eu & Ap & ->)]; [done|].
    pose proof (total_move flushing_asleep u p (rouse p) _ Eu). pose proof (total_leave flushing t _ _ E).
    assert (L : (total flushing_asleep (delete t (threads s)) <= total flushing (delete t (threads s)))%nat)
      by (apply total_mono; intros [[]| | |[]|]; cbn; lia).
    unfold one_flush in O. destruct p as [[]| | |[]|]; try discriminate Ap. cbn in *. lia.
  - destruct (may_enter t s) eqn:Em; [|done]. apply may_enter_spec in Em as [E _].
    destruct (Thread_cache.enqueue x (shared s)) as [c []]; injection Ex as <-; [|done]. cbn [threads].
    rewrite !(total_enter _ t) by done. cbn. lia.
  - destruct (threads s !! t) as [[]|] eqn:E; try done. two_sums (fun f => total_leave f t _ _ E).
    destruct (cond_signal parked_asleep pick (delete t (threads s))) as [m|] eqn:Es; [|done]. injection Ex as <-. cbn.
    apply cond_signal_spec in Es as [[-> Z]|(u & p & Eu & Ap & ->)]; [lia|]. rewrite (rouse_total flushing_asleep parked_asleep) by (done || by intros [[]| | |[]|]).
    pose proof (total_move stirring u p (rouse p) _ Eu). destruct p as [[]| | |[]|]; try discriminate Ap. cbn in *. lia.
  - destruct (may_enter t s) eqn:Em; [|done]. injection Ex as <-. apply may_enter_spec in Em as [E _].
    by apply flush_loop_attended; cbn; [rewrite E|..].
  - destruct (threads s !! t) as [[]|] eqn:E; try done. destruct woken; [|done]. injection Ex as <-.
    by apply flush_loop_attended; cbn; [rewrite E|..].
  - destruct (may_enter t s) eqn:Em; [|done]. injection Ex as <-. apply may_enter_spec in Em as [E _]. cbn [threads].
    rewrite !(total_enter _ t) by done. cbn. lia.
  - destruct (threads s !! t) as [[]|] eqn:E; try done. injection Ex as <-.
    by apply flush_loop_attended; cbn; [rewrite E|..].
  - destruct (threads s !! t) as [p|] eqn:E; [|done]. injection Ex as <-. cbn.
    two_sums (fun f => total_move f t p (rouse p) _ E). destruct p as [[]| | |[]|]; cbn in *; lia.
Qed.

(** The threads inside do not start a flush. *)
Lemma flush_loop_one t s p : threads s !! t = Some p -> (1 <= flushing p + finishing p)%nat ->
  (total flushing (threads s) + total finishing (threads s) <= 1)%nat ->
  (total flushing (threads (flush_loop t s)) + total finishing (threads (flush_loop t s)) <= 1)%nat.
Proof.
  intros E P O. pose proof (total_leave flushing t _ _ E). pose proof (total_leave finishing t _ _ E).
  unfold flush_loop. destruct (Thread_cache.flush_check (shared s)) as [c []]; cbn [threads]; [lia|].
  rewrite !total_insert, <- !fmap_delete, !total_rouse by (by intros []). cbn. lia.
Qed.
Lemma internal_one_flush s s' : internal s s' -> one_flush s -> one_flush s'.
Proof.
  unfold one_flush. intros (e & Hi & Ex) O. destruct e as [t n|t b|t pick|t x|t pick|t|t|t|t|t]; try done; cbn in Ex.
  - destruct (threads s !! t) as [[w| | | |]|] eqn:E; try done. destruct (w || b); [|done]. injection Ex as <-.
    pose proof (total_leave flushing t _ _ E). pose proof (total_leave finishing t _ _ E).
    unfold after_park. destruct (snd _); cbn [threads set_place set_shared]; rewrite !total_insert; cbn in *; lia.
  - destruct (threads s !! t) as [[|fl x| | |]|] eqn:E; try done.
    pose proof (total_leave flushing t _ _ E). pose proof (total_leave finishing t _ _ E).
    destruct fl; [|injection Ex as <-; cbn in *; lia].
    destruct (cond_signal flushing_asleep pick (delete t (threads s))) as [m|] eqn:Es; [|done]. injection Ex as <-. cbn in *.
    rewrite (signal_total flushing flushing_asleep _ _ _ ltac:(by intros [[]| | |[]|]) Es), (signal_total finishing flushing_asleep _ _ _ ltac:(by intros [[]| | |[]|]) Es). lia.
  - destruct (threads s !! t) as [[]|] eqn:E; try done.
    pose proof (total_leave flushing t _ _ E). pose proof (total_leave finishing t _ _ E).
    destruct (cond_signal parked_asleep pick (delete t (threads s))) as [m|] eqn:Es; [|done]. injection Ex as <-. cbn in *.
    rewrite (signal_total flushing parked_asleep _ _ _ ltac:(by intros [[]| | |[]|]) Es), (signal_total finishing parked_asleep _ _ _ ltac:(by intros [[]| | |[]|]) Es). lia.
  - destruct (threads s !! t) as [[]|] eqn:E; try done. destruct woken; [|done]. injection Ex as <-.
    by eapply (flush_loop_one t s).
  - destruct (threads s !! t) as [[]|] eqn:E; try done. injection Ex as <-.
    by eapply (flush_loop_one t (set_shared _ s)).
Qed.
