(* ===== verification/ThreadCacheMain.v ===== *)
(** The thread cache: its contract, and what goes wrong when two flushes overlap
    or [final_flush] meets a flush. *)
From S2P Require Import Prelude ThreadCache ThreadCacheProps.
Open Scope Z_scope.

(** A run in which never more than one flush is in progress. *)
Definition orderly (s s' : system) : Prop := step s s' /\ one_flush s'.

Lemma orderly_spec s : rtc orderly start s -> inv s /\ one_flush s /\ flush_attended s.
Proof.
  assert (G : forall s s', rtc orderly s s' -> inv s /\ one_flush s /\ flush_attended s ->
    inv s' /\ one_flush s' /\ flush_attended s').
  { induction 1 as [|x y z [[e Ex] O] _ IH]; [done|]. intros (I & O1 & A). apply IH.
    split; [by eapply inv_exec|]. split; [done|]. by eapply attended_exec. }
  intros R. apply (G start s R). split; [apply cache_inv_start|]. unfold one_flush, flush_attended. cbn. rewrite !total_empty. auto.
Qed.
Lemma orderly_internal s s' : rtc internal s s' -> one_flush s -> rtc orderly s s'.
Proof.
  induction 1 as [|x y z St _ IH]; [done|]. intros O. pose proof (internal_one_flush x y St O) as O'.
  eapply rtc_l; [|by apply IH]. split; [by apply internal_step|done].
Qed.

(** C9: In every state that threads calling park, enqueue, flush and final_flush
    can reach, in any order and with any wake-ups: the connections that were
    accepted are, in order and each once, those that a thread took and those in
    the queue; the waiting threads are the cached ones and one more for each
    queued connection; and for each queued connection a thread is awake or a
    signal is about to be sent. *)
Theorem connections_are_served_in_order (s : system) : reachable s ->
  accepted s = taken s ++ Thread_cache.list (shared s)
  /\ Z.of_nat (total parked (threads s)) = Thread_cache.size (shared s) + Z.of_nat (length (Thread_cache.list (shared s)))
  /\ 0 <= Thread_cache.size (shared s) < 2 ^ 32
  /\ (length (Thread_cache.list (shared s)) <= total parked_woken (threads s) + total enqueued (threads s))%nat.
Proof.
  intros R. pose proof (reachable_inv s R) as I. destruct (inv_bound s I) as (B & B' & _).
  pose proof (inv_room s I). split; [apply I|]. split; [apply I|]. split; [unfold Thread_cache.size; lia|apply I].
Qed.

(** C13: Left to themselves, the threads come to rest: as long as one flush runs at
    a time, they can only take finitely many steps before new calls and timeouts,
    and then no connection is queued, every accepted one has been taken, and
    every call of enqueue, flush and final_flush has returned. *)
Theorem thread_cache_comes_to_rest (s : system) : rtc orderly start s ->
  Acc (flip internal) s
  /\ forall s', rtc internal s s' -> at_rest s' ->
     Thread_cache.list (shared s') = [] /\ taken s' = accepted s'
     /\ map_Forall (fun _ p => p = Parked false) (threads s').
Proof.
  intros R. destruct (orderly_spec s R) as (I & O & A). split; [by apply internal_acc|]. intros s' R' Rest.
  destruct (orderly_spec s') as (I' & _ & A'); [etrans; [exact R|by apply orderly_internal]|].
  destruct (at_rest_queue s' I' Rest) as [E1 E2]. split; [done|]. split; [done|]. intros t p E.
  destruct (at_rest_places s' t p Rest E) as [->|E0]; [done|]. exfalso. destruct A' as [Z|Z].
  - pose proof (total_leave flushing_asleep t p _ E). subst p. cbn in *. lia.
  - rewrite at_rest_total in Z by done. lia.
Qed.

(** * Two flushes at once *)

(** Nobody is left to wake the flush of thread [t]. *)
Definition abandoned (t : nat) (s : system) : Prop :=
  inv s /\ threads s !! t = Some (Flushing false) /\ total parked (threads s) = 0%nat
  /\ total stirring (threads s) = 0%nat.

Lemma abandoned_empty t s : abandoned t s ->
  Thread_cache.list (shared s) = [] /\ Thread_cache.cached_thread_count (shared s) = 0
  /\ truth (Thread_cache.kill_cached_threads (shared s)) = true.
Proof.
  intros (I & E & P & _). pose proof (inv_count s I). pose proof (inv_unsigned s I).
  assert (L : length (Thread_cache.list (shared s)) = 0%nat) by lia. apply length_zero_iff_nil in L.
  split; [done|]. split; [lia|]. apply kill_flushing; [done|]. left. apply total_pos. exists t, (Flushing false). cbn. auto.
Qed.

Lemma flush_loop_over u s : Thread_cache.cached_thread_count (shared s) = 0 ->
  threads (flush_loop u s) = delete u (threads s).
Proof. intros E. unfold flush_loop, Thread_cache.flush_check. cbn. by rewrite E. Qed.

Lemma abandoned_caused t s s' : abandoned t s -> caused s s' -> abandoned t s'.
Proof.
  intros Ab (e & Sp & Ex). destruct (abandoned_empty t s Ab) as (El & Ec & Ek).
  destruct Ab as (I & Et & P & S). pose proof (inv_exec e s s' I Ex) as I'.
  assert (N : forall u, may_enter u s = true -> threads s !! u = None /\ u <> t)
    by (intros u [Eu _]%may_enter_spec; split; [done|congruence]).
  assert (D : forall u p, threads s !! u = Some p -> p <> Flushing false ->
    delete u (threads s) !! t = Some (Flushing false) /\ total parked (delete u (threads s)) = 0%nat
    /\ total stirring (delete u (threads s)) = 0%nat).
  { intros u p Eu Np. rewrite lookup_delete_ne by (intros ->; congruence).
    pose proof (total_leave parked u p _ Eu). pose proof (total_leave stirring u p _ Eu). split; [done|]. lia. }
  assert (U : forall u p, threads s !! u = Some p -> parked p = 0%nat /\ stirring p = 0%nat).
  { intros u p Eu. pose proof (total_leave parked u p _ Eu). pose proof (total_leave stirring u p _ Eu). lia. }
  split; [done|]. clear I'. destruct e as [u n|u b|u pick|u x|u pick|u|u|u|u|u]; try done; cbn in Ex.
  - destruct (may_enter u s) eqn:Em; [|done]. injection Ex as <-. destruct (N u Em) as [Eu Nu].
    unfold after_park, Thread_cache.park. rewrite El, Ek, andb_false_r. cbn [fst snd threads].
    rewrite lookup_insert_ne, !total_enter by done. cbn. auto.
  - destruct (threads s !! u) as [[]|] eqn:Eu; try done. by destruct (U u _ Eu).
  - destruct (threads s !! u) as [[|fl x| | |]|] eqn:Eu; try done. destruct fl; [by destruct (U u _ Eu)|].
    injection Ex as <-. by apply (D u _ Eu).
  - destruct (may_enter u s); [|done]. unfold Thread_cache.enqueue in Ex. rewrite Ec in Ex. by injection Ex as <-.
  - destruct (threads s !! u) as [[]|] eqn:Eu; try done.
    destruct (cond_signal parked_asleep pick _) as [m|] eqn:Es; [|done]. injection Ex as <-.
    destruct (D u _ Eu ltac:(done)) as (D1 & D2 & D3).
    apply cond_signal_spec in Es as [[-> _]|(v & p & Ev & Ap & ->)]; [done|].
    pose proof (total_leave parked v p _ Ev). destruct p as [[]| | |[]|]; try discriminate Ap. cbn in *. lia.
  - destruct (may_enter u s) eqn:Em; [|done]. injection Ex as <-. destruct (N u Em) as [Eu Nu].
    rewrite flush_loop_over by done. by rewrite delete_id.
  - destruct (threads s !! u) as [[]|] eqn:Eu; try done. destruct woken; [|done]. injection Ex as <-.
    rewrite flush_loop_over by done. by apply (D u _ Eu).
  - destruct (may_enter u s) eqn:Em; [|done]. injection Ex as <-. destruct (N u Em) as [Eu Nu]. cbn [threads].
    rewrite lookup_insert_ne, !total_enter by done. auto.
  - destruct (threads s !! u) as [[]|] eqn:Eu; try done. injection Ex as <-. rewrite flush_loop_over by done.
    by apply (D u _ Eu).
Qed.

Lemma run_rtc es s s' : run es s = Some s' -> rtc step s s'.
Proof.
  unfold run. revert s. induction es as [|e es IH]; intros s; cbn; [by intros [= <-]|].
  destruct (exec e s) as [s1|] eqn:E; [intros R; eapply rtc_l; [by exists e|by apply IH]|].
  intros R. exfalso. revert R. clear. induction es; [done|auto].
Qed.

(** Thread 1 parks, threads 2 and 3 flush; 1 leaves and wakes 2, which returns. *)
Definition two_flushes : list event :=
  [EPark 1 8; EFlush 2; EFlush 3; EAwake 1 false; EReturn 1 (Some 2%nat); EFlushAwake 2].

(** C18: When two flushes overlap, one may never return: the single signal of the
    last thread to leave wakes one flush, and whatever is called after that, no
    thread is ever parked again, or signals, unless a wait ends for no reason. *)
Theorem overlapping_flush_may_hang :
  exists s, run two_flushes start = Some s /\ Thread_cache.size (shared s) = 0
    /\ forall s', rtc caused s s' -> threads s' !! 3%nat = Some (Flushing false).
Proof.
  destruct (run two_flushes start) as [s|] eqn:E; [|vm_compute in E; discriminate E]. exists s. split; [done|].
  assert (Ab : abandoned 3 s).
  { split; [by apply reachable_inv, (run_rtc two_flushes)|]. vm_compute in E. injection E as <-. by vm_compute. }
  split; [vm_compute in E; by injection E as <-|]. intros s' R. revert Ab. clear E.
  induction R as [x|x y z St _ IH]; [intros (_ & ? & _); done|]. intros Ab. apply IH. by eapply abandoned_caused.
Qed.

(** * The final flush *)

(** Every parked thread is awake or about to be woken, and none can be added. *)
Definition drained (s : system) : Prop :=
  inv s /\ (0 < finals s)%nat
  /\ (total parked (threads s) <= total parked_woken (threads s) + total enqueued (threads s))%nat.

Lemma flush_loop_drained t s : inv (flush_loop t s) -> (0 < finals s)%nat -> outside (threads s !! t) ->
  (threads (flush_loop t s) !! t = None
   \/ total parked (threads s) <= total parked_woken (threads s) + total enqueued (threads s))%nat -> drained (flush_loop t s).
Proof.
  intros I F Ot K. split; [done|]. revert I K. unfold flush_loop, Thread_cache.flush_check, truth.
  destruct (Z.eqb_spec (Thread_cache.cached_thread_count (shared s)) 0) as [Z|]; cbn [negb threads finals];
    intros I K; (split; [done|]).
  - pose proof (inv_count _ I). pose proof (inv_awake _ I). cbn in *. lia.
  - rewrite !total_insert, <- fmap_delete, !total_fmap. cbn.
    pose proof (total_mono (parked ∘ rouse_parked) (parked_woken ∘ rouse_parked) (delete t (threads s))
      ltac:(intros []; cbn; lia)). cbn in *. lia.
Qed.

Lemma drained_exec e s s' : drained s -> exec e s = Some s' -> drained s'.
Proof.
  intros (I & F & K) Ex. pose proof (inv_exec e s s' I Ex) as I'.
  pose proof (kill_flushing s I ltac:(auto)) as Ek.
  destruct e as [t n|t b|t pick|t x|t pick|t|t|t|t|t]; cbn in Ex.
  - destruct (may_enter t s) eqn:Em; [|done]. injection Ex as <-. apply may_enter_spec in Em as [E _]. split; [done|].
    clear I'. unfold after_park, Thread_cache.park. rewrite Ek, andb_false_r.
    destruct (Thread_cache.list (shared s)); cbn [fst snd threads finals]; rewrite !(total_enter _ t) by done; auto.
  - destruct (threads s !! t) as [[w| | | |]|] eqn:E; try done. destruct (w || b); [|done]. injection Ex as <-.
    split; [done|]. clear I'. unfold after_park, Thread_cache.park_awake. rewrite Ek. cbn [orb].
    pose proof (fun f => total_leave f t _ _ E) as T. pose proof (T parked). pose proof (T parked_woken). pose proof (T enqueued).
    destruct (Thread_cache.list (shared s)); cbn [fst snd threads finals]; rewrite !total_insert; cbn in *; destruct w; split; auto; lia.
  - destruct (threads s !! t) as [[|fl x| | |]|] eqn:E; try done.
    pose proof (fun f => total_leave f t _ _ E) as T. pose proof (T parked). pose proof (T parked_woken). pose proof (T enqueued). clear T.
    destruct fl; [|injection Ex as <-; split; [done|]; cbn in *; lia].
    destruct (cond_signal flushing_asleep pick (delete t (threads s))) as [m|] eqn:Es; [|done]. injection Ex as <-.
    split; [done|]. cbn.
    assert (T : forall f, (forall q, flushing_asleep q = 1%nat -> f (rouse q) = f q) ->
      total f m = total f (delete t (threads s))) by (intros f Hf; by apply (signal_total f _ _ _ _ Hf Es)).
    rewrite !T by (by intros [[]| | |[]|]). cbn in *. lia.
  - destruct (may_enter t s) eqn:Em; [|done]. apply may_enter_spec in Em as [E _].
    destruct (Thread_cache.enqueue x (shared s)) as [c []]; injection Ex as <-; [|done]. split; [done|]. cbn [threads finals].
    rewrite !(total_enter _ t) by done. cbn. lia.
  - destruct (threads s !! t) as [[]|] eqn:E; try done.
    pose proof (fun f => total_leave f t _ _ E) as T. pose proof (T parked). pose proof (T parked_woken). pose proof (T enqueued). clear T.
    destruct (cond_signal parked_asleep pick (delete t (threads s))) as [m|] eqn:Es; [|done]. injection Ex as <-.
    split; [done|]. cbn. split; [done|].
    assert (T : forall f, (forall q, parked_asleep q = 1%nat -> f (rouse q) = f q) ->
      total f m = total f (delete t (threads s))) by (intros f Hf; by apply (signal_total f _ _ _ _ Hf Es)).
    pose proof (T parked ltac:(by intros [[]| | |[]|])). pose proof (T enqueued ltac:(by intros [[]| | |[]|])).
    destruct (signal_parked _ _ _ Es); cbn in *; lia.
  - destruct (may_enter t s) eqn:Em; [|done]. injection Ex as <-. apply may_enter_spec in Em as [E _].
    apply flush_loop_drained; [done|done|by cbn; rewrite E|auto].
  - destruct (threads s !! t) as [[]|] eqn:E; try done. destruct woken; [|done]. injection Ex as <-.
    apply flush_loop_drained; [done|done|by rewrite E|auto].
  - destruct (may_enter t s) eqn:Em; [|done]. injection Ex as <-. apply may_enter_spec in Em as [E _]. split; [done|].
    cbn [threads finals]. rewrite !(total_enter _ t) by done. cbn. lia.
  - destruct (threads s !! t) as [[]|] eqn:E; try done. injection Ex as <-.
    apply flush_loop_drained; [done|done|by cbn; rewrite E|auto].
  - destruct (threads s !! t) as [p|] eqn:E; [|done]. injection Ex as <-. split; [done|]. cbn. split; [done|].
    pose proof (fun f => total_move f t p (rouse p) _ E) as T. pose proof (T parked). pose proof (T parked_woken). pose proof (T enqueued).
    destruct p as [[]| | |[]|]; cbn in *; lia.
Qed.

(** Once a flush has returned after final_flush began, the cache stays empty:
    whatever is called next, when the threads inside have come to rest no thread
    is parked and the assertions of [destroy] hold. *)
Theorem final_flush_empties_cache (s s' s'' : system) (e : event) (t : nat) :
  reachable s -> (0 < finals s)%nat -> e ∈ [EFlush t; EFlushAwake t; EFinish t] ->
  exec e s = Some s' -> threads s' !! t = None -> rtc step s' s'' -> at_rest s'' ->
  total parked (threads s'') = 0%nat /\ Thread_cache.destroy (shared s'') = Some tt.
Proof.
  intros R F He Ex Et R' Rest. assert (D : drained s').
  { pose proof (inv_exec e s s' (reachable_inv s R) Ex) as I'.
    repeat (apply elem_of_cons in He as [->|He]); [..|by apply elem_of_nil in He]; cbn in Ex.
    - destruct (may_enter t s) eqn:Em; [|done]. injection Ex as <-. apply may_enter_spec in Em as [E _].
      apply flush_loop_drained; [done|done|by cbn; rewrite E|auto].
    - destruct (threads s !! t) as [[]|] eqn:E; try done. destruct woken; [|done]. injection Ex as <-.
      apply flush_loop_drained; [done|done|by rewrite E|auto].
    - destruct (threads s !! t) as [[]|] eqn:E; try done. injection Ex as <-.
      apply flush_loop_drained; [done|done|by cbn; rewrite E|auto]. }
  assert (D' : drained s'') by (clear -D R'; induction R' as [|x y z [f Ef] _ IH]; [done|]; apply IH; by eapply drained_exec).
  destruct D' as (I & _ & K). rewrite (at_rest_total parked_woken), (at_rest_total enqueued) in K by done.
  pose proof (inv_count _ I). pose proof (inv_unsigned _ I). split; [lia|]. unfold Thread_cache.destroy.
  destruct (Thread_cache.list (shared s'')); [|cbn in *; lia]. destruct (Z.eqb_spec (Thread_cache.cached_thread_count (shared s'')) 0); [done|cbn in *; lia].
Qed.

(** * Examples *)

(** Two threads park, two connections come, a third thread takes the first of
    them before the parked threads wake up. *)
Definition a_day : list event :=
  [EPark 1 8; EPark 2 8; EEnqueue 9 101; ESignal 9 (Some 1%nat); EEnqueue 9 102; EPark 3 8;
   EReturn 3 None; ESignal 9 (Some 2%nat); EAwake 2 false; EAwake 1 false].

Definition served (o : option system) : option (list nat * list nat * Z) :=
  (fun s => (accepted s, taken s, Thread_cache.size (shared s))) <$> o.
Lemma a_day_serves : served (run a_day start) = Some ([101%nat; 102%nat], [101%nat; 102%nat], 1).
Proof. reflexivity. Qed.

Lemma served_in_order_witness : exists s, run (take 6 a_day) start = Some s
  /\ accepted s = taken s ++ Thread_cache.list (shared s) /\ Thread_cache.list (shared s) = [102%nat].
Proof.
  destruct (run (take 6 a_day) start) as [s|] eqn:E; [|vm_compute in E; discriminate E]. exists s. split; [done|].
  split; [exact (proj1 (connections_are_served_in_order s (run_rtc _ _ _ E)))|]. vm_compute in E. by injection E as <-.
Defined.

#[export] Instance one_flush_dec s : Decision (one_flush s).
Proof. unfold one_flush. apply _. Defined.
Fixpoint orderly_run (es : list event) (s : system) : option system :=
  match es with
  | [] => Some s
  | e :: es => s' ← exec e s; if decide (one_flush s') then orderly_run es s' else None
  end.
Lemma orderly_run_rtc es s s' : orderly_run es s = Some s' -> rtc orderly s s'.
Proof.
  revert s. induction es as [|e es IH]; intros s; cbn; [by intros [= <-]|].
  destruct (exec e s) as [s1|] eqn:E; cbn; [|done]. destruct (decide (one_flush s1)); [|done].
  intros R. eapply rtc_l; [split; [by exists e|done]|auto].
Qed.

(** Thread 4 flushes while two threads are parked and a connection is queued. *)
Definition a_flush : list event := [EPark 1 8; EPark 2 8; EEnqueue 9 101; EFlush 4].
Lemma comes_to_rest_witness : exists s, orderly_run a_flush start = Some s
  /\ Acc (flip internal) s /\ Thread_cache.list (shared s) = [101%nat].
Proof.
  destruct (orderly_run a_flush start) as [s|] eqn:E; [|vm_compute in E; discriminate E]. exists s. split; [done|].
  split; [exact (proj1 (thread_cache_comes_to_rest s (orderly_run_rtc _ _ _ E)))|]. vm_compute in E. by injection E as <-.
Defined.

Definition shutdown : list event := [EPark 1 8; EFinalFlush 5; EFinish 5; EAwake 1 false; EReturn 1 (Some 5%nat)].
Lemma no_threads_at_rest s : threads s = ∅ -> at_rest s.
Proof.
  intros E s' (e & Hi & Ex). destruct e as [t n|t [] |t pick|t x|t pick|t|t|t|t|t]; try done; cbn in Ex;
    by rewrite E, lookup_empty in Ex.
Qed.
Lemma final_flush_witness : exists s s', run shutdown start = Some s /\ exec (EFlushAwake 5) s = Some s'
  /\ Thread_cache.destroy (shared s') = Some tt.
Proof.
  destruct (run shutdown start) as [s|] eqn:E; [|vm_compute in E; discriminate E].
  destruct (exec (EFlushAwake 5) s) as [s'|] eqn:E'; [|vm_compute in E; injection E as <-; vm_compute in E'; discriminate E'].
  exists s, s'. split; [done|]. split; [done|].
  assert (Es : (0 < finals s)%nat) by (vm_compute in E; injection E as <-; vm_compute; auto).
  assert (Et : threads s' = ∅)
    by (vm_compute in E; injection E as <-; vm_compute in E'; injection E' as <-; by vm_compute).
  refine (proj2 (final_flush_empties_cache s s' s' (EFlushAwake 5) 5 (run_rtc _ _ _ E) Es _ E' _ (rtc_refl _ _) _)).
  - right. left.
  - by rewrite Et.
  - by apply no_threads_at_rest.
Defined.

(** [final_flush] reads [kill_cached_threads] outside the lock.  When a flush
    begins between its read and its write, that flush is not counted, and when
    both have returned threads park again. *)
Lemma final_flush_undone :
  let c := Thread_cache.mk [] 1 0 in
  let loaded := Thread_cache.final_flush_load c in
  let c := Thread_cache.flush_begin c in                       (* the other flush *)
  let c := Thread_cache.final_flush_store loaded c in
  let c := Thread_cache.flush_begin c in                       (* the flush of final_flush *)
  let c := (Thread_cache.park_awake false c).1 in              (* the parked thread leaves *)
  let c := (Thread_cache.flush_check c).1 in
  let c := (Thread_cache.flush_check c).1 in
  Thread_cache.kill_cached_threads c = 0 /\ (Thread_cache.park 8 c).2 = Thread_cache.Wait.
Proof. by vm_compute. Qed.
