(* ===== verification/HashFilo.v ===== *)
(** The cache of least recently used elements: hash_filo.h.

    [hash_filo] keeps elements in a HASH, for look-up, and in a chain in the
    order of their last use.  The elements are objects with two links; the HASH,
    which is implemented outside the sources, is an interface with the laws that
    its documentation states.  [None] is undefined behaviour: a NULL or freed
    element is dereferenced, an assertion fails, a mutex that is not initialised
    is locked or one that is held is locked again, or a HASH that is not
    initialised is searched or changed. *)
From S2P Require Import Prelude.
Open Scope Z_scope.

(** hash.h: the HASH and the functions on it that hash_filo calls.  [blength] is 0
    in a HASH that is zeroed or freed; only one that my_hash_init was called on
    may be searched or changed. *)
Class Hash (H K : Type) := {
  records : H -> Z;                        (* HASH::records *)
  blength : H -> Z;                        (* HASH::blength *)
  has_buffer : H -> bool;                  (* HASH::array.buffer is not NULL *)
  my_hash_search : H -> K -> option nat;
  my_hash_insert : H -> nat -> option H;   (* None: an error is returned *)
  my_hash_delete : H -> nat -> H;
  my_hash_init : Z -> H;
  my_hash_free : H -> H;
  zeroed : H;                              (* bzero, before my_hash_init *)
  contents : H -> list nat;                (* the array of records *)
  same_key : K -> nat -> bool }.           (* the key of a record, compared with hash_charset *)

Definition my_hash_inited `{Hash H K} (h : H) : bool := negb (blength h =? 0).

Class LawfulHash H K `{Hash H K} : Prop := {
  records_contents h : records h = Z.of_nat (length (contents h));
  buffer_contents h : has_buffer h = false -> contents h = [];
  search_found h k e : my_hash_inited h = true ->
    my_hash_search h k = Some e -> e ∈ contents h /\ same_key k e = true;
  search_absent h k e : my_hash_inited h = true ->
    my_hash_search h k = None -> e ∈ contents h -> same_key k e = false;
  insert_contents h e h' : my_hash_inited h = true -> my_hash_insert h e = Some h' ->
    my_hash_inited h' = true /\ contents h' ≡ₚ e :: contents h;
  delete_contents h e : my_hash_inited h = true -> e ∈ contents h ->
    my_hash_inited (my_hash_delete h e) = true /\ contents h ≡ₚ e :: contents (my_hash_delete h e);
  init_contents n : my_hash_inited (my_hash_init n) = true /\ contents (my_hash_init n) = [];
  zeroed_contents : my_hash_inited zeroed = false /\ contents zeroed = [] }.

Record links := mkLinks { next_used : option nat; prev_used : option nat }.

(** The fields of hash_filo; [lock]: not initialised, or whether it is held;
    [free_element]: whether there is such a function; [heap]: the elements. *)
Record hash_filo (H : Type) := mkFilo
  { m_size : Z; free_element : bool; init : bool; first_link : option nat; last_link : option nat;
    lock : option bool; cache : H; heap : gmap nat links }.
Arguments mkFilo {H}. Arguments m_size {H}. Arguments free_element {H}. Arguments init {H}.
Arguments first_link {H}. Arguments last_link {H}. Arguments lock {H}. Arguments cache {H}. Arguments heap {H}.

Section code.
Context `{Hash H K}.
Implicit Types (s : hash_filo H).

Definition set_first (v : option nat) (s : hash_filo H) : hash_filo H :=
  mkFilo (m_size s) (free_element s) (init s) v (last_link s) (lock s) (cache s) (heap s).
Definition set_last (v : option nat) (s : hash_filo H) : hash_filo H :=
  mkFilo (m_size s) (free_element s) (init s) (first_link s) v (lock s) (cache s) (heap s).
Definition set_lock (v : option bool) (s : hash_filo H) : hash_filo H :=
  mkFilo (m_size s) (free_element s) (init s) (first_link s) (last_link s) v (cache s) (heap s).
Definition set_cache (v : H) (s : hash_filo H) : hash_filo H :=
  mkFilo (m_size s) (free_element s) (init s) (first_link s) (last_link s) (lock s) v (heap s).
Definition set_heap (v : gmap nat links) (s : hash_filo H) : hash_filo H :=
  mkFilo (m_size s) (free_element s) (init s) (first_link s) (last_link s) (lock s) (cache s) v.
Definition set_m_size (v : Z) (s : hash_filo H) : hash_filo H :=
  mkFilo v (free_element s) (init s) (first_link s) (last_link s) (lock s) (cache s) (heap s).
Definition set_init (v : bool) (s : hash_filo H) : hash_filo H :=
  mkFilo (m_size s) (free_element s) v (first_link s) (last_link s) (lock s) (cache s) (heap s).

(** Reading and writing a link through a pointer. *)
Definition next (p : option nat) s : option (option nat) := e ← p; l ← heap s !! e; Some (next_used l).
Definition prev (p : option nat) s : option (option nat) := e ← p; l ← heap s !! e; Some (prev_used l).
Definition set_next (p v : option nat) s : option (hash_filo H) :=
  e ← p; l ← heap s !! e; Some (set_heap (<[e := mkLinks v (prev_used l)]> (heap s)) s).
Definition set_prev (p v : option nat) s : option (hash_filo H) :=
  e ← p; l ← heap s !! e; Some (set_heap (<[e := mkLinks (next_used l) v]> (heap s)) s).

(** free_element, where there is one, releases the element. *)
Definition release (es : list nat) s : hash_filo H :=
  if free_element s then set_heap (foldr delete (heap s) es) s else s.

Definition mutex_lock s : option (hash_filo H) :=
  match lock s with Some false => Some (set_lock (Some true) s) | _ => None end.
Definition mutex_unlock s : option (hash_filo H) :=
  match lock s with Some true => Some (set_lock (Some false) s) | _ => None end.
Definition assert_owner s : option unit := match lock s with Some true => Some tt | _ => None end.
Definition need_inited s : option unit := if my_hash_inited (cache s) then Some tt else None.
Definition assert_not_null (p : option nat) : option unit := if p then Some tt else None.

(** A new object. *)
Definition construct (size_arg : Z) (has_free : bool) (h : gmap nat links) : hash_filo H :=
  mkFilo size_arg has_free false None None None zeroed h.

(** my_hash_free frees the records too. *)
Definition free_cache s : hash_filo H :=
  set_cache (my_hash_free (cache s)) (release (contents (cache s)) s).

(** The destructor: the HASH is freed with its records, and the mutex. *)
Definition destruct_filo s : option (hash_filo H) :=
  if init s then
    let s := if has_buffer (cache s) then free_cache s else s in
    match lock s with Some false => Some (set_lock None s) | _ => None end
  else Some s.

Definition clear (locked : bool) s : option (hash_filo H) :=
  let s := if init s then s else set_lock (Some false) (set_init true s) in
  s ← (if locked then Some s else mutex_lock s);
  let s := set_last None (set_first None s) in
  let s := free_cache s in
  let s := set_cache (my_hash_init (m_size s)) s in
  if locked then Some s else mutex_unlock s.

Definition first s : option (option nat) := _ ← assert_owner s; Some (first_link s).
Definition last s : option (option nat) := _ ← assert_owner s; Some (last_link s).

Definition unlink (entry : nat) s : option (hash_filo H) :=
  if decide (Some entry = last_link s) then
    p ← prev (last_link s) s;
    let s := set_last p s in
    _ ← assert_not_null (last_link s);
    set_next (last_link s) None s
  else
    n ← next (Some entry) s; _ ← assert_not_null n;
    p ← prev (Some entry) s; _ ← assert_not_null p;
    s ← set_prev n p s;
    p ← prev (Some entry) s; n ← next (Some entry) s;
    set_next p n s.

Definition link_first (entry : nat) s : option (hash_filo H) :=
  s ← set_prev (Some entry) None s;
  s ← set_next (Some entry) (first_link s) s;
  s ← set_prev (first_link s) (Some entry) s;
  Some (set_first (Some entry) s).

Definition search (key : K) s : option (option nat * hash_filo H) :=
  _ ← assert_owner s; _ ← need_inited s;
  match my_hash_search (cache s) key with
  | None => Some (None, s)
  | Some entry =>
      _ ← assert_not_null (first_link s); _ ← assert_not_null (last_link s);
      if decide (Some entry = first_link s) then Some (Some entry, s)
      else s ← unlink entry s; s ← link_first entry s; Some (Some entry, s)
  end.

(** The element that was used last goes, to make room. *)
Definition evict s : option (hash_filo H) :=
  let tmp := last_link s in
  p ← prev (last_link s) s;
  let s := set_last p s in
  s ← (if last_link s then set_next (last_link s) None s else Some (set_first None s));
  e ← tmp; _ ← need_inited s;
  Some (release [e] (set_cache (my_hash_delete (cache s) e) s)).

Definition add (entry : nat) s : option (bool * hash_filo H) :=
  if m_size s =? 0 then Some (true, s) else
  s ← (if records (cache s) =? m_size s then evict s else Some s);
  _ ← need_inited s;
  match my_hash_insert (cache s) entry with
  | None => Some (true, release [entry] s)
  | Some h =>
      let s := set_cache h s in
      s ← set_prev (Some entry) None s;
      s ← set_next (Some entry) (first_link s) s;
      s ← (if first_link s then set_prev (first_link s) (Some entry) s else Some (set_last (Some entry) s));
      Some (false, set_first (Some entry) s)
  end.

Definition size s : Z := m_size s.

Definition resize (new_size : Z) s : option (hash_filo H) :=
  s ← mutex_lock s;
  let s := set_m_size new_size s in
  s ← clear true s;
  mutex_unlock s.
End code.
