(* ===== verification/HashFiloSpec.v ===== *)
(** [hash_filo] keeps its elements in the order of their last use. *)
From S2P Require Import Prelude DList HashFilo.
Open Scope Z_scope.

(** * Chains *)

Definition first_of (xs : list nat) (d : option nat) : option nat := match xs with [] => d | x :: _ => Some x end.
Fixpoint end_of (xs : list nat) (d : option nat) : option nat :=
  match xs with [] => d | x :: xs => end_of xs (Some x) end.

(** The elements [xs] are linked; [p] is before the first and [n] after the last. *)
Fixpoint chain (m : gmap nat links) (p : option nat) (xs : list nat) (n : option nat) : Prop :=
  match xs with
  | [] => True
  | x :: ys => m !! x = Some (mkLinks (first_of ys n) p) /\ chain m (Some x) ys n
  end.

Lemma first_of_app xs ys d : first_of (xs ++ ys) d = first_of xs (first_of ys d).
Proof. by destruct xs. Qed.
Lemma end_of_app xs ys d : end_of (xs ++ ys) d = end_of ys (end_of xs d).
Proof. revert d. induction xs; intros d; cbn; auto. Qed.
Lemma end_of_in xs x d : xs <> [] -> end_of xs d = Some x -> x ∈ xs.
Proof.
  revert d. induction xs as [|y xs IH]; intros d; [done|]. intros _. cbn. destruct xs as [|z xs].
  - cbn. intros [= ->]. left.
  - intros E. right. by eapply IH.
Qed.
Lemma snoc_case (xs : list nat) : xs = [] \/ exists ys y, xs = ys ++ [y].
Proof. induction xs as [|y ys _] using rev_ind; eauto. Qed.

Lemma chain_app m p xs ys n :
  chain m p (xs ++ ys) n <-> chain m p xs (first_of ys n) /\ chain m (end_of xs p) ys n.
Proof.
  revert p. induction xs as [|x xs IH]; intros p; cbn; [tauto|]. rewrite IH, first_of_app. tauto.
Qed.
Lemma chain_frame m m' p xs n : chain m p xs n -> (forall x, x ∈ xs -> m' !! x = m !! x) -> chain m' p xs n.
Proof.
  revert p. induction xs as [|x xs IH]; intros p; cbn; [done|]. intros [E C] F.
  rewrite F by left. split; [done|]. apply IH; [done|]. intros y Hy. apply F. by right.
Qed.
Lemma chain_insert m p xs n e l : chain m p xs n -> e ∉ xs -> chain (<[e := l]> m) p xs n.
Proof. intros C N. apply (chain_frame m); [done|]. intros x Hx. apply lookup_insert_ne. congruence. Qed.
Lemma chain_lookup m p xs n x : chain m p xs n -> x ∈ xs -> is_Some (m !! x).
Proof.
  revert p. induction xs as [|y xs IH]; intros p; cbn; [by intros _ ?%elem_of_nil|].
  intros [E C] [->|Hx]%elem_of_cons; [by rewrite E|by eapply IH].
Qed.

(** Write the last [next_used], or the first [prev_used]. *)
Lemma chain_set_next m p xs x n n' : x ∉ xs -> chain m p (xs ++ [x]) n ->
  m !! x = Some (mkLinks n (end_of xs p)) /\ chain (<[x := mkLinks n' (end_of xs p)]> m) p (xs ++ [x]) n'.
Proof.
  intros N C. apply chain_app in C as [C1 [C2 _]]. split; [done|]. apply chain_app. split.
  - by apply chain_insert.
  - cbn. by rewrite lookup_insert_eq.
Qed.
Lemma chain_set_prev m p y ys n p' : y ∉ ys -> chain m p (y :: ys) n ->
  m !! y = Some (mkLinks (first_of ys n) p) /\ chain (<[y := mkLinks (first_of ys n) p']> m) p' (y :: ys) n.
Proof.
  intros N [E C]. split; [done|]. cbn. rewrite lookup_insert_eq. split; [done|]. by apply chain_insert.
Qed.
Lemma lookup_released (m : gmap nat links) es x : x ∉ es -> foldr delete m es !! x = m !! x.
Proof.
  induction es as [|e es IH]; cbn; [done|]. intros [N1 N2]%not_elem_of_cons. rewrite lookup_delete_ne by done. auto.
Qed.
Lemma chain_release m p xs n es : chain m p xs n -> (forall x, x ∈ xs -> x ∉ es) -> chain (foldr delete m es) p xs n.
Proof. intros C D. apply (chain_frame m); [done|]. intros x Hx. apply lookup_released; auto. Qed.
Lemma dom_released (m : gmap nat links) es : dom (foldr delete m es) = dom m ∖ list_to_set es.
Proof.
  induction es as [|e es IH]; cbn; [set_solver|]. rewrite dom_delete_L, IH. set_solver.
Qed.

(** * The order of use *)

(** [order]: the elements, the one used last first; [alive]: the elements that
    exist; [held]: the mutex. *)
Record lru := mkLru { capacity : Z; order : list nat; alive : gset nat; held : option bool; frees : bool }.

Definition dropped (b : bool) (es : list nat) (a : gset nat) : gset nat :=
  if b then a ∖ list_to_set es else a.

(** What stays, and what goes, to make room for one more. *)
Definition full (l : lru) : bool := Z.of_nat (length (order l)) =? capacity l.
Definition kept (l : lru) : list nat :=
  if full l then take (length (order l) - 1) (order l) else order l.
Definition evicted (l : lru) : list nat :=
  if full l then drop (length (order l) - 1) (order l) else [].

Inductive op (K : Type) :=
| New (e : nat) | Lock | Unlock | First | Last | Search (key : K) | Add (e : nat) | Clear | Resize (n : Z).
Arguments New {K}. Arguments Lock {K}. Arguments Unlock {K}. Arguments First {K}. Arguments Last {K}.
Arguments Search {K}. Arguments Add {K}. Arguments Clear {K}. Arguments Resize {K}.

(** Results: an element or NULL, an error or not, nothing. *)
Inductive result := Void | Element (p : option nat) | Failed (b : bool).

Section spec.
Context `{Hash H K}.

Inductive lru_step (l : lru) : op K -> result -> lru -> Prop :=
| l_new e : lru_step l (New e) Void (mkLru (capacity l) (order l) ({[e]} ∪ alive l) (held l) (frees l))
| l_lock : lru_step l Lock Void (mkLru (capacity l) (order l) (alive l) (Some true) (frees l))
| l_unlock : lru_step l Unlock Void (mkLru (capacity l) (order l) (alive l) (Some false) (frees l))
| l_first : lru_step l First (Element (first_of (order l) None)) l
| l_last : lru_step l Last (Element (end_of (order l) None)) l
| l_hit key e : e ∈ order l -> same_key key e = true ->
    lru_step l (Search key) (Element (Some e))
      (mkLru (capacity l) (e :: delete_element e (order l)) (alive l) (held l) (frees l))
| l_miss key : (forall e, e ∈ order l -> same_key key e = false) -> lru_step l (Search key) (Element None) l
| l_disabled e : capacity l = 0 -> lru_step l (Add e) (Failed true) l
| l_add e : capacity l <> 0 -> lru_step l (Add e) (Failed false)
    (mkLru (capacity l) (e :: kept l) (dropped (frees l) (evicted l) (alive l)) (held l) (frees l))
| l_add_failed e : capacity l <> 0 -> lru_step l (Add e) (Failed true)
    (mkLru (capacity l) (kept l) (dropped (frees l) (e :: evicted l) (alive l)) (held l) (frees l))
| l_clear : lru_step l Clear Void
    (mkLru (capacity l) [] (dropped (frees l) (order l) (alive l)) (Some false) (frees l))
| l_resize n : lru_step l (Resize n) Void
    (mkLru n [] (dropped (frees l) (order l) (alive l)) (Some false) (frees l)).

(** What a caller may do: the mutex, which clear initialises along with the HASH,
    protects all but clear and resize, which lock it themselves. *)
Definition allowed (o : op K) (l : lru) : Prop :=
  match o with
  | New e => e ∉ alive l
  | Lock => held l = Some false
  | Unlock | First | Last | Search _ => held l = Some true
  | Add e => held l = Some true /\ e ∈ alive l /\ e ∉ order l
  | Clear => held l <> Some true
  | Resize n => held l = Some false /\ 0 <= n < 2 ^ 32
  end.

(** The operation on the object; [New] is the allocation of an element by the
    caller. *)
Definition exec (o : op K) (s : hash_filo H) : option (result * hash_filo H) :=
  match o with
  | New e => Some (Void, set_heap (<[e := mkLinks None None]> (heap s)) s)
  | Lock => s ← mutex_lock s; Some (Void, s)
  | Unlock => s ← mutex_unlock s; Some (Void, s)
  | First => p ← HashFilo.first s; Some (Element p, s)
  | Last => p ← HashFilo.last s; Some (Element p, s)
  | Search key => r ← search key s; Some (Element r.1, r.2)
  | Add e => r ← add e s; Some (Failed r.1, r.2)
  | Clear => s ← clear false s; Some (Void, s)
  | Resize n => s ← resize n s; Some (Void, s)
  end.

(** The object implements the order of use. *)
Record implements (s : hash_filo H) (l : lru) : Prop := {
  im_chain : chain (heap s) None (order l) None;
  im_nodup : NoDup (order l);
  im_first : first_link s = first_of (order l) None;
  im_last : last_link s = end_of (order l) None;
  im_cache : contents (cache s) ≡ₚ order l;
  im_size : m_size s = capacity l;
  im_bound : Z.of_nat (length (order l)) <= capacity l;
  im_alive : dom (heap s) = alive l;
  im_held : lock s = held l;
  im_init : init s = (if held l then true else false);
  im_fresh : held l = None -> order l = [];
  im_inited : my_hash_inited (cache s) = (if held l then true else false);
  im_frees : free_element s = frees l }.
End spec.
