(* ===== verification/HashFiloProps.v ===== *)
(** The operations of [hash_filo] implement those on the order of use. *)
From S2P Require Import Prelude DList HashFilo HashFiloSpec.
Open Scope Z_scope.

#[local] Arguments next : simpl never.
#[local] Arguments prev : simpl never.
#[local] Arguments set_next : simpl never.
#[local] Arguments set_prev : simpl never.

(** ** Links *)

Section links.
Context `{Hash H K}.
Implicit Types (s : hash_filo H).

Lemma filo_next_ok e l s : heap s !! e = Some l -> next (Some e) s = Some (next_used l).
Proof. intros E. unfold next; cbn. by rewrite E. Qed.
Lemma filo_prev_ok e l s : heap s !! e = Some l -> prev (Some e) s = Some (prev_used l).
Proof. intros E. unfold prev. cbn. by rewrite E. Qed.
Lemma filo_set_next_ok e l v s : heap s !! e = Some l ->
  set_next (Some e) v s = Some (set_heap (<[e := mkLinks v (prev_used l)]> (heap s)) s).
Proof. intros E. unfold set_next. cbn. by rewrite E. Qed.
Lemma filo_set_prev_ok e l v s : heap s !! e = Some l ->
  set_prev (Some e) v s = Some (set_heap (<[e := mkLinks (next_used l) v]> (heap s)) s).
Proof. intros E. unfold set_prev. cbn. by rewrite E. Qed.

(** Only links, and which elements are first and last, may differ. *)
Definition relinked s s' : Prop :=
  m_size s' = m_size s /\ free_element s' = free_element s /\ init s' = init s /\ lock s' = lock s
  /\ cache s' = cache s /\ dom (heap s') = dom (heap s).

Lemma relinked_trans s1 s2 s3 : relinked s1 s2 -> relinked s2 s3 -> relinked s1 s3.
Proof. unfold relinked. intros. destruct_and!. repeat split; congruence. Qed.
Lemma relinked_insert s h e l l' : heap s !! e = Some l -> h = <[e := l']> (heap s) -> relinked s (set_heap h s).
Proof.
  intros E ->. repeat split. cbn. rewrite dom_insert_L. apply elem_of_dom_2 in E. set_solver.
Qed.

Lemma filo_unlink_ok s a e b : chain (heap s) None (a ++ e :: b) None -> NoDup (a ++ e :: b) -> a <> [] ->
  last_link s = end_of (a ++ e :: b) None ->
  exists s', unlink e s = Some s' /\ relinked s s' /\ chain (heap s') None (a ++ b) None
    /\ first_link s' = first_link s /\ last_link s' = end_of (a ++ b) None.
Proof.
  intros C N Na El. destruct (snoc_case a) as [->|(a' & p & ->)]; [done|].
  assert (D : p ∉ a' /\ p ∉ b /\ e <> p /\ e ∉ b /\ NoDup b /\ (forall x, x ∈ b -> x ∉ a' ++ [p])).
  { rewrite <- app_assoc in N. cbn in N. apply list.NoDup_app in N as (N1 & N2 & N3).
    apply Prelude.NoDup_cons_iff in N3 as [Np N3]. apply Prelude.NoDup_cons_iff in N3 as [Ne N3].
    split; [intros Hp; apply (N2 p Hp); left|]. split; [intros Hp; apply Np; by right|].
    split; [intros ->; apply Np; left|]. split; [done|]. split; [done|].
    intros x Hx [Hx'|Hx']%elem_of_app; [apply (N2 x Hx'); by do 2 right|].
    apply list_elem_of_singleton in Hx' as ->. apply Np. by right. }
  destruct D as (D1 & D2 & D3 & D4 & D5 & D6). apply chain_app in C as [C1 [C2 C3]].
  rewrite end_of_app in C2. cbn in C1, C2. rewrite end_of_app in El. cbn in El. unfold unlink.
  destruct b as [|n b].
  - cbn in El. rewrite El, decide_True by done. rewrite (filo_prev_ok _ _ _ C2). cbn.
    destruct (chain_set_next _ _ _ _ _ None D1 C1) as [Ep Cp].
    rewrite (filo_set_next_ok _ _ _ (set_last (Some p) s) Ep). eexists. split; [done|]. split.
    { eapply relinked_trans; [|by eapply relinked_insert]. done. }
    rewrite app_nil_r, end_of_app. cbn. done.
  - cbn in El. rewrite decide_False.
    2: { rewrite El. intros E. symmetry in E. apply D4. by apply (end_of_in (n :: b) e (Some e)). }
    rewrite (filo_next_ok _ _ _ C2), (filo_prev_ok _ _ _ C2). cbn.
    apply Prelude.NoDup_cons_iff in D5 as [D5 _].
    destruct (chain_set_prev _ _ _ _ _ (Some p) D5 C3) as [En Cn]. rewrite (filo_set_prev_ok _ _ _ _ En). cbn.
    set (s1 := set_heap _ s).
    assert (E1 : heap s1 !! e = Some (mkLinks (Some n) (Some p)))
      by (cbn; rewrite lookup_insert_ne; [done|intros <-; apply D4; left]).
    rewrite (filo_next_ok _ _ _ E1), (filo_prev_ok _ _ _ E1). cbn.
    assert (Cp : chain (heap s1) None (a' ++ [p]) (Some e)) by (apply chain_insert; [done|apply D6; left]).
    destruct (chain_set_next _ _ _ _ _ (Some n) D1 Cp) as [Ep Cp']. rewrite (filo_set_next_ok _ _ _ s1 Ep). eexists. split; [done|].
    split; [eapply relinked_trans; by eapply relinked_insert|]. split; [|split; [done|]].
    + apply chain_app. split; [done|]. rewrite end_of_app. cbn [end_of]. by apply chain_insert.
    + cbn. rewrite El, end_of_app. done.
Qed.

Lemma link_first_ok s e xs : chain (heap s) None xs None -> NoDup xs -> e ∉ xs -> is_Some (heap s !! e) ->
  xs <> [] -> first_link s = first_of xs None ->
  exists s', link_first e s = Some s' /\ relinked s s' /\ chain (heap s') None (e :: xs) None
    /\ first_link s' = Some e /\ last_link s' = last_link s.
Proof.
  intros C N Ne [l El] Nx Ef. destruct xs as [|y ys]; [done|]. cbn in Ef. unfold link_first.
  rewrite (filo_set_prev_ok _ _ _ _ El). cbn. rewrite Ef.
  assert (E1 : heap (set_heap (<[e := mkLinks (next_used l) None]> (heap s)) s) !! e = Some (mkLinks (next_used l) None))
    by apply lookup_insert_eq.
  rewrite (filo_set_next_ok _ _ _ _ E1). cbn. rewrite Ef, insert_insert_eq.
  assert (Ny : e <> y) by (intros ->; apply Ne; left). apply Prelude.NoDup_cons_iff in N as [Nyy _].
  destruct (chain_set_prev _ _ _ _ _ (Some e) Nyy (chain_insert _ _ _ _ e (mkLinks (Some y) None) C Ne)) as [Ey Cy].
  erewrite filo_set_prev_ok by exact Ey. cbn. eexists. split; [done|].
  split; [|split; [|done]].
  - repeat split. cbn. rewrite !dom_insert_L. apply elem_of_dom_2 in El. destruct C as [C _]. apply elem_of_dom_2 in C. set_solver.
  - split; [|exact Cy]. cbn. rewrite lookup_insert_ne by done. apply lookup_insert_eq.
Qed.
End links.

(** ** Operations *)

Section operations.
Context `{LawfulHash H K}.
Implicit Types (s : hash_filo H) (l : lru).

Lemma release_fields es s :
  m_size (release es s) = m_size s /\ free_element (release es s) = free_element s /\ init (release es s) = init s
  /\ first_link (release es s) = first_link s /\ last_link (release es s) = last_link s
  /\ lock (release es s) = lock s /\ cache (release es s) = cache s
  /\ dom (heap (release es s)) = dropped (free_element s) es (dom (heap s)).
Proof. unfold release, dropped. destruct (free_element s) eqn:E; repeat split; cbn; auto. apply dom_released. Qed.
Lemma release_chain es s p xs n : chain (heap s) p xs n -> (forall x, x ∈ xs -> x ∉ es) ->
  chain (heap (release es s)) p xs n.
Proof. unfold release. destruct (free_element s); [|done]. apply chain_release. Qed.

Lemma need_inited_ok s : my_hash_inited (cache s) = true -> need_inited s = Some tt.
Proof. unfold need_inited. by intros ->. Qed.

Lemma evict_ok s xs x : my_hash_inited (cache s) = true -> chain (heap s) None (xs ++ [x]) None -> NoDup (xs ++ [x]) ->
  first_link s = first_of (xs ++ [x]) None -> last_link s = Some x ->
  exists s', evict s = Some s' /\ chain (heap s') None xs None
    /\ first_link s' = first_of xs None /\ last_link s' = end_of xs None
    /\ m_size s' = m_size s /\ free_element s' = free_element s /\ init s' = init s /\ lock s' = lock s
    /\ cache s' = my_hash_delete (cache s) x /\ dom (heap s') = dropped (free_element s) [x] (dom (heap s)).
Proof.
  intros Hi C N Ef El. pose proof C as C0. apply chain_app in C0 as [C1 [C2 _]]. unfold evict. rewrite El, (filo_prev_ok _ _ _ C2). cbn.
  apply list.NoDup_app in N as (N & Nx & _). destruct (snoc_case xs) as [->|(ys & y & ->)].
  - cbn. rewrite need_inited_ok by done. cbn. eexists. split; [done|]. destruct (release_fields [x] (set_cache (my_hash_delete (cache s) x) (set_first None (set_last None s))))
      as (? & ? & ? & ? & ? & ? & ? & ?). repeat split; assumption.
  - rewrite end_of_app. cbn. apply list.NoDup_app in N as (_ & Ny & _).
    assert (Ny' : y ∉ ys) by (intros Hy; apply (Ny y Hy); left).
    destruct (chain_set_next _ _ _ _ _ None Ny' C1) as [Ey Cy]. rewrite (filo_set_next_ok _ _ _ (set_last (Some y) s) Ey). cbn.
    rewrite need_inited_ok by done. cbn. eexists. split; [done|]. match goal with |- context [release [x] ?s0] => destruct (release_fields [x] s0) as (? & ? & ? & Hf & ? & ? & ? & Hd) end.
    cbn in *. split; [apply release_chain; [done|]|].
    + intros z Hz Hzx. apply list_elem_of_singleton in Hzx as ->. apply (Nx x Hz). left.
    + rewrite Hf, Hd, Ef, first_of_app. repeat split; try assumption.
      * by destruct ys.
      * f_equal. rewrite dom_insert_L. apply elem_of_dom_2 in Ey. set_solver.
Qed.

(** The element that goes is the last one. *)
Lemma kept_evicted l : full l = true -> order l <> [] ->
  exists x, order l = kept l ++ [x] /\ evicted l = [x].
Proof.
  intros F No. unfold kept, evicted. rewrite F. destruct (snoc_case (order l)) as [|(xs & x & E)]; [done|].
  exists x. rewrite E, length_app. cbn. replace (length xs + 1 - 1)%nat with (length xs) by lia.
  by rewrite take_app_length, drop_app_length.
Qed.

(** [add], once there is room. *)
Lemma insert_first_ok s e xs : chain (heap s) None xs None -> NoDup xs -> e ∉ xs -> is_Some (heap s !! e) ->
  first_link s = first_of xs None -> last_link s = end_of xs None ->
  exists s', (s ← set_prev (Some e) None s; s ← set_next (Some e) (first_link s) s;
    s ← (if first_link s then set_prev (first_link s) (Some e) s else Some (set_last (Some e) s));
    Some (false, set_first (Some e) s)) = Some (false, s') /\ relinked s s'
    /\ chain (heap s') None (e :: xs) None /\ first_link s' = Some e /\ last_link s' = end_of (e :: xs) None.
Proof.
  intros C N Ne Ee Ef El. destruct xs as [|y ys].
  - destruct Ee as [k Ek]. rewrite (filo_set_prev_ok _ _ _ _ Ek). cbn. rewrite Ef. cbn.
    erewrite filo_set_next_ok by apply lookup_insert_eq. cbn. rewrite Ef. cbn. eexists. split; [done|]. cbn.
    rewrite insert_insert_eq, lookup_insert_eq. repeat split. cbn. rewrite dom_insert_L. apply elem_of_dom_2 in Ek. set_solver.
  - destruct (link_first_ok s e (y :: ys) C N Ne Ee ltac:(done) Ef) as (s' & E & R & C' & F' & L').
    exists s'. split; [|by rewrite L'].
    unfold link_first in E. revert E. destruct Ee as [k Ek]. rewrite (filo_set_prev_ok _ _ _ _ Ek). cbn. rewrite Ef.
    erewrite filo_set_next_ok by apply lookup_insert_eq. cbn. rewrite Ef. destruct (set_prev _ _ _); cbn; congruence.
Qed.

Definition with_room l : lru :=
  mkLru (capacity l) (kept l) (dropped (frees l) (evicted l) (alive l)) (held l) (frees l).

Lemma kept_order l e : e ∈ kept l -> e ∈ order l.
Proof.
  unfold kept. destruct (full l); [|done]. intros Hk. rewrite <- (take_drop (length (order l) - 1) (order l)).
  apply elem_of_app. by left.
Qed.
Lemma evicted_order l e : e ∈ evicted l -> e ∈ order l.
Proof.
  unfold evicted. destruct (full l); [|by intros ?%elem_of_nil]. intros Hk.
  rewrite <- (take_drop (length (order l) - 1) (order l)). apply elem_of_app. by right.
Qed.

Lemma make_room_ok s l : implements s l -> held l = Some true -> capacity l <> 0 ->
  exists s', (if records (cache s) =? m_size s then evict s else Some s) = Some s'
    /\ implements s' (with_room l) /\ Z.of_nat (length (kept l)) < capacity l.
Proof.
  intros I Hh Nc. destruct I as [C N Ef El Ec Em Eb Ed Eh Ei Eo0 Ein Efr]. rewrite Hh in Ein.
  rewrite records_contents, Em, (Permutation_length Ec). fold (full l). destruct (full l) eqn:F.
  - unfold full in F. apply Z.eqb_eq in F. assert (No : order l <> []) by (intros E; rewrite E in F; cbn in F; lia).
    destruct (kept_evicted l) as (x & E1 & E2); [by apply Z.eqb_eq|done|]. rewrite E1 in C, N, Ef, El, Ec, F.
    rewrite end_of_app in El. destruct (evict_ok s (kept l) x Ein C N Ef El) as (s' & -> & C' & F' & L' & M' & R' & I' & K' & H' & D').
    exists s'. split; [done|]. rewrite length_app in F. cbn in F. split; [|lia]. unfold with_room. rewrite E2.
    apply list.NoDup_app in N as (N & _).
    assert (Hx : x ∈ contents (cache s)) by (rewrite Ec; apply elem_of_app; right; left).
    destruct (delete_contents (cache s) x Ein Hx) as [Ein' P]. split; cbn; try congruence; [|lia|by rewrite H', Hh].
    rewrite H'. rewrite Ec, Permutation_app_comm in P. cbn in P. by apply Permutation_cons_inv in P.
  - exists s. unfold full in F. apply Z.eqb_neq in F. split; [done|]. unfold with_room, kept, evicted. unfold full.
    rewrite (proj2 (Z.eqb_neq _ _) F). split; [|lia]. split; cbn; try assumption; try congruence.
    + unfold dropped. destruct (frees l); set_solver.
    + by rewrite Hh.
Qed.

Lemma implements_release es s l : implements s l -> (forall x, x ∈ order l -> x ∉ es) ->
  implements (release es s) (mkLru (capacity l) (order l) (dropped (frees l) es (alive l)) (held l) (frees l)).
Proof.
  intros [] D. destruct (release_fields es s) as (? & ? & ? & ? & ? & ? & Hc & Hd).
  split; cbn; rewrite ?Hc; try congruence; try done. by apply release_chain.
Qed.

Definition simulated (o : op K) s l : Prop :=
  exists r s' l', exec o s = Some (r, s') /\ lru_step l o r l' /\ implements s' l'.

Lemma simulate_add e s l : implements s l -> allowed (Add e : op K) l -> simulated (Add e) s l.
Proof.
  intros I (Hl & Ae & Ne). unfold simulated. cbn. unfold add. rewrite (im_size s l I).
  destruct (Z.eqb_spec (capacity l) 0) as [Z|Nz]; [exists (Failed true), s, l; split; [done|]; split; [by constructor|done]|].
  destruct (make_room_ok s l I Hl Nz) as (s1 & E1 & I1 & B). rewrite (im_size s l I) in E1. rewrite E1. cbn.
  pose proof (im_inited _ _ I1) as Ein1. cbn in Ein1. rewrite Hl in Ein1. rewrite need_inited_ok by done. cbn.
  assert (Nk : e ∉ kept l) by (intros Hk; by apply Ne, kept_order).
  destruct (my_hash_insert (cache s1) e) as [h|] eqn:Ei; cbn.
  - assert (A1 : is_Some (heap s1 !! e)).
    { apply elem_of_dom. rewrite (im_alive _ _ I1). cbn. unfold dropped. destruct (frees l); [|done].
      apply elem_of_difference. split; [done|]. rewrite elem_of_list_to_set. intros He. by apply Ne, evicted_order. }
    destruct I1 as [C N Ef El Ec Em Eb Ed Eh Ein Eo0 Einn Efr]. cbn in *.
    destruct (insert_contents _ _ _ Ein1 Ei) as [Einh Ech].
    destruct (insert_first_ok (set_cache h s1) e (kept l) C N Nk A1 Ef El) as (s2 & E2 & R & C2 & F2 & L2).
    cbn in E2. rewrite E2. cbn. eexists _, _, _. split; [done|]. split; [by apply l_add|].
    destruct R as (R1 & R2 & R3 & R4 & R5 & R6). cbn in *. split; cbn; try congruence.
    + by apply Prelude.NoDup_cons_iff.
    + by rewrite R5, Ech, Ec.
    + lia.
  - eexists _, _, _. split; [done|]. split; [by apply l_add_failed|].
    pose proof (implements_release [e] s1 _ I1) as I2. cbn in I2. unfold with_room in I2. cbn in I2.
    replace (dropped (frees l) (e :: evicted l) (alive l)) with (dropped (frees l) [e] (dropped (frees l) (evicted l) (alive l)))
      by (unfold dropped; destruct (frees l); [cbn; set_solver|done]).
    apply I2. intros x Hx ->%list_elem_of_singleton. done.
Qed.

Lemma delete_element_perm e xs : e ∈ xs -> xs ≡ₚ e :: delete_element e xs.
Proof.
  intros He. destruct (split_at e xs He) as (a & b & -> & Na). rewrite (delete_element_eq e a b Na).
  by rewrite Permutation_middle.
Qed.

Lemma simulate_search key s l : implements s l -> held l = Some true -> simulated (Search key) s l.
Proof.
  intros I Hl. unfold simulated. cbn. unfold search, assert_owner. rewrite (im_held s l I), Hl. cbn.
  pose proof (im_inited s l I) as Ein0. rewrite Hl in Ein0. rewrite need_inited_ok by done. cbn.
  destruct (my_hash_search (cache s) key) as [e|] eqn:Es; cbn.
  2: { exists (Element None), s, l. split; [done|]. split; [|done]. constructor. intros e He.
       apply (search_absent (cache s)); [done..|]. by rewrite (im_cache s l I). }
  destruct (search_found _ _ _ Ein0 Es) as [He Hk]. rewrite (im_cache s l I) in He.
  destruct (split_at e (order l) He) as (a & b & Eo & Na).
  pose proof (l_hit l key e He Hk) as St. rewrite Eo, (delete_element_eq e a b Na) in St.
  destruct I as [C N Ef El Ec Em Eb Ed Eh Ein Eo0 Einn Efr]. rewrite Eo in C, N, Ef, El, Ec, Eb.
  destruct a as [|x a].
  - cbn in Ef. rewrite Ef. cbn. assert (Nl : exists y, last_link s = Some y).
    { rewrite El. cbn. clear. generalize e. induction b; cbn; eauto. }
    destruct Nl as [y Ey]. rewrite Ey, decide_True by done. cbn. eexists _, s, _. split; [done|]. split; [exact St|].
    split; cbn; auto; congruence.
  - assert (Nf : Some e <> first_link s) by (rewrite Ef; cbn; intros [= ->]; apply Na; left).
    assert (Nl : exists y, last_link s = Some y).
    { rewrite El. cbn. clear. generalize x. induction (a ++ e :: b); cbn; eauto. }
    destruct Nl as [y Ey]. rewrite Ef in Nf. rewrite Ef, Ey. cbn. rewrite decide_False by done.
    destruct (filo_unlink_ok s (x :: a) e b C N ltac:(done) El) as (s1 & -> & R1 & C1 & F1 & L1). cbn.
    assert (N' : NoDup (e :: (x :: a) ++ b)) by (by rewrite Permutation_middle).
    apply Prelude.NoDup_cons_iff in N' as [Ne N'].
    assert (A1 : is_Some (heap s1 !! e)).
    { apply elem_of_dom. rewrite (proj2 (proj2 (proj2 (proj2 (proj2 R1))))). apply elem_of_dom.
      apply (chain_lookup _ _ _ _ e C). apply elem_of_app. right. left. }
    destruct (link_first_ok s1 e ((x :: a) ++ b) C1 N' Ne A1 ltac:(done)) as (s2 & -> & R2 & C2 & F2 & L2).
    { by rewrite F1, Ef. }
    cbn. eexists _, s2, _. split; [done|]. split; [exact St|].
    pose proof (relinked_trans _ _ _ R1 R2) as (R3 & R4 & R5 & R6 & R7 & R8). split; cbn; try congruence.
    + exact C2.
    + by apply Prelude.NoDup_cons_iff.
    + by rewrite L2, L1.
    + rewrite R7, Ec. symmetry. exact (Permutation_middle (x :: a) b e).
    + cbn in Eb. rewrite length_app in *. cbn in Eb. lia.
Qed.

(** Emptying the cache, under the mutex. *)
Lemma implements_emptied n s l : implements s l -> 0 <= n ->
  let s1 := set_last None (set_first None (set_m_size n (set_lock (Some true) (set_init true s)))) in
  implements (set_cache (my_hash_init n) (release (contents (cache s)) s1))
    (mkLru n [] (dropped (frees l) (order l) (alive l)) (Some true) (frees l)).
Proof.
  intros I Hn s1. destruct (release_fields (contents (cache s)) s1) as (R1 & R2 & R3 & R4 & R5 & R6 & R7 & R8).
  destruct I as [C N Ef El Ec Em Eb Ed Eh Ei Eo0 Ein Efr]. cbn in *. destruct (init_contents n) as [In Cn].
  split; cbn; try congruence; try done; try apply NoDup_nil_2; try lia.
  - by rewrite Cn.
  - rewrite R8, Efr, Ed. unfold dropped. destruct (frees l); [|done].
    apply set_eq. intros x. rewrite !elem_of_difference, !elem_of_list_to_set. by rewrite Ec.
Qed.
Lemma implements_unlock s l : implements s l -> held l = Some true ->
  implements (set_lock (Some false) s) (mkLru (capacity l) (order l) (alive l) (Some false) (frees l)).
Proof. intros [] Hl. rewrite Hl in *. by split. Qed.
Lemma implements_lock s l : implements s l -> held l = Some false ->
  implements (set_lock (Some true) s) (mkLru (capacity l) (order l) (alive l) (Some true) (frees l)).
Proof. intros [] Hl. rewrite Hl in *. by split. Qed.

Lemma simulate_clear s l : implements s l -> held l <> Some true -> simulated Clear s l.
Proof.
  intros I Hl. pose proof (implements_emptied (capacity l) s l I) as E. pose proof (im_bound s l I).
  specialize (E ltac:(lia)). pose proof (implements_unlock _ _ E eq_refl) as E'. cbn in E'.
  unfold simulated. cbn. eexists _, _, _. split; [|split; [apply l_clear|exact E']].
  unfold clear, mutex_lock, mutex_unlock. rewrite (im_init s l I). pose proof (im_size s l I) as Em.
  destruct I as [_ _ _ _ _ _ _ _ Eh Ei _ _ _]. rewrite <- Em.
  destruct s as [ms fe ini fl ll lk ca hp]. cbn in *. subst lk ini. unfold free_cache, release. cbn.
  destruct (held l) as [[]|]; [done|..]; by destruct fe.
Qed.

Lemma simulate_resize n s l : implements s l -> held l = Some false -> 0 <= n -> simulated (Resize n) s l.
Proof.
  intros I Hl Hn. pose proof (implements_emptied n s l I Hn) as E.
  pose proof (implements_unlock _ _ E eq_refl) as E'. cbn in E'.
  unfold simulated. cbn. eexists _, _, _. split; [|split; [apply l_resize|exact E']].
  unfold resize, clear, mutex_lock, mutex_unlock.
  destruct I as [_ _ _ _ _ _ _ _ Eh Ei _ _ _].
  destruct s as [ms fe ini fl ll lk ca hp]. cbn in *. rewrite Hl in *. subst lk ini. unfold free_cache, release. cbn. by destruct fe.
Qed.

Lemma filo_simulate_op o s l : implements s l -> allowed o l -> simulated o s l.
Proof.
  intros I A. destruct o as [e| | | | |key|e| |n]; cbn in A.
  - eexists _, _, _. split; [done|]. split; [constructor|]. destruct I as [C N Ef El Ec Em Eb Ed Eh Ei Eo0 Ein Efr]. split; cbn; try done.
    + apply chain_insert; [done|]. intros He. apply A. rewrite <- Ed. apply elem_of_dom. by eapply chain_lookup.
    + by rewrite dom_insert_L, Ed.
  - eexists _, _, _. split; [cbn; unfold mutex_lock; by rewrite (im_held s l I), A|]. split; [constructor|by apply implements_lock].
  - eexists _, _, _. split; [cbn; unfold mutex_unlock; by rewrite (im_held s l I), A|]. split; [constructor|by apply implements_unlock].
  - eexists _, _, _. split; [cbn; unfold HashFilo.first, assert_owner; by rewrite (im_held s l I), A|].
    rewrite (im_first s l I). split; [constructor|done].
  - eexists _, _, _. split; [cbn; unfold HashFilo.last, assert_owner; by rewrite (im_held s l I), A|].
    rewrite (im_last s l I). split; [constructor|done].
  - by apply simulate_search.
  - by apply simulate_add.
  - by apply simulate_clear.
  - destruct A as [? [? _]]. by apply simulate_resize.
Qed.

(** The destructor. *)
Lemma dropped_perm b es es' a : es ≡ₚ es' -> dropped b es a = dropped b es' a.
Proof.
  intros P. unfold dropped. destruct b; [|done]. apply set_eq. intros x.
  rewrite !elem_of_difference, !elem_of_list_to_set. by rewrite P.
Qed.
Lemma dropped_nil b a : dropped b [] a = a.
Proof. unfold dropped. destruct b; [|done]. set_solver. Qed.

Lemma destruct_ok s l : implements s l -> held l <> Some true ->
  exists s'', destruct_filo s = Some s'' /\ lock s'' = None
    /\ dom (heap s'') = dropped (frees l) (order l) (alive l).
Proof.
  intros [C N Ef El Ec Em Eb Ed Eh Ei Eo0 Ein Efr] Hl. unfold destruct_filo. rewrite Ei.
  destruct (held l) as [[]|] eqn:E; [done| |].
  - destruct (has_buffer (cache s)) eqn:B.
    + destruct (release_fields (contents (cache s)) s) as (_ & _ & _ & _ & _ & R6 & _ & R8).
      unfold free_cache. cbn. rewrite R6, Eh. eexists. split; [done|]. split; [done|]. cbn.
      rewrite R8, Efr, Ed. by apply dropped_perm.
    + rewrite Eh. eexists. split; [done|]. split; [done|]. cbn. apply buffer_contents in B.
      rewrite B in Ec. apply Permutation_nil_l in Ec. rewrite <- Ec. by rewrite dropped_nil.
  - exists s. split; [done|]. split; [done|]. by rewrite Ed, (Eo0 eq_refl), dropped_nil.
Qed.
End operations.

(** * Any use of the cache *)

Section runs.
Context `{Hash H K}.

Fixpoint exec_all (os : list (op K)) (s : hash_filo H) : option (list result * hash_filo H) :=
  match os with
  | [] => Some ([], s)
  | o :: os => r ← exec o s; rs ← exec_all os r.2; Some (r.1 :: rs.1, rs.2)
  end.

Inductive lru_run : lru -> list (op K) -> list result -> lru -> Prop :=
| lru_done l : lru_run l [] [] l
| lru_next l o r l' os rs l'' : lru_step l o r l' -> lru_run l' os rs l'' -> lru_run l (o :: os) (r :: rs) l''.

(** The caller keeps to the rules whatever the results are. *)
Fixpoint respects (os : list (op K)) (l : lru) : Prop :=
  match os with
  | [] => True
  | o :: os => allowed o l /\ forall r l', lru_step l o r l' -> respects os l'
  end.

(** C14: Whatever sequence of calls a caller makes that calls clear first, holds
    the mutex for look-ups and additions and adds elements that exist and are not
    in the cache, the cache never dereferences NULL or a freed element, uses a
    HASH or mutex that is not initialised, or fails an assertion, and its answers
    are those of a list in the order of last use: a look-up moves its element to
    the front, adding to a full cache drops the last one, and the HASH and the
    chain hold the same elements, never more than the capacity.  When the mutex
    is not held afterwards the object can be destroyed, which frees the elements
    in the cache, where there is a free_element, and no others. *)
Theorem hash_filo_implements_lru `{!LawfulHash H K} (os : list (op K)) (s : hash_filo H) (l : lru) :
  implements s l -> respects os l ->
  exists rs s' l', exec_all os s = Some (rs, s') /\ lru_run l os rs l' /\ implements s' l'
    /\ (held l' <> Some true -> exists s'', destruct_filo s' = Some s'' /\ lock s'' = None
         /\ dom (heap s'') = dropped (frees l') (order l') (alive l')).
Proof.
  revert s l. induction os as [|o os IH]; intros s l I R.
  - exists [], s, l. split; [done|]. split; [constructor|]. split; [done|]. by apply destruct_ok.
  - destruct R as [A R]. destruct (filo_simulate_op o s l I A) as (r & s1 & l1 & E1 & St & I1).
    destruct (IH s1 l1 I1 (R r l1 St)) as (rs & s2 & l2 & E2 & Rn & I2 & D).
    exists (r :: rs), s2, l2. split; [cbn; by rewrite E1; cbn; rewrite E2|]. split; [by econstructor|done].
Qed.

(** A new object, with the elements that exist. *)
Lemma construct_implements `{!LawfulHash H K} n b (m : gmap nat links) : 0 <= n ->
  implements (construct n b m) (mkLru n [] (dom m) None b).
Proof.
  intros Hn. destruct zeroed_contents as [Z1 Z2].
  split; cbn; try done; [apply NoDup_nil_2|by rewrite Z2].
Qed.
End runs.

(** ** A HASH that is a list, whose keys are the elements *)
#[local] Instance list_hash : Hash (option (list nat)) nat := {|
  records h := Z.of_nat (length (default [] h));
  blength h := if h then 1 else 0;
  has_buffer h := match h with Some (_ :: _) => true | _ => false end;
  my_hash_search h k := if decide (k ∈ default [] h) then Some k else None;
  my_hash_insert h e := if decide (e ∈ default [] h) then None else Some (Some (e :: default [] h));
  my_hash_delete h e := Some (delete_element e (default [] h));
  my_hash_init _ := Some [];
  my_hash_free _ := None;
  zeroed := None;
  contents h := default [] h;
  same_key k e := bool_decide (k = e) |}.
#[local] Instance list_hash_lawful : LawfulHash (option (list nat)) nat.
Proof.
  constructor; cbn; try done.
  - intros [[|x h]|]; done.
  - intros h k e _. destruct (decide (k ∈ _)); [|done]. intros [= <-]. by rewrite bool_decide_true.
  - intros h k e _. destruct (decide (k ∈ _)); [done|]. intros _ He. apply bool_decide_false. congruence.
  - intros h e h' _. destruct (decide (e ∈ _)); [done|]. by intros [= <-].
  - intros h e _ He. split; [done|]. destruct (split_at e _ He) as (a & b & -> & Na).
    rewrite (delete_element_eq e a b Na). by rewrite Permutation_middle.
Qed.

Definition two_slots : hash_filo (option (list nat)) := construct 2 true ∅.
Definition uses : list (op nat) :=
  [Clear; New 1; New 2; New 3; Lock; Add 1; Add 2; Search 1%nat; Unlock; Lock; Add 3; Last; Search 2%nat; First].
Lemma uses_results : (exec_all uses two_slots ≫= fun r => Some r.1)
  = Some [Void; Void; Void; Void; Void; Failed false; Failed false; Element (Some 1%nat); Void; Void; Failed false;
          Element (Some 1%nat); Element None; Element (Some 3%nat)].
Proof. reflexivity. Qed.

(** An addition to an object that was never cleared is undefined. *)
Lemma add_before_clear : exec_all [New 1; Add 1] two_slots = None.
Proof. reflexivity. Qed.

Definition short_use : list (op nat) := [Clear; New 1; Lock; Add 1; Search 1%nat; Unlock].
Lemma hash_filo_witness : exists rs s' l',
  exec_all short_use two_slots = Some (rs, s')
  /\ lru_run (mkLru 2 [] ∅ None true) short_use rs l' /\ implements s' l'
  /\ (held l' <> Some true -> exists s'', destruct_filo s' = Some s'' /\ lock s'' = None
        /\ dom (heap s'') = dropped (frees l') (order l') (alive l')).
Proof.
  refine (hash_filo_implements_lru short_use two_slots (mkLru 2 [] ∅ None true) _ _).
  - exact (construct_implements 2 true ∅ ltac:(done)).
  - repeat (split; [cbn; try done; set_solver|intros r l' St; inversion St; subst; clear St; cbn in *]); try done.
Defined.
