(* ===== verification/TranxAlloc.v ===== *)
(** The node allocator of semi-synchronous replication: [Tranx_node_allocator] of
    semisync_master.h.

    Nodes are handed out in sequence from blocks of sixteen that form a chain.  A
    block is known by its address; a pointer to a node is an address inside its
    block.  [my_malloc] is a parameter.  [None] is undefined behaviour, or a
    failed assertion. *)
From S2P Require Import Prelude.
Open Scope Z_scope.

Definition BLOCK_TRANX_NODES : Z := 16.

(** [thd], [next] and [hash_next] are addresses. *)
Record Tranx_node := mkNode { log_name : list Z; log_pos : Z; thd : Z; next : Z; hash_next : Z }.
Record Block := mkBlock { block_next : option Z; nodes : list Tranx_node }.

(** FN_REFLEN bytes, and four members of eight. *)
Definition sizeof_node : Z := 512 + 4 * 8.
Definition sizeof_block : Z := 8 + BLOCK_TRANX_NODES * sizeof_node.
(** [&(block->nodes[i])] *)
Definition node_address (b i : Z) : Z := b + 8 + i * sizeof_node.

Abbreviation heap := (gmap Z Block).

(** my_malloc(sizeof(Block)): NULL, or the address and contents of a new block. *)
Class Malloc := my_malloc : heap -> option (Z * Block).
Class LawfulMalloc `{Malloc} : Prop := {
  malloc_disjoint h a blk b : my_malloc h = Some (a, blk) -> is_Some (h !! b) ->
    a + sizeof_block <= b \/ b + sizeof_block <= a;
  malloc_nodes h a blk : my_malloc h = Some (a, blk) -> length (nodes blk) = 16%nat;
  (** fewer than [2^32] blocks, or 36 TB *)
  malloc_fits h a blk : my_malloc h = Some (a, blk) -> Z.of_nat (size h) < 2 ^ 32 - 1 }.

Record Tranx_node_allocator := mkAlloc
  { reserved_blocks : Z; first_block : option Z; last_block : option Z; current_block : option Z;
    last_node : Z; block_num : Z; mem : heap }.

Definition set_first v s :=
  mkAlloc (reserved_blocks s) v (last_block s) (current_block s) (last_node s) (block_num s) (mem s).
Definition set_last v s :=
  mkAlloc (reserved_blocks s) (first_block s) v (current_block s) (last_node s) (block_num s) (mem s).
Definition set_current v s :=
  mkAlloc (reserved_blocks s) (first_block s) (last_block s) v (last_node s) (block_num s) (mem s).
Definition set_last_node v s :=
  mkAlloc (reserved_blocks s) (first_block s) (last_block s) (current_block s) v (block_num s) (mem s).
Definition set_block_num v s :=
  mkAlloc (reserved_blocks s) (first_block s) (last_block s) (current_block s) (last_node s) v (mem s).
Definition set_mem v s :=
  mkAlloc (reserved_blocks s) (first_block s) (last_block s) (current_block s) (last_node s) (block_num s) v.

Definition get_next (p : option Z) s : option (option Z) := b ← p; blk ← mem s !! b; Some (block_next blk).
Definition set_next (p v : option Z) s : option Tranx_node_allocator :=
  b ← p; blk ← mem s !! b; Some (set_mem (<[b := mkBlock v (nodes blk)]> (mem s)) s).

Definition construct (reserved_nodes : Z) (h : heap) : Tranx_node_allocator :=
  mkAlloc (u32 (reserved_nodes / BLOCK_TRANX_NODES + (if 1 <? reserved_nodes mod BLOCK_TRANX_NODES then 2 else 1)))
    None None None (-1) 0 h.

Definition free_block (b : Z) s : option Tranx_node_allocator :=
  match mem s !! b with
  | Some _ => Some (set_block_num (u32 (block_num s - 1)) (set_mem (delete b (mem s)) s))
  | None => None
  end.

(** Loops take at most as many turns as there are blocks. *)
Definition fuel s : nat := S (size (mem s)).

Fixpoint destroy_loop (n : nat) (block : option Z) s : option Tranx_node_allocator :=
  match n, block with
  | O, _ => None
  | _, None => Some s
  | S n, Some b => next ← get_next (Some b) s; s ← free_block b s; destroy_loop n next s
  end.
Definition destroy s : option Tranx_node_allocator := destroy_loop (fuel s) (first_block s) s.

(** The result is whether it failed. *)
Definition allocate_block `{Malloc} s : option (bool * Tranx_node_allocator) :=
  match my_malloc (mem s) with
  | None => Some (true, s)
  | Some (b, blk) =>
      let s := set_mem (<[b := mkBlock None (nodes blk)]> (mem s)) s in
      s ← match first_block s with
          | None => Some (set_first (Some b) s)
          | Some _ => set_next (last_block s) (Some b) s
          end;
      let s := set_last (Some b) s in
      let s := set_current (Some b) s in
      Some (false, set_block_num (u32 (block_num s + 1)) s)
  end.

(** The fields that are set; [thd] keeps its value. *)
Definition reset_node (x : Tranx_node) : Tranx_node :=
  mkNode (match log_name x with [] => [] | _ :: r => 0 :: r end) 0 (thd x) 0 0.

(** The next node of the current block. *)
Definition take_node s : option (option Z * Tranx_node_allocator) :=
  c ← current_block s;
  let s := set_last_node (last_node s + 1) s in
  blk ← mem s !! c;
  x ← nodes blk !! Z.to_nat (last_node s);
  Some (Some (node_address c (last_node s)),
        set_mem (<[c := mkBlock (block_next blk) (<[Z.to_nat (last_node s) := reset_node x]> (nodes blk))]> (mem s)) s).

(** A node, or NULL. *)
Definition allocate_node `{Malloc} s : option (option Z * Tranx_node_allocator) :=
  let block := current_block s in
  s ← (if last_node s =? BLOCK_TRANX_NODES - 1
       then c ← get_next (current_block s) s; Some (set_last_node (-1) (set_current c s))
       else Some s);
  r ← match current_block s with None => allocate_block s | Some _ => Some (false, s) end;
  let (failed, s) := r : bool * Tranx_node_allocator in
  if failed then
    let s := set_current block s in
    Some (None, match block with Some _ => set_last_node (BLOCK_TRANX_NODES - 1) s | None => s end)
  else take_node s.

Fixpoint free_blocks_loop (n : nat) (block : option Z) s : option (option Z * Tranx_node_allocator) :=
  match n with
  | O => None
  | S n =>
      match block with
      | Some b =>
          if reserved_blocks s <? block_num s
          then next ← get_next (Some b) s; s ← free_block b s; free_blocks_loop n next s
          else Some (block, s)
      | None => Some (block, s)
      end
  end.

Definition free_blocks s : option Tranx_node_allocator :=
  match current_block s with
  | None => Some s
  | Some c =>
      n1 ← get_next (Some c) s;
      match n1 with
      | None => Some s
      | Some _ =>
          n2 ← get_next n1 s;
          r ← free_blocks_loop (fuel s) n2 s;
          let (block, s) := r : option Z * Tranx_node_allocator in
          n1 ← get_next (Some c) s;
          s ← set_next n1 block s;
          match block with
          | None => n1 ← get_next (Some c) s; Some (set_last n1 s)
          | Some _ => Some s
          end
      end
  end.

Definition free_all_nodes s : option (Z * Tranx_node_allocator) :=
  s ← free_blocks (set_last_node (-1) (set_current (first_block s) s)); Some (0, s).

(** Whether the node is in the block, by its address. *)
Definition in_block (b node : Z) : bool :=
  (node_address b 0 <=? node) && (node <=? node_address b BLOCK_TRANX_NODES).

Fixpoint free_before_loop (n : nat) (prev_block block : option Z) (node : Z) s : option (Z * Tranx_node_allocator) :=
  match n with
  | O => None
  | S n =>
      stop ← get_next (current_block s) s;
      if decide (block = stop) then None      (* DBUG_ASSERT(0) *)
      else
        b ← block;
        if in_block b node then
          if decide (first_block s <> block) then
            s ← set_next (last_block s) (first_block s) s;
            let s := set_first block s in
            let s := set_last prev_block s in
            s ← set_next (last_block s) None s;
            s ← free_blocks s;
            Some (0, s)
          else Some (0, s)
        else
          next ← get_next block s;
          free_before_loop n block next node s
  end.
Definition free_nodes_before (node : Z) s : option (Z * Tranx_node_allocator) :=
  free_before_loop (fuel s) None (first_block s) node s.
