(* ===== verification/TranxAllocSpec.v ===== *)
(** The node allocator: the chain of blocks and what the operations do to it. *)
From S2P Require Import Prelude TranxAlloc.
Open Scope Z_scope.

#[local] Arguments get_next : simpl never.
#[local] Arguments set_next : simpl never.
#[local] Arguments free_block : simpl never.

(** * Chains of blocks *)

Definition hd_or (bs : list Z) (q : option Z) : option Z := match bs with [] => q | b :: _ => Some b end.
Fixpoint last_or (bs : list Z) (q : option Z) : option Z := match bs with [] => q | b :: bs => last_or bs (Some b) end.

Fixpoint linked (h : heap) (bs : list Z) (q : option Z) : Prop :=
  match bs with
  | [] => True
  | b :: bs => (exists ns, h !! b = Some (mkBlock (hd_or bs q) ns) /\ length ns = 16%nat) /\ linked h bs q
  end.

Lemma hd_or_app xs ys q : hd_or (xs ++ ys) q = hd_or xs (hd_or ys q).
Proof. by destruct xs. Qed.
Lemma last_or_app xs ys q : last_or (xs ++ ys) q = last_or ys (last_or xs q).
Proof. revert q. induction xs; intros q; cbn; auto. Qed.
Lemma last_or_snoc xs x q : last_or (xs ++ [x]) q = Some x.
Proof. by rewrite last_or_app. Qed.
Lemma nodes_linked_app h xs ys q : linked h (xs ++ ys) q <-> linked h xs (hd_or ys q) /\ linked h ys q.
Proof. induction xs as [|x xs IH]; cbn; [tauto|]. rewrite IH, hd_or_app. tauto. Qed.
Lemma nodes_linked_frame h h' bs q : linked h bs q -> (forall b, b ∈ bs -> h' !! b = h !! b) -> linked h' bs q.
Proof.
  induction bs as [|b bs IH]; cbn; [done|]. intros [(ns & E & L) C] F. split; [exists ns; by rewrite F by left|].
  apply IH; [done|]. intros x Hx. apply F. by right.
Qed.
Lemma linked_insert h bs q b blk : linked h bs q -> b ∉ bs -> linked (<[b := blk]> h) bs q.
Proof. intros C N. apply (nodes_linked_frame h); [done|]. intros x Hx. apply lookup_insert_ne. congruence. Qed.
(** Write the last link. *)
Lemma linked_redirect h xs x q q' : linked h (xs ++ [x]) q -> x ∉ xs ->
  exists ns, h !! x = Some (mkBlock q ns) /\ linked (<[x := mkBlock q' ns]> h) (xs ++ [x]) q'.
Proof.
  intros C N. apply nodes_linked_app in C as [C1 [(ns & E & L) _]]. exists ns. split; [done|]. apply nodes_linked_app.
  split; [by apply linked_insert|]. split; [|done]. exists ns. by rewrite lookup_insert_eq.
Qed.
Lemma linked_lookup h bs q b : linked h bs q -> b ∈ bs -> exists blk, h !! b = Some blk /\ length (nodes blk) = 16%nat.
Proof.
  induction bs as [|x bs IH]; cbn; [by intros _ ?%elem_of_nil|]. intros [(ns & E & L) C] [->|Hb]%elem_of_cons; eauto.
Qed.

Lemma get_next_ok b q ns s : mem s !! b = Some (mkBlock q ns) -> get_next (Some b) s = Some q.
Proof. intros E. unfold get_next; cbn. by rewrite E. Qed.
Lemma nodes_set_next_ok b q ns v s : mem s !! b = Some (mkBlock q ns) ->
  set_next (Some b) v s = Some (set_mem (<[b := mkBlock v ns]> (mem s)) s).
Proof. intros E. unfold set_next; cbn. by rewrite E. Qed.
Lemma free_block_ok b blk s : mem s !! b = Some blk ->
  free_block b s = Some (set_block_num (u32 (block_num s - 1)) (set_mem (delete b (mem s)) s)).
Proof. intros E. unfold free_block; cbn. by rewrite E. Qed.

Definition without (bs : list Z) (h : heap) : heap := foldr delete h bs.
Lemma without_lookup bs h b : b ∉ bs -> without bs h !! b = h !! b.
Proof.
  induction bs as [|x bs IH]; cbn; [done|]. intros [N1 N2]%not_elem_of_cons. rewrite lookup_delete_ne by done. auto.
Qed.
Lemma without_delete bs b h : without bs (delete b h) = delete b (without bs h).
Proof. unfold without. induction bs as [|x bs IH]; cbn; [done|]. rewrite IH. apply delete_delete. Qed.
Lemma without_dom bs h : dom (without bs h) = dom h ∖ list_to_set bs.
Proof. unfold without. induction bs as [|x bs IH]; cbn; [set_solver|]. rewrite dom_delete_L, IH. set_solver. Qed.

(** * Releasing blocks *)

Lemma u32_nat n : 0 <= n < 2 ^ 32 -> u32 n = n.
Proof. apply wrap_small. Qed.

(** The state after the blocks [bs] have been freed. *)
Definition freed (bs : list Z) s := set_block_num (block_num s - Z.of_nat (length bs)) (set_mem (without bs (mem s)) s).

Lemma freed_cons b bs s : freed bs (set_block_num (block_num s - 1) (set_mem (delete b (mem s)) s)) = freed (b :: bs) s.
Proof.
  unfold freed, set_block_num, set_mem. cbn. rewrite without_delete. f_equal. lia.
Qed.
Lemma freed_nil s : freed [] s = s.
Proof. unfold freed. destruct s. cbn. unfold set_block_num, set_mem. cbn. f_equal. lia. Qed.

Lemma free_blocks_loop_ok rest s n : linked (mem s) rest None -> NoDup rest -> (length rest < n)%nat ->
  Z.of_nat (length rest) <= block_num s < 2 ^ 32 ->
  exists k, (k <= length rest)%nat
    /\ free_blocks_loop n (hd_or rest None) s = Some (hd_or (drop k rest) None, freed (take k rest) s)
    /\ (block_num s - Z.of_nat k <= reserved_blocks s \/ drop k rest = []).
Proof.
  revert s n. induction rest as [|b rest IH]; intros s n C N Hn Hb; (destruct n as [|n]; [cbn in Hn; lia|]).
  - exists 0%nat. cbn. rewrite freed_nil. auto.
  - cbn [hd_or free_blocks_loop]. destruct (Z.ltb_spec (reserved_blocks s) (block_num s)).
    2: { exists 0%nat. cbn. rewrite freed_nil. split; [lia|]. split; [done|]. left. lia. }
    destruct C as [(ns & E & _) C]. apply Prelude.NoDup_cons_iff in N as [Nb N]. cbn [length] in *.
    rewrite (get_next_ok _ _ _ _ E). cbn [mbind option_bind]. rewrite (free_block_ok _ _ _ E). cbn [mbind option_bind].
    rewrite u32_nat by lia. set (s1 := set_block_num _ _).
    destruct (IH s1 n) as (k & Hk & E1 & E2).
    { apply (nodes_linked_frame (mem s)); [done|]. intros x Hx. apply lookup_delete_ne. congruence. }
    { done. } { lia. } { cbn. lia. }
    exists (S k). cbn [take drop]. split; [lia|]. rewrite E1. unfold s1. rewrite freed_cons. split; [done|].
    destruct E2 as [E2|E2]; [left; cbn in E2; lia|by right].
Qed.

(** * The layout *)

(** The blocks [us] are used up, nodes are taken from [c], the blocks [fs] are
    free; nothing else is allocated. *)
Record layout s (us : list Z) (c : Z) (fs : list Z) : Prop := {
  la_linked : linked (mem s) (us ++ c :: fs) None;
  la_nodup : NoDup (us ++ c :: fs);
  la_first : first_block s = hd_or (us ++ c :: fs) None;
  la_last : last_block s = last_or (us ++ c :: fs) None;
  la_current : current_block s = Some c;
  la_node : -1 <= last_node s <= 15;
  la_num : block_num s = Z.of_nat (length (us ++ c :: fs));
  la_fits : Z.of_nat (length (us ++ c :: fs)) < 2 ^ 32;
  la_dom : dom (mem s) = list_to_set (us ++ c :: fs);
  la_apart : forall a b, is_Some (mem s !! a) -> is_Some (mem s !! b) -> a <> b ->
    a + sizeof_block <= b \/ b + sizeof_block <= a }.

Record vacant s : Prop := {
  va_first : first_block s = None; va_last : last_block s = None; va_current : current_block s = None;
  va_node : last_node s = -1; va_num : block_num s = 0; va_mem : mem s = ∅ }.

Lemma layout_size s us c fs : layout s us c fs -> size (mem s) = length (us ++ c :: fs).
Proof.
  intros L. rewrite <- size_dom, (la_dom _ _ _ _ L). apply size_list_to_set, L.
Qed.

(** Fewer blocks, the others as they were up to their links. *)
Definition same_nodes (s s' : Tranx_node_allocator) (bs : list Z) : Prop :=
  forall b, b ∈ bs -> nodes <$> mem s' !! b = nodes <$> mem s !! b.

Lemma nodup_parts us c f (ts ds : list Z) : NoDup (us ++ c :: f :: ts ++ ds) ->
  NoDup (us ++ c :: f :: ds) /\ f ∉ us ++ [c] /\ f ∉ ds /\ (forall b, b ∈ us ++ c :: f :: ds -> b ∉ ts).
Proof.
  intros N. assert (P : us ++ c :: f :: ts ++ ds ≡ₚ ts ++ (us ++ c :: f :: ds)).
  { change (us ++ [c; f] ++ ts ++ ds ≡ₚ ts ++ us ++ [c; f] ++ ds). rewrite !(app_assoc us). apply Permutation_app_swap_app. }
  rewrite P in N. apply list.NoDup_app in N as (_ & D & N). split; [done|].
  change (us ++ c :: f :: ds) with (us ++ [c] ++ f :: ds) in N. rewrite app_assoc in N.
  apply list.NoDup_app in N as (_ & Nu & N). apply Prelude.NoDup_cons_iff in N as [N _].
  split; [intros Hf; apply (Nu f Hf); left|]. split; [done|]. intros b Hb Ht. by apply (D b Ht).
Qed.

(** The blocks [ts] have been taken out of the free ones. *)
Lemma layout_shrink s s' us c f nf ts ds : layout s us c (f :: ts ++ ds) ->
  mem s !! f = Some (mkBlock (hd_or (ts ++ ds) None) nf) ->
  mem s' = <[f := mkBlock (hd_or ds None) nf]> (without ts (mem s)) ->
  first_block s' = first_block s -> last_block s' = last_or (f :: ds) None ->
  current_block s' = current_block s -> last_node s' = last_node s ->
  block_num s' = block_num s - Z.of_nat (length ts) -> layout s' us c (f :: ds).
Proof.
  intros [C N Ef El Ec En Eb Efi Ed Ea] Em Em' Ef' El' Ec' En' Eb'.
  destruct (nodup_parts us c f ts ds N) as (N' & Nf & Nfd & Nt).
  assert (Ed' : dom (mem s') = list_to_set (us ++ c :: f :: ds)).
  { rewrite Em', dom_insert_L, without_dom, Ed. apply set_eq. intros b. specialize (Nt b).
    rewrite elem_of_union, elem_of_difference, !elem_of_list_to_set, elem_of_singleton in *.
    rewrite !elem_of_app, !elem_of_cons, elem_of_app in *. tauto. }
  assert (Ln : length (us ++ c :: f :: ts ++ ds) = (length (us ++ c :: f :: ds) + length ts)%nat)
    by (rewrite !length_app; cbn; rewrite length_app; lia).
  assert (Lf : length nf = 16%nat).
  { destruct (linked_lookup _ _ _ f C) as (blk & E & L); [set_solver|]. rewrite Em in E. by injection E as <-. }
  constructor; try congruence.
  - rewrite Em'. change (us ++ c :: f :: ds) with (us ++ [c] ++ f :: ds). rewrite app_assoc.
    change (us ++ c :: f :: ts ++ ds) with (us ++ [c] ++ f :: ts ++ ds) in C. rewrite app_assoc in C.
    apply nodes_linked_app in C as [C1 [_ C2]]. apply nodes_linked_app in C2 as [_ C2]. cbn [hd_or] in C1.
    apply nodes_linked_app. split; [|split; [exists nf; by rewrite lookup_insert_eq|]]; (apply linked_insert; [|done]).
    + apply (nodes_linked_frame (mem s)); [done|]. intros b Hb. apply without_lookup, Nt. set_solver.
    + apply (nodes_linked_frame (mem s)); [done|]. intros b Hb. apply without_lookup, Nt. set_solver.
  - rewrite Ef', Ef, !hd_or_app. done.
  - rewrite El', last_or_app. done.
  - lia.
  - lia.
  - intros a b Ha Hb. apply Ea; apply elem_of_dom; rewrite Ed; apply elem_of_dom in Ha, Hb; rewrite Ed' in Ha, Hb; set_solver.
Qed.

Lemma free_blocks_ok s us c fs : layout s us c fs ->
  exists s' fs', free_blocks s = Some s' /\ layout s' us c fs' /\ same_nodes s s' (us ++ [c])
    /\ last_node s' = last_node s /\ reserved_blocks s' = reserved_blocks s
    /\ (block_num s' <= Z.max (reserved_blocks s) (Z.of_nat (length us) + 2)).
Proof.
  intros L. pose proof L as [C N Ef El Ec En Eb Efi Ed Ea]. unfold free_blocks. rewrite Ec.
  pose proof C as C0. apply nodes_linked_app in C0 as [Cu [(nc & E & Lc) Cf]]. rewrite (get_next_ok _ _ _ _ E). cbn [mbind option_bind].
  destruct fs as [|f rest].
  { exists s, []. repeat split; try done; try apply L. rewrite Eb, length_app. cbn. lia. }
  cbn [hd_or]. destruct Cf as [(nf & E1 & Lf) Cr]. rewrite (get_next_ok _ _ _ _ E1). cbn [mbind option_bind].
  assert (Nr : NoDup rest).
  { apply list.NoDup_app in N as (_ & _ & N). by do 2 apply Prelude.NoDup_cons_iff in N as [_ N]. }
  destruct (free_blocks_loop_ok rest s (fuel s) Cr Nr) as (k & Hk & E2 & Hm).
  { unfold fuel. rewrite (layout_size _ _ _ _ L), length_app. cbn. lia. }
  { rewrite Eb. rewrite length_app in *. cbn in *. lia. }
  rewrite E2. cbn [mbind option_bind]. clear E2. set (s1 := freed (take k rest) s).
  pose proof N as N0. rewrite <- (take_drop k rest) in N0. destruct (nodup_parts us c f _ _ N0) as (_ & Nf & _ & Nt).
  assert (Keep : forall b, b ∈ us ++ c :: f :: drop k rest -> mem s1 !! b = mem s !! b)
    by (intros b Hb; by apply without_lookup, Nt).
  assert (E' : mem s1 !! c = Some (mkBlock (Some f) nc)) by (rewrite Keep by set_solver; done).
  assert (E1' : mem s1 !! f = Some (mkBlock (hd_or rest None) nf)) by (rewrite Keep by set_solver; done).
  rewrite (get_next_ok _ _ _ _ E'). cbn [mbind option_bind]. rewrite (nodes_set_next_ok _ _ _ _ _ E1'). cbn [mbind option_bind].
  set (s2 := set_mem _ s1).
  assert (E'' : mem s2 !! c = Some (mkBlock (Some f) nc)) by (cbn; rewrite lookup_insert_ne; set_solver).
  set (s3 := match drop k rest with [] => set_last (Some f) s2 | _ => s2 end).
  exists s3, (f :: drop k rest). split; [unfold s3; destruct (drop k rest); cbn [hd_or]; [by rewrite (get_next_ok _ _ _ _ E'')|done]|].
  assert (M3 : mem s3 = <[f := mkBlock (hd_or (drop k rest) None) nf]> (without (take k rest) (mem s)))
    by (unfold s3; by destruct (drop k rest)).
  assert (B3 : block_num s3 = block_num s - Z.of_nat (length (take k rest))) by (unfold s3; by destruct (drop k rest)).
  split; [|split; [|split; [unfold s3; by destruct (drop k rest)|split; [unfold s3; by destruct (drop k rest)|]]]].
  - apply (layout_shrink s s3 us c f nf (take k rest)); rewrite ?take_drop; try done; unfold s3;
      destruct (drop k rest) eqn:Ek; try done. cbn. rewrite El, last_or_app. cbn.
    rewrite <- (take_drop k rest), last_or_app, Ek. done.
  - intros b Hb. rewrite M3, lookup_insert_ne by (intros <-; done). f_equal. apply without_lookup, Nt. set_solver.
  - rewrite B3, length_take, Nat.min_l by done. destruct Hm as [Hm|Hm]; [lia|].
    apply (f_equal length) in Hm. rewrite length_drop in Hm. cbn in Hm. rewrite Eb, length_app. cbn. lia.
Qed.
