(* ===== verification/TranxAllocProps.v ===== *)
(** The node allocator is a queue of nodes. *)
From S2P Require Import Prelude TranxAlloc TranxAllocSpec.
Open Scope Z_scope.

#[local] Arguments get_next : simpl never.
#[local] Arguments set_next : simpl never.
#[local] Arguments allocate_block : simpl never.
#[local] Arguments take_node : simpl never.

(** * Nodes in use *)

(** A node is a block and an index. *)
Definition row (b : Z) (n : nat) : list (Z * Z) := (fun i => (b, Z.of_nat i)) <$> seq 0 n.
Definition inuse (us : list Z) (c last : Z) : list (Z * Z) :=
  concat ((fun b => row b 16) <$> us) ++ row c (Z.to_nat (last + 1)).

Definition node_at (s : Tranx_node_allocator) (n : Z * Z) : option Tranx_node :=
  blk ← mem s !! n.1; nodes blk !! Z.to_nat n.2.

(** [L]: the nodes that the caller holds, the oldest first. *)
Definition holds (s : Tranx_node_allocator) (L : list (Z * Z)) : Prop :=
  (vacant s /\ L = []) \/ exists us c fs, layout s us c fs /\ L `suffix_of` inuse us c (last_node s).

Lemma elem_of_row b n b' i : (b', i) ∈ row b n <-> b' = b /\ 0 <= i < Z.of_nat n.
Proof.
  unfold row. rewrite list_elem_of_fmap. split.
  - intros (k & [= -> ->] & Hk). apply elem_of_seq in Hk. lia.
  - intros [-> Hi]. exists (Z.to_nat i). rewrite elem_of_seq. split; [f_equal; lia|lia].
Qed.
Lemma row_S b n : row b (S n) = row b n ++ [(b, Z.of_nat n)].
Proof. unfold row. rewrite seq_S, fmap_app. done. Qed.
Lemma elem_of_inuse us c last b i : -1 <= last <= 15 -> (b, i) ∈ inuse us c last ->
  0 <= i < 16 /\ (b ∈ us \/ b = c /\ i <= last).
Proof.
  intros Hl. unfold inuse. rewrite elem_of_app. intros [Hc|Hr].
  - apply list_elem_of_In, in_concat in Hc as (r & Hr & Hi). apply list_elem_of_In, list_elem_of_fmap in Hr as (x & -> & Hx).
    apply list_elem_of_In, elem_of_row in Hi as [-> Hi]. auto.
  - apply elem_of_row in Hr as [-> Hi]. split; [lia|]. right. lia.
Qed.
Lemma inuse_next us c last : -1 <= last -> inuse us c (last + 1) = inuse us c last ++ [(c, last + 1)].
Proof.
  intros Hl. unfold inuse. rewrite <- app_assoc. f_equal. replace (Z.to_nat (last + 1 + 1)) with (S (Z.to_nat (last + 1))) by lia.
  rewrite row_S. repeat f_equal. lia.
Qed.
Lemma inuse_block us c b : inuse (us ++ [c]) b (-1) = inuse us c 15.
Proof. unfold inuse. rewrite fmap_app, concat_app. cbn [fmap list_fmap concat]. cbn. by rewrite !app_nil_r. Qed.
Lemma suffix_snoc {A} (xs ys : list A) x : xs `suffix_of` ys -> xs ++ [x] `suffix_of` ys ++ [x].
Proof. intros [zs ->]. exists zs. by rewrite app_assoc. Qed.
Lemma suffix_elem {A} (xs ys : list A) x : xs `suffix_of` ys -> x ∈ xs -> x ∈ ys.
Proof. intros [zs ->] Hx. apply elem_of_app. by right. Qed.

(** The nodes of [bs] are what they were. *)
Lemma same_nodes_at s s' bs b i : same_nodes s s' bs -> b ∈ bs -> node_at s' (b, i) = node_at s (b, i).
Proof.
  intros S Hb. specialize (S b Hb). unfold node_at. cbn.
  destruct (mem s !! b), (mem s' !! b); cbn in *; congruence.
Qed.

(** * Taking a node *)

Lemma take_node_ok s us c fs : layout s us c fs -> last_node s < 15 ->
  exists s' x, let n := (c, last_node s + 1) in
    node_at s n = Some x
    /\ take_node s = Some (Some (node_address c (last_node s + 1)), s') /\ layout s' us c fs
    /\ last_node s' = last_node s + 1 /\ reserved_blocks s' = reserved_blocks s /\ node_at s' n = Some (reset_node x)
    /\ forall n', n' <> n -> 0 <= n'.2 -> node_at s' n' = node_at s n'.
Proof.
  intros L Hl. pose proof L as [C N Ef El Ec En Eb Efi Ed Ea].
  pose proof C as C0. apply nodes_linked_app in C0 as [Cu [(nc & E & Lc) Cf]].
  destruct (lookup_lt_is_Some_2 nc (Z.to_nat (last_node s + 1))) as [x Ex]; [lia|].
  unfold take_node. rewrite Ec. cbn. rewrite E. cbn. rewrite Ex. eexists _, x. split; [unfold node_at; cbn; by rewrite E|].
  split; [done|]. split; [|split; [done|split; [done|split]]].
  - apply list.NoDup_app in N as N0. destruct N0 as (_ & Nu & Nc). apply Prelude.NoDup_cons_iff in Nc as [Nc _].
    constructor; cbn; try assumption; [|lia| |].
    + apply nodes_linked_app. split; [apply linked_insert; [done|]; intros Hc; apply (Nu c Hc); left|].
      split; [|by apply linked_insert]. eexists. rewrite lookup_insert_eq. split; [done|]. by rewrite length_insert.
    + rewrite dom_insert_L, Ed. set_solver.
    + intros a b Ha Hb. apply Ea; [revert Ha|revert Hb]; rewrite <- !elem_of_dom, dom_insert_L, Ed; set_solver.
  - unfold node_at. cbn. rewrite lookup_insert_eq. cbn. rewrite list_lookup_insert_eq by lia. done.
  - intros [b i] Hn Hi. unfold node_at. cbn in *. destruct (decide (b = c)) as [->|Nb].
    + rewrite lookup_insert_eq, E. cbn. apply list_lookup_insert_ne. intros Ei. apply Hn. f_equal. lia.
    + by rewrite lookup_insert_ne by congruence.
Qed.

Section malloc.
Context `{LawfulMalloc}.

(** A new block goes to the rear and becomes the current one. *)
Lemma allocate_block_ok s us c b blk : layout s us c [] -> my_malloc (mem s) = Some (b, blk) ->
  exists s', allocate_block (set_last_node (-1) (set_current None s)) = Some (false, s')
    /\ layout s' (us ++ [c]) b [] /\ last_node s' = -1 /\ reserved_blocks s' = reserved_blocks s /\ same_nodes s s' (us ++ [c]).
Proof.
  intros L Em. pose proof L as [C N Ef El Ec En Eb Efi Ed Ea].
  assert (Fresh : b ∉ us ++ [c]).
  { intros Hb. destruct (linked_lookup _ _ _ b C) as (x & Ex & _); [done|].
    destruct (malloc_disjoint _ _ _ b Em (mk_is_Some _ _ Ex)); unfold sizeof_block, BLOCK_TRANX_NODES, sizeof_node in *; lia. }
  pose proof (malloc_fits _ _ _ Em) as Hf. rewrite (layout_size _ _ _ _ L) in Hf.
  assert (Nc : c ∉ us) by (intros Hc; apply list.NoDup_app in N as (_ & N & _); apply (N c Hc); left).
  unfold allocate_block. cbn. rewrite Em, Ef. cbn. rewrite El, last_or_snoc.
  destruct (hd_or (us ++ [c]) None) as [f|] eqn:Eh; [|by destruct us].
  assert (C1 : linked (<[b := mkBlock None (nodes blk)]> (mem s)) (us ++ [c]) None) by (by apply linked_insert).
  destruct (linked_redirect _ _ _ _ (Some b) C1 Nc) as (nc & E1 & C2).
  erewrite nodes_set_next_ok by (cbn; exact E1). cbn. eexists. split; [done|]. rewrite (u32_nat (block_num s + 1)) by lia.
  rewrite length_app in *. cbn in *. split; [|split; [done|split; [done|]]].
  - constructor; cbn; rewrite ?length_app; cbn; try lia; try congruence.
    + apply nodes_linked_app. split; [done|]. split; [|done]. exists (nodes blk). rewrite lookup_insert_ne by set_solver.
      rewrite lookup_insert_eq. split; [done|]. by eapply malloc_nodes.
    + apply list.NoDup_app. split; [done|]. split; [|apply NoDup_singleton]. intros x Hx ->%list_elem_of_singleton. done.
    + rewrite Ef. by destruct us.
    + by rewrite last_or_snoc.
    + rewrite !dom_insert_L, Ed. set_solver.
    + intros x y Hx Hy Nxy.
      assert (K : forall z, is_Some (<[c := mkBlock (Some b) nc]> (<[b := mkBlock None (nodes blk)]> (mem s)) !! z) ->
        z = b \/ is_Some (mem s !! z)) by (intros z; rewrite <- !elem_of_dom, !dom_insert_L, Ed; set_solver).
      destruct (K x Hx) as [->|Hx'], (K y Hy) as [->|Hy'].
      * done.
      * by apply (malloc_disjoint _ _ _ y Em).
      * destruct (malloc_disjoint _ _ _ x Em Hx'); auto.
      * by apply Ea.
  - intros x Hx. cbn. destruct (decide (x = c)) as [->|Nx].
    + rewrite lookup_insert_eq. rewrite lookup_insert_ne in E1 by set_solver. by rewrite E1.
    + rewrite !lookup_insert_ne by set_solver. done.
Qed.

Lemma allocate_first_ok s b blk : vacant s -> my_malloc (mem s) = Some (b, blk) ->
  exists s', allocate_block s = Some (false, s') /\ layout s' [] b [] /\ last_node s' = -1 /\ reserved_blocks s' = reserved_blocks s.
Proof.
  intros [V1 V2 V3 V4 V5 V6] Em. unfold allocate_block. rewrite Em. cbn. rewrite V1. cbn. eexists. split; [done|].
  rewrite V5. change (u32 (0 + 1)) with 1. split; [|done]. constructor; cbn; try done; try lia.
  - split; [|done]. exists (nodes blk). rewrite lookup_insert_eq. split; [done|]. by eapply malloc_nodes.
  - apply NoDup_singleton.
  - rewrite dom_insert_L, V6. set_solver.
  - intros x y Hx Hy. rewrite V6 in *. apply elem_of_dom in Hx, Hy. rewrite dom_insert_L in *. set_solver.
Qed.

(** What [allocate_node] promises: NULL only when memory is exhausted, and then
    nothing has changed; or a node that the caller did not hold. *)
Definition allocated (s : Tranx_node_allocator) (L : list (Z * Z)) (r : option Z) (s' : Tranx_node_allocator) : Prop :=
  match r with
  | None => my_malloc (mem s) = None /\ mem s' = mem s /\ holds s' L
  | Some a => exists b i, a = node_address b i /\ (b, i) ∉ L /\ holds s' (L ++ [(b, i)])
      /\ (exists x, node_at s' (b, i) = Some (reset_node x)) /\ forall n, n ∈ L -> node_at s' n = node_at s n
  end.

Lemma take_node_allocated s s1 us c fs L : layout s1 us c fs -> last_node s1 < 15 ->
  L `suffix_of` inuse us c (last_node s1) -> (forall n, n ∈ L -> node_at s1 n = node_at s n) ->
  exists r s', take_node s1 = Some (r, s') /\ allocated s L r s'.
Proof.
  intros La Hl Su Same. destruct (take_node_ok s1 us c fs La Hl) as (s' & x & Ex & E & La' & El' & _ & En & Eo).
  pose proof (la_node _ _ _ _ La) as Hr. eexists _, s'. split; [exact E|]. exists c, (last_node s1 + 1). split; [done|].
  assert (Nl : (c, last_node s1 + 1) ∉ L).
  { intros Hn. apply (suffix_elem _ _ _ Su), elem_of_inuse in Hn as [_ [Hn|Hn]]; [|lia|lia].
    destruct La as [_ N _ _ _ _ _ _ _ _]. apply list.NoDup_app in N as (_ & N & _). apply (N c Hn). left. }
  split; [done|]. split; [right; exists us, c, fs; split; [done|]; rewrite El', inuse_next by lia; by apply suffix_snoc|].
  split; [by exists x|]. intros [b i] Hn. rewrite <- Same by done. apply Eo; [congruence|].
  apply (suffix_elem _ _ _ Su), elem_of_inuse in Hn as [Hi _]; [cbn; lia|lia].
Qed.

Lemma allocate_node_ok s L : holds s L -> exists r s', allocate_node s = Some (r, s') /\ allocated s L r s'.
Proof.
  intros [[V ->]|(us & c & fs & La & Su)].
  - unfold allocate_node. rewrite (va_node s V), (va_current s V).
    change (-1 =? BLOCK_TRANX_NODES - 1) with false. cbn [mbind option_bind]. rewrite (va_current s V).
    destruct (my_malloc (mem s)) as [[b blk]|] eqn:Em.
    + destruct (allocate_first_ok s b blk V Em) as (s1 & -> & La & Hl & _). cbn.
      apply (take_node_allocated s s1 [] b []); [done|lia|apply suffix_nil|by intros n ?%elem_of_nil].
    + unfold allocate_block. rewrite Em. cbn. eexists _, _. split; [done|]. split; [done|]. split; [done|]. left. split; [|done].
      by destruct V.
  - pose proof La as [C N Ef El Ec En Eb Efi Ed Ea]. unfold allocate_node. rewrite Ec.
    change (BLOCK_TRANX_NODES - 1) with 15. destruct (Z.eqb_spec (last_node s) 15) as [E15|N15].
    2: { cbn [mbind option_bind]. rewrite Ec. cbn [mbind option_bind]. cbn.
         apply (take_node_allocated s s us c fs); [done|lia|done|done]. }
    pose proof C as C0. apply nodes_linked_app in C0 as [Cu [(nc & E & Lc) Cf]]. rewrite (get_next_ok _ _ _ _ E). cbn [mbind option_bind].
    rewrite E15 in Su. destruct fs as [|f fs]; cbn [hd_or].
    + change (current_block (set_last_node (-1) (set_current None s))) with (@None Z).
      destruct (my_malloc (mem s)) as [[b blk]|] eqn:Em.
      * destruct (allocate_block_ok s us c b blk La Em) as (s1 & E1 & La1 & Hl & _ & Sm).
        rewrite E1. cbn [mbind option_bind].
        apply (take_node_allocated s s1 (us ++ [c]) b []); [done|lia|by rewrite Hl, inuse_block|].
        intros [x i] Hx. apply (same_nodes_at s s1 (us ++ [c])); [done|].
        apply (suffix_elem _ _ _ Su), elem_of_inuse in Hx as [_ Hx]; [set_solver|lia].
      * unfold allocate_block. cbn. rewrite Em. cbn. eexists _, _. split; [done|]. split; [done|]. split; [done|].
        right. exists us, c, []. split; [|done]. by constructor.
    + cbn [mbind option_bind]. cbn.
      apply (take_node_allocated s _ (us ++ [c]) f fs); [|cbn; lia|cbn; by rewrite inuse_block|done].
      constructor; cbn [mem first_block last_block current_block last_node block_num set_last_node set_current];
        rewrite <- ?app_assoc; cbn; try done; lia.
Qed.
End malloc.

(** * Giving nodes back *)

Lemma free_all_nodes_ok s L : holds s L -> exists s', free_all_nodes s = Some (0, s') /\ holds s' []
  /\ block_num s' <= Z.max (reserved_blocks s) 2.
Proof.
  intros [[V ->]|(us & c & fs & La & _)]; unfold free_all_nodes.
  - unfold free_blocks. cbn. rewrite (va_first s V). eexists. split; [done|].
    split; [left; split; [by destruct V|done]|]. cbn. rewrite (va_num s V). lia.
  - pose proof La as [C N Ef El Ec En Eb Efi Ed Ea].
    assert (Hb : exists b bs, us ++ c :: fs = b :: bs) by (destruct us; cbn; eauto). destruct Hb as (b & bs & E).
    set (s0 := set_last_node (-1) (set_current (first_block s) s)).
    assert (L0 : layout s0 [] b bs) by (rewrite E in *; constructor; cbn; try done; lia).
    destruct (free_blocks_ok s0 [] b bs L0) as (s' & fs' & -> & L1 & _ & El1 & _ & Hb). cbn.
    eexists. split; [done|]. split; [right; exists [], b, fs'; split; [done|]; apply suffix_nil|]. cbn in Hb. lia.
Qed.

(** The test by address finds the block of a node, although it includes the
    address one past the end. *)
Lemma in_block_iff s us c fs b b' i : layout s us c fs -> b ∈ us ++ c :: fs -> b' ∈ us ++ c :: fs -> 0 <= i < 16 ->
  in_block b (node_address b' i) = true <-> b = b'.
Proof.
  intros La Hb Hb' Hi. unfold in_block, node_address, BLOCK_TRANX_NODES. rewrite andb_true_iff, !Z.leb_le.
  split; [|intros ->; unfold sizeof_node; lia]. intros [H1 H2]. destruct (decide (b = b')) as [|Nb]; [done|exfalso].
  assert (M : forall x, x ∈ us ++ c :: fs -> is_Some (mem s !! x))
    by (intros x Hx; apply elem_of_dom; rewrite (la_dom _ _ _ _ La); by apply elem_of_list_to_set).
  destruct (la_apart _ _ _ _ La b b' (M b Hb) (M b' Hb') Nb); unfold sizeof_block, BLOCK_TRANX_NODES, sizeof_node in *; lia.
Qed.

(** The blocks before the one of the node are passed. *)
Lemma free_before_skip s us c fs pre us' node todo : layout s us c fs -> us = pre ++ us' ->
  (forall b, b ∈ todo -> in_block b node = false) ->
  forall seen n, pre = seen ++ todo -> (length todo < n)%nat ->
  exists m, (n = m + length todo)%nat /\
  free_before_loop n (last_or seen None) (hd_or (todo ++ us' ++ c :: fs) None) node s
    = free_before_loop m (last_or pre None) (hd_or (us' ++ c :: fs) None) node s.
Proof.
  intros La Eu. pose proof La as [C N Ef El Ec En Eb Efi Ed Ea]. rewrite Eu in C, N.
  induction todo as [|b todo IH]; intros Hb seen n Ep Hn; [exists n; cbn; rewrite Ep, app_nil_r; split; [lia|done]|].
  destruct n as [|n]; [cbn in Hn; lia|]. cbn in Hn.
  destruct (IH ltac:(intros x Hx; apply Hb; by right) (seen ++ [b]) n) as (m & Em & E).
  { by rewrite <- app_assoc. } { lia. }
  exists m. split; [cbn; lia|]. rewrite <- E, last_or_snoc. cbn [free_before_loop hd_or app]. rewrite Ec.
  apply nodes_linked_app in C as C0. destruct C0 as [Cu [(nc & E0 & _) _]]. rewrite (get_next_ok _ _ _ _ E0). cbn [mbind option_bind].
  rewrite decide_False.
  2: { intros Eh. rewrite Ep in N. destruct fs as [|f fs]; [done|]. cbn in Eh. injection Eh as <-.
       rewrite <- !app_assoc in N. apply list.NoDup_app in N as (_ & _ & N). cbn in N. apply Prelude.NoDup_cons_iff in N as [N _].
       apply N. set_solver. }
  rewrite Hb by left. rewrite Ep, <- !app_assoc in C. apply nodes_linked_app in C as [_ [(nb & Eb' & _) _]].
  rewrite (get_next_ok _ _ _ _ Eb'). done.
Qed.

Lemma list_snoc (xs : list Z) : xs <> [] -> exists ys y, xs = ys ++ [y].
Proof. induction xs as [|x xs _] using rev_ind; [done|eauto]. Qed.

(** The used blocks before the node go behind the free ones. *)
Lemma rotate_ok s pre us c fs b : layout s (pre ++ us) c fs -> pre <> [] -> hd_or (us ++ c :: fs) None = Some b ->
  exists s1 s2, set_next (last_block s) (first_block s) s = Some s1
    /\ set_next (last_or pre None) None (set_last (last_or pre None) (set_first (Some b) s1)) = Some s2
    /\ layout s2 us c (fs ++ pre) /\ same_nodes s s2 (us ++ [c])
    /\ last_node s2 = last_node s /\ reserved_blocks s2 = reserved_blocks s.
Proof.
  intros [C N Ef El Ec En Eb Efi Ed Ea] Np Eh.
  destruct (list_snoc pre Np) as (pre' & p & ->). destruct (list_snoc (us ++ c :: fs)) as (xs & z & Ez); [by destruct us|].
  assert (Eq : us ++ c :: fs ++ pre' ++ [p] = (xs ++ [z]) ++ pre' ++ [p]) by (rewrite <- Ez, <- app_assoc; done).
  rewrite <- app_assoc, Ez in C, N, Ef, El, Eb, Efi, Ed. rewrite Ez in Eh.
  apply nodes_linked_app in C as [Cp Cz]. apply list.NoDup_app in N as (Np1 & Nx & Nz).
  assert (Nz' : z ∉ xs) by (intros Hz; apply list.NoDup_app in Nz as (_ & Nz & _); apply (Nz z Hz); left).
  assert (Np' : p ∉ pre') by (intros Hp; apply list.NoDup_app in Np1 as (_ & N & _); apply (N p Hp); left).
  rewrite El, last_or_app, !last_or_snoc.
  destruct (linked_redirect _ _ _ _ (first_block s) Cz Nz') as (nz & E1 & Cz').
  rewrite (nodes_set_next_ok _ _ _ _ _ E1). eexists _. set (s1 := set_mem _ s).
  assert (Cp1 : linked (mem s1) (pre' ++ [p]) (hd_or (xs ++ [z]) None))
    by (apply linked_insert; [done|]; intros Hz; apply (Nx z Hz); set_solver).
  destruct (linked_redirect _ _ _ _ None Cp1 Np') as (np & E2 & Cp').
  erewrite nodes_set_next_ok by (cbn; exact E2). eexists. split; [done|]. split; [done|].
  assert (Npz : p ∉ xs ++ [z]) by (intros Hp; apply (Nx p); set_solver).
  assert (Nzp : p <> z) by set_solver.
  split; [|split; [|done]].
  - assert (Dm : dom (<[p := mkBlock None np]> (mem s1)) = dom (mem s)).
    { cbn. rewrite !dom_insert_L, Ed. set_solver. }
    constructor; cbn [mem first_block last_block current_block last_node block_num set_last set_first set_mem s1]; rewrite ?Eq; try done.
    + apply nodes_linked_app. split; [|done]. apply linked_insert; [|done].
      replace (hd_or (pre' ++ [p]) None) with (first_block s) by (rewrite Ef; by destruct pre'). done.
    + apply list.NoDup_app. split; [done|]. split; [|done]. intros x Hx Hx'. by apply (Nx x).
    + rewrite hd_or_app. by destruct xs.
    + by rewrite app_assoc, last_or_snoc.
    + rewrite Eb. f_equal. rewrite !length_app. lia.
    + rewrite !length_app in *. lia.
    + change (dom (<[p := mkBlock None np]> (mem s1)) = list_to_set ((xs ++ [z]) ++ pre' ++ [p])). rewrite Dm, Ed. set_solver.
    + intros x y Hx Hy. apply Ea; apply elem_of_dom; rewrite <- Dm; by apply elem_of_dom.
  - intros x Hx. assert (Hx' : x ∈ xs ++ [z]) by (rewrite <- Ez; set_solver). cbn.
    rewrite lookup_insert_ne by set_solver. destruct (decide (x = z)) as [->|Nx'].
    + rewrite lookup_insert_eq. by rewrite E1.
    + by rewrite lookup_insert_ne by congruence.
Qed.

Lemma free_before_ok s us c fs b i : layout s us c fs -> b ∈ us ++ [c] -> 0 <= i < 16 ->
  exists s' us' fs', free_nodes_before (node_address b i) s = Some (0, s') /\ layout s' us' c fs'
    /\ us' `suffix_of` us /\ hd_or (us' ++ [c]) None = Some b /\ same_nodes s s' (us' ++ [c]) /\ last_node s' = last_node s
    /\ (us' = us \/ block_num s' <= Z.max (reserved_blocks s) (Z.of_nat (length us') + 2)).
Proof.
  intros La Hb Hi. pose proof La as [C N Ef El Ec En Eb Efi Ed Ea].
  assert (Sp : exists pre us', us = pre ++ us' /\ hd_or (us' ++ [c]) None = Some b).
  { apply elem_of_app in Hb as [Hb|Hb%list_elem_of_singleton]; [|exists us, []; rewrite app_nil_r; subst; done].
    apply list_elem_of_split in Hb as (pre & post & ->). by exists pre, (b :: post). }
  destruct Sp as (pre & us' & Eu & Eh).
  assert (Eh' : hd_or (us' ++ c :: fs) None = Some b) by (by destruct us').
  assert (Hbb : b ∈ us' ++ [c]) by (destruct us'; cbn in Eh; injection Eh as <-; left).
  unfold free_nodes_before.
  assert (Nb : forall x, x ∈ pre -> in_block x (node_address b i) = false).
  { intros x Hx. apply not_true_iff_false. rewrite (in_block_iff s us c fs x b i La) by (subst; set_solver || done).
    intros ->. rewrite Eu, <- app_assoc in N. apply list.NoDup_app in N as (_ & N & _). apply (N b Hx). set_solver. }
  destruct (free_before_skip s us c fs pre us' (node_address b i) pre La Eu Nb [] (fuel s) eq_refl) as (m & Em & E).
  { unfold fuel. rewrite (layout_size _ _ _ _ La), Eu, !length_app. cbn. lia. }
  rewrite Ef, Eu, <- app_assoc. cbn [last_or] in E. rewrite E. clear E.
  destruct m as [|m]; [unfold fuel in Em; rewrite (layout_size _ _ _ _ La), Eu, !length_app in Em; cbn in Em; lia|].
  cbn [free_before_loop]. rewrite Ec. apply nodes_linked_app in C as C0. destruct C0 as [Cu [(nc & E0 & _) _]].
  rewrite (get_next_ok _ _ _ _ E0), Eh'. cbn [mbind option_bind]. rewrite decide_False.
  2: { intros Ef'. destruct fs as [|f fs]; [done|]. cbn in Ef'. injection Ef' as <-. rewrite Eu in N. rewrite <- app_assoc in N.
       apply list.NoDup_app in N as (_ & _ & N). change (us' ++ c :: b :: fs) with (us' ++ [c] ++ b :: fs) in N. rewrite app_assoc in N.
       apply list.NoDup_app in N as (_ & N & _). apply (N b Hbb). left. }
  rewrite (proj2 (in_block_iff s us c fs b b i La ltac:(set_solver) ltac:(set_solver) Hi) eq_refl).
  destruct (decide (pre = [])) as [->|Np].
  - rewrite decide_False by (intros X; apply X; rewrite Ef, Eu; exact Eh').
    exists s, us', fs. cbn in Eu. subst us'. split; [done|]. split; [done|]. split; [by exists []|]. split; [done|]. split; [done|]. split; [done|by left].
  - rewrite decide_True.
    2: { rewrite Ef, Eu, <- app_assoc. destruct pre as [|x pre]; [done|]. cbn. intros [= ->].
         rewrite Eu, <- app_assoc in N. apply list.NoDup_app in N as (_ & N & _). apply (N b); [left|set_solver]. }
    rewrite Eu in La. destruct (rotate_ok s pre us' c fs b La Np Eh') as (s1 & s2 & -> & E2 & L2 & S2 & Ln2 & R2).
    cbn [mbind option_bind]. cbn [last_block set_last]. rewrite E2. cbn [mbind option_bind].
    destruct (free_blocks_ok s2 us' c _ L2) as (s3 & fs3 & -> & L3 & S3 & Ln3 & R3 & B3). cbn [mbind option_bind].
    exists s3, us', fs3. split; [done|]. split; [done|]. split; [by exists pre|]. split; [done|]. split.
    { intros x Hx. rewrite S3 by done. by apply S2. }
    split; [congruence|]. right. by rewrite <- R2.
Qed.

Lemma suffix_from {A} (P Q L2 : list A) x zs : zs ++ x :: L2 = P ++ Q -> x ∉ P -> (x :: L2) `suffix_of` Q.
Proof.
  intros E N. apply app_eq_inv in E as [(k & _ & E)|(k & -> & E)].
  - by exists k.
  - destruct k as [|y k]; [exists []; by rewrite E|]. injection E as -> _. exfalso. apply N. set_solver.
Qed.

Lemma free_nodes_before_ok s L1 L2 b i : holds s (L1 ++ (b, i) :: L2) ->
  exists s', free_nodes_before (node_address b i) s = Some (0, s') /\ holds s' ((b, i) :: L2)
    /\ forall n, n ∈ (b, i) :: L2 -> node_at s' n = node_at s n.
Proof.
  intros [[_ E]|(us & c & fs & La & Su)]; [by destruct L1|]. pose proof (la_node _ _ _ _ La) as Hl.
  assert (Hn : (b, i) ∈ inuse us c (last_node s)) by (apply (suffix_elem _ _ _ Su); set_solver).
  apply elem_of_inuse in Hn as [Hi Hb]; [|done].
  destruct (free_before_ok s us c fs b i La ltac:(set_solver) Hi) as (s' & us' & fs' & E & La' & [pre Ep] & Eh & Sm & El & _).
  exists s'. split; [done|].
  assert (Su' : (b, i) :: L2 `suffix_of` inuse us' c (last_node s')).
  { destruct Su as [zs Ez]. rewrite El. rewrite (app_assoc zs) in Ez.
    apply (suffix_from (concat ((fun b => row b 16) <$> pre)) _ L2 (b, i) (zs ++ L1)).
    - rewrite <- Ez. unfold inuse. by rewrite Ep, fmap_app, concat_app, <- app_assoc.
    - intros Hp. apply list_elem_of_In, in_concat in Hp as (r & Hr & Hx). apply list_elem_of_In, list_elem_of_fmap in Hr as (x & -> & Hp).
      apply list_elem_of_In, elem_of_row in Hx as [-> _].
      destruct La as [_ N _ _ _ _ _ _ _ _]. rewrite Ep, <- app_assoc in N. apply list.NoDup_app in N as (_ & N & _).
      apply (N x Hp). destruct us'; cbn in *; injection Eh as <-; left. }
  split; [right; by exists us', c, fs'|]. intros [x j] Hx. apply (same_nodes_at s s' (us' ++ [c])); [done|].
  apply (suffix_elem _ _ _ Su'), elem_of_inuse in Hx as [_ Hx]; [set_solver|lia].
Qed.

Lemma destroy_loop_ok bs s n : linked (mem s) bs None -> NoDup bs -> (length bs < n)%nat ->
  exists s', destroy_loop n (hd_or bs None) s = Some s' /\ mem s' = without bs (mem s).
Proof.
  revert s n. induction bs as [|b bs IH]; intros s n C N Hn; (destruct n as [|n]; [cbn in Hn; lia|]); [by exists s|].
  destruct C as [(ns & E & _) C]. apply Prelude.NoDup_cons_iff in N as [Nb N]. cbn [hd_or destroy_loop].
  rewrite (get_next_ok _ _ _ _ E). cbn [mbind option_bind]. rewrite (free_block_ok _ _ _ E). cbn [mbind option_bind].
  destruct (IH (set_block_num (u32 (block_num s - 1)) (set_mem (delete b (mem s)) s)) n) as (s' & E' & M').
  { apply (nodes_linked_frame (mem s)); [done|]. intros x Hx. apply lookup_delete_ne. congruence. }
  { done. } { cbn in Hn. lia. }
  exists s'. split; [done|]. rewrite M'. cbn. apply without_delete.
Qed.

Lemma nodes_destroy_ok s L : holds s L -> exists s', destroy s = Some s' /\ mem s' = ∅.
Proof.
  intros [[V _]|(us & c & fs & La & _)]; unfold destroy.
  - rewrite (va_first s V). exists s. split; [done|apply V].
  - rewrite (la_first _ _ _ _ La). destruct (destroy_loop_ok (us ++ c :: fs) s (fuel s)) as (s' & E & M); try apply La.
    { unfold fuel. rewrite (layout_size _ _ _ _ La). lia. }
    exists s'. split; [done|]. apply dom_empty_inv_L. rewrite M, without_dom, (la_dom _ _ _ _ La). set_solver.
Qed.

(** * Any use of the allocator *)

Inductive op := Allocate | FreeBefore (node : Z) | FreeAll.

Definition exec `{Malloc} (o : op) (s : Tranx_node_allocator) : option (option Z * Tranx_node_allocator) :=
  match o with
  | Allocate => allocate_node s
  | FreeBefore a => r ← free_nodes_before a s; Some (Some r.1, r.2)
  | FreeAll => r ← free_all_nodes s; Some (Some r.1, r.2)
  end.
Fixpoint exec_all `{Malloc} (os : list op) (s : Tranx_node_allocator) : option (list (option Z) * Tranx_node_allocator) :=
  match os with
  | [] => Some ([], s)
  | o :: os => r ← exec o s; rs ← exec_all os r.2; Some (r.1 :: rs.1, rs.2)
  end.

(** The nodes that the caller holds, by their addresses: [allocate_node] adds one
    that is not among them, or fails; freeing returns 0. *)
Inductive queue_step (q : list Z) : op -> option Z -> list Z -> Prop :=
| q_allocate a : a ∉ q -> queue_step q Allocate (Some a) (q ++ [a])
| q_exhausted : queue_step q Allocate None q
| q_free_before a q1 q2 : q = q1 ++ a :: q2 -> queue_step q (FreeBefore a) (Some 0) (a :: q2)
| q_free_all : queue_step q FreeAll (Some 0) [].
Inductive queue_run : list Z -> list op -> list (option Z) -> list Z -> Prop :=
| q_done q : queue_run q [] [] q
| q_next q o r q' os rs q'' : queue_step q o r q' -> queue_run q' os rs q'' -> queue_run q (o :: os) (r :: rs) q''.

(** Only nodes that are held are freed, whatever the results are. *)
Fixpoint respects (os : list op) (q : list Z) : Prop :=
  match os with
  | [] => True
  | o :: os => (match o with FreeBefore a => a ∈ q | _ => True end)
      /\ forall r q', queue_step q o r q' -> respects os q'
  end.

Definition address (n : Z * Z) : Z := node_address n.1 n.2.

(** Nodes of blocks that are apart have different addresses. *)
Lemma address_inj s us c fs m n : layout s us c fs -> m ∈ inuse us c (last_node s) -> n ∈ inuse us c (last_node s) ->
  address m = address n -> m = n.
Proof.
  intros La Hm Hn. pose proof (la_node _ _ _ _ La) as Hl. destruct m as [b i], n as [b' i'].
  apply elem_of_inuse in Hm as [Hi Hb]; [|done]. apply elem_of_inuse in Hn as [Hi' Hb']; [|done]. unfold address. cbn. intros E.
  assert (b = b') as <-.
  { apply (in_block_iff s us c fs b b' i' La); [set_solver|set_solver|done|]. rewrite <- E.
    by apply (in_block_iff s us c fs b b i La); [set_solver|set_solver|..]. }
  unfold node_address, sizeof_node in E. f_equal. lia.
Qed.

Lemma holds_address s L n : n ∉ L -> holds s (L ++ [n]) -> address n ∉ address <$> L.
Proof.
  intros Nn [[_ E]|(us & c & fs & La & Su)]; [by destruct L|]. intros (m & E & Hm)%list_elem_of_fmap.
  apply Nn. replace n with m; [done|]. symmetry. apply (address_inj s us c fs); [done|..|done]; apply (suffix_elem _ _ _ Su); set_solver.
Qed.

Section use.
Context `{LawfulMalloc}.

Lemma nodes_simulate_op o s L : holds s L -> (match o with FreeBefore a => a ∈ address <$> L | _ => True end) ->
  exists r s' L', exec o s = Some (r, s') /\ queue_step (address <$> L) o r (address <$> L') /\ holds s' L'
    /\ forall n, n ∈ L -> n ∈ L' -> node_at s' n = node_at s n.
Proof.
  intros Hs Ho. destruct o as [|a|]; cbn [exec].
  - destruct (allocate_node_ok s L Hs) as (r & s' & E & A). rewrite E. exists r, s'. destruct r as [a|]; cbn in A.
    + destruct A as (b & i & -> & Nn & Hs' & _ & Same). exists (L ++ [(b, i)]). split; [done|]. rewrite fmap_app. cbn.
      split; [|split; [done|auto]]. constructor. by apply (holds_address s' L (b, i)).
    + destruct A as (_ & Em & Hs'). exists L. split; [done|]. split; [constructor|]. split; [done|].
      intros n _ _. unfold node_at. by rewrite Em.
  - apply list_elem_of_fmap in Ho as ([b i] & -> & Hn). apply list_elem_of_split in Hn as (L1 & L2 & ->).
    destruct (free_nodes_before_ok s L1 L2 b i Hs) as (s' & E & Hs' & Same). change (address (b, i)) with (node_address b i). rewrite E. cbn [mbind option_bind fst snd].
    exists (Some 0), s', ((b, i) :: L2). split; [done|]. split; [|split; [done|auto]].
    rewrite fmap_app. cbn. by econstructor.
  - destruct (free_all_nodes_ok s L Hs) as (s' & E & Hs' & _). rewrite E. cbn. exists (Some 0), s', [].
    split; [done|]. split; [constructor|]. split; [done|]. by intros n _ ?%elem_of_nil.
Qed.

(** C15: Whatever sequence of allocations and releases of nodes that it holds a
    caller makes, with any failures of malloc, the allocator runs without undefined
    behaviour or failed assertion, each node it hands out differs from all those
    still held and lies in memory that is allocated, and in the end the destructor
    releases every block. *)
Theorem node_allocator_is_queue (os : list op) (s : Tranx_node_allocator) (L : list (Z * Z)) :
  holds s L -> respects os (address <$> L) ->
  exists rs s' L', exec_all os s = Some (rs, s') /\ queue_run (address <$> L) os rs (address <$> L') /\ holds s' L'
    /\ (forall n, n ∈ L' -> is_Some (node_at s' n)) /\ exists s'', destroy s' = Some s'' /\ mem s'' = ∅.
Proof.
  revert s L. induction os as [|o os IH]; intros s L Hs R.
  - exists [], s, L. split; [done|]. split; [constructor|]. split; [done|]. split; [|by eapply nodes_destroy_ok].
    intros [b i] Hn. destruct Hs as [[_ ->]|(us & c & fs & La & Su)]; [by apply elem_of_nil in Hn|].
    apply (suffix_elem _ _ _ Su), elem_of_inuse in Hn as [Hi Hb]; [|apply La].
    destruct (linked_lookup _ _ _ b (la_linked _ _ _ _ La) ltac:(set_solver)) as (blk & E & Ln).
    unfold node_at. cbn. rewrite E. cbn. apply lookup_lt_is_Some_2. lia.
  - destruct R as [Ho R]. destruct (nodes_simulate_op o s L Hs Ho) as (r & s1 & L1 & E1 & St & Hs1 & _).
    destruct (IH s1 L1 Hs1 (R _ _ St)) as (rs & s2 & L2 & E2 & Rn & Rest).
    exists (r :: rs), s2, L2. split; [cbn; rewrite E1; cbn; by rewrite E2|]. split; [by econstructor|done].
Qed.

(** What the caller has written into a node that it keeps holding stays. *)
Theorem held_nodes_keep_contents (o : op) (s : Tranx_node_allocator) (L : list (Z * Z)) :
  holds s L -> (match o with FreeBefore a => a ∈ address <$> L | _ => True end) ->
  exists r s' L', exec o s = Some (r, s') /\ holds s' L' /\ forall n, n ∈ L -> n ∈ L' -> node_at s' n = node_at s n.
Proof. intros Hs Ho. destruct (nodes_simulate_op o s L Hs Ho) as (r & s' & L' & E & _ & Hs' & Same). by exists r, s', L'. Qed.
End use.

(** Releasing all nodes keeps the reserved blocks, or two. *)
Theorem free_all_keeps_reserve (s : Tranx_node_allocator) (L : list (Z * Z)) : holds s L ->
  exists s', free_all_nodes s = Some (0, s') /\ block_num s' <= Z.max (reserved_blocks s) 2.
Proof. intros Hs. destruct (free_all_nodes_ok s L Hs) as (s' & E & _ & B). eauto. Qed.

Lemma construct_holds n : holds (construct n ∅) [].
Proof. left. split; [|done]. by constructor. Qed.

(** The reserve has room for the nodes asked for. *)
Lemma reserve_suffices n : 0 <= n < 2 ^ 32 -> n <= BLOCK_TRANX_NODES * reserved_blocks (construct n ∅).
Proof.
  intros Hn. cbn. unfold BLOCK_TRANX_NODES. pose proof (Z.div_mod n 16 ltac:(lia)). pose proof (Z.mod_pos_bound n 16 ltac:(lia)).
  pose proof (Z.div_lt_upper_bound n 16 (2 ^ 28) ltac:(lia) ltac:(lia)). pose proof (Z.div_pos n 16 ltac:(lia) ltac:(lia)).
  destruct (Z.ltb_spec 1 (n mod 16)); rewrite wrap_small by (unfold in_u; lia); lia.
Qed.

(** ** A malloc above all blocks, with room for [limit] of them *)
Definition top (h : heap) : Z := map_fold (fun a _ t => Z.max (a + sizeof_block) t) 16 h.
Definition fresh_block : Block := mkBlock None (repeat (mkNode [] 0 0 0 0) 16).
Definition malloc_above (limit : nat) : Malloc := fun h =>
  if (size h <? limit)%nat then Some (top h, fresh_block) else None.
Lemma top_above h b : is_Some (h !! b) -> b + sizeof_block <= top h.
Proof.
  induction h as [|a x h E IH] using map_ind; [by rewrite lookup_empty; intros []|].
  unfold top. rewrite map_fold_insert_L by (done || intros; lia). fold (top h). intros Hb.
  destruct (decide (a = b)) as [->|Na]; [lia|]. rewrite lookup_insert_ne in Hb by done. specialize (IH Hb). lia.
Qed.
Lemma malloc_above_lawful limit : Z.of_nat limit < 2 ^ 32 -> @LawfulMalloc (malloc_above limit).
Proof.
  intros Hl. constructor; unfold my_malloc, malloc_above; intros h a blk; [intros b|..];
    destruct (Nat.ltb_spec (size h) limit); try done; intros [= <- <-]; [|done|lia]. intros Hb. right. by apply top_above.
Qed.

Lemma node_allocator_witness :
  let M := malloc_above 2 in
  exists rs s' L', @exec_all M (repeat Allocate 33) (construct 1 ∅) = Some (rs, s')
    /\ queue_run [] (repeat Allocate 33) rs (address <$> L') /\ holds s' L'
    /\ (forall n, n ∈ L' -> is_Some (node_at s' n)) /\ exists s'', destroy s' = Some s'' /\ mem s'' = ∅.
Proof.
  intros M. refine (@node_allocator_is_queue M (malloc_above_lawful 2 eq_refl) (repeat Allocate 33) (construct 1 ∅) [] (construct_holds 1) _).
  assert (A : forall n q, respects (repeat Allocate n) q) by (induction n; cbn; auto). apply A.
Defined.
Lemma thirty_three_nodes :
  (@exec_all (malloc_above 2) (repeat Allocate 33 ++ [FreeBefore (node_address (16 + sizeof_block) 2); Allocate]) (construct 1 ∅)
    ≫= fun r => Some (drop 31 r.1, block_num r.2))
  = Some ([Some (node_address (16 + sizeof_block) 15); None; Some 0; Some (node_address 16 0)], 2).
Proof. reflexivity. Qed.
