(* ===== verification/BoundedQueue.v ===== *)
(** The bounded queue of filesort: bounded_queue.h.

    [Bounded_queue] keeps the N best of the elements pushed, in a QUEUE with room
    for one more.  The keys lie in an array that the caller provides; the QUEUE
    holds pointers into it and is ordered by the keys.  The QUEUE of queues.h, of
    which only the declarations and macros are in the sources, is an interface
    with laws.  [None] is a failed assertion or an access outside the array. *)
From S2P Require Import Prelude.
Open Scope Z_scope.

(** queues.h.  [root] is an array whose first element has index 1; the functions
    that compare elements see the keys that they point to. *)
Class Queue (Q K : Type) := {
  root : Q -> Z -> nat;
  elements : Q -> Z;
  max_elements : Q -> Z;
  zero_queue : Q;                                      (* after memset *)
  init_queue : Z -> bool -> option Q;                  (* None: no memory *)
  queue_insert : (nat -> K) -> nat -> Q -> Q;
  downheap : (nat -> K) -> Z -> Q -> Q;
  queue_remove : (nat -> K) -> Z -> Q -> nat * Q }.

Section macros.
Context `{Queue Q K}.
Definition queue_first_element : Z := 1.
Definition queue_top (q : Q) : nat := root q 1.
Definition queue_replace_top (keys : nat -> K) (q : Q) : Q := downheap keys 1 q.
Definition queue_is_full (q : Q) : bool := elements q =? max_elements q.
Definition queue_remove_top (keys : nat -> K) (q : Q) : nat * Q := queue_remove keys queue_first_element q.
(** The pointers in the queue. *)
Definition pointers (q : Q) : list nat := (fun i => root q (Z.of_nat i)) <$> seq 1 (Z.to_nat (elements q)).
End macros.

(** With [max_at_top] the top is a greatest element for [le]; otherwise it is a
    least one. *)
Class LawfulQueue (Q K : Type) `{Queue Q K} (le : K -> K -> Prop) := {
  heap_ordered : (nat -> K) -> bool -> Q -> Prop;
  zero_elements : max_elements zero_queue = 0;
  init_spec n b q keys : 0 < n < 2 ^ 32 -> init_queue n b = Some q ->
    elements q = 0 /\ max_elements q = n /\ heap_ordered keys b q;
  elements_range q keys b : heap_ordered keys b q -> 0 <= elements q <= max_elements q;
  insert_spec q keys b e : heap_ordered keys b q -> elements q < max_elements q ->
    heap_ordered keys b (queue_insert keys e q) /\ elements (queue_insert keys e q) = elements q + 1
    /\ max_elements (queue_insert keys e q) = max_elements q /\ pointers (queue_insert keys e q) ≡ₚ e :: pointers q;
  top_spec q keys b e : heap_ordered keys b q -> e ∈ pointers q ->
    if b then le (keys e) (keys (queue_top q)) else le (keys (queue_top q)) (keys e);
  (** only the key of the top has changed, and no other element has that pointer *)
  replace_spec q keys keys' b : heap_ordered keys b q -> 0 < elements q -> NoDup (pointers q) ->
    (forall e, e <> queue_top q -> keys' e = keys e) ->
    heap_ordered keys' b (queue_replace_top keys' q) /\ elements (queue_replace_top keys' q) = elements q
    /\ max_elements (queue_replace_top keys' q) = max_elements q /\ pointers (queue_replace_top keys' q) ≡ₚ pointers q;
  keys_ext q keys keys' b : heap_ordered keys b q -> (forall e, e ∈ pointers q -> keys' e = keys e) -> heap_ordered keys' b q;
  remove_top_spec q keys b : heap_ordered keys b q -> 0 < elements q ->
    let (e, q') := queue_remove_top keys q in
    e = queue_top q /\ heap_ordered keys b q' /\ pointers q ≡ₚ e :: pointers q' /\ elements q' = elements q - 1 }.

Section code.
Context `{Queue Q K} {E : Type}.

(** [m_sort_keys]: the array of keys.  The comparison is an argument of
    init_queue and part of the interface. *)
Record Bounded_queue := mkBQ { m_sort_keys : list K; m_keymaker : E -> K; m_queue : Q }.

Definition construct (keymaker : E -> K) : Bounded_queue := mkBQ [] keymaker zero_queue.

Definition UINT_MAX : Z := 2 ^ 32 - 1.

(** The result: 0, or 1 when there is no memory. *)
Definition init (n : Z) (max_at_top : bool) (keymaker : E -> K) (sort_keys : list K) (s : Bounded_queue)
    : Z * Bounded_queue :=
  let s := mkBQ sort_keys keymaker (m_queue s) in
  if UINT_MAX - 1 <=? n then (1, s)
  else match init_queue (u32 (u32 n + 1)) max_at_top with
       | Some q => (0, mkBQ (m_sort_keys s) (m_keymaker s) q)
       | None => (1, s)
       end.

Definition is_initialized (s : Bounded_queue) : bool := 0 <? max_elements (m_queue s).
Definition num_elements (s : Bounded_queue) : Z := elements (m_queue s).

(** What a pointer into an array of keys points to; [d] outside of the array. *)
Definition key_at (d : K) (ks : list K) (p : nat) : K := default d (ks !! p).

Definition push (element : E) (s : Bounded_queue) : option Bounded_queue :=
  if is_initialized s then
    let k := m_keymaker s element in
    if queue_is_full (m_queue s) then
      let pq_top := queue_top (m_queue s) in
      match m_sort_keys s !! pq_top with
      | Some _ =>
          let ks := <[pq_top := k]> (m_sort_keys s) in
          Some (mkBQ ks (m_keymaker s) (queue_replace_top (key_at k ks) (m_queue s)))
      | None => None
      end
    else
      let i := Z.to_nat (elements (m_queue s)) in
      match m_sort_keys s !! i with
      | Some _ =>
          let ks := <[i := k]> (m_sort_keys s) in
          Some (mkBQ ks (m_keymaker s) (queue_insert (key_at k ks) i (m_queue s)))
      | None => None
      end
  else None.

(** The pointer that is removed, or NULL. *)
Definition pop (d : K) (s : Bounded_queue) : option (option nat * Bounded_queue) :=
  let keys := key_at d (m_sort_keys s) in
  let q := if queue_is_full (m_queue s) then (queue_remove keys 0 (m_queue s)).2 else m_queue s in
  if 0 <? elements q then
    let (p, q) := queue_remove keys 0 q in Some (Some p, mkBQ (m_sort_keys s) (m_keymaker s) q)
  else None.
End code.
Arguments Bounded_queue : clear implicits.

(** * The N best *)

Section best.
Context {Q K : Type} {le : K -> K -> Prop} `{Queue Q K} `{!LawfulQueue Q K le} `{!PreOrder le} {E : Type}.

(** [a] is at least as good as [b]. *)
Definition better (max_at_top : bool) (a b : K) : Prop := if max_at_top then le a b else le b a.
Lemma better_trans m a b c : better m a b -> better m b c -> better m a c.
Proof. destruct m; cbn; intros; by etrans. Qed.

(** [held] is what the full queue holds after the keys [ks]: one key [t], and the
    best ones. *)
Definition best_and_one (m : bool) (ks held : list K) (t : K) (small : list K) : Prop :=
  held ≡ₚ t :: small /\ exists rest, ks ≡ₚ small ++ t :: rest /\ forall a b, a ∈ small -> b ∈ t :: rest -> better m a b.

Lemma best_first m ks t : t ∈ ks -> (forall a, a ∈ ks -> better m a t) -> exists small, best_and_one m ks ks t small.
Proof.
  intros Ht Hm. apply list_elem_of_split in Ht as (l1 & l2 & ->). exists (l1 ++ l2). split; [by rewrite Permutation_middle|].
  exists []. split; [by rewrite <- Permutation_cons_append, Permutation_middle|]. intros a b Ha ->%list_elem_of_singleton. apply Hm. set_solver.
Qed.

(** Any greatest key can be the one more. *)
Lemma best_swap m ks held t small t0 : best_and_one m ks held t small -> t0 ∈ held -> (forall a, a ∈ held -> better m a t0) ->
  exists small0, best_and_one m ks held t0 small0.
Proof.
  intros (Eh & rest & Ek & B) H0 Hm. rewrite Eh in H0. apply elem_of_cons in H0 as [->|H0]; [by exists small; split; [|exists rest]|].
  assert (B0 : better m t0 t) by (apply B; [done|left]).
  apply list_elem_of_split in H0 as (l1 & l2 & ->). exists (t :: l1 ++ l2). split.
  - rewrite Eh, <- Permutation_middle. apply Permutation_swap.
  - exists rest. split.
    + rewrite Ek. cbn. rewrite <- !app_assoc. cbn. rewrite <- !Permutation_middle. apply Permutation_swap.
    + assert (Hh : forall a, a ∈ t :: l1 ++ l2 -> a ∈ held).
      { intros a Ha. rewrite Eh. set_solver. }
      intros a b Ha [->|Hb]%elem_of_cons; [by apply Hm, Hh|].
      apply (better_trans m a t0 b); [by apply Hm, Hh|]. apply B; set_solver.
Qed.

(** The one more is replaced by a new key. *)
Lemma best_replace m ks held t small k t' held' : best_and_one m ks held t small -> held' ≡ₚ k :: small ->
  t' ∈ held' -> (forall a, a ∈ held' -> better m a t') -> exists small', best_and_one m (k :: ks) held' t' small'.
Proof.
  intros (_ & rest & Ek & B) Eh' H' Hm. setoid_rewrite Eh' in Hm. rewrite Eh' in H'. apply elem_of_cons in H' as [->|H'].
  - exists small. split; [done|]. exists (t :: rest). split; [rewrite Ek; apply Permutation_middle|].
    intros a b Ha [->|Hb]%elem_of_cons; [apply Hm; by right|by apply B].
  - assert (B' : forall b, b ∈ t :: rest -> better m t' b) by (intros b; by apply B).
    apply list_elem_of_split in H' as (l1 & l2 & ->). exists (k :: l1 ++ l2). split.
    + rewrite Eh', <- Permutation_middle. apply Permutation_swap.
    + exists (t :: rest). split.
      * rewrite Ek. cbn. rewrite <- !app_assoc. cbn. apply perm_skip, Permutation_app_head, Permutation_middle.
      * intros a b Ha [->|Hb]%elem_of_cons; [apply Hm; set_solver|].
        apply (better_trans m a t' b); [apply Hm; set_solver|by apply B'].
Qed.

Lemma best_perm m ks ks' held t small : ks ≡ₚ ks' -> best_and_one m ks held t small -> best_and_one m ks' held t small.
Proof. intros P (Eh & rest & Ek & B). split; [done|]. exists rest. by rewrite <- P. Qed.

(** ** The state of the queue *)

Implicit Types s : Bounded_queue Q K E.
Definition held s : list K := take (Z.to_nat (elements (m_queue s))) (m_sort_keys s).

(** After the keys [ks] have been pushed on a queue for [n] elements. *)
Record filled s (n : Z) (m : bool) (ks : list K) : Prop := {
  fi_heap d : heap_ordered (key_at d (m_sort_keys s)) m (m_queue s);
  fi_max : max_elements (m_queue s) = n + 1;
  fi_room : n + 1 <= Z.of_nat (length (m_sort_keys s));
  fi_pointers : pointers (m_queue s) ≡ₚ seq 0 (Z.to_nat (elements (m_queue s)));
  fi_keys : (elements (m_queue s) <= n /\ held s ≡ₚ ks)
    \/ (elements (m_queue s) = n + 1 /\ exists t small,
        m_sort_keys s !! queue_top (m_queue s) = Some t /\ best_and_one m ks (held s) t small) }.

Lemma top_pointer (q : Q) : 0 < elements q -> queue_top q ∈ pointers q.
Proof. intros Hp. unfold pointers. destruct (Z.to_nat (elements q)) eqn:Ee; [lia|]. left. Qed.
Lemma held_lookup s p : (p < Z.to_nat (elements (m_queue s)))%nat -> held s !! p = m_sort_keys s !! p.
Proof. intros Hp. unfold held. by apply lookup_take_lt. Qed.
Lemma held_elem s x : x ∈ held s -> exists p, (p < Z.to_nat (elements (m_queue s)))%nat /\ m_sort_keys s !! p = Some x.
Proof.
  intros (p & Hp)%list_elem_of_lookup. exists p. unfold held in Hp. by apply lookup_take_Some in Hp as [? ?].
Qed.

(** The top of a queue that is not empty holds a worst key. *)
Lemma top_worst s m d : heap_ordered (key_at d (m_sort_keys s)) m (m_queue s) ->
  pointers (m_queue s) ≡ₚ seq 0 (Z.to_nat (elements (m_queue s))) ->
  elements (m_queue s) <= Z.of_nat (length (m_sort_keys s)) -> 0 < elements (m_queue s) ->
  exists t, m_sort_keys s !! queue_top (m_queue s) = Some t /\ held s !! queue_top (m_queue s) = Some t /\ t ∈ held s
    /\ forall a, a ∈ held s -> better m a t.
Proof.
  intros Hh Hp Hr He. pose proof (top_pointer _ He) as Ht. rewrite Hp, elem_of_seq in Ht.
  destruct (lookup_lt_is_Some_2 (m_sort_keys s) (queue_top (m_queue s))) as [t Et]; [lia|].
  exists t. split; [done|]. rewrite held_lookup by lia. split; [done|]. split.
  - apply list_elem_of_lookup. exists (queue_top (m_queue s)). rewrite held_lookup; [done|lia].
  - intros a (p & Hlt & Ea)%held_elem. assert (Hpp : p ∈ pointers (m_queue s)) by (rewrite Hp, elem_of_seq; lia).
    pose proof (top_spec _ _ _ _ Hh Hpp) as T. unfold key_at in T. rewrite Ea, Et in T. done.
Qed.

Lemma insert_middle_perm (l : list K) p t k small : l !! p = Some t -> l ≡ₚ t :: small -> <[p := k]> l ≡ₚ k :: small.
Proof.
  intros Hp P. rewrite <- (take_drop_middle l p t Hp) in P. rewrite <- Permutation_middle in P. apply Permutation_cons_inv in P.
  rewrite insert_take_drop by (by eapply lookup_lt_Some). by rewrite <- Permutation_middle, P.
Qed.

Lemma push_filled s n m ks e : 0 <= n -> filled s n m ks ->
  exists s', push e s = Some s' /\ m_keymaker s' = m_keymaker s /\ filled s' n m (m_keymaker s e :: ks).
Proof.
  intros Hn F. destruct F as [Fh Fm Fr Fp Fk]. set (k := m_keymaker s e). pose proof (elements_range _ _ _ (Fh k)) as Hr.
  unfold push, is_initialized, queue_is_full. rewrite Fm in *. rewrite (proj2 (Z.ltb_lt 0 (n + 1))) by lia. fold k.
  destruct (Z.eqb_spec (elements (m_queue s)) (n + 1)) as [Ef|Nf].
  - destruct Fk as [[? _]|(_ & t & small & Et & B)]; [lia|]. rewrite Et.
    pose proof (top_pointer (m_queue s) ltac:(lia)) as Htp. rewrite Fp, elem_of_seq in Htp.
    set (ks' := <[queue_top (m_queue s) := k]> (m_sort_keys s)).
    destruct (replace_spec (m_queue s) (key_at k (m_sort_keys s)) (key_at k ks') m (Fh k)) as (R1 & R2 & R3 & R4); [lia| | |].
    { rewrite Fp. apply NoDup_seq. }
    { intros p Np. unfold key_at, ks'. by rewrite list_lookup_insert_ne. }
    eexists. split; [done|]. split; [done|]. set (s' := mkBQ ks' _ _).
    assert (Fh' : forall d, heap_ordered (key_at d ks') m (m_queue s')).
    { intros d. apply (keys_ext _ (key_at k ks')); [done|]. intros p Hp. cbn in Hp. rewrite R4, Fp, elem_of_seq in Hp. unfold key_at.
      destruct (lookup_lt_is_Some_2 ks' p) as [x ->]; [unfold ks'; rewrite length_insert; lia|done]. }
    assert (Fp' : pointers (m_queue s') ≡ₚ seq 0 (Z.to_nat (elements (m_queue s')))) by (cbn; rewrite R4, R2; done).
    assert (Lh : held s' ≡ₚ k :: small).
    { unfold held. cbn. rewrite R2. unfold ks'. rewrite take_insert_lt by lia.
      apply (insert_middle_perm _ _ t); [rewrite lookup_take_lt by lia; done|apply B]. }
    destruct (top_worst s' m k (Fh' k) Fp') as (t' & Et' & _ & Hin & Hmax); [cbn; rewrite R2; unfold ks'; rewrite length_insert; lia|cbn; lia|].
    destruct (best_replace m ks (held s) t small k t' (held s') B Lh Hin Hmax) as (small' & B').
    constructor; [exact Fh'|cbn; congruence|cbn; unfold ks'; rewrite length_insert; lia|exact Fp'|]. right. split; [cbn; lia|]. by exists t', small'.
  - destruct Fk as [[Hle Eh]|[? _]]; [|lia]. set (i := Z.to_nat (elements (m_queue s))).
    destruct (lookup_lt_is_Some_2 (m_sort_keys s) i) as [y Ey]; [lia|]. rewrite Ey.
    set (ks' := <[i := k]> (m_sort_keys s)).
    assert (Hk : heap_ordered (key_at k ks') m (m_queue s)).
    { apply (keys_ext _ (key_at k (m_sort_keys s))); [done|]. intros p Hp. rewrite Fp, elem_of_seq in Hp.
      unfold key_at, ks'. by rewrite list_lookup_insert_ne by lia. }
    destruct (insert_spec (m_queue s) (key_at k ks') m i Hk) as (R1 & R2 & R3 & R4); [lia|].
    eexists. split; [done|]. split; [done|]. set (s' := mkBQ ks' _ _).
    assert (El : Z.to_nat (elements (m_queue s')) = S i) by (cbn; lia).
    assert (Fp' : pointers (m_queue s') ≡ₚ seq 0 (Z.to_nat (elements (m_queue s')))).
    { rewrite El, seq_S, <- Permutation_cons_append. cbn. rewrite R4, Fp. done. }
    assert (Fh' : forall d, heap_ordered (key_at d ks') m (m_queue s')).
    { intros d. apply (keys_ext _ (key_at k ks')); [done|]. intros p Hp. rewrite Fp', El, elem_of_seq in Hp. unfold key_at.
      destruct (lookup_lt_is_Some_2 ks' p) as [x ->]; [unfold ks'; rewrite length_insert; lia|done]. }
    assert (Lh : held s' ≡ₚ k :: ks).
    { unfold held. rewrite El. cbn [m_sort_keys s']. unfold ks'. rewrite (take_S_r _ _ k) by (apply list_lookup_insert_eq; lia).
      rewrite take_insert_ge by lia. rewrite <- Permutation_cons_append. apply perm_skip, Eh. }
    constructor; [exact Fh'|cbn; congruence|cbn; unfold ks'; rewrite length_insert; lia|exact Fp'|].
    destruct (decide (elements (m_queue s) + 1 <= n)); [left; split; [cbn; lia|done]|right; split; [cbn; lia|]].
    destruct (top_worst s' m k (Fh' k) Fp') as (t & Et & _ & Hin & Hmax);
      [cbn; rewrite R2; unfold ks'; rewrite length_insert; lia|cbn; lia|].
    destruct (best_first m (held s') t Hin Hmax) as (small & B). exists t, small. split; [done|]. by eapply best_perm.
Qed.

Fixpoint push_all (es : list E) s : option (Bounded_queue Q K E) :=
  match es with [] => Some s | e :: es => s ← push e s; push_all es s end.

Lemma push_all_filled es s n m ks : 0 <= n -> filled s n m ks ->
  exists s', push_all es s = Some s' /\ filled s' n m (rev (m_keymaker s <$> es) ++ ks).
Proof.
  intros Hn. revert s ks. induction es as [|e es IH]; intros s ks F; [by exists s|]. cbn.
  destruct (push_filled s n m ks e Hn F) as (s1 & -> & Ek & F1). cbn. destruct (IH s1 _ F1) as (s2 & -> & F2).
  exists s2. split; [done|]. rewrite Ek in F2. by rewrite <- app_assoc.
Qed.

Lemma init_filled n m keymaker sort_keys s s' : 0 <= n -> n + 1 <= Z.of_nat (length sort_keys) ->
  init n m keymaker sort_keys s = (0, s') -> filled s' n m [] /\ m_keymaker s' = keymaker.
Proof.
  intros Hn Hl. unfold init, UINT_MAX. destruct (Z.leb_spec (2 ^ 32 - 1 - 1) n); [done|].
  rewrite (wrap_small 32 n), (wrap_small 32 (n + 1)) by (unfold in_u; lia).
  destruct (init_queue (n + 1) m) as [q|] eqn:Eq; [|done]. intros [= <-]. split; [|done].
  destruct sort_keys as [|d0 ks0] eqn:Es; [cbn in Hl; lia|]. rewrite <- Es in *.
  destruct (init_spec (n + 1) m q (key_at d0 sort_keys) ltac:(lia) Eq) as (I1 & I2 & _).
  constructor; cbn; [|done|done| |].
  - intros d. by apply (init_spec (n + 1) m q (key_at d sort_keys)); [lia|].
  - unfold pointers. by rewrite I1.
  - left. rewrite I1. split; [done|]. unfold held. cbn. by rewrite I1.
Qed.

(** What a filled queue has kept. *)
Lemma filled_best s n m ks : 0 <= n -> filled s n m ks ->
  exists kept dropped, ks ≡ₚ kept ++ dropped
    /\ Z.of_nat (length kept) = Z.min n (Z.of_nat (length ks))
    /\ (forall a b, a ∈ kept -> b ∈ dropped -> better m a b)
    /\ forall d, let q := if queue_is_full (m_queue s) then (queue_remove_top (key_at d (m_sort_keys s)) (m_queue s)).2 else m_queue s in
       key_at d (m_sort_keys s) <$> pointers q ≡ₚ kept.
Proof.
  intros Hn [Fh Fm Fr Fp Fk].
  assert (Kp : forall d, key_at d (m_sort_keys s) <$> seq 0 (Z.to_nat (elements (m_queue s))) = held s).
  { intros d. unfold held. apply list_eq. intros i. rewrite list_lookup_fmap.
    destruct (decide (i < Z.to_nat (elements (m_queue s)))%nat) as [Hi|Hi].
    - rewrite lookup_seq_lt, lookup_take_lt by done. cbn. unfold key_at.
      destruct (m_sort_keys s !! i) eqn:Ei; [done|]. apply lookup_ge_None in Ei.
      pose proof (elements_range _ _ _ (Fh d)). lia.
    - rewrite lookup_seq_ge, lookup_take_ge by lia. done. }
  assert (Kp' : forall d, key_at d (m_sort_keys s) <$> pointers (m_queue s) ≡ₚ held s).
  { intros d. by rewrite Fp, Kp. }
  unfold queue_is_full. rewrite Fm. destruct Fk as [[Hle Eh]|(Ee & t & small & Et & Eh & rest & Ek & B)].
  - exists ks, []. rewrite app_nil_r. split; [done|]. split.
    { rewrite <- Eh. unfold held. rewrite length_take. destruct ks as [|d ks0]; [apply Permutation_nil_r, (f_equal length) in Eh;
        unfold held in Eh; rewrite length_take in Eh; cbn in Eh; lia|]. pose proof (elements_range _ _ _ (Fh d)). lia. }
    split; [by intros a b _ ?%elem_of_nil|]. intros d. destruct (Z.eqb_spec (elements (m_queue s)) (n + 1)); [lia|]. by rewrite Kp'.
  - exists small, (t :: rest). split; [done|]. split.
    { assert (Ls : length (held s) = S (length small)) by (by rewrite Eh). unfold held in Ls. rewrite length_take in Ls.
      rewrite Ek, length_app. cbn. lia. }
    split; [done|]. intros d. rewrite Ee, Z.eqb_refl.
    pose proof (remove_top_spec (m_queue s) _ m (Fh d) ltac:(lia)) as R. destruct (queue_remove_top _ _) as [p q'].
    destruct R as (-> & _ & Pp & _). cbn. specialize (Kp' d). rewrite Pp, Eh in Kp'. cbn in Kp'.
    unfold key_at in Kp' at 1. rewrite Et in Kp'. cbn in Kp'. by apply Permutation_cons_inv in Kp'.
Qed.

(** C17: A bounded queue for [n] elements keeps the [n] best: after any elements
    have been pushed on it, its keys without the one more that a full queue has at
    the top are [n] of the keys pushed, or all of them, and none is worse than one
    that was left out.  Nothing is written outside of the [n + 1] keys. *)
Theorem bounded_queue_keeps_best (n : Z) (m : bool) (keymaker : E -> K) (sort_keys : list K) s0 s (es : list E) :
  0 <= n -> n + 1 <= Z.of_nat (length sort_keys) -> init n m keymaker sort_keys s0 = (0, s) ->
  exists s', push_all es s = Some s' /\ exists kept dropped,
    keymaker <$> es ≡ₚ kept ++ dropped
    /\ Z.of_nat (length kept) = Z.min n (Z.of_nat (length es))
    /\ (forall a b, a ∈ kept -> b ∈ dropped -> better m a b)
    /\ forall d, let q := if queue_is_full (m_queue s') then (queue_remove_top (key_at d (m_sort_keys s')) (m_queue s')).2 else m_queue s' in
       key_at d (m_sort_keys s') <$> pointers q ≡ₚ kept.
Proof.
  intros Hn Hl Hi. destruct (init_filled n m keymaker sort_keys s0 s Hn Hl Hi) as [F <-].
  destruct (push_all_filled es s n m [] Hn F) as (s' & E1 & F'). exists s'. split; [done|].
  destruct (filled_best s' n m _ Hn F') as (kept & dropped & P & Ln & B & Q'). exists kept, dropped.
  rewrite app_nil_r in *. rewrite <- Permutation_rev in P. rewrite length_rev, length_fmap in Ln. done.
Qed.
End best.

(** ** A QUEUE that is a sorted list *)

Record sorted_queue := mkSorted { sq_list : list nat; sq_max : Z; sq_top : bool }.
Section sorted.
Definition above (keys : nat -> Z) (m : bool) (x y : nat) : bool := if m then keys y <=? keys x else keys x <=? keys y.
Fixpoint sorted_insert (keys : nat -> Z) (m : bool) (e : nat) (l : list nat) : list nat :=
  match l with
  | [] => [e]
  | x :: l' => if above keys m e x then e :: l else x :: sorted_insert keys m e l'
  end.
#[local] Instance list_queue : Queue sorted_queue Z := {|
  root q i := nth (Z.to_nat i - 1) (sq_list q) 0%nat;
  elements q := Z.of_nat (length (sq_list q));
  max_elements q := sq_max q;
  zero_queue := mkSorted [] 0 false;
  init_queue n m := Some (mkSorted [] n m);
  queue_insert keys e q := mkSorted (sorted_insert keys (sq_top q) e (sq_list q)) (sq_max q) (sq_top q);
  downheap keys i q := match sq_list q with
    | [] => q | e :: l => mkSorted (sorted_insert keys (sq_top q) e l) (sq_max q) (sq_top q) end;
  queue_remove keys i q := (nth (Z.to_nat i - 1) (sq_list q) 0%nat, mkSorted (tail (sq_list q)) (sq_max q) (sq_top q)) |}.

Fixpoint descending (keys : nat -> Z) (m : bool) (l : list nat) : Prop :=
  match l with [] => True | x :: l => (forall y, y ∈ l -> above keys m x y = true) /\ descending keys m l end.
Definition sorted_ok (keys : nat -> Z) (m : bool) (q : sorted_queue) : Prop :=
  descending keys m (sq_list q) /\ sq_top q = m /\ Z.of_nat (length (sq_list q)) <= sq_max q.

Lemma sorted_pointers q : pointers q = sq_list q.
Proof.
  unfold pointers. cbn. rewrite Nat2Z.id. destruct q as [l mx m]. cbn. clear. apply list_eq. intros i.
  rewrite list_lookup_fmap. destruct (decide (i < length l)%nat) as [Hi|Hi].
  - rewrite lookup_seq_lt by done. destruct (lookup_lt_is_Some_2 l i Hi) as [x Hx].
    change (Some (nth (Z.to_nat (Z.of_nat (S i)) - 1) l 0%nat) = l !! i).
    rewrite Hx. f_equal. rewrite Nat2Z.id. replace (S i - 1)%nat with i by lia. by apply nth_lookup_Some.
  - rewrite lookup_seq_ge by lia. symmetry. apply lookup_ge_None. lia.
Qed.
Lemma sorted_insert_perm keys m e l : sorted_insert keys m e l ≡ₚ e :: l.
Proof. induction l as [|x l IH]; cbn; [done|]. destruct (above keys m e x); [done|]. rewrite IH. apply Permutation_swap. Qed.
Lemma sorted_insert_ok keys m e l : descending keys m l -> descending keys m (sorted_insert keys m e l).
Proof.
  induction l as [|x l IH]; cbn; [intros _; split; [by intros y ?%elem_of_nil|done]|]. intros [Hx Hl].
  destruct (above keys m e x) eqn:Ea.
  - split; [|split; [exact Hx|exact Hl]]. intros y [->|Hy]%elem_of_cons; [done|]. specialize (Hx y Hy).
    unfold above in *. destruct m; lia.
  - split; [|by apply IH]. intros y Hy. rewrite sorted_insert_perm in Hy. apply elem_of_cons in Hy as [->|Hy]; [|auto].
    unfold above in *. destruct m; lia.
Qed.
Lemma descending_ext keys keys' m l : (forall e, e ∈ l -> keys' e = keys e) -> descending keys m l -> descending keys' m l.
Proof.
  induction l as [|x l IH]; cbn; [done|]. intros Hk [Hx Hl]. split; [|apply IH; [set_solver|done]]. intros y Hy.
  unfold above in *. rewrite !Hk by set_solver. auto.
Qed.
#[local] Instance list_queue_lawful : LawfulQueue sorted_queue Z Z.le.
Proof.
  refine {| heap_ordered := sorted_ok |}.
  - done.
  - intros n b q keys Hn [= <-]. cbn. repeat split; cbn; lia.
  - intros q keys b (_ & _ & L). cbn. lia.
  - intros q keys b e (D & T & L) Hl. rewrite !sorted_pointers. cbn in *.
    pose proof (Permutation_length (sorted_insert_perm keys (sq_top q) e (sq_list q))) as Ln. cbn in Ln.
    split; [|split; [lia|split; [done|apply sorted_insert_perm]]]. split; cbn; [rewrite T; by apply sorted_insert_ok|]. split; [done|lia].
  - intros q keys b e (D & T & L) He. rewrite sorted_pointers in He.
    change (queue_top q) with (nth 0 (sq_list q) 0%nat). destruct (sq_list q) as [|x l]; [by apply elem_of_nil in He|]. cbn [nth]. destruct D as [D _]. apply elem_of_cons in He as [->|He]; [destruct b; cbn; lia|]. specialize (D e He). unfold above in D. destruct b; cbn in *; lia.
  - intros q keys keys' b (D & T & L) Hp Nd Hk. rewrite !sorted_pointers in *.
    change (queue_top q) with (nth 0 (sq_list q) 0%nat) in *. unfold queue_replace_top. cbn in *.
    destruct q as [[|x l] mx top]; cbn in *; [lia|].
    pose proof (Permutation_length (sorted_insert_perm keys' top x l)) as Ln. cbn in Ln. apply Prelude.NoDup_cons_iff in Nd as [Nx _].
    split; [|split; [lia|split; [done|apply sorted_insert_perm]]]. split; cbn; [|split; [done|lia]]. rewrite T. apply sorted_insert_ok.
    apply (descending_ext keys); [|apply D]. intros e He. apply Hk. congruence.
  - intros q keys keys' b (D & T & L) Hk. rewrite sorted_pointers in Hk. split; [by apply (descending_ext keys)|done].
  - intros q keys b (D & T & L) Hp. unfold queue_remove_top. cbn. rewrite !sorted_pointers. change (queue_top q) with (nth 0 (sq_list q) 0%nat). cbn in *.
    destruct q as [[|x l] mx top]; cbn in *; [lia|]. split; [done|]. split; [split; cbn; [apply D|split; [done|lia]]|]. split; [done|lia].
Defined.

Definition ten : list Z := [5; 3; 8; 1; 9; 2; 7; 6; 4; 10].
Definition three_best : Z * Bounded_queue sorted_queue Z Z :=
  init 3 true (fun x => x) [0; 0; 0; 0] (construct (fun x => x)).
Lemma three_best_keys : (push_all ten three_best.2 ≫= fun s => Some (m_sort_keys s)) = Some [10; 3; 2; 1].
Proof. reflexivity. Qed.
Lemma bounded_queue_witness : exists s', push_all ten three_best.2 = Some s' /\ exists kept dropped,
  ten ≡ₚ kept ++ dropped /\ Z.of_nat (length kept) = 3 /\ forall a b, a ∈ kept -> b ∈ dropped -> a <= b.
Proof.
  destruct (bounded_queue_keeps_best (le := Z.le) 3 true (fun x : Z => x) [0; 0; 0; 0] (construct (fun x => x)) three_best.2 ten
    ltac:(done) ltac:(done) eq_refl) as (s' & E1 & kept & dropped & P & Ln & B & _).
  exists s'. split; [exact E1|]. exists kept, dropped. rewrite list_fmap_id in P. auto.
Defined.
End sorted.
