(* ===== verification/Tokenizer.v ===== *)
(** Scanners over a buffer: simple_tokenizer.h and the inline members of gstream.h.

    A buffer is a list of characters, and a pointer into it an index.  Reading
    outside of the buffer is undefined ([None]).  Loops take at most as many
    turns as there are characters left. *)
From S2P Require Import Prelude.
Open Scope Z_scope.

(** [for ( ; p < end && test( *p); p++)] *)
Fixpoint skip (buf : list Z) (test : Z -> bool) (n : nat) (p fin : Z) : option Z :=
  if fin <=? p then Some p else
  match n with
  | O => None
  | S n => c ← buf !! Z.to_nat p; if test c then skip buf test n (p + 1) fin else Some p
  end.
Definition turns (p fin : Z) : nat := Z.to_nat (fin - p).

Module Simple_tokenizer.
Record t := mk { m_ptr : Z; m_end : Z }.
Section ops.
Context (buf : list Z).

Definition construct (str length : Z) : t := mk str (str + length).
Definition ptr (s : t) : Z := m_ptr s.
Definition eof (s : t) : bool := m_end s <=? m_ptr s.
Definition get_spaces (s : t) : option t :=
  p ← skip buf (fun c => c =? 32) (turns (m_ptr s) (m_end s)) (m_ptr s) (m_end s); Some (mk p (m_end s)).

Definition ch_ident_start (ch : Z) : bool :=
  ((97 <=? ch) && (ch <=? 122)) || ((65 <=? ch) && (ch <=? 90)) || (ch =? 95).
Definition ch_ident_body (ch : Z) : bool := ch_ident_start ch || ((48 <=? ch) && (ch <=? 57)).
Definition is_ident_start (s : t) : option bool :=
  if eof s then Some false else c ← buf !! Z.to_nat (m_ptr s); Some (ch_ident_start c).
Definition is_ident_body (s : t) : option bool :=
  if eof s then Some false else c ← buf !! Z.to_nat (m_ptr s); Some (ch_ident_body c).

(** The start and the length of the identifier. *)
Definition get_ident (s : t) : option ((Z * Z) * t) :=
  s ← get_spaces s;
  b ← is_ident_start s;
  if negb b then Some ((m_ptr s, 0), s)
  else
    let start := m_ptr s in
    p ← skip buf ch_ident_body (turns (start + 1) (m_end s)) (start + 1) (m_end s);
    Some ((start, p - start), mk p (m_end s)).

(** True when the next character is not [ch]. *)
Definition get_char (ch : Z) (s : t) : option (bool * t) :=
  s ← get_spaces s;
  if eof s then Some (true, s)
  else c ← buf !! Z.to_nat (m_ptr s);
       if c =? ch then Some (false, mk (m_ptr s + 1) (m_end s)) else Some (true, s).
End ops.
End Simple_tokenizer.

Module Gis_read_stream.
(** [my_isspace] of latin1: tab to carriage return, and space. *)
Definition my_isspace (c : Z) : bool := ((9 <=? c) && (c <=? 13)) || (c =? 32).
Record t := mk { m_cur : Z; m_limit : Z; m_err_msg : option (list Z) }.
Section ops.
Context (buf : list Z).

Definition construct (buffer size : Z) : t := mk buffer (buffer + size) None.
Definition skip_space (s : t) : option t :=
  p ← skip buf my_isspace (turns (m_cur s) (m_limit s)) (m_cur s) (m_limit s); Some (mk p (m_limit s) (m_err_msg s)).
Definition skip_char (ch : Z) (s : t) : option (bool * t) :=
  s ← skip_space s;
  if m_limit s <=? m_cur s then Some (true, s)
  else c ← buf !! Z.to_nat (m_cur s);
       if c =? ch then Some (false, mk (m_cur s + 1) (m_limit s) (m_err_msg s)) else Some (true, s).
Definition next_symbol (s : t) : option (Z * t) :=
  s ← skip_space s;
  if m_limit s <=? m_cur s then Some (0, s) else c ← buf !! Z.to_nat (m_cur s); Some (c, s).
Definition get_error_msg (s : t) : option (list Z) * t := (m_err_msg s, mk (m_cur s) (m_limit s) None).
End ops.
End Gis_read_stream.

(** * What the scanners see *)

(** The characters from [p] to [fin]. *)
Definition rest (buf : list Z) (p fin : Z) : list Z := take (Z.to_nat (fin - p)) (drop (Z.to_nat p) buf).
Definition inside (buf : list Z) (p fin : Z) : Prop := 0 <= p <= fin /\ fin <= Z.of_nat (length buf).

(** The longest prefix that passes a test, and what is after it. *)
Fixpoint span (test : Z -> bool) (l : list Z) : list Z * list Z :=
  match l with
  | [] => ([], [])
  | c :: r => if test c then let (a, b) := span test r in (c :: a, b) else ([], l)
  end.

Lemma rest_nil buf p fin : fin <= p -> rest buf p fin = [].
Proof. intros. unfold rest. by replace (Z.to_nat (fin - p)) with 0%nat by lia. Qed.
Lemma rest_cons buf p fin : inside buf p fin -> p < fin ->
  exists c, buf !! Z.to_nat p = Some c /\ rest buf p fin = c :: rest buf (p + 1) fin.
Proof.
  intros [Hp Hf] Hl. destruct (lookup_lt_is_Some_2 buf (Z.to_nat p)) as [c Hc]; [lia|]. exists c. split; [done|].
  unfold rest. rewrite (drop_S _ c) by done. replace (Z.to_nat (fin - p)) with (S (Z.to_nat (fin - (p + 1)))) by lia. cbn.
  by replace (Z.to_nat (p + 1)) with (S (Z.to_nat p)) by lia.
Qed.
Lemma span_app test l : (span test l).1 ++ (span test l).2 = l.
Proof. induction l as [|c l IH]; cbn; [done|]. destruct (test c); [|done]. destruct (span test l). cbn in *. by rewrite IH. Qed.

(** [skip] stops after the longest prefix, and never leaves the buffer. *)
Lemma skip_ok buf test n p fin : inside buf p fin -> (turns p fin <= n)%nat ->
  exists q, skip buf test n p fin = Some q /\ inside buf q fin /\ q = p + Z.of_nat (length (span test (rest buf p fin)).1)
    /\ rest buf q fin = (span test (rest buf p fin)).2.
Proof.
  revert p. induction n as [|n IH]; intros p Hi Hn; unfold turns in Hn; cbn; destruct (Z.leb_spec fin p) as [L|L].
  - exists p. rewrite rest_nil by lia. cbn. split; [done|]. split; [done|]. split; [lia|done].
  - destruct Hi. lia.
  - exists p. rewrite rest_nil by lia. cbn. split; [done|]. split; [done|]. split; [lia|done].
  - destruct (rest_cons buf p fin Hi L) as (c & Ec & Er). rewrite Ec. cbn. rewrite Er. cbn. destruct (test c).
    + destruct (IH (p + 1)) as (q & E & Hq & El & Eq); [destruct Hi; split; lia|unfold turns; lia|]. rewrite E.
      exists q. split; [done|]. split; [done|]. destruct (span test (rest buf (p + 1) fin)). cbn in *. split; [lia|done].
    + exists p. rewrite Er. cbn. split; [done|]. split; [done|]. split; [lia|done].
Qed.

(** * Simple_tokenizer *)

Module ST := Simple_tokenizer.
Definition blank (c : Z) : bool := c =? 32.

Lemma get_spaces_ok buf s : inside buf (ST.m_ptr s) (ST.m_end s) ->
  exists p, ST.get_spaces buf s = Some (ST.mk p (ST.m_end s)) /\ inside buf p (ST.m_end s)
    /\ rest buf p (ST.m_end s) = (span blank (rest buf (ST.m_ptr s) (ST.m_end s))).2.
Proof.
  intros Hi. unfold ST.get_spaces. destruct (skip_ok buf blank _ _ _ Hi (le_n _)) as (q & E & Hq & _ & Er).
  exists q. unfold blank in E. by rewrite E.
Qed.

Definition text (buf : list Z) (tok : Z * Z) : list Z := take (Z.to_nat tok.2) (drop (Z.to_nat tok.1) buf).

(** [get_ident] skips spaces and returns the longest identifier that follows, with
    the length 0 when there is none, and continues after it. *)
Theorem get_ident_spec buf s : inside buf (ST.m_ptr s) (ST.m_end s) ->
  let r := (span blank (rest buf (ST.m_ptr s) (ST.m_end s))).2 in
  let w := match r with c :: r' => if ST.ch_ident_start c then c :: (span ST.ch_ident_body r').1 else [] | [] => [] end in
  exists tok s', ST.get_ident buf s = Some (tok, s') /\ text buf tok = w /\ tok.2 = Z.of_nat (length w)
    /\ ST.m_end s' = ST.m_end s /\ inside buf (ST.m_ptr s') (ST.m_end s')
    /\ w ++ rest buf (ST.m_ptr s') (ST.m_end s') = r.
Proof.
  intros Hi r w. destruct (get_spaces_ok buf s Hi) as (p & E & Hp & Er). unfold ST.get_ident. rewrite E. cbn. fold r in Er.
  unfold ST.is_ident_start, ST.eof. cbn. destruct (Z.leb_spec (ST.m_end s) p) as [L|L].
  - cbn. rewrite rest_nil in Er by lia. unfold w. rewrite <- Er. eexists _, _. split; [done|]. cbn.
    rewrite rest_nil by lia. repeat split; try done; apply Hp.
  - destruct (rest_cons buf p _ Hp L) as (c & Ec & Ecr). rewrite Ec. cbn. unfold w. rewrite <- Er, Ecr.
    destruct (ST.ch_ident_start c); cbn.
    2: { eexists _, _. split; [done|]. cbn. repeat split; try done; apply Hp. }
    destruct (skip_ok buf ST.ch_ident_body (turns (p + 1) (ST.m_end s)) (p + 1) (ST.m_end s)) as (q & Eq & Hq & Elq & Erq);
      [destruct Hp; split; lia|done|]. rewrite Eq. cbn. eexists _, _. split; [done|]. cbn.
    pose proof (proj1 Hp). split; [|split; [lia|split; [done|split; [done|rewrite Erq; f_equal; apply span_app]]]].
    unfold text. cbn. replace (Z.to_nat (q - p)) with (S (length (span ST.ch_ident_body (rest buf (p + 1) (ST.m_end s))).1)) by lia.
    rewrite (drop_S _ c) by done. cbn. f_equal.
    pose proof (span_app ST.ch_ident_body (rest buf (p + 1) (ST.m_end s))) as Sa.
    replace (S (Z.to_nat p)) with (Z.to_nat (p + 1)) by lia. destruct (span ST.ch_ident_body _) as [a b]. cbn in *.
    unfold rest in Sa. apply (f_equal (take (length a))) in Sa. rewrite take_app_length, take_take in Sa.
    rewrite Sa at 2. f_equal. apply (f_equal length) in Sa. rewrite length_take in Sa. lia.
Qed.

Theorem get_char_spec buf s ch : inside buf (ST.m_ptr s) (ST.m_end s) ->
  let r := (span blank (rest buf (ST.m_ptr s) (ST.m_end s))).2 in
  exists s', ST.get_char buf ch s = Some (match r with c :: _ => negb (c =? ch) | [] => true end, s')
    /\ ST.m_end s' = ST.m_end s /\ inside buf (ST.m_ptr s') (ST.m_end s')
    /\ rest buf (ST.m_ptr s') (ST.m_end s') = match r with c :: r' => if c =? ch then r' else r | [] => [] end.
Proof.
  intros Hi r. destruct (get_spaces_ok buf s Hi) as (p & E & Hp & Er). unfold ST.get_char. rewrite E. cbn. fold r in Er.
  unfold ST.eof. cbn. destruct (Z.leb_spec (ST.m_end s) p) as [L|L].
  - rewrite rest_nil in Er by lia. rewrite <- Er. eexists. split; [done|]. cbn. rewrite rest_nil by lia. done.
  - destruct (rest_cons buf p _ Hp L) as (c & Ec & Ecr). rewrite Ec. cbn. rewrite <- Er, Ecr.
    destruct (c =? ch); cbn; eexists; (split; [done|]); cbn; [|done]. split; [done|]. split; [destruct Hp; split; lia|done].
Qed.

(** ** Words come back *)

Definition is_ident (w : list Z) : Prop :=
  match w with [] => False | c :: r => ST.ch_ident_start c = true /\ Forall (fun x => ST.ch_ident_body x = true) r end.
Definition print (ws : list (list Z)) : list Z := concat ((fun w => w ++ [32]) <$> ws).
(** The identifiers that repeated calls return, up to the empty one. *)
Fixpoint idents (buf : list Z) (n : nat) (s : ST.t) : option (list (list Z)) :=
  match n with
  | O => None
  | S n =>
      r ← ST.get_ident buf s;
      if r.1.2 =? 0 then Some [] else ws ← idents buf n r.2; Some (text buf r.1 :: ws)
  end.

Lemma idents_S buf n s : idents buf (S n) s
  = (r ← ST.get_ident buf s; if r.1.2 =? 0 then Some [] else ws ← idents buf n r.2; Some (text buf r.1 :: ws)).
Proof. done. Qed.
Lemma span_all test w c r : Forall (fun x => test x = true) w -> test c = false -> span test (w ++ c :: r) = (w, c :: r).
Proof. intros Hw Hc. induction Hw as [|x w Hx Hw IH]; cbn; [by rewrite Hc|]. by rewrite Hx, IH. Qed.
Lemma blank_not_ident c : ST.ch_ident_start c = true -> blank c = false.
Proof. unfold ST.ch_ident_start, blank. lia. Qed.
Lemma span_blank_print ws : Forall is_ident ws -> (span blank (print ws)).2 = print ws /\ (span blank (32 :: print ws)).2 = print ws.
Proof.
  intros Hw. assert (E : (span blank (print ws)).2 = print ws).
  { destruct ws as [|[|c w] ws]; [done|by inversion Hw|]. inversion_clear Hw as [|? ? Hid _].
    destruct Hid as [Hc _]. cbn. by rewrite blank_not_ident. }
  split; [done|]. cbn. by destruct (span blank (print ws)).
Qed.

Lemma idents_print buf ws s : Forall is_ident ws -> inside buf (ST.m_ptr s) (ST.m_end s) ->
  (rest buf (ST.m_ptr s) (ST.m_end s) = print ws \/ rest buf (ST.m_ptr s) (ST.m_end s) = 32 :: print ws) ->
  idents buf (S (length ws)) s = Some ws.
Proof.
  revert s. induction ws as [|w ws IH]; intros s Hw Hi Hr;
    destruct (get_ident_spec buf s Hi) as (tok & s' & E & Et & El & Em & Hi' & Er); rewrite idents_S, E; cbn [mbind option_bind fst snd].
  - assert (R : (span blank (rest buf (ST.m_ptr s) (ST.m_end s))).2 = []) by (destruct Hr as [-> | ->]; done).
    rewrite R in El. cbn in El. by rewrite El.
  - pose proof (span_blank_print (w :: ws) Hw) as [S1 S2].
    assert (R : (span blank (rest buf (ST.m_ptr s) (ST.m_end s))).2 = print (w :: ws)) by (destruct Hr as [-> | ->]; done).
    rewrite R in Et, El, Er. clear R Hr S1 S2. inversion_clear Hw as [|? ? Hid Hws]. destruct w as [|c w]; [done|].
    destruct Hid as [Hc Hb].
    assert (P : print ((c :: w) :: ws) = c :: w ++ 32 :: print ws) by (unfold print; cbn; by rewrite <- app_assoc).
    rewrite P, Hc, (span_all ST.ch_ident_body w 32 (print ws) Hb eq_refl) in Et, El, Er. cbn in El, Er.
    destruct (Z.eqb_spec tok.2 0); [lia|]. injection Er as Er. apply app_inv_head in Er.
    change (length ((c :: w) :: ws)) with (S (length ws)). rewrite IH; [by rewrite Et|done|done|by right].
Qed.

(** Identifiers printed with a space after each are the tokens that are read. *)
Theorem idents_roundtrip ws : Forall is_ident ws ->
  idents (print ws) (S (length ws)) (ST.construct 0 (Z.of_nat (length (print ws)))) = Some ws.
Proof.
  intros Hw. apply idents_print; [done|split; cbn; lia|]. left.
  unfold rest. cbn [ST.construct ST.m_ptr ST.m_end]. rewrite take_ge; [done|]. rewrite length_drop. lia.
Qed.

(** * Gis_read_stream *)

Module GS := Gis_read_stream.
Lemma skip_space_ok buf s : inside buf (GS.m_cur s) (GS.m_limit s) ->
  exists p, GS.skip_space buf s = Some (GS.mk p (GS.m_limit s) (GS.m_err_msg s)) /\ inside buf p (GS.m_limit s)
    /\ rest buf p (GS.m_limit s) = (span GS.my_isspace (rest buf (GS.m_cur s) (GS.m_limit s))).2.
Proof.
  intros Hi. unfold GS.skip_space. destruct (skip_ok buf GS.my_isspace _ _ _ Hi (le_n _)) as (q & E & Hq & _ & Er).
  exists q. by rewrite E.
Qed.

(** [next_symbol] shows the next character that is no space, or 0, and [skip_char]
    takes exactly that character. *)
Theorem skip_char_takes_next_symbol buf s : inside buf (GS.m_cur s) (GS.m_limit s) ->
  exists c s1, GS.next_symbol buf s = Some (c, s1)
    /\ (rest buf (GS.m_cur s1) (GS.m_limit s1) <> [] ->
        exists s2, GS.skip_char buf c s1 = Some (false, s2)
          /\ rest buf (GS.m_cur s1) (GS.m_limit s1) = c :: rest buf (GS.m_cur s2) (GS.m_limit s2))
    /\ (rest buf (GS.m_cur s1) (GS.m_limit s1) = [] -> c = 0 /\ GS.skip_char buf c s1 = Some (true, s1)).
Proof.
  intros Hi. destruct (skip_space_ok buf s Hi) as (p & E & Hp & Er). unfold GS.next_symbol. rewrite E. cbn.
  destruct (Z.leb_spec (GS.m_limit s) p) as [L|L].
  - eexists _, _. split; [done|]. cbn. rewrite rest_nil by lia. split; [done|]. intros _. split; [done|].
    unfold GS.skip_char, GS.skip_space. cbn. unfold skip. cbn. destruct (turns p (GS.m_limit s)); cbn;
      rewrite (proj2 (Z.leb_le _ _) L); cbn; rewrite (proj2 (Z.leb_le _ _) L); done.
  - destruct (rest_cons buf p _ Hp L) as (c & Ec & Ecr). rewrite Ec. cbn. eexists _, _. split; [done|]. cbn. rewrite Ecr.
    split; [|done]. intros _.
    assert (Nc : GS.my_isspace c = false).
    { rewrite Er in Ecr. clear -Ecr. revert Ecr. generalize (rest buf (GS.m_cur s) (GS.m_limit s)). intros l.
      induction l as [|x l IH]; cbn; [done|]. destruct (GS.my_isspace x) eqn:Ex; [destruct (span GS.my_isspace l); auto|].
      cbn. intros [= -> _]. done. }
    destruct (skip_space_ok buf (GS.mk p (GS.m_limit s) (GS.m_err_msg s)) Hp) as (q & E2 & Hq & Er2). cbn in *.
    unfold GS.skip_char. rewrite E2. cbn. rewrite Ecr in Er2. cbn in Er2. rewrite Nc in Er2. cbn in Er2.
    destruct (Z.leb_spec (GS.m_limit s) q) as [L2|L2]; [by rewrite rest_nil in Er2 by lia|].
    destruct (rest_cons buf q _ Hq L2) as (c2 & Ec2 & Ecr2). rewrite Ec2. cbn. rewrite Er2 in Ecr2. injection Ecr2 as <- Et.
    rewrite Z.eqb_refl. eexists. split; [done|]. cbn. by rewrite Et.
Qed.
