(* ===== verification/SqlString.v ===== *)
(** Growing strings: [Binary_string] of sql_string.h, and the functions of
    [Charset] and [String] that need no character set.

    Memory is a map from blocks to bytes; a pointer is a block and an offset.  A
    member is a computation on the memory and the fields of the object.
    [None] is undefined behaviour: an access outside of a block or to one that is
    freed, or a failed assertion.  [real_alloc] and [realloc_raw], defined outside
    of the sources, are an interface whose laws are in SqlStringProps. *)
From S2P Require Import Prelude.
Open Scope Z_scope.

Abbreviation ptr := (nat * Z)%type.
Abbreviation memory := (gmap nat (list Z)).

Record Binary_string := mkStr
  { Ptr : option ptr; str_length : Z; Alloced_length : Z; extra_alloc : Z; alloced : bool; thread_specific : bool }.

Definition UINT_MAX32 : Z := 2 ^ 32 - 1.

(** * Computations *)

Definition M (A : Type) : Type := memory * Binary_string -> option (A * (memory * Binary_string)).
Definition ret {A} (x : A) : M A := fun st => Some (x, st).
Definition bind {A B} (c : M A) (k : A -> M B) : M B := fun st =>
  match c st with Some (x, st') => k x st' | None => None end.
Declare Scope str_scope.
Delimit Scope str_scope with str.
Notation "'do' x <- c ; k" := (bind c (fun x => k)) (at level 200, x name, c at level 100, k at level 200) : str_scope.
Notation "'do_' c ; k" := (bind c (fun _ => k)) (at level 200, c at level 100, k at level 200) : str_scope.
Open Scope str_scope.

Definition get : M Binary_string := fun st => Some (st.2, st).
Definition put (s : Binary_string) : M unit := fun st => Some (tt, (st.1, s)).
Definition modify (f : Binary_string -> Binary_string) : M unit := fun st => Some (tt, (st.1, f st.2)).
Definition assert (b : bool) : M unit := fun st => if b then Some (tt, st) else None.
Definition fail {A} : M A := fun _ => None.

Definition set_ptr v s := mkStr v (str_length s) (Alloced_length s) (extra_alloc s) (alloced s) (thread_specific s).
Definition set_length v s := mkStr (Ptr s) v (Alloced_length s) (extra_alloc s) (alloced s) (thread_specific s).
Definition set_capacity v s := mkStr (Ptr s) (str_length s) v (extra_alloc s) (alloced s) (thread_specific s).
Definition set_extra v s := mkStr (Ptr s) (str_length s) (Alloced_length s) v (alloced s) (thread_specific s).
Definition set_owner v s := mkStr (Ptr s) (str_length s) (Alloced_length s) (extra_alloc s) v (thread_specific s).
Definition set_specific v s := mkStr (Ptr s) (str_length s) (Alloced_length s) (extra_alloc s) (alloced s) v.

(** [n] bytes at a pointer, and writing bytes there. *)
Definition bytes_at (m : memory) (p : ptr) (n : Z) : option (list Z) :=
  blk ← m !! p.1;
  if (0 <=? p.2) && (p.2 + n <=? Z.of_nat (length blk)) then Some (take (Z.to_nat n) (drop (Z.to_nat p.2) blk)) else None.
Definition overwrite (blk : list Z) (o : nat) (data : list Z) : list Z := take o blk ++ data ++ drop (o + length data) blk.
Definition write_at (m : memory) (p : ptr) (data : list Z) : option memory :=
  blk ← m !! p.1;
  if (0 <=? p.2) && (p.2 + Z.of_nat (length data) <=? Z.of_nat (length blk))
  then Some (<[p.1 := overwrite blk (Z.to_nat p.2) data]> m) else None.

Definition read (p : ptr) (n : Z) : M (list Z) := fun st => d ← bytes_at st.1 p n; Some (d, st).
(** [Ptr[i]= ...], and memcpy to [Ptr + i]. *)
Definition store (i : Z) (data : list Z) : M unit := fun st =>
  p ← Ptr st.2; m ← write_at st.1 (p.1, p.2 + i) data; Some (tt, (m, st.2)).
(** Only the start of a block can be freed. *)
Definition my_free : M unit := fun st =>
  p ← Ptr st.2; _ ← st.1 !! p.1; if p.2 =? 0 then Some (tt, (delete p.1 st.1, st.2)) else None.

(** little-endian stores of myisampack's siblings int2store and int4store *)
Definition byte_of (x : Z) (i : Z) : Z := u8 (Z.shiftr x (8 * i)).

Class Realloc := { real_alloc : Z -> M bool; realloc_raw : Z -> M bool }.

Module Binary_string.
Section members.
Context `{Realloc}.

Definition init_private_data : M unit := put (mkStr None 0 0 0 false false).
Definition free_buffer : M unit :=
  do s <- get;
  if alloced s then do_ modify (set_owner false); my_free else ret tt.

Definition construct : M unit := init_private_data.
Definition construct_length (length_arg : Z) : M unit :=
  do_ init_private_data; do_ real_alloc length_arg; ret tt.
Definition construct_const (str : option ptr) (len : Z) : M unit := put (mkStr str (u32 len) 0 0 false false).
Definition construct_buffer (str : option ptr) (len : Z) : M unit := put (mkStr str (u32 len) (u32 len) 0 false false).
Definition construct_copy (str : Binary_string) : M unit :=
  put (mkStr (Ptr str) (str_length str) (Alloced_length str) 0 false false).

Definition free : M unit :=
  do_ free_buffer;
  modify (fun s => set_extra 0 (set_capacity 0 (set_length 0 (set_ptr None s)))).

Definition destruct_string : M unit := free.

Definition length : M Z := do s <- get; ret (str_length s).
Definition resize_length (len : Z) : M unit := modify (set_length (u32 len)).
Definition is_empty : M bool := do s <- get; ret (str_length s =? 0).
Definition text : M (list Z) :=
  do s <- get; match Ptr s with Some p => read p (str_length s) | None => ret [] end.
(** [my_isascii] *)
Definition has_8bit_bytes : M bool := do d <- text; ret (existsb (fun c => 128 <=? c) d).
Definition bin_eq (other : list Z) : M bool :=
  do n <- length;
  if n =? Z.of_nat (List.length other) then do d <- text; ret (bool_decide (d = other)) else ret false.

Definition chop : M unit :=
  do s <- get;
  if str_length s =? 0 then ret tt
  else
    do_ modify (set_length (u32 (str_length s - 1)));
    do_ store (str_length s - 1) [0];
    do d <- text; assert (forallb truth d).

Definition ASSERT_LENGTH (a : Z) : M unit :=
  do s <- get; assert (u32 (str_length s + u32 a) <=? Alloced_length s).
Definition advance (n : Z) : M unit := modify (fun s => set_length (u32 (str_length s + n)) s).

Definition q_append_char (c : Z) : M unit :=
  do_ ASSERT_LENGTH 1; do s <- get; do_ store (str_length s) [c]; advance 1.
Definition q_append2b (n : Z) : M unit :=
  do_ ASSERT_LENGTH 2; do s <- get; do_ store (str_length s) [byte_of n 0; byte_of n 1]; advance 2.
Definition q_append_uint32 (n : Z) : M unit :=
  do_ ASSERT_LENGTH 4; do s <- get;
  do_ store (str_length s) [byte_of n 0; byte_of n 1; byte_of n 2; byte_of n 3]; advance 4.
(** The eight bytes of a double. *)
Definition q_append_double (d : list Z) : M unit :=
  do_ ASSERT_LENGTH 8; do s <- get; do_ store (str_length s) d; advance 8.
Definition q_append (data : option ptr) (data_len : Z) : M unit :=
  do_ ASSERT_LENGTH data_len;
  do s <- get;
  do_ (if data_len =? 0 then ret tt
       else match data with
            | Some p => do d <- read p data_len; store (str_length s) d
            | None => fail
            end);
  do_ assert (str_length s <=? u64 (UINT_MAX32 - data_len));
  advance (u32 data_len).
Definition write_at_position (position value : Z) : M unit :=
  do s <- get;
  do_ assert (u32 (position + 4) <=? str_length s);
  store position [byte_of value 0; byte_of value 1; byte_of value 2; byte_of value 3].
Definition qs_append_char (c : Z) : M unit := q_append_char c.

Definition set_thread_specific : M unit :=
  do s <- get; if alloced s then ret tt else modify (set_specific true).
Definition is_alloced : M bool := do s <- get; ret (alloced s).
Definition alloced_length : M Z := do s <- get; ret (Alloced_length s).
Definition extra_allocation : M Z := do s <- get; ret (extra_alloc s).
Definition set_extra_allocation (len : Z) : M unit := modify (set_extra (u32 len)).
Definition mark_as_const : M unit := modify (set_capacity 0).

Definition set_alloced (str : option ptr) (len alloced_len : Z) : M unit :=
  do_ free_buffer;
  do_ modify (fun s => set_length (u32 len) (set_ptr str s));
  do_ assert (alloced_len <? UINT_MAX32);
  modify (set_capacity (u32 alloced_len)).
Definition set_buffer (str : option ptr) (arg_length : Z) : M unit := set_alloced str arg_length arg_length.
Definition set_const (str : option ptr) (len : Z) : M unit :=
  do_ free_buffer;
  modify (fun s => set_capacity 0 (set_length (u32 len) (set_ptr str s))).
(** A part of another string. *)
Definition set_part (str : Binary_string) (offset len : Z) : M unit :=
  do_ free_buffer;
  modify (fun s => set_capacity (if Alloced_length str =? 0 then 0 else u32 (Alloced_length str - offset))
    (set_length (u32 len) (set_ptr ((fun p => (p.1, p.2 + offset)) <$> Ptr str) s))).
Definition to_lex_cstring : M (option ptr * Z) := do s <- get; ret (Ptr s, str_length s).
Definition reset (ptr_arg : option ptr) (length_arg alloced_length_arg : Z) : M unit :=
  do_ set_alloced ptr_arg length_arg alloced_length_arg;
  modify (set_owner (if ptr_arg then true else false)).
Definition release : M (option ptr) := do s <- get; do_ init_private_data; ret (Ptr s).
Definition set_buffer_if_not_allocated (str : option ptr) (arg_length : Z) : M unit :=
  do s <- get;
  if alloced s then ret tt
  else modify (fun s => set_capacity (u32 arg_length) (set_length (u32 arg_length) (set_ptr str s))).

(** ** Growing *)

Definition realloc (arg_length : Z) : M bool :=
  do failed <- realloc_raw (u64 (arg_length + 1));
  if failed then ret true else do_ store arg_length [0]; ret false.
Definition realloc_with_extra (arg_length : Z) : M bool :=
  do_ modify (fun s => if extra_alloc s <? 4096 then set_extra (u32 (extra_alloc s * 2 + 128)) s else s);
  do s <- get;
  do failed <- realloc_raw (u64 (arg_length + extra_alloc s));
  if failed then ret true else do_ store arg_length [0]; ret false.
Definition realloc_with_extra_if_needed (arg_length : Z) : M bool :=
  do s <- get;
  if arg_length <? Alloced_length s then do_ store arg_length [0]; ret false
  else realloc_with_extra arg_length.
Definition alloc (arg_length : Z) : M bool :=
  do s <- get;
  if (arg_length <=? Alloced_length s) && truth (Alloced_length s) then ret false else real_alloc arg_length.
Definition reserve (space_needed : Z) : M bool :=
  do s <- get;
  do_ assert (u64 (str_length s + space_needed) <? UINT_MAX32);
  realloc (u64 (str_length s + space_needed)).

Definition append (str : option ptr) (size : Z) : M bool :=
  if size =? 0 then ret false
  else
    do s <- get;
    do failed <- realloc_with_extra_if_needed (u64 (str_length s + size));
    if failed then ret true else do_ q_append str size; ret false.
Definition append_lex (s : option ptr * Z) : M bool := append s.1 s.2.
Definition append_string (s : Binary_string) : M bool := append (Ptr s) (str_length s).
Definition append_char (chr : Z) : M bool :=
  do s <- get;
  if str_length s <? Alloced_length s then do_ store (str_length s) [chr]; do_ advance 1; ret false
  else
    do failed <- realloc_with_extra (u32 (str_length s + 1));
    if failed then ret true
    else do s <- get; do_ store (str_length s) [chr]; do_ advance 1; ret false.

(** _dig_vec_lower *)
Definition hex_digit (d : Z) : Z := if d <? 10 then 48 + d else 87 + d.
(** [src] is read before each byte is appended. *)
Fixpoint append_hex (src : list Z) : M bool :=
  match src with
  | [] => ret false
  | c :: src =>
      do f1 <- append_char (hex_digit (Z.shiftr c 4));
      if f1 then ret true
      else do f2 <- append_char (hex_digit (Z.land c 15)); if f2 then ret true else append_hex src
  end.
Definition append_with_step (str : option ptr) (arg_length step_alloc : Z) : M bool :=
  do s <- get;
  let new_length := u32 (arg_length + str_length s) in
  do failed <- (if Alloced_length s <? new_length then realloc (u32 (new_length + step_alloc)) else ret false);
  if failed then ret true else do_ q_append str arg_length; ret false.
(** The area to use, or NULL. *)
Definition prep_append (arg_length step_alloc : Z) : M (option ptr) :=
  do s <- get;
  let new_length := u32 (arg_length + str_length s) in
  do failed <- (if Alloced_length s <? new_length then realloc (u32 (new_length + step_alloc)) else ret false);
  if failed then ret None
  else
    do s <- get;
    do_ modify (set_length (u32 (str_length s + arg_length)));
    ret ((fun p => (p.1, p.2 + str_length s)) <$> Ptr s).

(** None is the empty literal. *)
Definition c_ptr : M (option ptr) :=
  do s <- get;
  match Ptr s with
  | None => ret None
  | Some p =>
      do end0 <- (if alloced s then ret false else do d <- read (p.1, p.2 + str_length s) 1; ret (bool_decide (d = [0])));
      if end0 then ret (Some p)
      else if str_length s <? Alloced_length s then do_ store (str_length s) [0]; ret (Some p)
      else do_ realloc (str_length s); do s <- get; ret (Ptr s)
  end.
Definition c_ptr_safe : M (option ptr) :=
  do s <- get;
  do_ (if (if Ptr s then true else false) && (str_length s <? Alloced_length s)
       then store (str_length s) [0] else do_ realloc (str_length s); ret tt);
  do s <- get; ret (Ptr s).
Definition c_ptr_quick : M (option ptr) := c_ptr_safe.
End members.

(** ** Two strings *)

Definition uses_buffer_owned_by (this s : Binary_string) : bool :=
  alloced s && match Ptr this, Ptr s with
    | Some p, Some q => bool_decide (p.1 = q.1) && (q.2 <=? p.2) && (p.2 <? q.2 + Alloced_length s)
    | _, _ => false
    end.
(** The results are the new fields of both. *)
Definition swap (this s : Binary_string) : Binary_string * Binary_string :=
  (mkStr (Ptr s) (str_length s) (Alloced_length s) (extra_alloc this) (alloced s) (thread_specific this),
   mkStr (Ptr this) (str_length this) (Alloced_length this) (extra_alloc s) (alloced this) (thread_specific s)).
(** [s] stays as it is; the two are different objects. *)
Definition assign (s : Binary_string) : M unit :=
  do this <- get;
  do_ assert (negb (uses_buffer_owned_by s this));
  set_alloced (Ptr s) (str_length s) (Alloced_length s).
(** The result is the new value of [s]. *)
Definition move (s : Binary_string) : M Binary_string :=
  do_ set_alloced (Ptr s) (str_length s) (Alloced_length s);
  do_ modify (fun this => set_specific (thread_specific s) (set_owner (alloced s) (set_extra (extra_alloc s) this)));
  ret (set_owner false s).
End Binary_string.

(** A buffer inside of the object, of [buff_sz] bytes, in block [b]. *)
Definition BinaryStringBuffer (b : nat) (buff_sz : Z) : M unit :=
  do_ Binary_string.construct_buffer (Some (b, 0)) buff_sz; Binary_string.resize_length 0.

(** * Charset: collations across versions *)

Module Charset.
Definition latest_mariadb_version_with_collation_change : Z := 110002.

(** [lo] to below [hi]. *)
Definition version_in (v : Z) (r : Z * Z) : bool := (r.1 <=? v) && (v <? r.2).
Definition mdev_30746 : list (Z * Z) :=
  [(100400, 100429); (100500, 100520); (100600, 100613); (100700, 100708); (100800, 100808);
   (100900, 100906); (101000, 101004); (101100, 101103); (110000, 110002)].
Definition collation_changed_order (mysql_version cs_number : Z) : bool :=
  if ((mysql_version <? 50048) &&
        ((cs_number =? 11) || (cs_number =? 41) || (cs_number =? 42) || (cs_number =? 20) ||
         (cs_number =? 21) || (cs_number =? 22) || (cs_number =? 23) || (cs_number =? 26))) ||
     ((mysql_version <? 50124) && ((cs_number =? 33) || (cs_number =? 35)))
  then true
  else if (cs_number =? 159) && existsb (version_in mysql_version) mdev_30746 then true
  else false.

Definition MY_PAGE2_COLLATION_ID_UTF8 : Z := 0x240.
Definition MY_PAGE2_COLLATION_ID_UTF8MB4 : Z := 0x260.
Definition MY_PAGE2_COLLATION_ID_UCS2 : Z := 0x280.
Definition MY_PAGE2_COLLATION_ID_UTF16 : Z := 0x2A0.
Definition MY_PAGE2_COLLATION_ID_UTF32 : Z := 0x2E0.

(** [switch (cs_number)] with these cases; no case matches: None. *)
Definition switch (cases : list (Z * Z)) (cs_number : Z) : option Z :=
  snd <$> List.find (fun c => c.1 =? cs_number) cases.
Definition upgrade_collation_id (mysql_version cs_number : Z) : Z :=
  let in53 :=
    if (50300 <=? mysql_version) && (mysql_version <=? 50399)
    then switch [(149, MY_PAGE2_COLLATION_ID_UCS2); (213, MY_PAGE2_COLLATION_ID_UTF8)] cs_number
    else None in
  let in55 :=
    if ((50500 <=? mysql_version) && (mysql_version <=? 50599)) || ((100000 <=? mysql_version) && (mysql_version <=? 100005))
    then switch [(149, MY_PAGE2_COLLATION_ID_UCS2); (213, MY_PAGE2_COLLATION_ID_UTF8); (214, MY_PAGE2_COLLATION_ID_UTF32);
                 (215, MY_PAGE2_COLLATION_ID_UTF16); (245, MY_PAGE2_COLLATION_ID_UTF8MB4)] cs_number
    else None in
  match in53 with Some r => r | None => match in55 with Some r => r | None => cs_number end end.
End Charset.

(** * String *)

Module StringOps.
(** The character after the backslash that stands for [ch], or 0. *)
Definition escaped_wc_for_single_quote (ch : Z) : Z :=
  match ch with
  | 92 => 92 | 0 => 48 | 39 => 39 | 8 => 98 | 9 => 116 | 10 => 110 | 13 => 114 | 26 => 90
  | _ => 0
  end.

Section flags.
Context `{Realloc}.
(** [append(const LEX_CSTRING &)]: with a conversion to the string's character set. *)
Variable append_text : list Z -> M bool.

(** [c1 || c2] *)
Definition or_else (c1 c2 : M bool) : M bool := do r <- c1; if r then ret true else c2.
Definition on (b : bool) (c : M bool) : M bool := if b then c else ret false.

(** The loop from bit [n - 1] down to bit 0. *)
Fixpoint flag_names (n : nat) (flags : Z) (names : list (list Z)) (added : bool) : M bool :=
  match n with
  | O => ret false
  | S bit =>
      if Z.testbit flags (Z.of_nat bit)
      then
        or_else (on added (Binary_string.append_char 124))
          (or_else (match names !! bit with Some name => append_text name | None => Binary_string.append_char 63 end)
             (flag_names bit flags names true))
      else flag_names bit flags names added
  end.
Definition append_flag32_names (flags : Z) (names : list (list Z)) : M bool :=
  or_else (on (truth flags) (Binary_string.append_char 40))
    (or_else (flag_names 32 flags names false) (on (truth flags) (Binary_string.append_char 41))).

Definition append_name_value (name value : list Z) (quot : Z) : M bool :=
  or_else (append_text name) (or_else (Binary_string.append_char 61)
    (or_else (on (truth quot) (Binary_string.append_char quot))
      (or_else (append_text value) (on (truth quot) (Binary_string.append_char quot))))).
End flags.
End StringOps.
