(* ===== verification/SqlStringProps.v ===== *)
(** Growing strings: what the members of [Binary_string] do to the text they hold.

    [holds m s t]: in memory [m] the string [s] is well formed and its text is [t].
    [LawfulRealloc] is what the header relies on of [realloc_raw]: it keeps the
    text, and when it does not fail the buffer has the length asked for. *)
From S2P Require Import Prelude SqlString.
Open Scope Z_scope.
Open Scope str_scope.

Definition block (s : Binary_string) : option nat := fst <$> Ptr s.

Record wf (m : memory) (s : Binary_string) : Prop :=
  { wf_len : in_u 32 (str_length s);
    wf_cap : in_u 32 (Alloced_length s);
    wf_extra : in_u 32 (extra_alloc s);
    wf_ptr : match Ptr s with
             | None => str_length s = 0 /\ Alloced_length s = 0 /\ alloced s = false
             | Some p => exists blk, m !! p.1 = Some blk /\ (0 <= p.2 /\ (alloced s = true -> p.2 = 0))
                         /\ p.2 + Z.max (str_length s) (Alloced_length s) <= Z.of_nat (length blk)
             end }.

Definition holds (m : memory) (s : Binary_string) (t : list Z) : Prop :=
  wf m s /\ match Ptr s with Some p => bytes_at m p (str_length s) = Some t | None => t = [] end.

(** The blocks of [m] the string [s] does not use are unchanged in [m'], and [s'] does not use them. *)
Definition frame (m : memory) (s : Binary_string) (m' : memory) (s' : Binary_string) : Prop :=
  forall b blk, m !! b = Some blk -> block s <> Some b -> m' !! b = Some blk /\ block s' <> Some b.

Class LawfulRealloc `{Realloc} : Prop :=
  realloc_raw_spec : forall n m s t, holds m s t -> 0 <= n < 2 ^ 64 ->
    exists failed m' s', realloc_raw n (m, s) = Some (failed, (m', s'))
      /\ holds m' s' t /\ str_length s' = str_length s /\ extra_alloc s' = extra_alloc s /\ frame m s m' s'
      /\ (if failed then m' = m /\ s' = s else n <= Alloced_length s').

(** * Bytes *)

Lemma take_drop_overwrite_before (blk d : list Z) (o n k : nat) :
  (o + n <= k)%nat -> (k <= length blk)%nat -> take n (drop o (overwrite blk k d)) = take n (drop o blk).
Proof.
  intros Hk Hb. unfold overwrite. rewrite !take_drop_commute. f_equal.
  rewrite take_app_le by (rewrite length_take; lia). rewrite take_take. f_equal. lia.
Qed.

Lemma take_drop_overwrite_end (blk d : list Z) (o n : nat) :
  (o + n + length d <= length blk)%nat ->
  take (n + length d) (drop o (overwrite blk (o + n) d)) = take n (drop o blk) ++ d.
Proof.
  intros Hb. unfold overwrite. rewrite !take_drop_commute.
  assert (Hl : length (take (o + n) blk) = (o + n)%nat) by (rewrite length_take; lia).
  rewrite take_app_ge by lia. rewrite Hl.
  replace (o + (n + length d) - (o + n))%nat with (length d) by lia.
  rewrite take_app_length. rewrite drop_app_le by lia. done.
Qed.

Lemma length_overwrite (blk d : list Z) (o : nat) :
  (o + length d <= length blk)%nat -> length (overwrite blk o d) = length blk.
Proof. intros. unfold overwrite. rewrite !length_app, length_take, length_drop. lia. Qed.

Lemma bytes_at_some m p n d blk :
  m !! p.1 = Some blk -> 0 <= p.2 -> p.2 + n <= Z.of_nat (length blk) ->
  bytes_at m p n = Some d <-> take (Z.to_nat n) (drop (Z.to_nat p.2) blk) = d.
Proof.
  intros Hm Hp Hn. unfold bytes_at. rewrite Hm. cbn [mbind option_bind].
  destruct (Z.leb_spec 0 p.2); [|lia]. destruct (Z.leb_spec (p.2 + n) (Z.of_nat (length blk))); [|lia].
  cbn. split; congruence.
Qed.

Lemma bytes_at_inv m p n d :
  bytes_at m p n = Some d -> 0 <= n ->
  exists blk, m !! p.1 = Some blk /\ 0 <= p.2 /\ p.2 + n <= Z.of_nat (length blk) /\ Z.of_nat (length d) = n.
Proof.
  unfold bytes_at. destruct (m !! p.1) as [blk|]; cbn [mbind option_bind]; [|done].
  destruct (Z.leb_spec 0 p.2); cbn [andb]; [|done].
  destruct (Z.leb_spec (p.2 + n) (Z.of_nat (length blk))); [|done].
  intros [= <-] Hn. exists blk. rewrite length_take, length_drop. repeat split; lia.
Qed.

Lemma bytes_at_block m m' p n d :
  bytes_at m p n = Some d -> m' !! p.1 = m !! p.1 -> bytes_at m' p n = Some d.
Proof. unfold bytes_at. intros H ->. exact H. Qed.

(** * Storing into the buffer *)

Lemma holds_ptr m s t :
  holds m s t -> 0 < Alloced_length s ->
  exists p blk, Ptr s = Some p /\ m !! p.1 = Some blk /\ 0 <= p.2
    /\ p.2 + Z.max (str_length s) (Alloced_length s) <= Z.of_nat (length blk)
    /\ take (Z.to_nat (str_length s)) (drop (Z.to_nat p.2) blk) = t /\ (alloced s = true -> p.2 = 0).
Proof.
  intros [[Hl Hc He Hp] Ht] Ha. destruct (Ptr s) as [p|]; [|lia].
  destruct Hp as (blk & Hm & [Hp Ho] & Hb). exists p, blk. split_and!; [done..| |done].
  apply (bytes_at_some m p); [done|done|lia|done].
Qed.

Lemma holds_length m s t : holds m s t -> Z.of_nat (length t) = str_length s.
Proof.
  intros [[Hl _ _ Hp] Ht]. destruct (Ptr s) as [p|]; [|destruct Hp; subst; done].
  apply bytes_at_inv in Ht as (? & ? & ? & ? & ?); [done|apply Hl].
Qed.

(** Bytes stored after the text, up to [Alloced_length]. *)
Lemma store_spec m s t i d :
  holds m s t -> str_length s <= i -> 0 < Z.of_nat (length d) -> i + Z.of_nat (length d) <= Alloced_length s ->
  exists m', store i d (m, s) = Some (tt, (m', s)) /\ holds m' s t /\ frame m s m' s
    /\ (i = str_length s -> holds m' (set_length (str_length s + Z.of_nat (length d)) s) (t ++ d)).
Proof.
  intros Hh Hi Hd Ha. pose proof Hh as [[Hl Hc He _] _].
  destruct (holds_ptr _ _ _ Hh) as (p & blk & HP & Hm & Hp & Hb & Ht & Ho); [unfold in_u in *; lia|].
  unfold in_u in *.
  exists (<[p.1 := overwrite blk (Z.to_nat (p.2 + i)) d]> m).
  assert (HL : length (overwrite blk (Z.to_nat (p.2 + i)) d) = length blk) by (apply length_overwrite; lia).
  split_and!.
  - unfold store. cbn. rewrite HP. cbn. unfold write_at. cbn. rewrite Hm. cbn.
    destruct (Z.leb_spec 0 (p.2 + i)); [|lia].
    destruct (Z.leb_spec (p.2 + i + Z.of_nat (length d)) (Z.of_nat (length blk))); [done|lia].
  - split; [split; try done|]; rewrite HP.
    + exists (overwrite blk (Z.to_nat (p.2 + i)) d). rewrite lookup_insert_eq, HL. split_and!; [done..|lia].
    + eapply bytes_at_some; [apply lookup_insert_eq|done|lia|].
      rewrite take_drop_overwrite_before by lia. done.
  - intros b blk' Hb' Hne. split; [|done]. rewrite lookup_insert_ne; [done|].
    unfold block in Hne. rewrite HP in Hne. cbn in Hne. congruence.
  - intros ->. split; [split|]; cbn [set_length Ptr str_length Alloced_length extra_alloc alloced]; unfold in_u; try lia.
    + rewrite HP. exists (overwrite blk (Z.to_nat (p.2 + str_length s)) d).
      rewrite lookup_insert_eq, HL. split_and!; [done..|lia].
    + rewrite HP. eapply bytes_at_some; [apply lookup_insert_eq|done|lia|].
      replace (Z.to_nat (str_length s + Z.of_nat (length d))) with (Z.to_nat (str_length s) + length d)%nat by lia.
      replace (Z.to_nat (p.2 + str_length s)) with (Z.to_nat p.2 + Z.to_nat (str_length s))%nat by lia.
      rewrite take_drop_overwrite_end by lia. by rewrite Ht.
Qed.

(** * Growing *)

Lemma frame_refl m s : frame m s m s.
Proof. intros b blk; auto. Qed.
Lemma frame_trans m s m1 s1 m2 s2 : frame m s m1 s1 -> frame m1 s1 m2 s2 -> frame m s m2 s2.
Proof. intros H1 H2 b blk Hb Hn. destruct (H1 b blk Hb Hn). eauto. Qed.

Lemma holds_terminated m s t :
  holds m (set_length (str_length s + 1) s) (t ++ [0]) ->
  exists q, Ptr s = Some q /\ bytes_at m q (str_length s + 1) = Some (t ++ [0]).
Proof. intros [_ Ht]. cbn in Ht. destruct (Ptr s) as [q|]; [eauto|]. by destruct t. Qed.

(** Fields other than [extra_alloc] are equal. *)
Definition same (s s' : Binary_string) : Prop := set_extra 0 s' = set_extra 0 s.

Lemma holds_same m s s' t : same s s' -> in_u 32 (extra_alloc s') -> holds m s t -> holds m s' t.
Proof.
  destruct s, s'. unfold same. intros [= -> -> -> -> ->] He [[Hl Hc _ Hp] Ht].
  split; [split|]; done.
Qed.
Lemma frame_same m s s' m1 s1 : same s s' -> frame m s' m1 s1 -> frame m s m1 s1.
Proof. destruct s, s'. unfold same. intros [= -> -> -> -> ->]. exact id. Qed.

(** A zero follows the text. *)
Definition terminated (m : memory) (s : Binary_string) (t : list Z) : Prop :=
  exists q, Ptr s = Some q /\ bytes_at m q (str_length s + 1) = Some (t ++ [0]).

(** The outcome of a member that makes room for [n] bytes. *)
Definition grown (m : memory) (s : Binary_string) (t : list Z) (n : Z) (failed : bool) (m' : memory) (s' : Binary_string) :=
  holds m' s' t /\ str_length s' = str_length s /\ frame m s m' s'
  /\ if failed then m' = m /\ same s s' else n < Alloced_length s' /\ (n = str_length s -> terminated m' s' t).

Section growing.
Context `{LawfulRealloc}.

(** [realloc_raw], then the zero after [n] bytes. *)
Lemma realloc_raw_zero m s t n k :
  holds m s t -> str_length s <= n -> n < k < 2 ^ 64 ->
  exists failed m' s',
    (do failed <- realloc_raw k; if failed then ret true else do_ store n [0]; ret false) (m, s) = Some (failed, (m', s'))
    /\ grown m s t n failed m' s'.
Proof.
  intros Hh Hn Hk. pose proof Hh as [[Hl _ _ _] _]. unfold in_u in Hl.
  destruct (realloc_raw_spec k m s t Hh) as ([] & m1 & s1 & He & Hh1 & Hl1 & _ & Hf & Hr); [lia| |];
    unfold bind at 1; rewrite He.
  - exists true, m1, s1. destruct Hr as [-> ->]. repeat split; eauto using frame_refl; apply Hh.
  - destruct (store_spec m1 s1 t n [0]) as (m2 & Hs & Hh2 & Hf2 & Ht); [done|lia|cbn; lia|cbn; lia|].
    exists false, m2, s1. unfold bind. rewrite Hs. split; [done|]. split_and!; eauto using frame_trans; [lia|].
    intros Hn'. apply holds_terminated, Ht. lia.
Qed.

Lemma realloc_spec m s t n :
  holds m s t -> str_length s <= n < 2 ^ 63 ->
  exists failed m' s', Binary_string.realloc n (m, s) = Some (failed, (m', s')) /\ grown m s t n failed m' s'.
Proof.
  intros Hh Hn. pose proof Hh as [[Hl _ _ _] _]. unfold in_u in Hl.
  unfold Binary_string.realloc. rewrite wrap_small by (unfold in_u; lia). apply realloc_raw_zero; [done|lia|lia].
Qed.

Lemma realloc_with_extra_spec m s t n :
  holds m s t -> str_length s <= n < 2 ^ 63 ->
  exists failed m' s', Binary_string.realloc_with_extra n (m, s) = Some (failed, (m', s')) /\ grown m s t n failed m' s'.
Proof.
  intros Hh Hn. pose proof Hh as [[Hl _ Hx _] _]. unfold in_u in Hl, Hx.
  set (s1 := if extra_alloc s <? 4096 then set_extra (u32 (extra_alloc s * 2 + 128)) s else s).
  assert (Hs : same s s1) by (unfold s1; destruct (_ <? _); done).
  assert (Hx1 : 128 <= extra_alloc s1 < 2 ^ 32).
  { unfold s1. destruct (Z.ltb_spec (extra_alloc s) 4096); cbn; [|lia].
    rewrite wrap_small by (unfold in_u; lia). lia. }
  assert (Hl1 : str_length s1 = str_length s) by (unfold s1; destruct (_ <? _); done).
  destruct (realloc_raw_zero m s1 t n (n + extra_alloc s1)) as (f & m' & s' & He & Hh' & Hl' & Hf & Hr);
    [by eapply holds_same; [..|exact Hh]; [|unfold in_u; lia]|lia|lia|].
  exists f, m', s'. split.
  - unfold Binary_string.realloc_with_extra, modify, get, bind at 1 2. cbn. fold s1.
    rewrite wrap_small by (unfold in_u; lia). exact He.
  - split_and!; [done|lia|by eapply frame_same|]. rewrite Hl1 in Hr. destruct f; [|done]. destruct Hr as [-> Hs']. split; [done|].
    unfold same in *. congruence.
Qed.

Lemma realloc_with_extra_if_needed_spec m s t n :
  holds m s t -> str_length s <= n < 2 ^ 63 ->
  exists failed m' s', Binary_string.realloc_with_extra_if_needed n (m, s) = Some (failed, (m', s'))
    /\ grown m s t n failed m' s'.
Proof.
  intros Hh Hn. unfold Binary_string.realloc_with_extra_if_needed, get, bind at 1. cbn.
  destruct (Z.ltb_spec n (Alloced_length s)); [|by apply realloc_with_extra_spec].
  destruct (store_spec m s t n [0]) as (m' & Hs & Hh' & Hf & Ht); [done|lia|cbn; lia|cbn; lia|].
  exists false, m', s. unfold bind. rewrite Hs. split; [done|]. split_and!; try done.
  intros ->. by apply holds_terminated, Ht.
Qed.

(** * Appending *)

(** The outcome of a member that appends [d]: on failure the text stays. *)
Definition appended (m : memory) (s : Binary_string) (t d : list Z) (failed : bool) (m' : memory) (s' : Binary_string) :=
  holds m' s' (if failed then t else t ++ d) /\ frame m s m' s' /\ (failed = true -> m' = m /\ same s s').

Lemma frame_set_length m s m' s' n : frame m s m' s' -> frame m s m' (set_length n s').
Proof. exact id. Qed.

(** [Ptr[str_length++]= chr] where there is room. *)
Lemma put_char m s t c :
  holds m s t -> str_length s + 1 <= Alloced_length s ->
  exists m' s', (do_ store (str_length s) [c]; do_ Binary_string.advance 1; ret false) (m, s) = Some (false, (m', s'))
    /\ holds m' s' (t ++ [c]) /\ frame m s m' s'.
Proof.
  intros Hh Hr. pose proof Hh as [[Hl Hc _ _] _]. unfold in_u in *.
  destruct (store_spec m s t (str_length s) [c]) as (m' & Hs & _ & Hf & Ht); [done|lia|cbn; lia|cbn; lia|].
  exists m', (set_length (str_length s + 1) s). split_and!; [|by apply Ht|done].
  unfold bind at 1. rewrite Hs. unfold Binary_string.advance, modify, bind. cbn.
  by rewrite wrap_small by (unfold in_u; lia).
Qed.

Lemma append_char_spec m s t c :
  holds m s t -> str_length s < UINT_MAX32 ->
  exists failed m' s', Binary_string.append_char c (m, s) = Some (failed, (m', s')) /\ appended m s t [c] failed m' s'.
Proof.
  intros Hh Hu. pose proof Hh as [[Hl _ _ _] _]. unfold in_u, UINT_MAX32 in *.
  unfold Binary_string.append_char, get, bind at 1. cbn.
  destruct (Z.ltb_spec (str_length s) (Alloced_length s)).
  - destruct (put_char m s t c) as (m' & s' & He & Hh' & Hf); [done|lia|].
    exists false, m', s'. by rewrite He.
  - rewrite wrap_small by (unfold in_u; lia).
    destruct (realloc_with_extra_spec m s t (str_length s + 1)) as (f & m1 & s1 & He & Hh1 & Hl1 & Hf1 & Hr); [done|lia|].
    unfold bind at 1. rewrite He. destruct f.
    + exists true, m1, s1. split; [done|]. split_and!; [done|done|]. by intros _.
    + destruct (put_char m1 s1 t c) as (m' & s' & He' & Hh' & Hf); [done|lia|].
      exists false, m', s'. unfold bind at 1. cbn. rewrite He'. split; [done|].
      split_and!; [done|by eapply frame_trans|done].
Qed.

Lemma q_append_spec m s t p n d :
  holds m s t -> bytes_at m p n = Some d -> 0 < n -> str_length s + n <= Alloced_length s ->
  exists m' s', Binary_string.q_append (Some p) n (m, s) = Some (tt, (m', s')) /\ holds m' s' (t ++ d) /\ frame m s m' s'.
Proof.
  intros Hh Hd Hn Hr. pose proof Hh as [[Hl Hc _ _] _]. unfold in_u in *.
  apply bytes_at_inv in Hd as Hd'; [|lia]. destruct Hd' as (_ & _ & _ & _ & Hlen).
  destruct (store_spec m s t (str_length s) d) as (m' & Hs & _ & Hf & Ht); [done|lia|lia|lia|].
  exists m', (set_length (str_length s + n) s). split_and!; [|rewrite <- Hlen; by apply Ht|done].
  unfold Binary_string.q_append, Binary_string.ASSERT_LENGTH, Binary_string.advance, assert, modify, get, bind, UINT_MAX32. cbn.
  rewrite !(wrap_small 32 n) by (unfold in_u; lia). rewrite !(wrap_small 32) by (unfold in_u; lia).
  rewrite (wrap_small 64) by (unfold in_u; lia).
  destruct (Z.leb_spec (str_length s + n) (Alloced_length s)); [|lia].
  destruct (Z.eqb_spec n 0); [lia|]. unfold read. cbn. rewrite Hd. cbn. rewrite Hs.
  destruct (Z.leb_spec (str_length s) (2 ^ 32 - 1 - n)); [|lia]. cbn.
  by rewrite wrap_small by (unfold in_u; lia).
Qed.

Lemma append_spec m s t p n d :
  holds m s t -> bytes_at m p n = Some d -> block s <> Some p.1 -> 0 <= n < 2 ^ 62 ->
  exists failed m' s', Binary_string.append (Some p) n (m, s) = Some (failed, (m', s')) /\ appended m s t d failed m' s'.
Proof.
  intros Hh Hd Hne Hn. pose proof Hh as [[Hl _ _ _] _]. unfold in_u in *.
  apply bytes_at_inv in Hd as Hd'; [|lia]. destruct Hd' as (blk & Hm & Hp & Hb & Hlen).
  unfold Binary_string.append. destruct (Z.eqb_spec n 0) as [->|Hn0].
  { destruct d; [|cbn in Hlen; lia]. exists false, m, s. split; [done|].
    unfold appended. rewrite app_nil_r. split_and!; [done|apply frame_refl|done]. }
  unfold get, bind at 1. cbn. rewrite wrap_small by (unfold in_u; lia).
  destruct (realloc_with_extra_if_needed_spec m s t (str_length s + n)) as (f & m1 & s1 & He & Hh1 & Hl1 & Hf1 & Hr); [done|lia|].
  unfold bind at 1. rewrite He. destruct f.
  { exists true, m1, s1. split; [done|]. split_and!; [done|done|]. by intros _. }
  destruct (Hf1 _ _ Hm Hne) as [Hm1 Hne1].
  destruct (q_append_spec m1 s1 t p n d) as (m' & s' & Hq & Hh' & Hf); [done| |lia|lia|].
  { apply (bytes_at_block m); [done|congruence]. }
  exists false, m', s'. unfold bind. rewrite Hq. split; [done|].
  split_and!; [done|by eapply frame_trans|done].
Qed.
End growing.
