(* ===== verification/SqlStringMain.v ===== *)
(** Growing strings: a sequence of members builds the text it describes, buffers
    are freed once, flags are printed, and collations across versions. *)
From S2P Require Import Prelude SqlString SqlStringProps.
Open Scope Z_scope.
Open Scope str_scope.

(** * Hexadecimal digits, and the terminating zero *)

Definition hex_of (src : list Z) : list Z :=
  flat_map (fun c => [Binary_string.hex_digit (Z.shiftr c 4); Binary_string.hex_digit (Z.land c 15)]) src.

Section members.
Context `{LawfulRealloc}.

(** On failure a part of the digits is in the string. *)
Lemma append_hex_spec src m s t :
  holds m s t -> str_length s + 2 * Z.of_nat (length src) <= UINT_MAX32 ->
  exists failed m' s' k, Binary_string.append_hex src (m, s) = Some (failed, (m', s'))
    /\ holds m' s' (t ++ take k (hex_of src)) /\ frame m s m' s' /\ (failed = false -> k = length (hex_of src)).
Proof.
  revert m s t. induction src as [|c src IH]; intros m s t Hh Hu; cbn [length] in Hu; rewrite ?Nat2Z.inj_succ in Hu.
  { exists false, m, s, O. cbn. rewrite app_nil_r. eauto using frame_refl. }
  cbn [Binary_string.append_hex]. set (c1 := Binary_string.hex_digit _). set (c2 := Binary_string.hex_digit _).
  destruct (append_char_spec m s t c1) as ([] & m1 & s1 & He1 & Hh1 & Hf1 & _); [done|lia| |]; unfold bind at 1; rewrite He1.
  { exists true, m1, s1, O. rewrite app_nil_r. by split_and!. }
  pose proof (holds_length _ _ _ Hh1) as Hl1. rewrite length_app, Nat2Z.inj_add, (holds_length _ _ _ Hh) in Hl1. cbn in Hl1.
  destruct (append_char_spec m1 s1 (t ++ [c1]) c2) as ([] & m2 & s2 & He2 & Hh2 & Hf2 & _); [done|lia| |];
    unfold bind; rewrite He2.
  { exists true, m2, s2, 1%nat. split; [done|]. split_and!; [exact Hh2|by eapply frame_trans|done]. }
  pose proof (holds_length _ _ _ Hh2) as Hl2. rewrite length_app, Nat2Z.inj_add, (holds_length _ _ _ Hh1) in Hl2. cbn in Hl2.
  destruct (IH m2 s2 ((t ++ [c1]) ++ [c2])) as (f & m3 & s3 & k & He3 & Hh3 & Hf3 & Hk); [done|lia|].
  exists f, m3, s3, (S (S k)). split; [done|]. rewrite <- !app_assoc in Hh3. split_and!; [done|eauto using frame_trans|].
  intros ->. cbn. by rewrite Hk.
Qed.

Lemma reserve_spec n m s t :
  holds m s t -> 0 <= n -> str_length s + n < UINT_MAX32 ->
  exists failed m' s', Binary_string.reserve n (m, s) = Some (failed, (m', s')) /\ grown m s t (str_length s + n) failed m' s'.
Proof.
  intros Hh Hn Hu. pose proof Hh as [[Hl _ _ _] _]. unfold in_u, UINT_MAX32 in *.
  destruct (realloc_spec m s t (str_length s + n)) as (f & m' & s' & He & Hg); [done|lia|].
  exists f, m', s'. split; [|done]. unfold Binary_string.reserve, get, assert, bind. cbn.
  rewrite wrap_small by (unfold in_u; lia). unfold UINT_MAX32.
  destruct (Z.ltb_spec (str_length s + n) (2 ^ 32 - 1)); [done|lia].
Qed.

(** The result is followed by a zero, unless there is no memory for it. *)
Lemma c_ptr_safe_spec m s t :
  holds m s t ->
  exists r m' s', Binary_string.c_ptr_safe (m, s) = Some (r, (m', s')) /\ r = Ptr s' /\ holds m' s' t /\ frame m s m' s'
    /\ (terminated m' s' t \/ m' = m /\ same s s' /\ exists st, Binary_string.realloc (str_length s) (m, s) = Some (true, st)).
Proof.
  intros Hh. pose proof Hh as [[Hl Hc _ Hp] _]. unfold in_u in *.
  unfold Binary_string.c_ptr_safe, get, bind. cbn.
  destruct ((if Ptr s then true else false) && (str_length s <? Alloced_length s)) eqn:E.
  - apply andb_prop in E as [_ Hlt%Z.ltb_lt].
    destruct (store_spec m s t (str_length s) [0]) as (m' & -> & Hh' & Hf & Ht); [done|lia|cbn; lia|cbn; lia|].
    exists (Ptr s), m', s. split_and!; try done. left. by apply holds_terminated, Ht.
  - destruct (realloc_spec m s t (str_length s)) as (f & m' & s' & He & Hh' & _ & Hf & Hr); [done|lia|].
    rewrite He. exists (Ptr s'), m', s'. split_and!; try done. destruct f; [right|left; by apply Hr].
    destruct Hr. eauto.
Qed.

(** * Sequences of members *)

Inductive op : Type :=
| Append (p : ptr) (n : Z) | AppendChar (c : Z) | AppendHex (src : list Z) | Reserve (n : Z) | Terminate | Clear.

Definition exec (o : op) : M bool :=
  match o with
  | Append p n => Binary_string.append (Some p) n
  | AppendChar c => Binary_string.append_char c
  | AppendHex src => Binary_string.append_hex src
  | Reserve n => Binary_string.reserve n
  | Terminate => do_ Binary_string.c_ptr_safe; ret false
  | Clear => do_ Binary_string.resize_length 0; ret false
  end.
Fixpoint run (ops : list op) : M (list bool) :=
  match ops with [] => ret [] | o :: ops => do r <- exec o; do rs <- run ops; ret (r :: rs) end.

(** What is added, from the memory at the start. *)
Definition added (m : memory) (o : op) : list Z :=
  match o with
  | Append p n => default [] (bytes_at m p n) | AppendChar c => [c] | AppendHex src => hex_of src | _ => []
  end.
(** The text after an operation with a result. *)
Definition becomes (m : memory) (o : op) (failed : bool) (t t' : list Z) : Prop :=
  match o with
  | Clear => t' = []
  | AppendHex _ => exists k, t' = t ++ take k (added m o) /\ (failed = false -> k = length (added m o))
  | _ => t' = if failed then t else t ++ added m o
  end.
Inductive trace (m : memory) : list op -> list bool -> list Z -> list Z -> Prop :=
| trace_nil t : trace m [] [] t t
| trace_cons o ops r rs t t1 t' : becomes m o r t t1 -> trace m ops rs t1 t' -> trace m (o :: ops) (r :: rs) t t'.

(** Bytes an operation may need; sources are in blocks of [m] the string does not use. *)
Definition cost (o : op) : Z :=
  match o with Append _ n => n | AppendChar _ => 1 | AppendHex src => 2 * Z.of_nat (length src) | Reserve n => n | _ => 0 end.
Definition total (ops : list op) : Z := foldr (fun o z => cost o + z) 0 ops.
Definition allowed (m : memory) (s : Binary_string) (o : op) : Prop :=
  0 <= cost o /\ match o with Append p n => is_Some (bytes_at m p n) /\ block s <> Some p.1 | _ => True end.

Lemma length_hex_of src : length (hex_of src) = (2 * length src)%nat.
Proof. unfold hex_of. induction src as [|c src IH]; [done|]. cbn [flat_map]. rewrite length_app, IH. cbn [length]. lia. Qed.

Lemma becomes_length m s o r t t' :
  allowed m s o -> becomes m o r t t' -> Z.of_nat (length t') <= Z.of_nat (length t) + cost o.
Proof.
  intros [Hc Ha]. destruct o; cbn [becomes]; try (intros ->; destruct r; rewrite ?length_app; cbn in *; lia).
  - intros ->. destruct Ha as [[d Hd] _], r; rewrite ?length_app; cbn in *; [lia|]. rewrite Hd.
    apply bytes_at_inv in Hd as (_ & _ & _ & _ & <-); [cbn; lia|done].
  - intros (k & -> & _). rewrite length_app, length_take. cbn. rewrite length_hex_of. lia.
Qed.

Lemma exec_spec o m0 s0 m s t :
  holds m s t -> frame m0 s0 m s -> allowed m0 s0 o -> str_length s + cost o < UINT_MAX32 ->
  exists r m' s' t', exec o (m, s) = Some (r, (m', s')) /\ becomes m0 o r t t' /\ holds m' s' t' /\ frame m s m' s'.
Proof.
  intros Hh Hf [Hc Ha] Hu. pose proof Hh as [[Hl _ _ _] _]. unfold in_u in Hl.
  destruct o as [p n|c|src|n| |]; cbn [exec becomes cost] in *.
  - destruct Ha as [[d Hd] Hne]. destruct (bytes_at_inv _ _ _ _ Hd Hc) as (blk & Hm & _).
    destruct (Hf _ _ Hm Hne) as [Hm' Hne'].
    destruct (append_spec m s t p n d) as (r & m' & s' & He & Hh' & Hf' & _);
      [done|apply (bytes_at_block m0); congruence|done|unfold UINT_MAX32 in *; lia|].
    exists r, m', s', (if r then t else t ++ d). cbn. rewrite Hd. eauto.
  - destruct (append_char_spec m s t c) as (r & m' & s' & He & Hh' & Hf' & _); [done|lia|]. eauto 8.
  - destruct (append_hex_spec src m s t) as (r & m' & s' & k & He & Hh' & Hf' & Hk); [done|lia|]. eauto 10.
  - destruct (reserve_spec n m s t) as (r & m' & s' & He & Hh' & _ & Hf' & _); [done..|].
    exists r, m', s', t. cbn. rewrite app_nil_r. destruct r; eauto.
  - destruct (c_ptr_safe_spec m s t Hh) as (r & m' & s' & He & _ & Hh' & Hf' & _).
    exists false, m', s', t. unfold bind. rewrite He. cbn. rewrite app_nil_r. eauto.
  - exists false, m, (set_length 0 s), []. split_and!; [done|done| |apply frame_set_length, frame_refl].
    destruct Hh as [[_ Hcap Hx Hp] Ht]. split; [split|]; cbn; [done..| |].
    + destruct (Ptr s) as [p|]; [|naive_solver]. destruct Hp as (blk & Hm & Hp & Hb). exists blk.
      split; [done|]. split; [done|unfold in_u in *; lia].
    + destruct (Ptr s) as [p|]; [|done]. destruct Hp as (blk & Hm & [Hp _] & Hb).
      eapply bytes_at_some; [done|done|unfold in_u in *; lia|done].
Qed.

(** C16: A sequence of [append], [append_char], [append_hex], [reserve], [c_ptr_safe]
    and [length(0)] on any string - one with a buffer of its own, one with a
    buffer of a caller, a constant, an empty one - is defined (no access outside
    of a buffer, no failed assertion), the string's text is at every moment what
    the operations that did not fail have appended, in order, a failed [append]
    leaves the text as it was, a failed [append_hex] leaves a part of its digits,
    and no block of memory but the string's is changed. The sources are outside
    of the string's buffer and the bytes asked for are below 2^32 - 1. *)
Theorem string_holds_what_was_appended ops m s t :
  holds m s t -> Forall (allowed m s) ops -> Z.of_nat (length t) + total ops < UINT_MAX32 ->
  exists rs m' s' t', run ops (m, s) = Some (rs, (m', s')) /\ trace m ops rs t t' /\ holds m' s' t' /\ frame m s m' s'.
Proof.
  intros Hh Ha Hu.
  enough (G : forall m1 s1 t1, holds m1 s1 t1 -> frame m s m1 s1 -> Z.of_nat (length t1) + total ops < UINT_MAX32 ->
    exists rs m' s' t', run ops (m1, s1) = Some (rs, (m', s')) /\ trace m ops rs t1 t' /\ holds m' s' t' /\ frame m s m' s')
    by eauto using frame_refl.
  clear Hh Hu. induction Ha as [|o ops Ho Ha IH]; intros m1 s1 t1 Hh1 Hf1 Hu1.
  { exists [], m1, s1, t1. eauto using trace_nil. }
  cbn [total foldr] in Hu1. fold (total ops) in Hu1.
  assert (Ht : 0 <= total ops) by (clear -Ha; induction Ha as [|? ? []]; cbn; [done|unfold total in *; lia]).
  destruct (exec_spec o m s m1 s1 t1) as (r & m2 & s2 & t2 & He & Hb & Hh2 & Hf2);
    [done|done|done|rewrite <- (holds_length _ _ _ Hh1); lia|].
  pose proof (becomes_length _ _ _ _ _ _ Ho Hb).
  destruct (IH m2 s2 t2) as (rs & m3 & s3 & t3 & Hr & Htr & Hh3 & Hf3); [done|by eapply frame_trans|lia|].
  exists (r :: rs), m3, s3, t3. cbn. unfold bind. rewrite He, Hr. eauto using trace_cons.
Qed.
End members.

(** * Ownership of buffers *)

(** Memory without the buffer [s] has to free. *)
Definition without_owned (s : Binary_string) (m : memory) : memory :=
  if alloced s then match Ptr s with Some p => delete p.1 m | None => m end else m.

Lemma free_buffer_spec m s t :
  holds m s t -> Binary_string.free_buffer (m, s) = Some (tt, (without_owned s m, set_owner false s)).
Proof.
  intros [[_ _ _ Hp] _]. unfold Binary_string.free_buffer, without_owned, get, modify, my_free, bind. cbn.
  destruct s as [p len cap ex [] sp]; cbn in *; [|done].
  destruct p as [p|]; [|naive_solver]. destruct Hp as (blk & Hm & [_ Ho] & _).
  cbn. rewrite Hm. cbn. by rewrite (Ho eq_refl).
Qed.

Lemma free_spec m s t :
  holds m s t ->
  Binary_string.free (m, s) = Some (tt, (without_owned s m, mkStr None 0 0 0 false (thread_specific s))).
Proof.
  intros Hh. unfold Binary_string.free, bind. rewrite (free_buffer_spec _ _ _ Hh). by destruct s.
Qed.

Lemma holds_without_owned m s this t :
  holds m s t -> (alloced this = true -> block this <> block s) -> holds (without_owned this m) s t.
Proof.
  intros Hh Hn. unfold without_owned. destruct (alloced this); [|done]. unfold block in Hn.
  destruct (Ptr this) as [q|]; [|done]. destruct Hh as [[Hl Hc Hx Hp] Ht].
  destruct (Ptr s) as [p|] eqn:E; [|by split; [split|]; rewrite ?E].
  assert (Hq : delete q.1 m !! p.1 = m !! p.1) by (apply lookup_delete_ne; intros Heq; apply Hn; [done|]; cbn; by rewrite Heq).
  split; [split|]; rewrite ?E; try done; [by rewrite Hq|]. by eapply bytes_at_block.
Qed.

(** C19: After [this->move(s)] exactly one of the two strings owns the buffer of
    [s]: [this] has the text of [s], and when both are destroyed, in either order,
    no buffer is freed twice and the buffers both owned at the start are freed,
    each of them once. *)
Theorem move_frees_once m this s t ts :
  holds m this t -> holds m s ts -> Alloced_length s < UINT_MAX32 -> (alloced this = true -> block this <> block s) ->
  exists s' m1 this', Binary_string.move s (m, this) = Some (s', (m1, this')) /\ holds m1 this' ts
    /\ (exists e1 m2 e2, Binary_string.free (m1, s') = Some (tt, (m1, e1))
          /\ Binary_string.free (m1, this') = Some (tt, (m2, e2)) /\ m2 = without_owned s (without_owned this m))
    /\ (exists e1 m2 e2, Binary_string.free (m1, this') = Some (tt, (m2, e2))
          /\ Binary_string.free (m2, s') = Some (tt, (m2, e1)) /\ m2 = without_owned s (without_owned this m)).
Proof.
  intros Ht Hs Hu Hn. pose proof (holds_without_owned _ _ _ _ Hs Hn) as Hh.
  pose proof Hs as [[Hl Hc _ _] _].
  exists (set_owner false s), (without_owned this m), s. split_and!.
  - unfold Binary_string.move, Binary_string.set_alloced, modify, assert, bind. rewrite (free_buffer_spec _ _ _ Ht). cbn.
    rewrite !wrap_small by done. destruct (Z.ltb_spec (Alloced_length s) UINT_MAX32); [|lia]. by destruct s.
  - done.
  - do 3 eexists. split_and!; [|by eapply free_spec|done]. reflexivity.
  - do 3 eexists. split_and!; [by eapply free_spec| |done]. reflexivity.
Qed.

(** * Printing *)

(** [c] appends [d], unless it fails. *)
Definition writes (c : M bool) (d : list Z) : Prop :=
  forall m s t, holds m s t -> str_length s + Z.of_nat (length d) < UINT_MAX32 ->
  exists failed m' s' t', c (m, s) = Some (failed, (m', s')) /\ holds m' s' t' /\ frame m s m' s'
    /\ (failed = false -> t' = t ++ d).

Lemma writes_nothing : writes (ret false) [].
Proof. intros m s t Hh _. exists false, m, s, t. rewrite app_nil_r. eauto using frame_refl. Qed.
Lemma writes_on b c d : writes c d -> writes (StringOps.on b c) (if b then d else []).
Proof. destruct b; [exact id|intros _; apply writes_nothing]. Qed.
Lemma writes_or_else c1 c2 d1 d2 : writes c1 d1 -> writes c2 d2 -> writes (StringOps.or_else c1 c2) (d1 ++ d2).
Proof.
  intros H1 H2 m s t Hh Hu. rewrite length_app in Hu.
  destruct (H1 m s t) as (f & m1 & s1 & t1 & He & Hh1 & Hf1 & Ht1); [done|lia|].
  unfold StringOps.or_else, bind. rewrite He. destruct f; [by exists true, m1, s1, t1|]. specialize (Ht1 eq_refl) as ->.
  pose proof (holds_length _ _ _ Hh1) as Hl. rewrite length_app, Nat2Z.inj_add, (holds_length _ _ _ Hh) in Hl.
  destruct (H2 m1 s1 (t ++ d1)) as (f & m2 & s2 & t2 & He2 & Hh2 & Hf2 & Ht2); [done|lia|].
  exists f, m2, s2, t2. rewrite app_assoc. eauto using frame_trans.
Qed.
Lemma writes_char `{LawfulRealloc} c : writes (Binary_string.append_char c) [c].
Proof.
  intros m s t Hh Hu. cbn in Hu. destruct (append_char_spec m s t c) as (f & m' & s' & He & Hh' & Hf & _); [done|lia|].
  exists f, m', s', (if f then t else t ++ [c]). split_and!; try done. by intros ->.
Qed.

(** The set bits below [n], the highest first. *)
Fixpoint set_bits (n : nat) (flags : Z) : list nat :=
  match n with
  | O => []
  | S bit => if Z.testbit flags (Z.of_nat bit) then bit :: set_bits bit flags else set_bits bit flags
  end.
Definition name_of (names : list (list Z)) (bit : nat) : list Z := default [63] (names !! bit).
(** Each part but a first one is preceded by a bar. *)
Definition barred (added : bool) (l : list (list Z)) : list Z :=
  match l with
  | [] => []
  | x :: l => (if added then [124] else []) ++ x ++ flat_map (fun y => 124 :: y) l
  end.
Definition render (flags : Z) (names : list (list Z)) : list Z :=
  if flags =? 0 then [] else [40] ++ barred false (name_of names <$> set_bits 32 flags) ++ [41].

Section printing.
Context `{LawfulRealloc} (append_text : list Z -> M bool) (append_text_writes : forall d, writes (append_text d) d).

Lemma flag_names_writes n flags names added :
  writes (StringOps.flag_names append_text n flags names added) (barred added (name_of names <$> set_bits n flags)).
Proof.
  revert added. induction n as [|bit IH]; intros added; [apply writes_nothing|].
  cbn [StringOps.flag_names set_bits]. destruct (Z.testbit flags (Z.of_nat bit)); [|apply IH].
  replace (barred added _) with
    ((if added then [124] else []) ++ name_of names bit ++ barred true (name_of names <$> set_bits bit flags)).
  2: { cbn. by destruct (set_bits bit flags). }
  apply writes_or_else; [apply writes_on, writes_char|]. apply writes_or_else; [|apply IH].
  unfold name_of. destruct (names !! bit); [apply append_text_writes|apply writes_char].
Qed.

(** [append_flag32_names] appends nothing for 0, and else the names of the
    set bits from the highest to the lowest between parentheses, with a bar
    between two names and a question mark for a bit that has no name; it is
    defined whatever the number of names. *)
Theorem append_flag32_names_spec flags names :
  writes (StringOps.append_flag32_names append_text flags names) (render flags names).
Proof.
  unfold StringOps.append_flag32_names, render.
  replace (if flags =? 0 then [] else _) with
    ((if truth flags then [40] else []) ++ barred false (name_of names <$> set_bits 32 flags) ++ (if truth flags then [41] else [])).
  2: { unfold truth. destruct (Z.eqb_spec flags 0) as [->|]; done. }
  apply writes_or_else; [apply writes_on, writes_char|].
  apply writes_or_else; [apply flag_names_writes|apply writes_on, writes_char].
Qed.

(** [name=value], the value quoted when there is a quote. *)
Theorem append_name_value_spec name value quot :
  writes (StringOps.append_name_value append_text name value quot)
    (let q := if truth quot then [quot] else [] in name ++ [61] ++ q ++ value ++ q).
Proof.
  unfold StringOps.append_name_value. cbn zeta.
  repeat apply writes_or_else; auto using writes_char, writes_on.
Qed.
End printing.
