(* ===== verification/SqlStringExamples.v ===== *)
(** Growing strings: an allocator that satisfies the laws, examples of the
    theorems, the limits of the length arithmetic, and collations. *)
From S2P Require Import Prelude SqlString SqlStringProps SqlStringMain.
Open Scope Z_scope.
Open Scope str_scope.

(** * An allocator *)

(** Buffers have at most [limit] bytes; a new one has the block after the last. *)
Definition limit : Z := 4096.
Definition next_block (m : memory) : nat := S (foldr Nat.max 0%nat (map_to_list m).*1).
Definition fresh_realloc (n : Z) : M bool := fun st =>
  let '(m, s) := st in
  if n <=? Alloced_length s then Some (false, (m, s))
  else if limit <? n then Some (true, (m, s))
  else
    let t := match Ptr s with Some p => default [] (bytes_at m p (str_length s)) | None => [] end in
    let b := next_block m in
    Some (false, (<[b := t ++ replicate (Z.to_nat n) 0]> (without_owned s m),
                  mkStr (Some (b, 0)) (str_length s) n (extra_alloc s) true (thread_specific s))).
Definition fresh_real_alloc (n : Z) : M bool :=
  do_ modify (set_length 0); fresh_realloc (n + 1).

#[local] Instance fresh_allocator : Realloc := {| real_alloc := fresh_real_alloc; realloc_raw := fresh_realloc |}.

Lemma next_block_fresh m b blk : m !! b = Some blk -> b <> next_block m.
Proof.
  intros Hb ->. apply elem_of_map_to_list in Hb. unfold next_block in *.
  assert (Hle : forall x l, x ∈ l -> (x <= foldr Nat.max 0 l)%nat).
  { intros x l. induction 1; cbn; lia. }
  apply (list_elem_of_fmap_2 fst) in Hb. apply Hle in Hb. cbn in Hb. lia.
Qed.

Lemma without_owned_other m s b blk : m !! b = Some blk -> block s <> Some b -> without_owned s m !! b = Some blk.
Proof.
  intros Hb Hn. unfold without_owned, block in *. destruct (alloced s); [|done].
  destruct (Ptr s) as [p|]; [|done]. rewrite lookup_delete_ne; [done|]. cbn in Hn. congruence.
Qed.

#[local] Instance fresh_allocator_lawful : LawfulRealloc.
Proof.
  intros n m s t Hh Hn. cbn. unfold fresh_realloc.
  destruct (Z.leb_spec n (Alloced_length s)); [exists false, m, s; eauto 10 using frame_refl|].
  destruct (Z.ltb_spec limit n) as [|Hlim]; [exists true, m, s; eauto 10 using frame_refl|]. unfold limit in Hlim.
  pose proof (holds_length _ _ _ Hh) as Hlen. pose proof Hh as [[Hl Hc Hx Hp] Ht].
  replace (match Ptr s with Some p => _ | None => [] end) with t by (clear -Ht; destruct (Ptr s) as [p|]; [by rewrite Ht|exact Ht]).
  do 3 eexists. split_and!; [done| |done|done| |cbn; lia].
  - split; [split|]; cbn; [done| |done| |]; unfold in_u in *; [lia| |].
    + eexists. split_and!; [apply lookup_insert_eq|lia|done|rewrite length_app, length_replicate; lia].
    + eapply bytes_at_some; [apply lookup_insert_eq|cbn; lia|cbn; rewrite length_app; lia|].
      cbn. rewrite drop_0, <- Hlen, Nat2Z.id. apply take_app_length.
  - intros b blk Hb Hne. pose proof (next_block_fresh _ _ _ Hb). split; [|cbn; congruence].
    rewrite lookup_insert_ne by done. by apply without_owned_other.
Qed.

(** * A string built from an inline buffer of four bytes *)

(** Block 0 is a source of five bytes, block 1 the buffer. *)
Definition mem0 : memory := <[0%nat := [104; 101; 108; 108; 111]]> (<[1%nat := [7; 7; 7; 7]]> ∅).
Definition buffer4 : Binary_string := mkStr (Some (1%nat, 0)) 0 4 0 false false.

Example inline_buffer : option_map snd (BinaryStringBuffer 1 4 (mem0, buffer4)) = Some (mem0, buffer4).
Proof. reflexivity. Qed.

Lemma buffer4_holds : holds mem0 buffer4 [].
Proof.
  split; [split|]; cbn; unfold in_u; try lia; [|reflexivity]. eexists. split_and!; [reflexivity|lia|done|cbn; lia].
Qed.

(** The outcome of a run: results and text. *)
Definition outcome (ops : list op) : option (list bool * list Z) :=
  match run ops (mem0, buffer4) with
  | Some (rs, st) => match Binary_string.text st with Some (t, _) => Some (rs, t) | None => None end
  | None => None
  end.

Example hello : outcome [Append (0%nat, 0) 3; AppendHex [0x2f]; Append (0%nat, 3) 2; Terminate; AppendChar 33]
  = Some ([false; false; false; false; false], [104; 101; 108; 50; 102; 108; 111; 33]).
Proof. vm_compute. reflexivity. Qed.
(** Out of memory: the reservation fails and the text stays. *)
Example too_much : outcome [AppendChar 65; Reserve 5000; AppendChar 66] = Some ([false; true; false], [65; 66]).
Proof. vm_compute. reflexivity. Qed.

Lemma string_holds_witness :
  exists rs m' s' t', run [Append (0%nat, 0) 5; AppendChar 33; AppendHex [255]] (mem0, buffer4) = Some (rs, (m', s'))
    /\ trace mem0 [Append (0%nat, 0) 5; AppendChar 33; AppendHex [255]] rs [] t' /\ holds m' s' t'
    /\ frame mem0 buffer4 m' s'.
Proof.
  apply (string_holds_what_was_appended [Append (0%nat, 0) 5; AppendChar 33; AppendHex [255]] mem0 buffer4 []).
  - exact buffer4_holds.
  - repeat constructor; cbn; [lia|eexists; reflexivity|congruence|lia|lia].
  - reflexivity.
Defined.

(** A string that owns block 0, moved to one that owns block 1. *)
Lemma move_frees_once_witness :
  let owner := mkStr (Some (0%nat, 0)) 3 5 0 true false in
  let this := mkStr (Some (1%nat, 0)) 1 4 0 true false in
  exists s' m1 this', Binary_string.move owner (mem0, this) = Some (s', (m1, this')) /\ holds m1 this' [104; 101; 108]
    /\ (exists e1 m2 e2, Binary_string.free (m1, s') = Some (tt, (m1, e1))
          /\ Binary_string.free (m1, this') = Some (tt, (m2, e2)) /\ m2 = without_owned owner (without_owned this mem0))
    /\ (exists e1 m2 e2, Binary_string.free (m1, this') = Some (tt, (m2, e2))
          /\ Binary_string.free (m2, s') = Some (tt, (m2, e1)) /\ m2 = without_owned owner (without_owned this mem0)).
Proof.
  intros owner this. apply (move_frees_once mem0 this owner [7] [104; 101; 108]).
  - split; [split|]; cbn; unfold in_u; try lia; [|reflexivity]. eexists. split_and!; [reflexivity|lia|done|cbn; lia].
  - split; [split|]; cbn; unfold in_u; try lia; [|reflexivity]. eexists. split_and!; [reflexivity|lia|done|cbn; lia].
  - reflexivity.
  - intros _. cbn. congruence.
Defined.

(** Text of the string's own character set: one byte after the other. *)
Definition append_bytes (d : list Z) : M bool :=
  foldr (fun c k => StringOps.or_else (Binary_string.append_char c) k) (ret false) d.
Lemma append_bytes_writes d : writes (append_bytes d) d.
Proof.
  induction d as [|c d IH]; [apply writes_nothing|]. apply (writes_or_else _ _ [c]); [apply writes_char|done].
Qed.

Lemma append_flag32_names_witness :
  writes (StringOps.append_flag32_names append_bytes 5 [[97]; [98]; [99]]) (render 5 [[97]; [98]; [99]])
  /\ render 5 [[97]; [98]; [99]] = [40; 99; 124; 97; 41].
Proof.
  split; [|reflexivity].
  apply (append_flag32_names_spec append_bytes append_bytes_writes 5 [[97]; [98]; [99]]).
Defined.

(** * Limits *)

(** A string appended to itself reads the buffer that was just freed, when it has to grow. *)
Example append_itself_grows :
  let s := mkStr (Some (0%nat, 0)) 5 5 0 true false in
  Binary_string.append (Ptr s) (str_length s) (mem0, s) = None.
Proof. vm_compute. reflexivity. Qed.
(** With room in the buffer it is defined. *)
Example append_itself_fits :
  let s := mkStr (Some (0%nat, 0)) 2 5 0 true false in
  option_map (fun r => (r.1, str_length r.2.2, r.2.1 !! 0%nat)) (Binary_string.append (Ptr s) (str_length s) (mem0, s))
  = Some (false, 4, Some [104; 101; 104; 101; 0]).
Proof. vm_compute. reflexivity. Qed.

(** The sum of the lengths wraps at 32 bits: [prep_append] hands out an area of
    4294967292 bytes in a buffer of five, without an allocation, and the length
    of the string gets smaller. *)
Example prep_append_wraps :
  let s := mkStr (Some (0%nat, 0)) 5 5 0 true false in
  Binary_string.prep_append (2 ^ 32 - 4) 0 (mem0, s) = Some (Some (0%nat, 5), (mem0, set_length 1 s)).
Proof. vm_compute. reflexivity. Qed.
(** [append] computes the sum as a size_t: it fails instead. *)
Example append_does_not_wrap :
  let s := mkStr (Some (1%nat, 0)) 4 4 0 true false in
  option_map fst (Binary_string.append (Some (0%nat, 0)) (2 ^ 32 - 4) (mem0, s)) = Some true.
Proof. vm_compute. reflexivity. Qed.

(** * Collations *)

Lemma version_in_below v l : existsb (Charset.version_in v) l = true -> Forall (fun r => r.2 <= 110002) l -> v < 110002.
Proof.
  intros (r & Hr & [_ Hv%Z.ltb_lt]%andb_prop)%existsb_exists Hl.
  rewrite Forall_forall in Hl. specialize (Hl r ltac:(apply Hr)). cbn in Hl. lia.
Qed.

(** No collation changed its order in a version after the one the header names as the last. *)
Theorem collation_changed_before_latest v cs :
  Charset.collation_changed_order v cs = true -> v < Charset.latest_mariadb_version_with_collation_change.
Proof.
  unfold Charset.collation_changed_order, Charset.latest_mariadb_version_with_collation_change.
  match goal with |- (if ?b then _ else _) = true -> _ => destruct b eqn:E end.
  - intros _. apply orb_prop in E as [[H%Z.ltb_lt _]%andb_prop|[H%Z.ltb_lt _]%andb_prop]; lia.
  - match goal with |- (if ?b then _ else _) = true -> _ => destruct b eqn:E2 end; [|done]. intros _. apply andb_prop in E2 as [_ H].
    eapply version_in_below; [exact H|]. repeat constructor; cbn; lia.
Qed.

(** An upgraded collation is not upgraded again. *)
Theorem upgrade_collation_id_once v cs :
  Charset.upgrade_collation_id v (Charset.upgrade_collation_id v cs) = Charset.upgrade_collation_id v cs.
Proof.
  unfold Charset.upgrade_collation_id.
  generalize ((50300 <=? v) && (v <=? 50399)) as a.
  generalize (((50500 <=? v) && (v <=? 50599)) || ((100000 <=? v) && (v <=? 100005))) as b. intros b a.
  destruct (decide (cs ∈ [149; 213; 214; 215; 245])) as [Hcs|Hcs].
  - rewrite !elem_of_cons, elem_of_nil in Hcs. destruct a, b; naive_solver.
  - rewrite !elem_of_cons, elem_of_nil in Hcs.
    assert (Hk : forall k, k = 149 \/ k = 213 \/ k = 214 \/ k = 215 \/ k = 245 -> (k =? cs) = false).
    { intros k Hk. apply Z.eqb_neq. naive_solver. }
    unfold Charset.switch. cbn [List.find fst]. rewrite !Hk by tauto. cbn [fmap option_fmap option_map].
    destruct a, b; cbn [List.find fst]; rewrite ?Hk by tauto; done.
Qed.

(** The escapes of two characters differ. *)
Theorem escapes_differ c d :
  StringOps.escaped_wc_for_single_quote c <> 0 ->
  StringOps.escaped_wc_for_single_quote c = StringOps.escaped_wc_for_single_quote d -> c = d.
Proof.
  unfold StringOps.escaped_wc_for_single_quote. intros Hc He.
  repeat (match goal with x : Z |- _ => destruct x as [|x|x] | x : positive |- _ => destruct x as [x|x|] end; try done).
Qed.
