(* ===== verification/RangeArg.v ===== *)
(** Intervals of the range optimizer: [SEL_ARG] of opt_range.h.

    A [SEL_ARG] is an interval of values of a key part; intervals over the same
    key part form an ordered list, and each may point to a list over the next key
    part.  A value is the image of a field in a key, after a byte that says whether
    it is NULL when the field may be.  Each interval has its own field: the key
    parts of an index may have different types, and only some may be NULL.
    [Field::key_cmp] and [SEL_ARG::sel_cmp], which compares end points, are
    defined outside of the sources and an interface; so are [first] and [last],
    which find the ends of a list.  [None] is an access outside of a value, or a
    lack of fuel. *)
From S2P Require Import Prelude.
Open Scope Z_scope.

(** my_base.h *)
Definition NO_MIN_RANGE : Z := 1.
Definition NO_MAX_RANGE : Z := 2.
Definition NEAR_MIN : Z := 4.
Definition NEAR_MAX : Z := 8.
Definition GEOM_FLAG : Z := 128.
Definition HA_REVERSE_SORT : Z := 128.

Definition has (flags mask : Z) : bool := truth (Z.land flags mask).

(** A field; [sel_cmp]: the comparison of two values with their flags, which
    [SEL_ARG::sel_cmp] makes with the field it is given. *)
Record Field := mkField {
  real_maybe_null : bool;
  key_cmp : list Z -> list Z -> Z;
  sel_cmp : list Z -> list Z -> Z -> Z -> Z }.

(** [flag], [store_length] and [field] of a key part. *)
Record KEY_PART := mkPart { flag : Z; store_length : Z; key_field : Field }.

Inductive Type_ := IMPOSSIBLE | MAYBE | MAYBE_KEY | KEY_RANGE.
#[global] Instance Type_eq_dec : EqDecision Type_.
Proof. solve_decision. Defined.

(** An interval.  The members that link intervals, and [type], which is that of a
    list, are in [graph] below. *)
Record SEL_ARG := mkArg
  { field : Field; min_flag : Z; max_flag : Z; maybe_flag : Z; part : Z; maybe_null : bool;
    min_value : list Z; max_value : list Z }.

Definition invert_min_flag (min_flag : Z) : Z :=
  let max_flag_out := Z.land min_flag (Z.lnot (Z.lor NEAR_MIN NO_MIN_RANGE)) in
  let max_flag_out := if has min_flag NEAR_MIN then Z.lor max_flag_out NEAR_MAX else max_flag_out in
  if has min_flag NO_MIN_RANGE then Z.lor max_flag_out NO_MAX_RANGE else max_flag_out.
Definition invert_max_flag (max_flag : Z) : Z :=
  let min_flag_out := Z.land max_flag (Z.lnot (Z.lor NEAR_MAX NO_MAX_RANGE)) in
  let min_flag_out := if has max_flag NEAR_MAX then Z.lor min_flag_out NEAR_MIN else min_flag_out in
  if has max_flag NO_MAX_RANGE then Z.lor min_flag_out NO_MIN_RANGE else min_flag_out.

Section intervals.
Implicit Types (this arg : SEL_ARG).

Definition new_arg (field : Field) (part : Z) (min max : list Z) (min_flag max_flag maybe_flag : Z) : SEL_ARG :=
  mkArg field min_flag max_flag maybe_flag part (real_maybe_null field) min max.

Definition merge_flags arg this : SEL_ARG :=
  mkArg (field this) (min_flag this) (max_flag this) (Z.lor (maybe_flag this) (maybe_flag arg)) (part this) (maybe_null this)
    (min_value this) (max_value this).
Definition maybe_smaller this : SEL_ARG :=
  mkArg (field this) (min_flag this) (max_flag this) 1 (part this) (maybe_null this) (min_value this) (max_value this).
Definition is_null_interval this : option bool :=
  if maybe_null this then b ← max_value this !! 0%nat; Some (b =? 1) else Some false.

Definition cmp_min_to_min this arg : Z := sel_cmp (field this) (min_value this) (min_value arg) (min_flag this) (min_flag arg).
Definition cmp_min_to_max this arg : Z := sel_cmp (field this) (min_value this) (max_value arg) (min_flag this) (max_flag arg).
Definition cmp_max_to_max this arg : Z := sel_cmp (field this) (max_value this) (max_value arg) (max_flag this) (max_flag arg).
Definition cmp_max_to_min this arg : Z := sel_cmp (field this) (max_value this) (min_value arg) (max_flag this) (min_flag arg).

(** The types of the two lists; [KEY_RANGE] only compares the end points. *)
Definition is_same (type type' : Type_) this arg : bool :=
  if negb (bool_decide (type = type')) || negb (part this =? part arg) then false
  else if negb (bool_decide (type = KEY_RANGE)) then true
  else (cmp_min_to_min this arg =? 0) && (cmp_max_to_max this arg =? 0).

Definition clone_and this arg : SEL_ARG :=
  let '(new_min, flag_min) :=
    if 0 <=? cmp_min_to_min this arg then (min_value this, min_flag this) else (min_value arg, min_flag arg) in
  let '(new_max, flag_max) :=
    if cmp_max_to_max this arg <=? 0 then (max_value this, max_flag this) else (max_value arg, max_flag arg) in
  new_arg (field this) (part this) new_min new_max flag_min flag_max (Z.b2z (truth (maybe_flag this) && truth (maybe_flag arg))).
Definition clone_first this arg : SEL_ARG :=
  new_arg (field this) (part this) (min_value this) (min_value arg) (min_flag this)
    (if has (min_flag arg) NEAR_MIN then 0 else NEAR_MAX) (Z.lor (maybe_flag this) (maybe_flag arg)).
Definition clone_last this arg : SEL_ARG :=
  new_arg (field this) (part this) (min_value this) (max_value arg) (min_flag this) (max_flag arg)
    (Z.lor (maybe_flag this) (maybe_flag arg)).

Definition set_min (v : list Z) (f : Z) this : SEL_ARG :=
  mkArg (field this) f (max_flag this) (maybe_flag this) (part this) (maybe_null this) v (max_value this).
Definition set_max (v : list Z) (f : Z) this : SEL_ARG :=
  mkArg (field this) (min_flag this) f (maybe_flag this) (part this) (maybe_null this) (min_value this) v.
Definition both_open (flags : Z) : bool := Z.land flags (Z.lor NO_MAX_RANGE NO_MIN_RANGE) =? Z.lor NO_MAX_RANGE NO_MIN_RANGE.

(** The result is whether the range is full. *)
Definition copy_min this arg : bool * SEL_ARG :=
  if 0 <? cmp_min_to_min this arg then
    let this := set_min (min_value arg) (min_flag arg) this in
    if both_open (max_flag this) then (true, this) else (false, merge_flags arg this)
  else (false, merge_flags arg this).
Definition copy_max this arg : bool * SEL_ARG :=
  if cmp_max_to_max this arg <=? 0 then
    let this := set_max (max_value arg) (max_flag arg) this in
    if both_open (max_flag this) then (true, this) else (false, merge_flags arg this)
  else (false, merge_flags arg this).
Definition copy_min_to_min this arg : SEL_ARG := set_min (min_value arg) (min_flag arg) this.
Definition copy_min_to_max this arg : SEL_ARG :=
  set_max (min_value arg) (if has (min_flag arg) NEAR_MIN then 0 else NEAR_MAX) this.
Definition copy_max_to_min this arg : SEL_ARG :=
  set_min (max_value arg) (if has (max_flag arg) NEAR_MAX then 0 else NEAR_MIN) this.

Definition is_singlepoint this : option bool :=
  if truth (min_flag this) || truth (max_flag this) then Some false
  else if maybe_null this then
    a ← min_value this !! 0%nat; b ← max_value this !! 0%nat;
    if negb (a =? b) then Some false
    else if truth a then Some true
    else Some (key_cmp (field this) (drop 1 (min_value this)) (drop 1 (max_value this)) =? 0)
  else Some (key_cmp (field this) (min_value this) (max_value this) =? 0).

(** * Keys *)

(** [*min_value], and the bytes that are put into a key. *)
Definition image (nullable : bool) (v : list Z) (len : Z) : option (list Z) :=
  null ← (if nullable then b ← v !! 0%nat; Some (truth b) else Some false);
  if null : bool then Some (1 :: replicate (Z.to_nat (len - 1)) 0)
  else if len <=? Z.of_nat (length v) then Some (take (Z.to_nat len) v) else None.

(** The number of values that are appended, and the key. *)
Definition store_min (len : Z) (min_key : list Z) (min_key_flag : Z) this : option (Z * list Z) :=
  if has (min_flag this) GEOM_FLAG
     || (negb (has (min_flag this) NO_MIN_RANGE) && negb (has min_key_flag (Z.lor NO_MIN_RANGE NEAR_MIN)))
  then bytes ← image (maybe_null this) (min_value this) len; Some (1, min_key ++ bytes)
  else Some (0, min_key).
Definition store_max (len : Z) (max_key : list Z) (max_key_flag : Z) this : option (Z * list Z) :=
  if negb (has (max_flag this) NO_MAX_RANGE) && negb (has max_key_flag (Z.lor NO_MAX_RANGE NEAR_MAX))
  then bytes ← image (maybe_null this) (max_value this) len; Some (1, max_key ++ bytes)
  else Some (0, max_key).

Definition reversed (kp : Z -> KEY_PART) (p : Z) : bool := has (flag (kp p)) HA_REVERSE_SORT.

(** The keys and the numbers of parts, of the minimum and of the maximum. *)
Definition store_min_max (kp : Z -> KEY_PART) (len : Z) (min_key : list Z) (min_flag : Z) (max_key : list Z) (max_flag : Z)
    (min_part max_part : Z) this : option ((list Z * Z) * (list Z * Z)) :=
  if reversed kp (part this) then
    r ← store_min len max_key min_flag this; s ← store_max len min_key max_flag this;
    Some ((s.2, min_part + s.1), (r.2, max_part + r.1))
  else
    r ← store_min len min_key min_flag this; s ← store_max len max_key max_flag this;
    Some ((r.2, min_part + r.1), (s.2, max_part + s.1)).
Definition get_min_flag (kp : Z -> KEY_PART) this : Z :=
  if reversed kp (part this) then invert_max_flag (max_flag this) else min_flag this.
Definition get_max_flag (kp : Z -> KEY_PART) this : Z :=
  if reversed kp (part this) then invert_min_flag (min_flag this) else max_flag this.
End intervals.

(** * Graphs *)

(** An interval list: its type, its key part, and its intervals in order, each with
    its [next_key_part]. *)
Inductive graph := Graph (type : Type_) (gpart : Z) (args : list (SEL_ARG * option graph)).
Definition gtype (g : graph) : Type_ := let (ty, _, _) := g in ty.
Definition gpart (g : graph) : Z := let (_, p, _) := g in p.
Definition args (g : graph) : list (SEL_ARG * option graph) := let (_, _, l) := g in l.
Definition first (g : graph) : option (SEL_ARG * option graph) := args g !! 0%nat.
Definition last (g : graph) : option (SEL_ARG * option graph) := list.last (args g).

Section graphs.

(** [simple_key], with [elements] the number of intervals. *)
Definition simple_key (nkp : option graph) (elements : Z) : bool := (if nkp then false else true) && (elements =? 1).

(** The loop over two lists; [same_object]: [arg == this]. *)
Fixpoint all_same_loop (type type' : Type_) (cur cmp : list (SEL_ARG * option graph)) : bool :=
  match cur, cmp with
  | [], [] => true
  | a :: cur, b :: cmp => if is_same type type' a.1 b.1 then all_same_loop type type' cur cmp else false
  | _, _ => false
  end.
Definition all_same (same_object : bool) (this arg : graph) : bool :=
  if negb (bool_decide (gtype this = gtype arg)) || negb (gpart this =? gpart arg) then false
  else if negb (bool_decide (gtype this = KEY_RANGE)) then true
  else if same_object then true
  else all_same_loop (gtype this) (gtype arg) (args this) (args arg).

(** The number of values, the key and its flags. *)
Fixpoint store_min_key (n : nat) (key : Z -> KEY_PART) (range_key : list Z) (range_key_flag last_part : Z) (start_key : bool)
    (this : graph) : option (Z * (list Z * Z)) :=
  match n with
  | O => None
  | S n =>
      r ← first this; let '(key_tree, nkp) := r : SEL_ARG * option graph in
      r ← store_min (store_length (key (part key_tree))) range_key range_key_flag key_tree;
      let '(res, range_key) := r : Z * list Z in
      if res =? 0 then Some (0, (range_key, range_key_flag))
      else
        let range_key_flag := Z.lor range_key_flag (min_flag key_tree) in
        match nkp with
        | Some nkp =>
            if bool_decide (gtype nkp = KEY_RANGE) && negb (part key_tree =? last_part) && (gpart nkp =? part key_tree + 1)
               && negb (has range_key_flag (Z.lor NO_MIN_RANGE NEAR_MIN))
            then
              let asc := negb (reversed key (part key_tree)) in
              if Bool.eqb start_key asc then
                r ← store_min_key n key range_key range_key_flag last_part start_key nkp;
                let '(k, (range_key, range_key_flag)) := r : Z * (list Z * Z) in Some (res + k, (range_key, range_key_flag))
              else
                r ← store_max_key n key range_key (invert_min_flag range_key_flag) last_part start_key nkp;
                let '(k, (range_key, tmp_flag)) := r : Z * (list Z * Z) in Some (res + k, (range_key, invert_max_flag tmp_flag))
            else Some (res, (range_key, range_key_flag))
        | None => Some (res, (range_key, range_key_flag))
        end
  end
with store_max_key (n : nat) (key : Z -> KEY_PART) (range_key : list Z) (range_key_flag last_part : Z) (start_key : bool)
    (this : graph) : option (Z * (list Z * Z)) :=
  match n with
  | O => None
  | S n =>
      r ← last this; let '(key_tree, nkp) := r : SEL_ARG * option graph in
      r ← store_max (store_length (key (part key_tree))) range_key range_key_flag key_tree;
      let '(res, range_key) := r : Z * list Z in
      if res =? 0 then Some (0, (range_key, range_key_flag))
      else
        let range_key_flag := Z.lor range_key_flag (max_flag key_tree) in
        match nkp with
        | Some nkp =>
            if bool_decide (gtype nkp = KEY_RANGE) && negb (part key_tree =? last_part) && (gpart nkp =? part key_tree + 1)
               && negb (has range_key_flag (Z.lor NO_MAX_RANGE NEAR_MAX))
            then
              let asc := negb (reversed key (part key_tree)) in
              if (negb start_key && asc) || (start_key && negb asc) then
                r ← store_max_key n key range_key range_key_flag last_part start_key nkp;
                let '(k, (range_key, range_key_flag)) := r : Z * (list Z * Z) in Some (res + k, (range_key, range_key_flag))
              else
                r ← store_min_key n key range_key (invert_max_flag range_key_flag) last_part start_key nkp;
                let '(k, (range_key, tmp_flag)) := r : Z * (list Z * Z) in Some (res + k, (range_key, invert_min_flag tmp_flag))
            else Some (res, (range_key, range_key_flag))
        | None => Some (res, (range_key, range_key_flag))
        end
  end.
End graphs.
