(* ===== verification/RangeArgProps.v ===== *)
(** Intervals of the range optimizer: the operations on intervals are operations
    on sets of values, and the keys that are stored for a graph bound the rows that
    it selects. *)
From S2P Require Import Prelude RangeArg.
Open Scope Z_scope.

(** * Values and end points *)

Section order.
Context (fd : Field).

Definition is_null (v : list Z) : bool := truth (default 0 (v !! 0%nat)).
(** NULL is before all other values. *)
Definition value_cmp (a b : list Z) : Z :=
  if real_maybe_null fd then
    match is_null a, is_null b with
    | true, true => 0 | true, false => -1 | false, true => 1
    | false, false => key_cmp fd (drop 1 a) (drop 1 b)
    end
  else key_cmp fd a b.
Definition vc (a b : list Z) : Z := Z.sgn (value_cmp a b).

(** Infinite end points; a value is left out by an open end point. *)
Definition inf (f : Z) : Z := if has f NO_MIN_RANGE then -1 else if has f NO_MAX_RANGE then 1 else 0.
Definition eps (f : Z) : Z := if has f NEAR_MIN then 1 else if has f NEAR_MAX then -1 else 0.
Definition endpoint_cmp (a b : list Z) (fa fb : Z) : Z :=
  if (inf fa =? 0) && (inf fb =? 0) then if vc a b =? 0 then eps fa - eps fb else vc a b else inf fa - inf fb.

Inductive side := Lo | Hi.
Definition opp (d : side) : side := match d with Lo => Hi | Hi => Lo end.
Definition sg (d : side) : Z := match d with Lo => 1 | Hi => -1 end.
Definition no (d : side) : Z := match d with Lo => NO_MIN_RANGE | Hi => NO_MAX_RANGE end.
Definition near (d : side) : Z := match d with Lo => NEAR_MIN | Hi => NEAR_MAX end.
Definition flag_ok (d : side) (f : Z) : Prop := f = 0 \/ f = no d \/ f = near d.

(** The value [x] is on the right side of an end point. *)
Definition sat (d : side) (v : list Z) (f : Z) (x : list Z) : Prop :=
  has f (no d) = true \/ sg d * vc v x + Z.b2z (has f (near d)) <= 0.
End order.

Definition bound (d : side) (a : SEL_ARG) : list Z := match d with Lo => min_value a | Hi => max_value a end.
Definition flags (d : side) (a : SEL_ARG) : Z := match d with Lo => min_flag a | Hi => max_flag a end.
Definition lo (a : SEL_ARG) (x : list Z) : Prop := sat (field a) Lo (min_value a) (min_flag a) x.
Definition hi (a : SEL_ARG) (x : list Z) : Prop := sat (field a) Hi (max_value a) (max_flag a) x.
Definition denotes (a : SEL_ARG) (x : list Z) : Prop := lo a x /\ hi a x.
Definition flags_ok (a : SEL_ARG) : Prop := flag_ok Lo (min_flag a) /\ flag_ok Hi (max_flag a).

(** [key_cmp] is an order of values, in which different images may be equal;
    [sel_cmp] compares end points. *)
Class LawfulField (fd : Field) : Prop := {
  key_cmp_refl a : key_cmp fd a a = 0;
  key_cmp_sym a b : Z.sgn (key_cmp fd b a) = - Z.sgn (key_cmp fd a b);
  key_cmp_trans a b c : key_cmp fd a b <= 0 -> key_cmp fd b c <= 0 -> key_cmp fd a c <= 0;
  sel_cmp_spec a b fa fb d e : flag_ok d fa -> flag_ok e fb ->
    Z.sgn (sel_cmp fd a b fa fb) = Z.sgn (endpoint_cmp fd a b fa fb) }.

(** * Flags *)

Lemma truth_lor a b : truth (Z.lor a b) = truth a || truth b.
Proof. apply eq_true_iff_eq. rewrite orb_true_iff, !truth_true, Z.lor_eq_0_iff. lia. Qed.
Lemma has_lor f g m : has (Z.lor f g) m = has f m || has g m.
Proof. unfold has. by rewrite Z.land_lor_distr_l, truth_lor. Qed.
Lemma has_mask f m k : has f (Z.lor m k) = has f m || has f k.
Proof. unfold has. by rewrite Z.land_lor_distr_r, truth_lor. Qed.

(** Tests of flags that are numbers. *)
Ltac eval_has := unfold inf, eps; cbn [no near opp sg];
  repeat match goal with
  | |- context [has ?f ?m] => let b := eval vm_compute in (has f m) in change (has f m) with b
  | K : context [has ?f ?m] |- _ => let b := eval vm_compute in (has f m) in change (has f m) with b in K
  end; cbn -[Z.mul].

(** Inverting flags twice gives them back. *)
Theorem invert_flags_roundtrip f : flag_ok Lo f -> invert_max_flag (invert_min_flag f) = f.
Proof. intros [-> | [-> | ->]]; reflexivity. Qed.

Section laws.
Context (fd : Field) `{!LawfulField fd}.
#[local] Notation vc := (vc fd).
#[local] Notation sat := (sat fd).
#[local] Notation sel_cmp := (sel_cmp fd).
#[local] Notation key_cmp := (key_cmp fd).

Lemma vc_range a b : -1 <= vc a b <= 1.
Proof. unfold RangeArgProps.vc. lia. Qed.
Lemma vc_refl a : vc a a = 0.
Proof. unfold RangeArgProps.vc, value_cmp. destruct (real_maybe_null fd); [destruct (is_null a)|]; rewrite ?(key_cmp_refl (fd := fd)); done. Qed.
Lemma vc_sym a b : vc b a = - vc a b.
Proof. unfold RangeArgProps.vc, value_cmp. destruct (real_maybe_null fd); [destruct (is_null a), (is_null b)|]; try done; apply (key_cmp_sym (fd := fd)). Qed.
Lemma vc_trans a b c : vc a b <= 0 -> vc b c <= 0 -> vc a c <= 0.
Proof.
  assert (Hk : forall a b c, Z.sgn (key_cmp a b) <= 0 -> Z.sgn (key_cmp b c) <= 0 -> Z.sgn (key_cmp a c) <= 0).
  { intros a' b' c' ? ?. pose proof (key_cmp_trans (fd := fd) a' b' c'). lia. }
  unfold RangeArgProps.vc, value_cmp. destruct (real_maybe_null fd); [|apply Hk].
  destruct (is_null a), (is_null b), (is_null c); cbn; try lia. apply Hk.
Qed.
Lemma vc_le_lt a b c : vc a b <= 0 -> vc b c < 0 -> vc a c < 0.
Proof.
  intros ? ?. pose proof (vc_trans a b c). pose proof (vc_trans c a b). pose proof (vc_sym b c). pose proof (vc_sym a c). lia.
Qed.
Lemma vc_lt_le a b c : vc a b < 0 -> vc b c <= 0 -> vc a c < 0.
Proof.
  intros ? ?. pose proof (vc_trans a b c). pose proof (vc_trans b c a). pose proof (vc_sym a b). pose proof (vc_sym a c). lia.
Qed.
(** Equal values are on the same side of every value. *)
Lemma vc_eq a b x : vc a b = 0 -> vc a x = vc b x.
Proof.
  intros E. pose proof (vc_sym a b). pose proof (vc_sym a x). pose proof (vc_sym b x). pose proof (vc_range a x). pose proof (vc_range b x).
  pose proof (vc_trans a b x). pose proof (vc_trans b a x). pose proof (vc_trans x a b). pose proof (vc_trans x b a). lia.
Qed.

Lemma vc_cases a b x :
  (vc a b = 0 /\ vc a x = vc b x) \/ (vc a b = -1 /\ (vc b x <= 0 -> vc a x = -1)) \/ (vc a b = 1 /\ (vc a x <= 0 -> vc b x = -1)).
Proof.
  pose proof (vc_range a b). pose proof (vc_range a x). pose proof (vc_range b x). pose proof (vc_eq a b x).
  pose proof (vc_lt_le a b x). pose proof (vc_lt_le b a x). pose proof (vc_sym a b). lia.
Qed.

(** The comparison of two end points of a side. *)
Lemma sat_cmp d a b fa fb x : flag_ok d fa -> flag_ok d fb ->
  (0 <= sg d * sel_cmp a b fa fb -> sat d a fa x -> sat d b fb x)
  /\ (sg d * sel_cmp a b fa fb <= 0 -> sat d b fb x -> sat d a fa x).
Proof.
  intros Ha Hb. pose proof (sel_cmp_spec (fd := fd) a b fa fb d d Ha Hb) as S. revert S. generalize (sel_cmp a b fa fb) as r.
  intros r. unfold endpoint_cmp, RangeArgProps.sat. pose proof (vc_range a x). pose proof (vc_range b x).
  destruct (vc_cases a b x) as [[E ?] | [[E ?] | [E ?]]]; rewrite E;
    destruct Ha as [-> | [-> | ->]], Hb as [-> | [-> | ->]], d; clear E; eval_has; lia.
Qed.

Lemma sat_le d a b fa fb x : flag_ok d fa -> flag_ok d fb -> 0 <= sg d * sel_cmp a b fa fb -> sat d a fa x -> sat d b fb x.
Proof. intros Ha Hb. apply (sat_cmp d a b fa fb x Ha Hb). Qed.
Lemma sat_ge d a b fa fb x : flag_ok d fa -> flag_ok d fb -> sg d * sel_cmp a b fa fb <= 0 -> sat d b fb x -> sat d a fa x.
Proof. intros Ha Hb. apply (sat_cmp d a b fa fb x Ha Hb). Qed.

(** Turning an end point around. *)
Lemma sat_flip d v f x : flag_ok d f -> has f (no d) = false ->
  sat (opp d) v (if has f (near d) then 0 else near (opp d)) x <-> ~ sat d v f x.
Proof. intros Hf Hn. unfold RangeArgProps.sat. rewrite Hn. destruct Hf as [-> | [-> | ->]], d; eval_has; cbn in *; lia. Qed.

(** * Operations on intervals *)

(** The end point that [copy_min] and [copy_max] take when the other one is further out. *)
Lemma sat_or d a b fa fb x : flag_ok d fa -> flag_ok d fb ->
  (0 <= sg d * sel_cmp a b fa fb -> sat d b fb x <-> sat d a fa x \/ sat d b fb x)
  /\ (sg d * sel_cmp a b fa fb <= 0 -> sat d a fa x <-> sat d a fa x \/ sat d b fb x).
Proof. intros Ha Hb. pose proof (sat_le d a b fa fb x Ha Hb). pose proof (sat_ge d a b fa fb x Ha Hb). tauto. Qed.

Lemma both_open_hi f : flag_ok Hi f -> both_open f = false.
Proof. by intros [-> | [-> | ->]]. Qed.

End laws.

(** Two intervals of the same field. *)
Section operations.
Context (this arg : SEL_ARG) `{!LawfulField (field this)} (SF : field arg = field this).
Implicit Types (x : list Z).

Lemma cmp_los x : flags_ok this -> flags_ok arg ->
  (0 <= cmp_min_to_min this arg -> lo this x -> lo arg x) /\ (cmp_min_to_min this arg <= 0 -> lo arg x -> lo this x).
Proof using All.
  intros [L1 _] [L2 _]. unfold lo, cmp_min_to_min. rewrite SF.
  pose proof (sat_cmp (field this) Lo (min_value this) (min_value arg) _ _ x L1 L2) as [A1 A2]. cbn [sg] in *.
  split; intros; [apply A1|apply A2]; done || lia.
Qed.
Lemma cmp_his x : flags_ok this -> flags_ok arg ->
  (cmp_max_to_max this arg <= 0 -> hi this x -> hi arg x) /\ (0 <= cmp_max_to_max this arg -> hi arg x -> hi this x).
Proof using All.
  intros [_ H1] [_ H2]. unfold hi, cmp_max_to_max. rewrite SF.
  pose proof (sat_cmp (field this) Hi (max_value this) (max_value arg) _ _ x H1 H2) as [A1 A2]. cbn [sg] in *.
  split; intros; [apply A1|apply A2]; done || lia.
Qed.

Lemma clone_and_denotes x : flags_ok this -> flags_ok arg ->
  denotes (clone_and this arg) x <-> denotes this x /\ denotes arg x.
Proof using All.
  intros F1 F2. pose proof (cmp_los x F1 F2) as [A1 A2]. pose proof (cmp_his x F1 F2) as [B1 B2].
  unfold clone_and, denotes in *.
  destruct (Z.leb_spec 0 (cmp_min_to_min this arg)), (Z.leb_spec (cmp_max_to_max this arg) 0); cbn;
    unfold lo, hi in *; cbn [new_arg field min_value max_value min_flag max_flag] in *; rewrite SF in *;
    intuition (auto with zarith; lia).
Qed.

Lemma copy_min_denotes x : flags_ok this -> flags_ok arg ->
  (copy_min this arg).1 = false /\ (denotes (copy_min this arg).2 x <-> (lo this x \/ lo arg x) /\ hi this x).
Proof using All.
  intros F1 F2. pose proof (cmp_los x F1 F2) as [A1 A2]. unfold copy_min. cbn [set_min max_flag].
  rewrite both_open_hi by apply F1. unfold denotes in *.
  destruct (Z.ltb_spec 0 (cmp_min_to_min this arg)); cbn; (split; [done|]);
    unfold lo, hi in *; cbn [set_min merge_flags field min_value max_value min_flag max_flag] in *; rewrite SF in *;
    intuition (auto with zarith; lia).
Qed.

Lemma copy_max_denotes x : flags_ok this -> flags_ok arg ->
  (copy_max this arg).1 = false /\ (denotes (copy_max this arg).2 x <-> lo this x /\ (hi this x \/ hi arg x)).
Proof using All.
  intros F1 F2. pose proof (cmp_his x F1 F2) as [A1 A2]. unfold copy_max. cbn [set_max max_flag].
  rewrite both_open_hi by apply F2. unfold denotes in *.
  destruct (Z.leb_spec (cmp_max_to_max this arg) 0); cbn; (split; [done|]);
    unfold lo, hi in *; cbn [set_max merge_flags field min_value max_value min_flag max_flag] in *; rewrite SF in *;
    intuition (auto with zarith; lia).
Qed.

(** C11: For two intervals of the same field, each end of which is closed, open or
    infinite, [clone_and] is their intersection and [clone_last] what is from the
    start of this one to the end of the other.  [copy_min] and [copy_max], although
    commented as overlapping ranges, extend this interval to the lower of the two
    minima and to the higher of the two maxima.  Where the other one has a minimum,
    [clone_first] and [copy_min_to_max] leave of this one's start what is not yet in
    the other: its minimum is left out when it is closed, as the comment on
    [clone_first] says, and kept when it is open; where the other one has a maximum,
    [copy_max_to_min] leaves what is after the other one. *)
Theorem interval_operations_are_set_operations x :
  flags_ok this -> flags_ok arg ->
  (denotes (clone_and this arg) x <-> denotes this x /\ denotes arg x)
  /\ (denotes (clone_last this arg) x <-> lo this x /\ hi arg x)
  /\ (denotes (copy_min this arg).2 x <-> (lo this x \/ lo arg x) /\ hi this x)
  /\ (denotes (copy_max this arg).2 x <-> lo this x /\ (hi this x \/ hi arg x))
  /\ (denotes (copy_min_to_min this arg) x <-> lo arg x /\ hi this x)
  /\ (has (min_flag arg) NO_MIN_RANGE = false ->
        (denotes (clone_first this arg) x <-> lo this x /\ ~ lo arg x)
        /\ (denotes (copy_min_to_max this arg) x <-> lo this x /\ ~ lo arg x)
        /\ (vc (field this) (min_value arg) x = 0 -> (~ lo arg x <-> has (min_flag arg) NEAR_MIN = true)))
  /\ (has (max_flag arg) NO_MAX_RANGE = false ->
        (denotes (copy_max_to_min this arg) x <-> ~ hi arg x /\ hi this x)).
Proof using All.
  intros F1 F2. split_and!.
  - by apply clone_and_denotes.
  - unfold denotes, lo, hi. by rewrite SF.
  - by apply copy_min_denotes.
  - by apply copy_max_denotes.
  - unfold denotes, lo, hi. by rewrite SF.
  - intros Hn. unfold denotes, lo, hi. rewrite SF.
    cbn [clone_first new_arg copy_min_to_max set_max field min_value max_value min_flag max_flag].
    rewrite (sat_flip (field this) Lo (min_value arg) (min_flag arg) x (proj1 F2) Hn). split; [done|]. split; [done|].
    intros E. unfold sat. cbn [no near sg]. rewrite Hn, E. destruct (has (min_flag arg) NEAR_MIN); cbn; lia.
  - intros Hn. unfold denotes, lo, hi. rewrite SF. cbn [copy_max_to_min set_min field min_value max_value min_flag max_flag].
    by rewrite (sat_flip (field this) Hi (max_value arg) (max_flag arg) x (proj2 F2) Hn).
Qed.

(** The results of [copy_min] and [copy_max] never say that the range is full. *)
Theorem full_range_is_never_reported : flags_ok this -> flags_ok arg ->
  (copy_min this arg).1 = false /\ (copy_max this arg).1 = false.
Proof using All. intros F1 F2. split; [apply (copy_min_denotes [])|apply (copy_max_denotes [])]; done. Qed.

Lemma is_same_denotes x : flags_ok this -> flags_ok arg ->
  is_same KEY_RANGE KEY_RANGE this arg = true -> denotes this x <-> denotes arg x.
Proof using All.
  intros F1 F2. pose proof (cmp_los x F1 F2) as [A1 A2]. pose proof (cmp_his x F1 F2) as [B1 B2]. unfold is_same. cbn.
  destruct (negb (part this =? part arg)); [done|]. intros [E1%Z.eqb_eq E2%Z.eqb_eq]%andb_prop. unfold denotes.
  specialize (A1 ltac:(lia)). specialize (A2 ltac:(lia)). specialize (B1 ltac:(lia)). specialize (B2 ltac:(lia)). tauto.
Qed.
End operations.

(** Lists of the same lawful field that [all_same] accepts have the same values,
    one interval after the other. *)
Theorem all_same_denotes fd `{!LawfulField fd} g h :
  Forall (fun a => flags_ok a.1 /\ field a.1 = fd) (args g) -> Forall (fun a => flags_ok a.1 /\ field a.1 = fd) (args h) ->
  gtype g = KEY_RANGE -> all_same false g h = true ->
  Forall2 (fun a b => forall x, denotes a.1 x <-> denotes b.1 x) (args g) (args h).
Proof.
  intros Fg Fh T. unfold all_same. rewrite T. destruct (decide (KEY_RANGE = gtype h)) as [<-|]; [|by rewrite bool_decide_false].
  rewrite !bool_decide_true by done. cbn. destruct (gpart g =? gpart h); [|done]. cbn. revert Fh. generalize (args h) as l.
  induction Fg as [|a k [Fa Ea] Fk IH]; intros [|b l] Fl; try done. inversion Fl as [|? ? [Fb Eb] Fl']; subst. cbn [all_same_loop].
  destruct (is_same KEY_RANGE KEY_RANGE a.1 b.1) eqn:E; [|done]. intros A. constructor; [|auto]. intros x.
  apply is_same_denotes; done.
Qed.

(** A single point: the values equal to one value, or NULL. *)
Theorem singlepoint_denotes a x `{!LawfulField (field a)} :
  maybe_null a = real_maybe_null (field a) -> is_singlepoint a = Some true ->
  denotes a x <-> vc (field a) (min_value a) x = 0.
Proof.
  intros Hn. unfold is_singlepoint, denotes, lo, hi, sat. destruct (truth (min_flag a)) eqn:E1; [done|].
  destruct (truth (max_flag a)) eqn:E2; [done|]. apply truth_false in E1 as ->. apply truth_false in E2 as ->. cbn [orb].
  intros S. assert (E : vc (field a) (min_value a) (max_value a) = 0).
  { unfold vc, value_cmp, is_null. rewrite Hn in S. destruct (real_maybe_null (field a)); [|injection S as S; apply Z.eqb_eq in S; by rewrite S].
    destruct (min_value a !! 0%nat) as [n1|]; cbn in S; [|done]. destruct (max_value a !! 0%nat) as [n2|]; cbn in S; [|done].
    destruct (n1 =? n2) eqn:En; [|done]. apply Z.eqb_eq in En. rewrite <- En. cbn in *. destruct (truth n1); [done|].
    injection S as S. apply Z.eqb_eq in S. by rewrite S. }
  rewrite (vc_eq (field a) (min_value a) (max_value a) x E). eval_has. lia.
Qed.
