(* ===== verification/RangeKeys.v ===== *)
(** Keys for the graphs of the range optimizer: [store_min_key] and [store_max_key]
    store the first parts of keys that bound the rows selected by a graph, when all
    parts of the index have the same direction; the parts may have different
    fields. *)
From S2P Require Import Prelude RangeArg RangeArgProps.
Open Scope Z_scope.

Section semantics.

(** The rows that a graph selects: a row has a value for each key part; intervals
    are alternatives, and the next key part is a further condition. *)
Fixpoint matches (g : graph) (row : Z -> list Z) : Prop :=
  match g with
  | Graph KEY_RANGE p l =>
      (fix go l := match l with
                   | [] => False
                   | (a, k) :: l => (denotes a (row p) /\ match k with Some g => matches g row | None => True end) \/ go l
                   end) l
  | _ => True
  end.
Definition next_matches (k : option graph) (row : Z -> list Z) : Prop :=
  match k with Some g => matches g row | None => True end.

Lemma matches_entry p l row :
  matches (Graph KEY_RANGE p l) row -> exists a k, (a, k) ∈ l /\ denotes a (row p) /\ next_matches k row.
Proof.
  cbn. induction l as [|[a k] l IH]; [done|]. intros [[D M]|M]; [exists a, k; split_and!; [left|done|done]|].
  destruct (IH M) as (a' & k' & E & ?). exists a', k'. split; [by right|done].
Qed.

Fixpoint depth (g : graph) : nat :=
  match g with
  | Graph _ _ l =>
      S ((fix go l := match l with [] => 0%nat | (_, k) :: l => Nat.max (match k with Some g => depth g | None => 0%nat end) (go l) end) l)
  end.
Lemma depth_next ty p l a g : (a, Some g) ∈ l -> (depth g < depth (Graph ty p l))%nat.
Proof.
  cbn. intros E. apply Nat.lt_succ_r. induction l as [|[b k] l IH]; [by apply elem_of_nil in E|].
  apply elem_of_cons in E as [[= <- <-]|E]; [lia|]. specialize (IH E). lia.
Qed.

(** Intervals that follow each other do not meet. *)
Definition in_order (l : list (SEL_ARG * option graph)) : Prop :=
  forall i j a b, (i < j)%nat -> l !! i = Some a -> l !! j = Some b -> forall x, lo b.1 x -> ~ hi a.1 x.
Definition arg_ok (key : Z -> KEY_PART) (p : Z) (a : SEL_ARG) : Prop :=
  part a = p /\ field a = key_field (key p) /\ flags_ok a /\ maybe_null a = real_maybe_null (field a) /\ (exists y, denotes a y)
  /\ Z.of_nat (length (min_value a)) = store_length (key p) /\ Z.of_nat (length (max_value a)) = store_length (key p).

Inductive graph_ok (key : Z -> KEY_PART) : graph -> Prop :=
| graph_ok_intro p l :
    1 <= store_length (key p) -> l <> [] -> (forall a k, (a, k) ∈ l -> arg_ok key p a) -> in_order l ->
    (forall a g, (a, Some g) ∈ l -> gtype g = KEY_RANGE -> graph_ok key g) ->
    graph_ok key (Graph KEY_RANGE p l).

(** The key of the parts from [p] on, with its flags, is before all rows with the
    values of [row] on the side [d]. *)
Fixpoint ahead (key : Z -> KEY_PART) (d : side) (ks : list (list Z)) (f : Z) (p : Z) (row : Z -> list Z) : Prop :=
  match ks with
  | [] => has f (near d) = false
  | v :: ks =>
      sg d * vc (key_field (key p)) v (row p) < 0
      \/ (vc (key_field (key p)) v (row p) = 0 /\ ahead key d ks f (p + 1) row)
  end.

(** * One side of the two functions *)

Definition end_of (d : side) (g : graph) : option (SEL_ARG * option graph) := match d with Lo => first g | Hi => last g end.
Definition store_end (d : side) : Z -> list Z -> Z -> SEL_ARG -> option (Z * list Z) :=
  match d with Lo => store_min | Hi => store_max end.
Fixpoint chain (d : side) (n : nat) (key : Z -> KEY_PART) (range_key : list Z) (f last_part : Z) (this : graph)
    : option (Z * (list Z * Z)) :=
  match n with
  | O => None
  | S n =>
      r ← end_of d this; let '(key_tree, nkp) := r : SEL_ARG * option graph in
      r ← store_end d (store_length (key (part key_tree))) range_key f key_tree;
      let '(res, range_key) := r : Z * list Z in
      if res =? 0 then Some (0, (range_key, f))
      else
        let f := Z.lor f (flags d key_tree) in
        match nkp with
        | Some nkp =>
            if bool_decide (gtype nkp = KEY_RANGE) && negb (part key_tree =? last_part) && (gpart nkp =? part key_tree + 1)
               && negb (has f (Z.lor (no d) (near d)))
            then
              r ← chain d n key range_key f last_part nkp;
              let '(k, (range_key, f)) := r : Z * (list Z * Z) in Some (res + k, (range_key, f))
            else Some (res, (range_key, f))
        | None => Some (res, (range_key, f))
        end
  end.

(** In an index whose parts are all ascending ([b]) or all descending, the key for
    one end of the range is made of one side only. *)
Lemma store_keys_chain key b n : (forall p, reversed key p = negb b) -> forall k f lp g,
  store_min_key n key k f lp b g = chain Lo n key k f lp g
  /\ store_max_key n key k f lp (negb b) g = chain Hi n key k f lp g.
Proof.
  intros Hd. induction n as [|n IH]; intros k f lp g; [done|]. split; cbn.
  - destruct (first g) as [[a nkp]|]; cbn; [|done]. destruct (store_min _ k f a) as [[res k']|]; cbn; [|done].
    destruct (res =? 0); [done|]. destruct nkp as [nkp|]; [|done]. destruct (_ && negb _); [|done].
    rewrite Hd, negb_involutive, eqb_reflx. by rewrite (proj1 (IH _ _ _ _)).
  - destruct (last g) as [[a nkp]|]; cbn; [|done]. destruct (store_max _ k f a) as [[res k']|]; cbn; [|done].
    destruct (res =? 0); [done|]. destruct nkp as [nkp|]; [|done]. destruct (_ && negb _); [|done].
    rewrite Hd, negb_involutive. replace (_ || _) with true by by destruct b.
    by rewrite (proj2 (IH _ _ _ _)).
Qed.
End semantics.

(** * The bounds *)

Section bounds.
Context (key : Z -> KEY_PART) `{Hfields : forall p, LawfulField (key_field (key p))}.
Abbreviation fd p := (key_field (key p)).

(** What is stored of a value is equal to it. *)
Lemma image_spec (f : Field) v len : Z.of_nat (length v) = len -> 1 <= len ->
  exists w, image (real_maybe_null f) v len = Some w /\ forall x, vc f w x = vc f v x.
Proof.
  intros Hl H1. unfold image, vc, value_cmp. destruct (real_maybe_null f).
  - destruct v as [|b v]; [cbn in Hl; lia|]. cbn [lookup list_lookup mbind option_bind]. destruct (truth b) eqn:E.
    + eexists. split; [done|]. intros x. unfold is_null. cbn. by rewrite E.
    + rewrite Hl, Z.leb_refl. rewrite <- Hl, Nat2Z.id, firstn_all. eauto.
  - cbn. rewrite Hl, Z.leb_refl. rewrite <- Hl, Nat2Z.id, firstn_all. eauto.
Qed.

(** A part is stored unless its end is infinite. *)
Lemma store_end_spec d p a k f : arg_ok key p a -> 1 <= store_length (key p) -> has f (Z.lor (no d) (near d)) = false ->
  if has (flags d a) (no d) then store_end d (store_length (key (part a))) k f a = Some (0, k)
  else exists w, store_end d (store_length (key (part a))) k f a = Some (1, k ++ w) /\ forall x, vc (fd p) w x = vc (fd p) (bound d a) x.
Proof.
  intros (-> & <- & [Lf Hf] & Hn & _ & L1 & L2) Hs Hff.
  destruct d; cbn [store_end flags no near bound] in *; unfold store_min, store_max; rewrite Hff, Hn; cbn [negb].
  - destruct (image_spec (field a) (min_value a) _ L1 Hs) as (w & E & V). rewrite E.
    destruct Lf as [-> | [-> | ->]]; eval_has; eauto.
  - destruct (image_spec (field a) (max_value a) _ L2 Hs) as (w & E & V). rewrite E.
    destruct Hf as [-> | [-> | ->]]; eval_has; eauto.
Qed.

Definition on_side (d : side) (a : SEL_ARG) (x : list Z) : Prop := sat (field a) d (bound d a) (flags d a) x.
Lemma on_sides d a x : denotes a x <-> on_side d a x /\ on_side (opp d) a x.
Proof. unfold denotes, on_side, lo, hi. destruct d; cbn; tauto. Qed.

(** A value behind a value of an interval, outside of it, is strictly behind its end point. *)
Lemma sat_beyond (g : Field) `{!LawfulField g} d v0 f0 v1 f1 x y : has f0 (no d) = false ->
  sat g d v0 f0 y -> sat g (opp d) v1 f1 y -> ~ sat g (opp d) v1 f1 x -> sg d * vc g v0 x < 0.
Proof.
  unfold sat. intros E0 S0 S1 N. rewrite E0 in S0. destruct S0 as [|S0]; [done|].
  destruct (has f1 (no (opp d))); [exfalso; apply N; by left|]. destruct S1 as [|S1]; [done|].
  assert (N' : 0 < sg (opp d) * vc g v1 x + Z.b2z (has f1 (near (opp d)))) by (apply Z.nle_gt; tauto). clear N E0.
  assert (B0 : 0 <= Z.b2z (has f0 (near d))) by (destruct (has f0 (near d)); cbn; lia).
  assert (B1 : 0 <= Z.b2z (has f1 (near (opp d))) <= 1) by (destruct (has f1 (near (opp d))); cbn; lia).
  revert N' S1 B1 S0 B0. generalize (Z.b2z (has f1 (near (opp d)))) as e1, (Z.b2z (has f0 (near d))) as e0. intros e0 e1.
  pose proof (vc_cases g x y v1) as C1. pose proof (vc_sym g v1 x). pose proof (vc_sym g v1 y). pose proof (vc_range g v1 x). pose proof (vc_range g v1 y).
  pose proof (vc_sym g x y). pose proof (vc_le_lt g v0 y x). pose proof (vc_lt_le g x y v0). pose proof (vc_sym g v0 x). pose proof (vc_sym g v0 y).
  destruct d; cbn [opp sg]; intros; lia.
Qed.

(** The end of a list, and an entry of the list that has a value. *)
Lemma end_entry d p l a0 k0 a k x :
  (forall a k, (a, k) ∈ l -> arg_ok key p a) -> in_order l -> end_of d (Graph KEY_RANGE p l) = Some (a0, k0) ->
  has (flags d a0) (no d) = false -> (a, k) ∈ l -> denotes a x ->
  (a = a0 /\ k = k0) \/ sg d * vc (fd p) (bound d a0) x < 0.
Proof.
  intros Ha Ho E0 Hn Hl D. apply list_elem_of_lookup in Hl as [i Hi].
  assert (Ej : exists j, l !! j = Some (a0, k0) /\ match d with Lo => j = 0%nat | Hi => j = pred (length l) end).
  { destruct d; cbn in E0; unfold first, last in E0; cbn in E0; [by exists 0%nat|]. exists (pred (length l)).
    by rewrite <- last_lookup. }
  destruct Ej as (j & Hj & Hd). destruct (decide (i = j)) as [->|Hij]; [left; rewrite Hi in Hj; by injection Hj|]. right.
  destruct (Ha a0 k0) as (_ & F0 & _ & _ & [y Hy] & _); [by eapply list_elem_of_lookup_2|]. apply (on_sides d) in Hy as [Y1 Y2].
  unfold on_side in Y1, Y2. rewrite F0 in Y1, Y2.
  eapply (sat_beyond (fd p) d _ _ _ _ x y Hn Y1 Y2). rewrite <- F0. apply lookup_lt_Some in Hi as Li.
  destruct d; subst j; cbn in *.
  - apply (Ho 0%nat i (a0, k0) (a, k)); [lia|done|done|apply D].
  - intros L0. apply (Ho i (pred (length l)) (a, k) (a0, k0) ltac:(lia) Hi Hj x L0), D.
Qed.

Lemma chain_spec d lp n : forall g k f, graph_ok key g -> (depth g <= n)%nat -> has f (Z.lor (no d) (near d)) = false ->
  exists ks f', chain d n key k f lp g = Some (Z.of_nat (length ks), (k ++ concat ks, f'))
    /\ forall row, matches g row -> ahead key d ks f' (gpart g) row.
Proof.
  induction n as [|n IH]; intros g k f Hg Hd Hf; [destruct g; cbn in Hd; lia|].
  destruct Hg as [p l Hs Hne Ha Ho Hk]. rewrite has_mask in Hf. apply orb_false_iff in Hf as Hf'. destruct Hf' as [_ Hfn].
  destruct (end_of d (Graph KEY_RANGE p l)) as [[a0 k0]|] eqn:E0.
  2: { exfalso. destruct d; cbn in E0; unfold first, last in E0; cbn in E0; [by destruct l|]. by apply last_None in E0. }
  assert (Hin : (a0, k0) ∈ l).
  { destruct d; cbn in E0; unfold first, last in E0; cbn in E0; [by eapply list_elem_of_lookup_2|].
    rewrite last_lookup in E0. by eapply list_elem_of_lookup_2. }
  pose proof (Ha a0 k0 Hin) as Hok. cbn [chain]. rewrite E0. cbn [mbind option_bind].
  pose proof (store_end_spec d p a0 k f Hok Hs ltac:(by rewrite has_mask)) as St.
  destruct (has (flags d a0) (no d)) eqn:En.
  { rewrite St. cbn. exists [], f. rewrite app_nil_r. done. }
  destruct St as (w & -> & Vw). cbn [mbind option_bind Z.eqb].
  assert (Hside : forall row, matches (Graph KEY_RANGE p l) row ->
    sg d * vc (fd p) w (row p) < 0 \/ (sg d * vc (fd p) w (row p) + Z.b2z (has (flags d a0) (near d)) <= 0 /\ next_matches k0 row)).
  { intros row (a & k' & El & D & Nk)%matches_entry. rewrite Vw.
    destruct (end_entry d p l a0 k0 a k' (row p)) as [[-> ->]|]; try done; [|by left]. right. split; [|done].
    assert (F0 : field a0 = fd p) by apply Hok.
    apply (on_sides d) in D as [[D|D] _]; [congruence|by rewrite <- F0]. }
  assert (Hstop : forall row, matches (Graph KEY_RANGE p l) row -> ahead key d [w] (Z.lor f (flags d a0)) p row).
  { intros row M. cbn. rewrite has_lor, Hfn. cbn. pose proof (vc_range (fd p) w (row p)).
    destruct (Hside row M) as [|[S _]]; [by left|]. destruct (has (flags d a0) (near d)); cbn in S; [left; lia|].
    destruct (Z.eq_dec (vc (fd p) w (row p)) 0); [by right|left]. destruct d; cbn in *; lia. }
  assert (Hone : exists ks f', Some (1, (k ++ w, Z.lor f (flags d a0))) = Some (Z.of_nat (length ks), (k ++ concat ks, f'))
      /\ forall row, matches (Graph KEY_RANGE p l) row -> ahead key d ks f' p row).
  { exists [w], (Z.lor f (flags d a0)). split; [|done]. cbn. by rewrite app_nil_r. }
  destruct k0 as [nkp|]; [|exact Hone]. destruct (_ && negb (has _ _)) eqn:C; [|exact Hone].
  apply andb_prop in C as [[[Ct%bool_decide_eq_true_1 _]%andb_prop Cp%Z.eqb_eq]%andb_prop Cf%negb_true_iff].
  destruct (IH nkp (k ++ w) (Z.lor f (flags d a0))) as (ks & f' & -> & A); [by eapply Hk| |done|].
  { pose proof (depth_next KEY_RANGE p l a0 nkp Hin). lia. }
  exists (w :: ks), f'. split; [cbn [mbind option_bind length concat]; rewrite Nat2Z.inj_succ, <- app_assoc; do 2 f_equal; lia|].
  intros row M. cbn. destruct (Hside row M) as [|[S Nk]]; [by left|].
  assert (Hp : part a0 = p) by apply Hok. rewrite Hp in Cp. rewrite Cp in A.
  assert (B : 0 <= Z.b2z (has (flags d a0) (near d))) by (destruct (has (flags d a0) (near d)); cbn; lia).
  destruct (Z.eq_dec (vc (fd p) w (row p)) 0) as [Ev|]; [right; auto|left]. destruct d; cbn [sg] in *; lia.
Qed.

(** C10: In an index whose parts all have the same direction, whatever their fields
    are and whether or not they may be NULL, the two ends of a range bound the rows:
    the key that is stored for the start of the range - from the minima when the
    parts are ascending, from the maxima when they are descending - is not behind
    any row that the graph selects, the key for its end is not before any, and the
    search never reads outside of a value. *)
Theorem keys_bound_selected_rows (asc : bool) (last_part : Z) (n : nat) (g : graph) :
  (forall p, reversed key p = negb asc) -> graph_ok key g -> (depth g <= n)%nat ->
  exists lows lf highs hf,
    store_min_key n key [] 0 last_part asc g = Some (Z.of_nat (length lows), (concat lows, lf))
    /\ store_max_key n key [] 0 last_part (negb asc) g = Some (Z.of_nat (length highs), (concat highs, hf))
    /\ forall row, matches g row -> ahead key Lo lows lf (gpart g) row /\ ahead key Hi highs hf (gpart g) row.
Proof.
  intros Hd Hg Hn. destruct (store_keys_chain key asc n Hd [] 0 last_part g) as [E1 E2].
  destruct (chain_spec Lo last_part n g [] 0 Hg Hn eq_refl) as (lows & lf & C1 & A1).
  destruct (chain_spec Hi last_part n g [] 0 Hg Hn eq_refl) as (highs & hf & C2 & A2).
  exists lows, lf, highs, hf. rewrite E1, E2, C1, C2. auto.
Qed.

(** * Parts of both directions *)

(** The order of the index: positive when the key is behind the row. *)
Fixpoint index_cmp (ks : list (list Z)) (p : Z) (row : Z -> list Z) : Z :=
  match ks with
  | [] => 0
  | v :: ks =>
      let c := (if reversed key p then -1 else 1) * vc (fd p) v (row p) in
      if c =? 0 then index_cmp ks (p + 1) row else c
  end.

End bounds.
