(* ===== verification/RangeExamples.v ===== *)
(** Intervals and keys of the range optimizer on two fields of one byte, of which
    one may be NULL; an index with parts of both directions. *)
From S2P Require Import Prelude RangeArg RangeArgProps RangeKeys.
Open Scope Z_scope.

(** * Two fields *)

Definition byte_of_key (v : list Z) : Z := default 0 (v !! 0%nat).
Definition byte_key_cmp (a b : list Z) : Z := byte_of_key a - byte_of_key b.
(** NULL first, then by the byte. *)
Definition byte_value_cmp (nullable : bool) (a b : list Z) : Z :=
  if nullable then
    match is_null a, is_null b with
    | true, true => 0 | true, false => -1 | false, true => 1
    | false, false => byte_key_cmp (drop 1 a) (drop 1 b)
    end
  else byte_key_cmp a b.
Definition byte_sel_cmp (nullable : bool) (a b : list Z) (fa fb : Z) : Z :=
  if (inf fa =? 0) && (inf fb =? 0) then
    if Z.sgn (byte_value_cmp nullable a b) =? 0 then eps fa - eps fb else Z.sgn (byte_value_cmp nullable a b)
  else inf fa - inf fb.
Definition byte_field (nullable : bool) : Field := mkField nullable byte_key_cmp (byte_sel_cmp nullable).
#[local] Instance byte_field_lawful nullable : LawfulField (byte_field nullable).
Proof. split; cbn; unfold byte_key_cmp; intros; try lia. by destruct nullable. Qed.

(** The first part may be NULL, the others may not. *)
Definition field_of (p : Z) : Field := byte_field (p =? 0).
Definition null_value : list Z := [1; 0].
Definition byte_value (p n : Z) : list Z := if p =? 0 then [0; n] else [n].

Definition between (p lo_byte hi_byte : Z) : SEL_ARG := new_arg (field_of p) p (byte_value p lo_byte) (byte_value p hi_byte) 0 0 0.
Definition from (p lo_byte : Z) : SEL_ARG := new_arg (field_of p) p (byte_value p lo_byte) (byte_value p 0) 0 NO_MAX_RANGE 0.
Definition up_to (p hi_byte : Z) : SEL_ARG := new_arg (field_of p) p (byte_value p 0) (byte_value p hi_byte) NO_MIN_RANGE 0 0.
(** Greater than, and not NULL. *)
Definition above (p lo_byte : Z) : SEL_ARG := new_arg (field_of p) p (byte_value p lo_byte) (byte_value p 0) NEAR_MIN NO_MAX_RANGE 0.

Lemma flags_0 a : min_flag a ∈ [0; NO_MIN_RANGE; NEAR_MIN] -> max_flag a ∈ [0; NO_MAX_RANGE; NEAR_MAX] -> flags_ok a.
Proof. rewrite !elem_of_cons, !elem_of_nil. unfold flags_ok, flag_ok. cbn. tauto. Qed.

(** * Intervals *)

(** Above 3 and up to 9. *)
Example clone_and_3_9 : clone_and (above 0 3) (up_to 0 9)
  = new_arg (field_of 0) 0 (byte_value 0 3) (byte_value 0 9) NEAR_MIN 0 0.
Proof. reflexivity. Qed.

Lemma interval_operations_witness :
  flags_ok (above 0 3) /\ flags_ok (between 0 2 9) /\ denotes (clone_and (above 0 3) (between 0 2 9)) (byte_value 0 5)
  /\ denotes (clone_first (between 0 2 9) (above 0 3)) (byte_value 0 3).
Proof.
  assert (F1 : flags_ok (above 0 3)) by (apply flags_0; cbn; set_solver).
  assert (F2 : flags_ok (between 0 2 9)) by (apply flags_0; cbn; set_solver).
  split; [exact F1|]. split; [exact F2|]. split.
  - destruct (interval_operations_are_set_operations (above 0 3) (between 0 2 9) eq_refl (byte_value 0 5) F1 F2) as [A _].
    apply A. split; (split; [right; vm_compute; congruence|]); [left; reflexivity|right; vm_compute; congruence].
  - destruct (interval_operations_are_set_operations (between 0 2 9) (above 0 3) eq_refl (byte_value 0 3) F2 F1)
      as (_ & _ & _ & _ & _ & B & _).
    destruct (B eq_refl) as (B1 & _ & B2). apply B1. split; [right; vm_compute; congruence|].
    apply B2; reflexivity.
Defined.

(** [3, oo) extended by (-oo, 5] has all values, and [copy_min] does not say so. *)
Example full_range_not_reported :
  let r := copy_min (from 0 3) (up_to 0 5) in
  r.1 = false /\ has (min_flag r.2) NO_MIN_RANGE = true /\ has (max_flag r.2) NO_MAX_RANGE = true /\ forall x, denotes r.2 x.
Proof. cbn. split_and!; try reflexivity. intros x. split; left; reflexivity. Qed.

Example null_is_a_point : is_singlepoint (new_arg (field_of 0) 0 null_value null_value 0 0 0) = Some true.
Proof. reflexivity. Qed.

(** * Keys *)

Definition stored (p : Z) : Z := if p =? 0 then 2 else 1.
Definition ascending (p : Z) : KEY_PART := mkPart 0 (stored p) (field_of p).
(** The second part is descending. *)
Definition second_descending (p : Z) : KEY_PART :=
  mkPart (if p =? 1 then HA_REVERSE_SORT else 0) (stored p) (field_of p).

(** The first part is 3 or at least 7, and after 3 the second is between 1 and 10. *)
Definition two_parts : graph :=
  Graph KEY_RANGE 0 [(between 0 3 3, Some (Graph KEY_RANGE 1 [(between 1 1 10, None)])); (from 0 7, None)].
Definition row_3_7 (p : Z) : list Z := if p =? 0 then byte_value 0 3 else byte_value 1 7.

Example two_parts_keys :
  store_min_key 2 ascending [] 0 255 true two_parts = Some (2, ([0; 3; 1], 0))
  /\ store_max_key 2 ascending [] 0 255 false two_parts = Some (0, ([], 0)).
Proof. split; reflexivity. Qed.

Lemma row_3_7_matches : matches two_parts row_3_7.
Proof.
  left. split; [split; right; vm_compute; congruence|]. left. split; [|exact I]. split; right; vm_compute; congruence.
Qed.

Lemma vc_byte p a b : vc (field_of p) (byte_value p a) (byte_value p b) = Z.sgn (a - b).
Proof. unfold field_of, byte_value. by destruct (p =? 0). Qed.
Lemma byte_value_length p n : Z.of_nat (length (byte_value p n)) = stored p.
Proof. unfold byte_value, stored. by destruct (p =? 0). Qed.

Section index.
Context (key : Z -> KEY_PART) (Hkey : forall p, key_field (key p) = field_of p /\ store_length (key p) = stored p).

Lemma between_ok p a b : a <= b -> arg_ok key p (between p a b).
Proof using Hkey.
  intros Hab. unfold arg_ok. destruct (Hkey p) as [-> ->]. split; [reflexivity|]. split; [reflexivity|].
  split; [apply flags_0; cbn; set_solver|]. split; [reflexivity|].
  split; [|split; apply byte_value_length]. exists (byte_value p a).
  split; right; cbn [between new_arg field min_value max_value min_flag max_flag]; rewrite vc_byte; eval_has; lia.
Qed.
Lemma from_ok p a : arg_ok key p (from p a).
Proof using Hkey.
  unfold arg_ok. destruct (Hkey p) as [-> ->]. split; [reflexivity|]. split; [reflexivity|].
  split; [apply flags_0; cbn; set_solver|]. split; [reflexivity|].
  split; [|split; apply byte_value_length]. exists (byte_value p a). split; [right|left; reflexivity].
  cbn [from new_arg field min_value min_flag]. rewrite vc_byte. eval_has. lia.
Qed.
Lemma single_in_order a : in_order [a].
Proof. intros [|i] [|j] b c Hij Hi Hj; cbn in *; first [lia|discriminate]. Qed.

Lemma two_parts_ok : graph_ok key two_parts.
Proof using Hkey.
  constructor; [destruct (Hkey 0) as [_ ->]; vm_compute; congruence|done| | |].
  - intros a k. rewrite !elem_of_cons, elem_of_nil. intros [[= -> ->]|[[= -> ->]|[]]]; [by apply between_ok|by apply from_ok].
  - intros [|[|i]] [|[|j]] a b Hij Hi Hj; cbn in *; try lia; try discriminate. injection Hi as <-. injection Hj as <-. cbn.
    intros x [L|L] [R|R]; try discriminate. cbn [from between new_arg fst field min_value max_value min_flag max_flag] in *.
    unfold vc, value_cmp in *. eval_has. cbn in *. destruct (is_null x); cbn in *; [lia|]. unfold byte_key_cmp, byte_of_key in *. cbn in *. lia.
  - intros a g. rewrite !elem_of_cons, elem_of_nil. intros [[= -> ->]|[[=]|[]]] _.
    constructor; [destruct (Hkey 1) as [_ ->]; vm_compute; congruence|done| |apply single_in_order|].
    + intros a k. rewrite elem_of_cons, elem_of_nil. intros [[= -> ->]|[]]. by apply between_ok.
    + intros a g. rewrite elem_of_cons, elem_of_nil. by intros [[=]|[]].
Qed.
End index.

Lemma keys_bound_witness : exists lows lf highs hf,
    store_min_key 2 ascending [] 0 255 true two_parts = Some (Z.of_nat (length lows), (concat lows, lf))
    /\ store_max_key 2 ascending [] 0 255 false two_parts = Some (Z.of_nat (length highs), (concat highs, hf))
    /\ ahead ascending Lo lows lf 0 row_3_7 /\ ahead ascending Hi highs hf 0 row_3_7.
Proof.
  destruct (keys_bound_selected_rows (Hfields := fun p => byte_field_lawful (p =? 0)) ascending true 255 2 two_parts)
    as (lows & lf & highs & hf & E1 & E2 & A).
  - reflexivity.
  - apply two_parts_ok. by intros.
  - cbn. lia.
  - exists lows, lf, highs, hf. split; [exact E1|]. split; [exact E2|]. exact (A row_3_7 row_3_7_matches).
Defined.

