(* ===== verification/Win32Api.v ===== *)
(** What the Windows runner sees of the system and of the Flutter embedder.

    Neither is part of the repository, so both are a parameter, [OS]: asked
    with the whole history of the run, it says which callback to make next
    while a call is in progress ([next]) and what the call returns ([answer]).
    The runner's code is written against the [System] interface, a function
    that performs one call; because a call may send messages back to the window
    procedure before it returns, the interface is implemented (in Runner.v) by
    a loop that lets the system make its callbacks. *)
From stdpp Require Export strings.
From S2P Require Import Prelude.
Open Scope Z_scope.

(** * Data of the system *)

Record RECT := mkRECT { left : Z; top : Z; right : Z; bottom : Z }.

(** An [LPARAM] is a number or the address of a structure of the system. *)
Inductive LPARAM :=
| Lvalue (z : Z)
| Lcreatestruct (lpCreateParams : Z)
| Lrect (r : RECT).

Record MSG := mkMSG { hwnd : Z; message : Z; wParam : Z; lParam : LPARAM }.

Record DartProject := mkProject {
  assets_path : string;
  dart_entrypoint_arguments : list (list Z) }.

Definition WM_DESTROY : Z := 0x2.
Definition WM_SIZE : Z := 0x5.
Definition WM_ACTIVATE : Z := 0x6.
Definition WM_FONTCHANGE : Z := 0x1D.
Definition WM_NCCREATE : Z := 0x81.
Definition WM_DPICHANGED : Z := 0x2E0.
Definition WM_DWMCOLORIZATIONCOLORCHANGED : Z := 0x320.

Definition GWLP_USERDATA : Z := -21.
Definition CS_VREDRAW : Z := 0x1.
Definition CS_HREDRAW : Z := 0x2.
Definition WS_OVERLAPPEDWINDOW : Z := 0xCF0000.
Definition SW_SHOWNORMAL : Z := 1.
Definition SWP_NOZORDER : Z := 0x4.
Definition SWP_NOACTIVATE : Z := 0x10.
Definition MONITOR_DEFAULTTONEAREST : Z := 2.
Definition IDC_ARROW : Z := 32512.
Definition ERROR_SUCCESS : Z := 0.
Definition ATTACH_PARENT_PROCESS : Z := 0xFFFFFFFF.
Definition COINIT_APARTMENTTHREADED : Z := 2.
Definition EXIT_SUCCESS : Z := 0.
Definition EXIT_FAILURE : Z := 1.

Record WNDCLASS := mkWNDCLASS {
  style : Z; cbClsExtra : Z; cbWndExtra : Z; hInstance : Z; hIcon : Z;
  hCursor : Z; hbrBackground : Z; lpszMenuName : Z; lpszClassName : string }.

(** * Calls *)

(** One constructor per function the runner calls.  The window procedure of a
    [WNDCLASS] is always [Win32Window::WndProc] and is left out.  The last
    argument of [CreateWindow] is [lpParam]; [ControllerNew], [ControllerDelete]
    are the constructor and destructor of [flutter::FlutterViewController]. *)
Inductive call :=
| LoadLibraryA (name : string)
| GetProcAddress (module : Z) (name : string)
| EnableNonClientDpiScaling (fn window : Z)
| FreeLibrary (module : Z)
| LoadCursor (inst cursor : Z)
| LoadIcon (inst icon : Z)
| GetModuleHandle (name : Z)
| RegisterClass (c : WNDCLASS)
| UnregisterClass (name : string) (inst : Z)
| MonitorFromPoint (x y flags : Z)
| FlutterDesktopGetDpiForMonitor (monitor : Z)
| CreateWindow (class title : string) (style x y width height parent menu inst param : Z)
| DestroyWindow (window : Z)
| ShowWindow (window cmd : Z)
| SetWindowLongPtr (window index value : Z)
| GetWindowLongPtr (window index : Z)
| DefWindowProc (window msg wparam : Z) (lparam : LPARAM)
| PostQuitMessage (code : Z)
| SetWindowPos (window after x y width height flags : Z)
| GetClientRect (window : Z)
| MoveWindow (window x y width height repaint : Z)
| SetFocus (window : Z)
| SetParent (child parent : Z)
| RegGetValue (key value : string)
| DwmSetWindowAttribute (window attribute value : Z)
| ControllerNew (width height : Z) (project : DartProject)
| ControllerDelete (controller : Z)
| ControllerEngine (controller : Z)
| ControllerView (controller : Z)
| ControllerForceRedraw (controller : Z)
| ControllerHandleTopLevelWindowProc (controller window msg wparam : Z) (lparam : LPARAM)
| ViewGetNativeWindow (view : Z)
| EngineReloadSystemFonts (engine : Z)
| EngineSetNextFrameCallback (engine this : Z)
| GetRegistrarForPlugin (registry : Z) (name : string)
| RegisterWithRegistrar (plugin : string) (registrar : Z)
| AttachConsole (pid : Z)
| IsDebuggerPresent
| AllocConsole
| Freopen_s (name mode : string) (stream : Z)
| Fileno (stream : Z)
| Dup2 (fd1 fd2 : Z)
| SyncWithStdio
| FlutterDesktopResyncOutputStreams
| CoInitializeEx (reserved flags : Z)
| CoUninitialize
| CommandLineToArgvW
| LocalFreeArgv
| GetMessage
| TranslateMessage (m : MSG)
| DispatchMessage (m : MSG).

(** The type of a call's result: a handle, pointer, count or BOOL, except for
    the calls that fill a structure. *)
Definition ans (c : call) : Type :=
  match c with
  | GetClientRect _ => RECT
  | RegGetValue _ _ => Z * Z
  | ControllerHandleTopLevelWindowProc _ _ _ _ _ => option Z
  | CommandLineToArgvW => option (list (list Z))
  | GetMessage => Z * MSG
  | _ => Z
  end.

(** * Runs *)

(** A callback of the system: a message for the window procedure, or the
    next-frame callback an object has registered. *)
Inductive delivery :=
| DMessage (m : MSG)
| DNextFrame (this : Z).

(** What happens in a run: a call, a callback, the value the window procedure
    returns, and the return of a call. *)
Inductive event :=
| ECall (c : call)
| EDeliver (d : delivery)
| EResult (r : Z)
| EReturn (c : call).

(** The history of a run, the latest event first. *)
Abbreviation history := (list event).

Class OS := {
  next : history -> call -> option delivery;
  answer : history -> forall c : call, ans c }.
