(* ===== verification/RunnerUtils.v ===== *)
(** utils.cpp of the Windows runner: UTF-16 to UTF-8 conversion.

    A [wchar_t*] is absent or the code units before the terminator.  The
    conversion function of the system, the largest size of a [std::string] and
    whether an allocation succeeds are parameters. *)
From S2P Require Import Prelude Win32Api.
Open Scope Z_scope.

Class Strings := {
  (** [WideCharToMultiByte s cchWideChar cbMultiByte], for code page UTF-8 and
      WC_ERR_INVALID_CHARS: the returned count and the bytes written. *)
  WideCharToMultiByte : list Z -> Z -> Z -> Z * list Z;
  max_size : Z;
  can_allocate : Z -> bool }.

Abbreviation lenZ l := (Z.of_nat (length l)).

(** Write bytes over the start of a buffer. *)
Definition overwrite (bytes buffer : list Z) : list Z :=
  bytes ++ drop (length bytes) buffer.

Section Utf8.
Context `{Strings}.

(** [None]: [resize] has thrown [std::bad_alloc]. *)
Definition Utf8FromUtf16 (utf16_string : option (list Z)) : option (list Z) :=
  match utf16_string with
  | None => Some []
  | Some s =>
    let target_length := u32 (fst (WideCharToMultiByte s (-1) 0) - 1) in
    let input_length := s32 (lenZ s) in
    if (target_length =? 0) || (target_length >? max_size) then Some []
    else if can_allocate target_length then
      let utf8_string := replicate (Z.to_nat target_length) 0 in
      let '(converted_length, bytes) :=
        WideCharToMultiByte s input_length (s32 target_length) in
      if converted_length =? 0 then Some [] else Some (overwrite bytes utf8_string)
    else None
  end.

(** The loop of [GetCommandLineArguments], from [argv[1]]. *)
Fixpoint convert_arguments (argv : list (list Z)) : option (list (list Z)) :=
  match argv with
  | [] => Some []
  | a :: rest =>
    match Utf8FromUtf16 (Some a) with
    | None => None
    | Some x => match convert_arguments rest with
                | None => None
                | Some r => Some (x :: r)
                end
    end
  end.
End Utf8.

(** * What the conversion promises *)

(** The documented behaviour of the system's conversion with respect to an
    encoding [utf8] of code unit sequences ([None]: not valid UTF-16):
    asked for a size (no buffer) for a terminated string it counts the
    terminator; it writes the encoding when the buffer is large enough; on an
    invalid string or an invalid buffer size it returns 0. *)
Class LawfulStrings `{Strings} (utf8 : list Z -> option (list Z)) : Prop := {
  convert_size s b : utf8 s = Some b -> lenZ b < 2 ^ 31 - 1 ->
    fst (WideCharToMultiByte s (-1) 0) = lenZ b + 1;
  convert_write s b n : utf8 s = Some b -> n = lenZ b -> s <> [] -> n < 2 ^ 31 ->
    WideCharToMultiByte s (lenZ s) n = (n, b);
  convert_invalid s c n : utf8 s = None -> fst (WideCharToMultiByte s c n) = 0;
  utf8_empty : utf8 [] = Some [];
  utf8_nonempty s b : utf8 s = Some b -> s <> [] -> b <> [];
  max_size_large : 2 ^ 31 <= max_size }.

Section Conversion.
Context `{HS : Strings} (utf8 : list Z -> option (list Z)) {HL : LawfulStrings utf8}.

Lemma Utf8FromUtf16_valid s b :
  utf8 s = Some b -> lenZ b < 2 ^ 31 - 1 -> lenZ s < 2 ^ 31 ->
  can_allocate (lenZ b) = true -> Utf8FromUtf16 (Some s) = Some b.
Proof.
  intros Hu Hb Hs Ha. unfold Utf8FromUtf16. rewrite (convert_size s b Hu Hb).
  replace (u32 (lenZ b + 1 - 1)) with (lenZ b)
    by (rewrite wrap_small; [lia|unfold in_u; lia]).
  destruct (decide (s = [])) as [->|Hne].
  { rewrite utf8_empty in Hu. simplify_eq. done. }
  pose proof (utf8_nonempty s b Hu Hne) as Hb0. pose proof max_size_large.
  destruct (Z.eqb_spec (lenZ b) 0); [by destruct b|].
  destruct (Z.gtb_spec (lenZ b) max_size); [lia|]. cbn [orb]. rewrite Ha.
  rewrite !swrap_small by (unfold in_s; lia).
  rewrite (convert_write s b (lenZ b) Hu eq_refl Hne) by lia.
  destruct (Z.eqb_spec (lenZ b) 0); [lia|]. unfold overwrite.
  by rewrite drop_ge, app_nil_r by (rewrite length_replicate; lia).
Qed.

(** A string that is not valid UTF-16 has target length [0 - 1]. *)
Lemma Utf8FromUtf16_invalid s :
  utf8 s = None ->
  Utf8FromUtf16 (Some s) =
    if 2 ^ 32 - 1 >? max_size then Some []
    else if can_allocate (2 ^ 32 - 1) then Some [] else None.
Proof.
  intros Hu. unfold Utf8FromUtf16. rewrite (convert_invalid s (-1) 0 Hu).
  replace (u32 (0 - 1)) with (2 ^ 32 - 1) by reflexivity.
  destruct (Z.gtb_spec (2 ^ 32 - 1) max_size); [done|].
  destruct (can_allocate (2 ^ 32 - 1)); [|done]. cbn [orb Z.eqb].
  pose proof (convert_invalid s (s32 (lenZ s)) (s32 (2 ^ 32 - 1)) Hu) as Hc.
  by destruct (WideCharToMultiByte _ _ _); cbn in Hc; subst.
Qed.
End Conversion.

(** * Command line arguments *)

(** On a conversion with its documented behaviour, the arguments after the
    program name that are valid UTF-16 are converted one by one and in order to
    their UTF-8 encoding.  An argument that is not valid UTF-16 is converted to
    the empty string only when a 4 GiB string can be allocated: the error
    result 0 of the system becomes the length 2^32 - 1, and otherwise the
    conversion of the whole command line ends in [std::bad_alloc]. *)
Theorem convert_arguments_spec `{HS : Strings} (utf8 : list Z -> option (list Z))
    (HL : LawfulStrings utf8) (argv : list (list Z)) (out : list (list Z)) (bad : list Z) :
  Forall2 (fun a b => utf8 a = Some b /\ lenZ b < 2 ^ 31 - 1 /\ lenZ a < 2 ^ 31 /\
                      can_allocate (lenZ b) = true) argv out ->
  utf8 bad = None -> 2 ^ 32 <= max_size ->
  convert_arguments argv = Some out /\
  convert_arguments (argv ++ [bad]) =
    if can_allocate (2 ^ 32 - 1) then Some (out ++ [[]]) else None.
Proof.
  intros HF Hbad Hmax. induction HF as [|a b argv out (Hu & Hb & Ha & Hal) _ [IH1 IH2]].
  - split; [done|]. cbn [app convert_arguments].
    rewrite (Utf8FromUtf16_invalid utf8 bad Hbad).
    destruct (Z.gtb_spec (2 ^ 32 - 1) max_size); [lia|]. by destruct (can_allocate _).
  - cbn [app convert_arguments].
    rewrite (Utf8FromUtf16_valid utf8 a b Hu Hb Ha Hal), IH1, IH2.
    split; [done|]. by destruct (can_allocate (2 ^ 32 - 1)).
Qed.

(** ** A concrete conversion *)

Definition encode_code_point (c : Z) : list Z :=
  if c <? 0x80 then [c]
  else if c <? 0x800 then [0xC0 + c / 0x40; 0x80 + c mod 0x40]
  else if c <? 0x10000 then [0xE0 + c / 0x1000; 0x80 + c / 0x40 mod 0x40; 0x80 + c mod 0x40]
  else [0xF0 + c / 0x40000; 0x80 + c / 0x1000 mod 0x40; 0x80 + c / 0x40 mod 0x40; 0x80 + c mod 0x40].

Definition high_surrogate (u : Z) : bool := (0xD800 <=? u) && (u <? 0xDC00).
Definition low_surrogate (u : Z) : bool := (0xDC00 <=? u) && (u <? 0xE000).

Fixpoint encode_units (high : option Z) (s : list Z) : option (list Z) :=
  match high, s with
  | None, [] => Some []
  | Some _, [] => None
  | None, u :: r =>
    if high_surrogate u then encode_units (Some u) r
    else if low_surrogate u then None
    else option_map (app (encode_code_point u)) (encode_units None r)
  | Some h, u :: r =>
    if low_surrogate u then
      option_map (app (encode_code_point (0x10000 + (h - 0xD800) * 0x400 + (u - 0xDC00))))
        (encode_units None r)
    else None
  end.

Definition encode (s : list Z) : option (list Z) := encode_units None s.

#[export] Instance concrete_strings : Strings := {
  WideCharToMultiByte s c n :=
    match encode s with
    | None => (0, [])
    | Some b =>
      let size := if c =? -1 then lenZ b + 1 else lenZ b in
      if n =? 0 then (size, [])
      else if size <=? n then (size, b) else (0, [])
    end;
  max_size := 2 ^ 63 - 1;
  can_allocate n := n <? 2 ^ 31 }.

Lemma encode_code_point_nonempty c : encode_code_point c <> [].
Proof. unfold encode_code_point. intros E. repeat case_match; discriminate. Qed.

Lemma encode_units_nonempty s : forall high b,
  encode_units high s = Some b -> (high, s) <> (None, []) -> b <> [].
Proof.
  induction s as [|u s IH]; intros [h|] b; cbn; intros E Hs; [done|done| |];
    repeat case_match; simplify_eq; try (by apply (IH _ _ E));
    apply fmap_Some in E as (r & _ & ->); intros [E _]%app_nil;
    by apply encode_code_point_nonempty in E.
Qed.

Lemma encode_nonempty s b : encode s = Some b -> s <> [] -> b <> [].
Proof. intros E Hs. apply (encode_units_nonempty _ _ _ E). congruence. Qed.

#[export] Instance concrete_lawful : LawfulStrings encode.
Proof.
  split; cbn -[encode].
  - intros s b -> _. done.
  - intros s b n E -> Hs _. rewrite E. pose proof (encode_nonempty s b E Hs).
    destruct (Z.eqb_spec (lenZ s) (-1)); [lia|].
    destruct (Z.eqb_spec (lenZ b) 0); [by destruct b|]. by rewrite Z.leb_refl.
  - by intros s c n ->.
  - done.
  - apply encode_nonempty.
  - done.
Qed.

(** "a", "é€", a surrogate pair; then a lone surrogate. *)
Lemma convert_arguments_witness :
  convert_arguments [[0x61]; [0xE9; 0x20AC]; [0xD83D; 0xDE00]] =
    Some [[0x61]; [0xC3; 0xA9; 0xE2; 0x82; 0xAC]; [0xF0; 0x9F; 0x98; 0x80]] /\
  convert_arguments ([[0x61]; [0xE9; 0x20AC]; [0xD83D; 0xDE00]] ++ [[0xD800]]) = None.
Proof.
  exact (convert_arguments_spec encode concrete_lawful
           [[0x61]; [0xE9; 0x20AC]; [0xD83D; 0xDE00]]
           [[0x61]; [0xC3; 0xA9; 0xE2; 0x82; 0xAC]; [0xF0; 0x9F; 0x98; 0x80]] [0xD800]
           ltac:(repeat constructor) eq_refl ltac:(discriminate)).
Defined.
