(* ===== verification/Runner.v ===== *)
(** The Windows runner: win32_window.cpp, flutter_window.cpp, utils.cpp,
    main.cpp and the plugin registrant.

    The state is the globals, the window objects that exist, by address, and
    the history of the run.  An operation of the code is a computation in the
    monad [R]; it ends normally, is undefined (for one of the reasons of
    [fault]), ends the process with an uncaught exception, or exhausts the fuel
    of the callback loop.  All of the code is
    written against [call], the interface of Win32Api.v; [pump] at the end
    implements it. *)
From Stdlib Require Import SpecFloat.
From S2P Require Import Prelude Win32Api RunnerUtils.
Open Scope Z_scope.
Open Scope cint_scope.

(** * State *)

(** The class whose virtual functions a call on the object reaches: during
    [~Win32Window] it is the base class. *)
Inductive dynamic := dWin32Window | dFlutterWindow.

#[export] Instance dynamic_eq_dec : EqDecision dynamic.
Proof. solve_decision. Defined.

(** The members of a [Win32Window] and, after them, those of [FlutterWindow];
    a null handle or pointer is 0. *)
Record Window := mkWindow {
  dynamic_type : dynamic;
  quit_on_close_ : bool;
  window_handle_ : Z;
  child_content_ : Z;
  project_ : DartProject;
  flutter_controller_ : Z }.

Record state := mkState {
  g_active_window_count : Z;
  instance_ : option bool;   (* the registrar's class_registered_ *)
  objects : gmap Z Window;
  log : history }.

(** Why an execution is undefined: a member of an object that does not exist,
    a call through a null [flutter_controller_], an overflow of the window
    count, a message whose parameter is not the structure the handler casts it
    to, or a constructor at the address of a living object. *)
Inductive fault := NoObject | NullController | CountOverflow | WrongParameter | LiveObject.

Inductive outcome (A : Type) :=
| Ok (x : A) (s : state)
| Undefined (why : fault) (s : state)
| Terminated
| NoFuel.
Arguments Ok {A}. Arguments Undefined {A}. Arguments Terminated {A}. Arguments NoFuel {A}.

Definition R (A : Type) : Type := state -> outcome A.

Definition ret {A} (x : A) : R A := fun s => Ok x s.
Definition bind {A B} (c : R A) (f : A -> R B) : R B := fun s =>
  match c s with
  | Ok x s' => f x s'
  | Undefined why s' => Undefined why s'
  | Terminated => Terminated
  | NoFuel => NoFuel
  end.

Declare Scope run_scope.
Notation "'let*' x := c 'in' k" := (bind c (fun x => k))
  (at level 200, x name, c at level 100, k at level 200) : run_scope.
Notation "c ;;; k" := (bind c (fun _ => k))
  (at level 100, k at level 200, right associativity) : run_scope.
Open Scope run_scope.

Definition undefined {A} (why : fault) : R A := fun s => Undefined why s.
Definition terminate {A} : R A := fun _ => Terminated.

Definition with_count (n : Z) (s : state) :=
  mkState n (instance_ s) (objects s) (log s).
Definition with_instance (i : option bool) (s : state) :=
  mkState (g_active_window_count s) i (objects s) (log s).
Definition with_objects (o : gmap Z Window) (s : state) :=
  mkState (g_active_window_count s) (instance_ s) o (log s).
Definition with_log (l : history) (s : state) :=
  mkState (g_active_window_count s) (instance_ s) (objects s) l.

Definition get : R state := fun s => Ok s s.
Definition modify (f : state -> state) : R unit := fun s => Ok tt (f s).
Definition emit (e : event) : R unit := modify (fun s => with_log (e :: log s) s).

(** The members of the object at an address. *)
Definition self (this : Z) : R Window := fun s =>
  match objects s !! this with Some w => Ok w s | None => Undefined NoObject s end.
Definition assign (this : Z) (f : Window -> Window) : R unit := fun s =>
  match objects s !! this with
  | Some w => Ok tt (with_objects (<[this := f w]> (objects s)) s)
  | None => Undefined NoObject s
  end.

Definition set_dynamic d w := mkWindow d (quit_on_close_ w) (window_handle_ w)
  (child_content_ w) (project_ w) (flutter_controller_ w).
Definition set_quit q w := mkWindow (dynamic_type w) q (window_handle_ w)
  (child_content_ w) (project_ w) (flutter_controller_ w).
Definition set_handle h w := mkWindow (dynamic_type w) (quit_on_close_ w) h
  (child_content_ w) (project_ w) (flutter_controller_ w).
Definition set_child c w := mkWindow (dynamic_type w) (quit_on_close_ w) (window_handle_ w)
  c (project_ w) (flutter_controller_ w).
Definition set_controller c w := mkWindow (dynamic_type w) (quit_on_close_ w) (window_handle_ w)
  (child_content_ w) (project_ w) c.

(** * Doubles *)

Definition double_of_int (z : Z) : spec_float := binary_normalize 53 1024 z 0 false.

(** [static_cast<int>] of a finite double truncates towards zero. *)
Definition int_of_double (d : spec_float) : Z :=
  match d with
  | S754_finite s m e => let a := Z.shiftl (Zpos m) e in if s then - a else a
  | _ => 0
  end.

Definition Scale (source : Z) (scale_factor : spec_float) : Z :=
  int_of_double (SFmul 53 1024 (double_of_int source) scale_factor).

Record Point := mkPoint { x : Z; y : Z }.
Record Size := mkSize { width : Z; height : Z }.

Definition kWindowClassName : string := "FLUTTER_RUNNER_WIN32_WINDOW".
Definition kGetPreferredBrightnessRegKey : string :=
  "Software\Microsoft\Windows\CurrentVersion\Themes\Personalize".
Definition kGetPreferredBrightnessRegValue : string := "AppsUseLightTheme".
Definition DWMWA_USE_IMMERSIVE_DARK_MODE : Z := 20.
Definition IDI_APP_ICON : Z := 101.

(** * The code *)

Class System := call : forall c : Win32Api.call, R (ans c).

Section Code.
Context `{System}.

Definition EnableFullDpiSupportIfAvailable (hwnd : Z) : R unit :=
  let* user32_module := call (LoadLibraryA "User32.dll") in
  if user32_module =? 0 then ret tt
  else
    let* enable_non_client_dpi_scaling :=
      call (GetProcAddress user32_module "EnableNonClientDpiScaling") in
    (if enable_non_client_dpi_scaling =? 0 then ret 0
     else call (EnableNonClientDpiScaling enable_non_client_dpi_scaling hwnd)) ;;;
    call (FreeLibrary user32_module) ;;;
    ret tt.

(** ** WindowClassRegistrar *)

Definition GetInstance : R bool :=
  let* s := get in
  match instance_ s with
  | None => modify (with_instance (Some false)) ;;; ret false
  | Some class_registered_ => ret class_registered_
  end.

Definition GetWindowClass : R string :=
  let* class_registered_ := GetInstance in
  (if class_registered_ then ret tt
   else
     let* cursor := call (LoadCursor 0 IDC_ARROW) in
     let* inst := call (GetModuleHandle 0) in
     let* icon := call (LoadIcon inst IDI_APP_ICON) in
     call (RegisterClass {| style := CS_HREDRAW .| CS_VREDRAW; cbClsExtra := 0;
       cbWndExtra := 0; hInstance := inst; hIcon := icon; hCursor := cursor;
       hbrBackground := 0; lpszMenuName := 0; lpszClassName := kWindowClassName |}) ;;;
     modify (with_instance (Some true))) ;;;
  ret kWindowClassName.

Definition UnregisterWindowClass : R unit :=
  GetInstance ;;;
  call (UnregisterClass kWindowClassName 0) ;;;
  modify (with_instance (Some false)).

(** ** Win32Window *)

Definition GetHandle (this : Z) : R Z :=
  let* w := self this in ret (window_handle_ w).

Definition SetQuitOnClose (this : Z) (quit_on_close : bool) : R unit :=
  assign this (set_quit quit_on_close).

Definition GetClientArea (this : Z) : R RECT :=
  let* w := self this in call (GetClientRect (window_handle_ w)).

Definition Show (this : Z) : R bool :=
  let* w := self this in
  let* b := call (ShowWindow (window_handle_ w) SW_SHOWNORMAL) in
  ret (truth b).

Definition SetChildContent (this content : Z) : R unit :=
  assign this (set_child content) ;;;
  let* w := self this in
  call (SetParent content (window_handle_ w)) ;;;
  let* frame := GetClientArea this in
  call (MoveWindow content (left frame) (top frame) (s32 (right frame - left frame))
          (s32 (bottom frame - top frame)) 1) ;;;
  let* w := self this in
  call (SetFocus (child_content_ w)) ;;;
  ret tt.

Definition UpdateTheme (window : Z) : R unit :=
  let* r := call (RegGetValue kGetPreferredBrightnessRegKey kGetPreferredBrightnessRegValue) in
  let '(result, light_mode) := r in
  if result =? ERROR_SUCCESS then
    let enable_dark_mode := if light_mode =? 0 then 1 else 0 in
    call (DwmSetWindowAttribute window DWMWA_USE_IMMERSIVE_DARK_MODE enable_dark_mode) ;;;
    ret tt
  else ret tt.

Definition Win32Window_OnCreate : R bool := ret true.
Definition Win32Window_OnDestroy : R unit := ret tt.

(** ** FlutterWindow: the overridden callbacks *)

(** generated_plugin_registrant.cc. *)
Definition RegisterPlugins (registry : Z) : R unit :=
  let* r := call (GetRegistrarForPlugin registry "FlutterSecureStorageWindowsPlugin") in
  call (RegisterWithRegistrar "FlutterSecureStorageWindowsPlugin" r) ;;;
  let* r := call (GetRegistrarForPlugin registry "UrlLauncherWindows") in
  call (RegisterWithRegistrar "UrlLauncherWindows" r) ;;;
  ret tt.

(** The pointee of [flutter_controller_->]. *)
Definition controller (this : Z) : R Z :=
  let* w := self this in
  if flutter_controller_ w =? 0 then undefined NullController else ret (flutter_controller_ w).

(** [flutter_controller_ = p] : the old pointee is deleted after the
    assignment. *)
Definition reset_controller (this p : Z) : R unit :=
  let* w := self this in
  assign this (set_controller p) ;;;
  (if flutter_controller_ w =? 0 then ret tt
   else call (ControllerDelete (flutter_controller_ w)) ;;; ret tt).

Definition FlutterWindow_OnCreate (this : Z) : R bool :=
  let* b := Win32Window_OnCreate in
  if negb b then ret false
  else
    let* frame := GetClientArea this in
    let* w := self this in
    let* p := call (ControllerNew (s32 (right frame - left frame))
                      (s32 (bottom frame - top frame)) (project_ w)) in
    reset_controller this p ;;;
    let* c := controller this in
    let* engine := call (ControllerEngine c) in
    if engine =? 0 then ret false
    else
      let* c := controller this in
      let* view := call (ControllerView c) in
      if view =? 0 then ret false
      else
        let* c := controller this in
        let* engine := call (ControllerEngine c) in
        RegisterPlugins engine ;;;
        let* c := controller this in
        let* view := call (ControllerView c) in
        let* native := call (ViewGetNativeWindow view) in
        SetChildContent this native ;;;
        let* c := controller this in
        let* engine := call (ControllerEngine c) in
        call (EngineSetNextFrameCallback engine this) ;;;
        let* c := controller this in
        call (ControllerForceRedraw c) ;;;
        ret true.

Definition FlutterWindow_OnDestroy (this : Z) : R unit :=
  let* w := self this in
  (if flutter_controller_ w =? 0 then ret tt else reset_controller this 0) ;;;
  Win32Window_OnDestroy.

(** ** Virtual calls and destruction *)

Definition OnCreate (this : Z) : R bool :=
  let* w := self this in
  match dynamic_type w with
  | dWin32Window => Win32Window_OnCreate
  | dFlutterWindow => FlutterWindow_OnCreate this
  end.

Definition OnDestroy (this : Z) : R unit :=
  let* w := self this in
  match dynamic_type w with
  | dWin32Window => Win32Window_OnDestroy
  | dFlutterWindow => FlutterWindow_OnDestroy this
  end.

Definition Destroy (this : Z) : R unit :=
  OnDestroy this ;;;
  let* w := self this in
  (if window_handle_ w =? 0 then ret tt
   else call (DestroyWindow (window_handle_ w)) ;;; assign this (set_handle 0)) ;;;
  let* s := get in
  if g_active_window_count s =? 0 then UnregisterWindowClass else ret tt.

(** [++] and [--] of an [int]. *)
Definition INT_MAX : Z := 2 ^ 31 - 1.
Definition INT_MIN : Z := - 2 ^ 31.
Definition increment_count : R unit :=
  let* s := get in
  if g_active_window_count s =? INT_MAX then undefined CountOverflow
  else modify (with_count (g_active_window_count s + 1)).
Definition decrement_count : R unit :=
  let* s := get in
  if g_active_window_count s =? INT_MIN then undefined CountOverflow
  else modify (with_count (g_active_window_count s - 1)).

Definition Win32Window_new (this : Z) (project : DartProject) : R unit :=
  let* s := get in
  match objects s !! this with
  | Some _ => undefined LiveObject
  | None =>
    modify (with_objects (<[this := mkWindow dWin32Window false 0 0 project 0]> (objects s))) ;;;
    increment_count
  end.

Definition FlutterWindow_new (this : Z) (project : DartProject) : R unit :=
  Win32Window_new this project ;;; assign this (set_dynamic dFlutterWindow).

Definition Win32Window_delete (this : Z) : R unit :=
  assign this (set_dynamic dWin32Window) ;;;
  decrement_count ;;;
  Destroy this ;;;
  modify (fun s => with_objects (base.delete this (objects s)) s).

(** [~FlutterWindow]: the empty body, the members, then the base class. *)
Definition FlutterWindow_delete (this : Z) : R unit :=
  let* w := self this in
  (if flutter_controller_ w =? 0 then ret tt
   else call (ControllerDelete (flutter_controller_ w)) ;;; ret tt) ;;;
  Win32Window_delete this.

Definition Create (this : Z) (title : string) (origin : Point) (size : Size) : R bool :=
  Destroy this ;;;
  let* window_class := GetWindowClass in
  let* monitor := call (MonitorFromPoint (s32 (x origin)) (s32 (y origin))
                          MONITOR_DEFAULTTONEAREST) in
  let* dpi := call (FlutterDesktopGetDpiForMonitor monitor) in
  let scale_factor := SFdiv 53 1024 (double_of_int dpi) (double_of_int 96) in
  let* inst := call (GetModuleHandle 0) in
  let* window := call (CreateWindow window_class title WS_OVERLAPPEDWINDOW
    (Scale (s32 (x origin)) scale_factor) (Scale (s32 (y origin)) scale_factor)
    (Scale (s32 (width size)) scale_factor) (Scale (s32 (height size)) scale_factor)
    0 0 inst this) in
  if window =? 0 then ret false
  else UpdateTheme window ;;; OnCreate this.

(** ** Messages *)

Definition Win32Window_MessageHandler (this hwnd msg wparam : Z) (lparam : LPARAM) : R Z :=
  if msg =? WM_DESTROY then
    assign this (set_handle 0) ;;;
    Destroy this ;;;
    let* w := self this in
    (if quit_on_close_ w then call (PostQuitMessage 0) ;;; ret tt else ret tt) ;;;
    ret 0
  else if msg =? WM_DPICHANGED then
    match lparam with
    | Lrect newRectSize =>
      let newWidth := s32 (right newRectSize - left newRectSize) in
      let newHeight := s32 (bottom newRectSize - top newRectSize) in
      call (SetWindowPos hwnd 0 (left newRectSize) (top newRectSize) newWidth newHeight
              (SWP_NOZORDER .| SWP_NOACTIVATE)) ;;;
      ret 0
    | _ => undefined WrongParameter
    end
  else if msg =? WM_SIZE then
    let* rect := GetClientArea this in
    let* w := self this in
    (if child_content_ w =? 0 then ret tt
     else call (MoveWindow (child_content_ w) (left rect) (top rect)
                  (s32 (right rect - left rect)) (s32 (bottom rect - top rect)) 1) ;;;
          ret tt) ;;;
    ret 0
  else if msg =? WM_ACTIVATE then
    let* w := self this in
    (if child_content_ w =? 0 then ret tt
     else call (SetFocus (child_content_ w)) ;;; ret tt) ;;;
    ret 0
  else if msg =? WM_DWMCOLORIZATIONCOLORCHANGED then
    UpdateTheme hwnd ;;; ret 0
  else
    let* w := self this in
    call (DefWindowProc (window_handle_ w) msg wparam lparam).

Definition FlutterWindow_MessageHandler (this hwnd msg wparam : Z) (lparam : LPARAM) : R Z :=
  let* w := self this in
  let* result :=
    (if flutter_controller_ w =? 0 then ret None
     else call (ControllerHandleTopLevelWindowProc (flutter_controller_ w)
                  hwnd msg wparam lparam)) in
  match result with
  | Some r => ret r
  | None =>
    (if msg =? WM_FONTCHANGE then
       let* c := controller this in
       let* engine := call (ControllerEngine c) in
       call (EngineReloadSystemFonts engine) ;;; ret tt
     else ret tt) ;;;
    Win32Window_MessageHandler this hwnd msg wparam lparam
  end.

Definition MessageHandler (this hwnd msg wparam : Z) (lparam : LPARAM) : R Z :=
  let* w := self this in
  match dynamic_type w with
  | dWin32Window => Win32Window_MessageHandler this hwnd msg wparam lparam
  | dFlutterWindow => FlutterWindow_MessageHandler this hwnd msg wparam lparam
  end.

Definition GetThisFromHandle (window : Z) : R Z :=
  call (GetWindowLongPtr window GWLP_USERDATA).

Definition WndProc (window msg wparam : Z) (lparam : LPARAM) : R Z :=
  if msg =? WM_NCCREATE then
    match lparam with
    | Lcreatestruct that =>
      call (SetWindowLongPtr window GWLP_USERDATA that) ;;;
      EnableFullDpiSupportIfAvailable window ;;;
      assign that (set_handle window) ;;;
      call (DefWindowProc window msg wparam lparam)
    | _ => undefined WrongParameter
    end
  else
    let* that := GetThisFromHandle window in
    if that =? 0 then call (DefWindowProc window msg wparam lparam)
    else MessageHandler that window msg wparam lparam.

(** ** utils.cpp and main.cpp *)

Definition stdout : Z := 1.
Definition stderr : Z := 2.

Definition CreateAndAttachConsole : R unit :=
  let* allocated := call AllocConsole in
  if allocated =? 0 then ret tt
  else
    let* e1 := call (Freopen_s "CONOUT$" "w" stdout) in
    (if e1 =? 0 then ret tt
     else let* fd := call (Fileno stdout) in call (Dup2 fd 1) ;;; ret tt) ;;;
    let* e2 := call (Freopen_s "CONOUT$" "w" stderr) in
    (if e2 =? 0 then ret tt
     else let* fd := call (Fileno stdout) in call (Dup2 fd 2) ;;; ret tt) ;;;
    call SyncWithStdio ;;;
    call FlutterDesktopResyncOutputStreams ;;;
    ret tt.

Definition GetCommandLineArguments `{Strings} : R (list (list Z)) :=
  let* argv := call CommandLineToArgvW in
  match argv with
  | None => ret []
  | Some argv =>
    match convert_arguments (drop 1 argv) with
    | None => terminate
    | Some command_line_arguments => call LocalFreeArgv ;;; ret command_line_arguments
    end
  end.

(** The message loop; [GetMessage] is tested against 0. *)
Fixpoint message_loop (fuel : nat) : R unit :=
  match fuel with
  | O => fun _ => NoFuel
  | S fuel =>
    let* r := call GetMessage in
    let '(result, msg) := r in
    if result =? 0 then ret tt
    else
      call (TranslateMessage msg) ;;;
      call (DispatchMessage msg) ;;;
      message_loop fuel
  end.

(** [wWinMain], with the address of its local [window]. *)
Definition wWinMain `{Strings} (fuel : nat) (window : Z) : R Z :=
  let* attached := call (AttachConsole ATTACH_PARENT_PROCESS) in
  (if attached =? 0 then
     let* debugger := call IsDebuggerPresent in
     if debugger =? 0 then ret tt else CreateAndAttachConsole
   else ret tt) ;;;
  call (CoInitializeEx 0 COINIT_APARTMENTTHREADED) ;;;
  let* command_line_arguments := GetCommandLineArguments in
  FlutterWindow_new window (mkProject "data" command_line_arguments) ;;;
  let* created := Create window "BOUSSELHA CARS" (mkPoint 10 10) (mkSize 1280 720) in
  if negb created then FlutterWindow_delete window ;;; ret EXIT_FAILURE
  else
    SetQuitOnClose window true ;;;
    message_loop fuel ;;;
    call CoUninitialize ;;;
    FlutterWindow_delete window ;;;
    ret EXIT_SUCCESS.

(** A callback of the system, with the value it gets back. *)
Definition deliver (d : delivery) : R Z :=
  match d with
  | DMessage m => WndProc (hwnd m) (message m) (wParam m) (lParam m)
  | DNextFrame this => let* b := Show this in ret 0
  end.
End Code.

(** * The callback loop *)

Section Pump.
Context `{OS}.

(** A call in progress: the system makes its callbacks, each of which may call
    the system again, and then returns. *)
Fixpoint pump (fuel : nat) (c : Win32Api.call) {struct fuel} : R (ans c) :=
  match fuel with
  | O => fun _ => NoFuel
  | S fuel => fun s =>
    match next (log s) c with
    | None => Ok (answer (log s) c) (with_log (EReturn c :: log s) s)
    | Some d =>
      (emit (EDeliver d) ;;;
       let* r := @deliver (fun c' => emit (ECall c') ;;; pump fuel c') d in
       emit (EResult r) ;;;
       pump fuel c) s
    end
  end.

Definition system (fuel : nat) : System := fun c => emit (ECall c) ;;; pump fuel c.
End Pump.

Definition initial : state := mkState 0 None ∅ [].

(** The program: [wWinMain] run against a system. *)
Definition run_main `{OS, Strings} (fuel : nat) (window : Z) : outcome Z :=
  @wWinMain (system fuel) _ fuel window initial.
