(* ===== verification/RunnerSpec.v ===== *)
(** The Windows runner against a system that behaves as documented: the
    invariant of a run and the behaviour of the whole program.

    [DocumentedOS] states what the runner relies on, [FiniteOS] that the system
    stops making callbacks at some point and lets [GetMessage] return 0.  The
    operations are specified by total triples [sat]: from a state that
    satisfies the precondition they end, either normally, in a state that
    satisfies the postcondition, or by the one fault that the messages of a
    documented system can lead to: a call through the null controller, while
    WM_FONTCHANGE is being handled or after WM_DESTROY has arrived during the
    set-up of the view ([null_controller]). *)
From stdpp Require Import strings.
From S2P Require Import Prelude Win32Api RunnerUtils Runner.
Open Scope Z_scope.

(** * What the history says *)

(** The value last stored in a window's user data. *)
Fixpoint userdata (window : Z) (l : history) : Z :=
  match l with
  | [] => 0
  | ECall (SetWindowLongPtr h i v) :: l =>
    if (h =? window) && (i =? GWLP_USERDATA) then v else userdata window l
  | _ :: l => userdata window l
  end.

(** A view controller has been made and not been released since. *)
Fixpoint controller_live (l : history) : bool :=
  match l with
  | [] => false
  | EReturn (ControllerNew _ _ _) :: _ => true
  | ECall (ControllerDelete _) :: _ => false
  | _ :: l => controller_live l
  end.

(** The controller has been made, and [ForceRedraw], the last step of its
    set-up, has not been called since. *)
Fixpoint in_setup (l : history) : bool :=
  match l with
  | [] => false
  | EReturn (ControllerNew _ _ _) :: _ => true
  | ECall (ControllerForceRedraw _) :: _ => false
  | _ :: l => in_setup l
  end.

(** WM_DESTROY has arrived during this set-up. *)
Fixpoint destroyed_in_setup (l : history) : bool :=
  match l with
  | [] => false
  | EReturn (ControllerNew _ _ _) :: _ => false
  | ECall (ControllerForceRedraw _) :: _ => false
  | EDeliver (DMessage m) :: l => ((message m =? WM_DESTROY) && in_setup l) || destroyed_in_setup l
  | _ :: l => destroyed_in_setup l
  end.

(** The callbacks in progress, the innermost first. *)
Fixpoint active (l : history) : list delivery :=
  match l with
  | [] => []
  | EDeliver d :: l => d :: active l
  | EResult _ :: l => tail (active l)
  | _ :: l => active l
  end.

(** The last of the messages WM_NCCREATE and WM_DESTROY is WM_NCCREATE. *)
Fixpoint window_open (l : history) : bool :=
  match l with
  | [] => false
  | EDeliver (DMessage m) :: l =>
    if message m =? WM_NCCREATE then true
    else if message m =? WM_DESTROY then false else window_open l
  | _ :: l => window_open l
  end.

(** A window has been announced by WM_NCCREATE. *)
Definition created (h : Z) (l : history) : Prop :=
  exists m, EDeliver (DMessage m) ∈ l /\ message m = WM_NCCREATE /\ hwnd m = h.

(** The calls that create and release the resources of the program. *)
Definition resource (e : event) : option Win32Api.call :=
  match e with
  | ECall (CoInitializeEx a b) => Some (CoInitializeEx a b)
  | ECall CoUninitialize => Some CoUninitialize
  | ECall (RegisterClass c) => Some (RegisterClass c)
  | ECall (CreateWindow a b c d e f g h i j k) => Some (CreateWindow a b c d e f g h i j k)
  | ECall (DestroyWindow h) => Some (DestroyWindow h)
  | ECall (ControllerNew a b c) => Some (ControllerNew a b c)
  | _ => None
  end.
Definition resources (l : history) : list Win32Api.call := omap resource l.

(** No window has been created. *)
Definition no_window (e : event) : Prop :=
  match e with
  | ECall (CreateWindow _ _ _ _ _ _ _ _ _ _ _) => False
  | _ => True
  end.

(** * The system's documented behaviour *)

Class DocumentedOS `{OS} : Prop := {
  (** There are no callbacks before a window is created. *)
  os_no_window l c : Forall no_window l -> no_window (ECall c) -> next (ECall c :: l) c = None;
  (** The user data of a window is what was stored last; reading it makes no
      callback. *)
  os_userdata l h : answer l (GetWindowLongPtr h GWLP_USERDATA) = userdata h l;
  os_userdata_quiet l h : next l (GetWindowLongPtr h GWLP_USERDATA) = None;
  (** WM_NCCREATE is sent by [CreateWindow], with its last argument. *)
  os_nccreate l c m : next l c = Some (DMessage m) -> message m = WM_NCCREATE ->
    exists cls t st x y w h p n i param,
      c = CreateWindow cls t st x y w h p n i param /\ lParam m = Lcreatestruct param;
  (** WM_DPICHANGED carries a rectangle. *)
  os_dpichanged l c m : next l c = Some (DMessage m) -> message m = WM_DPICHANGED ->
    exists r, lParam m = Lrect r;
  (** Only a registered next-frame callback is called. *)
  os_nextframe l c p : next l c = Some (DNextFrame p) ->
    exists e, ECall (EngineSetNextFrameCallback e p) ∈ l;
  (** A message for a window procedure has a window. *)
  os_hwnd l c m : next l c = Some (DMessage m) -> hwnd m <> 0;
  (** [make_unique] does not return null. *)
  os_controller l w h p : answer l (ControllerNew w h p) <> 0 }.

(** The system makes no callback after [N] events, and [GetMessage] then
    returns 0. *)
Class FiniteOS `{OS} (N : nat) : Prop := {
  os_next_finite l c : (N <= length l)%nat -> next l c = None;
  os_quits l : (N <= length l)%nat -> fst (answer l GetMessage) = 0 }.

(** * Triples *)

(** The one fault: the controller is null, and a WM_FONTCHANGE is being handled
    or a WM_DESTROY arrived during the set-up of the view. *)
Definition null_controller (s : state) : Prop :=
  exists this w, objects s = {[this := w]} /\ flutter_controller_ w = 0 /\
    ((exists m, DMessage m ∈ active (log s) /\ message m = WM_FONTCHANGE) \/
     destroyed_in_setup (log s) = true).

(** A computation ends as it should, or by that fault. *)
Definition ends {A} (o : outcome A) (Q : A -> state -> Prop) : Prop :=
  (exists x s, o = Ok x s /\ Q x s) \/
  (exists s, o = Undefined NullController s /\ null_controller s).

Definition sat {A} (P : state -> Prop) (c : R A) (Q : A -> state -> Prop) : Prop :=
  forall s, P s -> ends (c s) Q.

Lemma ends_Ok {A} (x : A) s (Q : A -> state -> Prop) : Q x s -> ends (Ok x s) Q.
Proof. left. eauto. Qed.

Lemma ends_bind {A B} (c : R A) (f : A -> R B) s Q S :
  ends (c s) Q -> (forall x s', Q x s' -> ends (f x s') S) -> ends (bind c f s) S.
Proof.
  intros [(x & s' & E & HQ)|(s' & E & HN)] Hf; unfold bind; rewrite E; [by apply Hf|].
  right. eauto.
Qed.

Lemma ends_conseq {A} (o : outcome A) (Q Q' : A -> state -> Prop) :
  ends o Q' -> (forall x s, Q' x s -> Q x s) -> ends o Q.
Proof. intros [(x & s & E & HQ)|HN] HQQ; [left; eauto|by right]. Qed.

Lemma sat_ret {A} (P : state -> Prop) (x : A) (Q : A -> state -> Prop) :
  (forall s, P s -> Q x s) -> sat P (ret x) Q.
Proof. intros HPQ s HP. apply ends_Ok. auto. Qed.

Lemma sat_bind {A B} P (c : R A) Q (f : A -> R B) S :
  sat P c Q -> (forall x, sat (Q x) (f x) S) -> sat P (bind c f) S.
Proof. intros Hc Hf s HP. eapply ends_bind; [by apply Hc|]. intros. by apply Hf. Qed.

Lemma sat_at {A} (P : state -> Prop) (c : R A) Q s : P s -> sat P c Q -> ends (c s) Q.
Proof. auto. Qed.

Lemma sat_conseq {A} (P P' : state -> Prop) (c : R A) (Q Q' : A -> state -> Prop) :
  sat P' c Q' -> (forall s, P s -> P' s) -> (forall x s, Q' x s -> Q x s) -> sat P c Q.
Proof. intros Hc HP HQ s Hs. eapply ends_conseq; [by apply Hc, HP|done]. Qed.

(** A fact about the state before, kept for the continuation. *)
Lemma sat_pure {A} (F : Prop) P (c : R A) Q :
  (F -> sat P c Q) -> sat (fun s => P s /\ F) c Q.
Proof. intros Hc s [HP HF]. by apply Hc. Qed.

Lemma sat_modify (P : state -> Prop) f Q :
  (forall s, P s -> Q (f s)) -> sat P (modify f) (fun _ => Q).
Proof. intros HPQ s HP. apply ends_Ok. auto. Qed.

(** * The invariant *)

(** Where the run stands with respect to the view controller: it has not been
    made; its set-up is in progress, undisturbed or with a WM_DESTROY; it may be
    there or not; it has been released. *)
Inductive mode := NoController | Setup | SetupDestroyed | Running | Released.

(** What is fixed while a call is in progress. *)
Record phase := mkPhase {
  ph_project : DartProject;        (* the project of the window *)
  ph_dynamic : dynamic;            (* dynamic type of the window *)
  ph_count : Z;                    (* the number of windows *)
  ph_instance : option bool;       (* the registrar *)
  ph_resources : list Win32Api.call;
  ph_mode : mode;
  ph_no_handle : bool;             (* the handle is known to be null *)
  ph_closed : bool;                (* the last window is known to be destroyed *)
  ph_creating : bool;              (* WM_NCCREATE has not stored its handle yet *)
  ph_created : list Z;             (* windows known to have been announced *)
  ph_active : list delivery;       (* the callbacks in progress *)
  ph_length : nat }.               (* a lower bound of the history *)

Definition mode_holds (m : mode) (controller : Z) (l : history) : Prop :=
  match m with
  | NoController => controller = 0
  | Setup => in_setup l = true /\ (controller <> 0 \/ destroyed_in_setup l = true)
  | SetupDestroyed => in_setup l = true /\ destroyed_in_setup l = true
  | Running => True
  | Released => controller_live l = false
  end.

Definition destroy_called (cs : list Win32Api.call) : Prop := exists h, DestroyWindow h ∈ cs.

(** The members of the window; a null handle means that the last window that
    was announced has been destroyed. *)
Record window_ok (p : phase) (w : Window) (l : history) : Prop := {
  wo_project : project_ w = ph_project p;
  wo_dynamic : dynamic_type w = ph_dynamic p;
  wo_live : controller_live l = true -> flutter_controller_ w <> 0;
  wo_mode : mode_holds (ph_mode p) (flutter_controller_ w) l;
  wo_handle : ph_no_handle p = true -> window_handle_ w = 0;
  wo_created : window_handle_ w <> 0 -> created (window_handle_ w) l;
  wo_closed : ph_creating p = false -> window_handle_ w = 0 ->
    window_open l = false \/ destroy_called (ph_resources p) }.

(** The addresses handed to the system are those of the window. *)
Definition addresses_ok (this : Z) (e : event) : Prop :=
  match e with
  | ECall (SetWindowLongPtr _ i v) => i = GWLP_USERDATA -> v = this
  | ECall (EngineSetNextFrameCallback _ v) => v = this
  | _ => True
  end.

Record inv (this : Z) (p : phase) (s : state) : Prop := {
  inv_objects : exists w, objects s = {[this := w]} /\ window_ok p w (log s);
  inv_count : g_active_window_count s = ph_count p;
  inv_instance : ph_count p <> 0 -> instance_ s = ph_instance p;
  inv_resources : resources (log s) = ph_resources p;
  inv_addresses : Forall (addresses_ok this) (log s);
  inv_closed : ph_closed p = true -> window_open (log s) = false;
  inv_created : forall h, h ∈ ph_created p -> created h (log s);
  inv_active : active (log s) = ph_active p;
  inv_length : (ph_length p <= length (log s))%nat }.

(** A call or return that none of the readings of the history depends on. *)
Definition neutral (this : Z) (e : event) : Prop :=
  resource e = None /\ addresses_ok this e /\
  (forall l, controller_live (e :: l) = controller_live l) /\
  (forall l, in_setup (e :: l) = in_setup l) /\
  (forall l, destroyed_in_setup (e :: l) = destroyed_in_setup l) /\
  (forall l, window_open (e :: l) = window_open l) /\
  (forall l, active (e :: l) = active l).

(** Less is known in [p'] than in [p]. *)
Record weaker (p p' : phase) : Prop := {
  wk_project : ph_project p' = ph_project p;
  wk_dynamic : ph_dynamic p' = ph_dynamic p;
  wk_count : ph_count p' = ph_count p;
  wk_instance : ph_instance p' = ph_instance p;
  wk_resources : ph_resources p' = ph_resources p;
  wk_mode : forall c l, mode_holds (ph_mode p) c l -> mode_holds (ph_mode p') c l;
  wk_no_handle : ph_no_handle p' = true -> ph_no_handle p = true;
  wk_closed : ph_closed p' = true -> ph_closed p = true;
  wk_creating : ph_creating p' = false -> ph_creating p = false;
  wk_created : forall h, h ∈ ph_created p' -> h ∈ ph_created p;
  wk_active : ph_active p' = ph_active p;
  wk_length : (ph_length p' <= ph_length p)%nat }.

(** What is known about the run, and not about the window, is the same. *)
Definition same_run (p p' : phase) : Prop :=
  ph_count p' = ph_count p /\ ph_instance p' = ph_instance p /\
  ph_resources p' = ph_resources p /\ ph_closed p' = ph_closed p /\
  ph_created p' = ph_created p /\ ph_active p' = ph_active p /\ ph_length p' = ph_length p.

(** Phases that differ in one part. *)
Definition at_length (n : nat) (p : phase) : phase :=
  mkPhase (ph_project p) (ph_dynamic p) (ph_count p) (ph_instance p) (ph_resources p) (ph_mode p)
    (ph_no_handle p) (ph_closed p) (ph_creating p) (ph_created p) (ph_active p) n.
Definition with_handle (no_handle creating : bool) (p : phase) : phase :=
  mkPhase (ph_project p) (ph_dynamic p) (ph_count p) (ph_instance p) (ph_resources p) (ph_mode p)
    no_handle (ph_closed p) creating (ph_created p) (ph_active p) (ph_length p).

Definition is_message (n : Z) (d : delivery) : bool :=
  match d with DMessage m => message m =? n | DNextFrame _ => false end.

(** The phase while a callback is being made, and when it is over. *)
Definition delivering (d : delivery) (n : nat) (p : phase) : phase :=
  mkPhase (ph_project p) (ph_dynamic p) (ph_count p) (ph_instance p) (ph_resources p)
    (if is_message WM_DESTROY d then match ph_mode p with Setup => SetupDestroyed | m => m end
     else ph_mode p)
    (ph_no_handle p)
    (if is_message WM_NCCREATE d then false else is_message WM_DESTROY d || ph_closed p)
    (is_message WM_NCCREATE d || ph_creating p)
    match d with
    | DMessage m => if message m =? WM_NCCREATE then hwnd m :: ph_created p else ph_created p
    | DNextFrame _ => ph_created p
    end (d :: ph_active p) n.
Definition delivered (d : delivery) (n : nat) (p : phase) : phase :=
  mkPhase (ph_project p) (ph_dynamic p) (ph_count p) (ph_instance p) (ph_resources p) (ph_mode p)
    (ph_no_handle p) (ph_closed p) (ph_creating p) (ph_created p) (d :: ph_active p) n.

Lemma created_cons h e l : created h l -> created h (e :: l).
Proof. intros (m & Hm & ?). exists m. split; [by right|done]. Qed.

Create HintDb sat.
#[export] Hint Resolve created_cons : sat.

Section Invariant.
Context (this : Z).

Lemma inv_event p e s :
  neutral this e -> inv this p s -> inv this p (with_log (e :: log s) s).
Proof.
  intros (Hr & Ha & Hl & Hs & Hd & Ho & Hac) [(w & Hw & [? ? Hlv Hm ? ? ?]) ? ? Hre ? ? ? Hact ?].
  split; cbn -[controller_live in_setup destroyed_in_setup window_open active resource];
    rewrite ?Ho, ?Hac; auto with sat.
  - exists w. split; [done|]. split; rewrite ?Hl, ?Ho; auto with sat.
    destruct (ph_mode p); cbn -[controller_live in_setup destroyed_in_setup] in *;
      by rewrite ?Hs, ?Hd, ?Hl.
  - unfold resources in *. cbn. by rewrite Hr.
Qed.

Lemma inv_weaken p p' s : weaker p p' -> inv this p s -> inv this p' s.
Proof.
  intros [W1 W2 W3 W4 W5 W6 W7 W8 W9 W10 W11 W12] [(w & Hw & [? ? ? ? ? ? ?]) ? ? ? ? ? ? ? ?].
  split; rewrite ?W3, ?W4, ?W5, ?W11; auto; [|lia].
  exists w. split; [done|]. split; rewrite ?W1, ?W2, ?W5; auto.
Qed.

Lemma inv_raise p s : inv this p s -> inv this (at_length (length (log s)) p) s.
Proof. intros [(w & Ho & [? ? ? ? ? ? ?]) ? ? ? ? ? ? ? ?]. split; cbn; eauto. exists w. by split. Qed.

Lemma inv_lower p n s :
  inv this (at_length n p) s -> (ph_length p <= n)%nat -> inv this p s.
Proof. intros Hs Hn. eapply inv_weaken; [|exact Hs]. by split. Qed.

(** A callback begins and ends. *)
Lemma inv_deliver p d s :
  inv this p s -> inv this (delivering d (S (length (log s))) p) (with_log (EDeliver d :: log s) s).
Proof.
  intros [(w & Hw & [? ? Hlv Hm ? ? Hcl]) ? ? ? ? Hclosed Hcr Hact ?].
  split; cbn -[window_open]; auto; [..|by rewrite Hact].
  - exists w. split; [done|]. split; cbn -[window_open destroyed_in_setup]; auto with sat.
    + destruct d as [m|]; [|by destruct (ph_mode p)]. unfold is_message.
      destruct (message m =? WM_DESTROY) eqn:E; destruct (ph_mode p); cbn in *; rewrite ?E;
        cbn; try done; destruct Hm as [-> Hm]; cbn; rewrite ?Hm, ?orb_true_r; done.
    + intros Hc Hh. apply orb_false_elim in Hc as [Hnc Hc].
      destruct (Hcl Hc Hh) as [Ho|Ho]; [left|by right]. destruct d as [m|]; cbn in *; [|done].
      rewrite Hnc. by destruct (message m =? WM_DESTROY).
  - by constructor.
  - destruct d as [m|]; cbn; [|done]. destruct (message m =? WM_NCCREATE); [done|].
    destruct (message m =? WM_DESTROY); auto.
  - intros h Hh. destruct d as [m|]; [|auto with sat].
    destruct (Z.eqb_spec (message m) WM_NCCREATE) as [E|]; [|auto with sat].
    apply elem_of_cons in Hh as [->|Hh]; [|auto with sat]. exists m. split; [by left|done].
Qed.

Lemma inv_result p d n r s :
  (ph_length p <= n)%nat -> inv this (delivered d n p) s ->
  inv this (at_length n p) (with_log (EResult r :: log s) s).
Proof.
  intros Hn [(w & Hw & [? ? ? Hm ? ? ?]) ? ? ? ? ? ? Hact ?]. cbn in *.
  split; cbn; auto with sat; [|by constructor|by rewrite Hact].
  exists w. split; [done|]. split; cbn; auto with sat.
Qed.

(** Change the members of the window. *)
Lemma sat_assign p p' f :
  (forall w s, inv this p s -> window_ok p w (log s) -> window_ok p' (f w) (log s)) ->
  same_run p p' -> sat (inv this p) (assign this f) (fun _ => inv this p').
Proof.
  intros Hf (H1 & H2 & H3 & H4 & H5 & H6 & H7) s Hs. pose proof Hs as [(w & Ho & Hw) ? ? ? ? ? ? ? ?].
  unfold assign. rewrite Ho, lookup_singleton_eq. apply ends_Ok.
  split; cbn; rewrite ?H1, ?H2, ?H3, ?H4, ?H5, ?H6, ?H7; auto. exists (f w).
  rewrite insert_singleton_eq. auto.
Qed.

(** What is known of the members when they are read. *)
Record window_facts (p : phase) (w : Window) : Prop := {
  wf_project : project_ w = ph_project p;
  wf_dynamic : dynamic_type w = ph_dynamic p;
  wf_handle : ph_no_handle p = true -> window_handle_ w = 0;
  wf_none : ph_mode p = NoController -> flutter_controller_ w = 0 }.

Lemma window_ok_facts p w l : window_ok p w l -> window_facts p w.
Proof. intros [? ? ? Hm ? ? ?]. split; auto; intros E; rewrite E in Hm; done. Qed.

Lemma sat_self {B} p (f : Window -> R B) Q :
  (forall w, window_facts p w -> sat (inv this p) (f w) Q) ->
  sat (inv this p) (let* w := self this in f w) Q.
Proof.
  intros Hf s Hs. destruct (inv_objects _ _ _ Hs) as (w & Ho & Hw).
  unfold bind, self. rewrite Ho, lookup_singleton_eq.
  apply (Hf w (window_ok_facts _ _ _ Hw) s Hs).
Qed.

Lemma sat_get {B} p (f : state -> R B) Q :
  (forall s, inv this p s -> sat (inv this p) (f s) Q) ->
  sat (inv this p) (let* s := get in f s) Q.
Proof. intros Hf s Hs. by apply (Hf s Hs). Qed.

Lemma sat_seq {A B} p (c : R A) (f : A -> R B) Q :
  sat (inv this p) c (fun _ => inv this p) -> (forall x, sat (inv this p) (f x) Q) ->
  sat (inv this p) (bind c f) Q.
Proof. intros. by eapply sat_bind. Qed.

Lemma sat_keep {A} p (x : A) : sat (inv this p) (ret x) (fun _ => inv this p).
Proof. by apply sat_ret. Qed.

(** The controller is followed: it is there, or one of the two messages has
    arrived. *)
Definition may_follow (p : phase) : Prop :=
  ph_mode p = Setup \/ exists m, DMessage m ∈ ph_active p /\ message m = WM_FONTCHANGE.

Lemma sat_controller p :
  may_follow p -> sat (inv this p) (controller this) (fun _ => inv this p).
Proof.
  intros Hp s Hs. pose proof Hs as [(w & Ho & [? ? ? Hm ? ? ?]) ? ? ? ? ? ? Hact ?].
  unfold controller, bind, self. rewrite Ho, lookup_singleton_eq.
  destruct (Z.eqb_spec (flutter_controller_ w) 0) as [E|E]; [|by apply ends_Ok].
  right. exists s. split; [done|]. exists this, w. split; [done|]. split; [done|].
  destruct Hp as [Hp|(m & Hin & Em)].
  - right. rewrite Hp in Hm. by destruct Hm as [_ [?|?]].
  - left. exists m. by rewrite Hact.
Qed.
End Invariant.

(** * The interface of the system, as the code may rely on it *)

(** The address given to [CreateWindow] is the window's, and neither the handle
    nor the window is assumed to stay away. *)
Definition call_ok (this : Z) (p : phase) (c : Win32Api.call) : Prop :=
  match c with
  | CreateWindow _ _ _ _ _ _ _ _ _ _ param =>
    param = this /\ ph_no_handle p = false /\ ph_closed p = false
  | _ => True
  end.

(** A call [c] that is in progress in phase [p] comes back in a state of this
    phase, but for the event of its return. *)
Definition comes_back `{OS} (this : Z) (p : phase) (c : Win32Api.call) (o : outcome (ans c)) : Prop :=
  ends o (fun x s => exists s0, inv this p s0 /\ x = answer (log s0) c /\
    s = with_log (EReturn c :: log s0) s0).

(** A call that keeps the invariant of the phase while it is in progress
    comes back. *)
Class GoodSystem `{OS, System} (this : Z) (n : nat) : Prop := {
  gs_call p c s : (n <= ph_length p)%nat -> call_ok this p c ->
    inv this p (with_log (ECall c :: log s) s) -> comes_back this p c (call c s);
  gs_quiet c s : (n <= length (log s))%nat -> (forall l, next l c = None) ->
    call c s = Ok (answer (ECall c :: log s) c)
                 (with_log (EReturn c :: ECall c :: log s) s) }.

#[export] Hint Resolve sat_keep : sat.
#[export] Hint Extern 1 (call_ok _ _ _) => exact I : sat.
#[export] Hint Extern 1 (neutral _ _) => (repeat split; cbn; auto) : sat.

(** Steps through a computation that keeps the invariant: reads of members,
    branches and calls. *)
Ltac sat_step :=
  lazymatch goal with
  | |- sat _ (bind (self _) _) _ => apply sat_self; intros ? ?
  | |- sat _ (bind get _) _ => apply sat_get; intros ? ?
  | |- sat _ (bind (bind _ _) _) _ => apply sat_seq; [|intros ?]
  | |- sat _ (bind _ _) _ => apply sat_seq; [|intros ?]
  | |- sat _ (if ?b then _ else _) _ => destruct b eqn:?
  | |- sat _ (match ?r with (_, _) => _ end) _ => destruct r
  | |- sat _ _ _ => solve [eauto with sat]
  end.
Ltac sat_run := repeat sat_step.

(** * The operations keep the invariant *)

Section Operations.
Context `{HOS : OS, HD : !DocumentedOS, HSys : System} (this : Z) (n : nat)
  {HG : GoodSystem this n}.
Context (p : phase) (Hn : (n <= ph_length p)%nat).

Lemma sat_call c :
  neutral this (ECall c) -> neutral this (EReturn c) -> call_ok this p c ->
  sat (inv this p) (call c) (fun _ => inv this p).
Proof using HG Hn.
  intros Hc Hr Hok s Hs. eapply ends_conseq; [apply gs_call; eauto; by apply inv_event|].
  intros x s' (s0 & Hs0 & _ & ->). by apply inv_event.
Qed.
Hint Extern 0 (sat _ (call ?c) _) => refine (sat_call c _ _ _) : sat.

Lemma sat_GetClientArea : sat (inv this p) (GetClientArea this) (fun _ => inv this p).
Proof using HG Hn. unfold GetClientArea. sat_run. Qed.
Hint Resolve sat_GetClientArea : sat.

Lemma sat_Show : sat (inv this p) (Show this) (fun _ => inv this p).
Proof using HG Hn. unfold Show. sat_run. Qed.

Lemma sat_UpdateTheme window :
  sat (inv this p) (UpdateTheme window) (fun _ => inv this p).
Proof using HG Hn. unfold UpdateTheme. sat_run. Qed.
Hint Resolve sat_UpdateTheme : sat.

Lemma sat_EnableFullDpiSupportIfAvailable window :
  sat (inv this p) (EnableFullDpiSupportIfAvailable window) (fun _ => inv this p).
Proof using HG Hn. unfold EnableFullDpiSupportIfAvailable. sat_run. Qed.
Hint Resolve sat_EnableFullDpiSupportIfAvailable : sat.

Lemma sat_SetChildContent content :
  sat (inv this p) (SetChildContent this content) (fun _ => inv this p).
Proof using HG Hn.
  unfold SetChildContent. apply sat_seq; [|intros _; sat_run].
  apply sat_assign; [|done]. intros w s _ [? ? ? ? ? ? ?]. by split.
Qed.

Lemma sat_RegisterPlugins registry :
  sat (inv this p) (RegisterPlugins registry) (fun _ => inv this p).
Proof using HG Hn. unfold RegisterPlugins. sat_run. Qed.

Lemma sat_UnregisterWindowClass :
  ph_count p = 0 -> sat (inv this p) UnregisterWindowClass (fun _ => inv this p).
Proof using HG Hn.
  intros H0. assert (HI : forall i, sat (inv this p) (modify (with_instance i)) (fun _ => inv this p)).
  { intros i. apply sat_modify. intros s [? ? ? ? ? ? ? ? ?]. split; cbn; auto. by intros []. }
  unfold UnregisterWindowClass, GetInstance. sat_run. destruct (instance_ s); sat_run.
Qed.

(** The release of the controller. *)
Lemma sat_reset_controller :
  ph_mode p <> NoController -> ph_mode p <> Setup ->
  sat (inv this p) (reset_controller this 0) (fun _ => inv this p).
Proof using HG Hn.
  intros Hm1 Hm2 s [(w & Ho & [Hp Hd Hl Hm Hh Hc Hcl]) ? ? ? ? ? ? ? ?].
  unfold reset_controller, bind, self, assign. rewrite !Ho, !lookup_singleton_eq.
  rewrite !Ho, lookup_singleton_eq, insert_singleton_eq.
  assert (Hm' : mode_holds (ph_mode p) 0 (log s)) by (by destruct (ph_mode p)).
  destruct (Z.eqb_spec (flutter_controller_ w) 0) as [E|E].
  { apply ends_Ok. split; cbn; auto. eexists. split; [done|].
    split; cbn; auto. intros Hlive. by destruct (Hl Hlive). }
  set (s1 := with_objects _ _).
  set (c := ControllerDelete _). eapply (ends_bind (call c) (fun _ => ret tt)).
  { apply (gs_call p c s1 Hn I). split; cbn; auto with sat; [|by constructor].
    eexists. split; [done|]. split; cbn; auto with sat. by destruct (ph_mode p). }
  intros ? ? (s0 & Hs0 & _ & ->). apply ends_Ok, inv_event; auto with sat.
Qed.

Lemma sat_OnDestroy : ph_mode p <> Setup ->
  sat (inv this p) (OnDestroy this) (fun _ => inv this p).
Proof using HG Hn.
  intros Hm. unfold OnDestroy, FlutterWindow_OnDestroy, Win32Window_OnDestroy. sat_run.
  apply sat_reset_controller; [|done]. intros Em. by rewrite (wf_none _ _ H0 Em) in *.
Qed.

Lemma sat_Destroy_no_handle : ph_mode p <> Setup -> ph_no_handle p = true ->
  sat (inv this p) (Destroy this) (fun _ => inv this p).
Proof using HG Hn.
  intros Hm Hh. unfold Destroy. apply sat_seq; [by apply sat_OnDestroy|intros _].
  apply sat_self. intros w Hw. rewrite (wf_handle _ _ Hw Hh). cbn [Z.eqb]. sat_run.
  apply sat_UnregisterWindowClass. rewrite <- (inv_count _ _ _ H). by apply Z.eqb_eq.
Qed.
End Operations.

(** * Messages *)

Lemma userdata_address this window l :
  Forall (addresses_ok this) l -> userdata window l = 0 \/ userdata window l = this.
Proof.
  induction 1 as [|e l He _ IH]; [by left|]. destruct e as [[]| | |]; cbn in *; auto.
  destruct (Z.eqb_spec index GWLP_USERDATA), (window0 =? window); cbn; auto.
Qed.

Section Messages.
Context `{HOS : OS, HD : !DocumentedOS, HSys : System} (this : Z) (n : nat)
  {HG : GoodSystem this n}.
Context (p : phase) (Hn : (n <= ph_length p)%nat).
Hint Extern 0 (sat _ (call ?c) _) => refine (sat_call this n p Hn c _ _ _) : sat.
Hint Resolve sat_GetClientArea sat_UpdateTheme sat_EnableFullDpiSupportIfAvailable : sat.

Lemma sat_WM_DESTROY {A} (k : R A) Q :
  ph_mode p <> Setup -> ph_closed p = true -> sat (inv this p) k Q ->
  sat (inv this p) (assign this (set_handle 0) ;;; Destroy this ;;; k) Q.
Proof using HG Hn.
  intros Hm Hc Hk. set (q := with_handle true (ph_creating p) p).
  eapply sat_bind; [apply (sat_assign this p q); [|done]|].
  { intros w s Hs [? ? ? ? ? ? ?]. split; cbn; auto; [done|]. left. by apply (inv_closed _ _ _ Hs). }
  intros ?. eapply sat_bind; [by apply (sat_Destroy_no_handle this n q)|].
  intros ? s Hs. apply Hk. eapply inv_weaken; [|exact Hs]. by split.
Qed.

(** What the handler relies on, for a message. *)
Definition message_ok (msg : Z) (lparam : LPARAM) : Prop :=
  (msg = WM_DESTROY -> ph_mode p <> Setup /\ ph_closed p = true) /\
  (msg = WM_DPICHANGED -> exists r, lparam = Lrect r) /\
  (msg = WM_FONTCHANGE -> may_follow p).

Lemma sat_Win32Window_MessageHandler hwnd msg wparam lparam :
  message_ok msg lparam ->
  sat (inv this p) (Win32Window_MessageHandler this hwnd msg wparam lparam)
    (fun _ => inv this p).
Proof using HG Hn.
  intros (Hd & Hr & _). unfold Win32Window_MessageHandler.
  destruct (Z.eqb_spec msg WM_DESTROY) as [->|_].
  { destruct Hd as [Hd1 Hd2]; [done|]. apply sat_WM_DESTROY; [done..|]. sat_run. }
  destruct (Z.eqb_spec msg WM_DPICHANGED) as [->|_].
  { destruct Hr as [r ->]; [done|]. sat_run. }
  sat_run.
Qed.

Lemma sat_FlutterWindow_MessageHandler hwnd msg wparam lparam :
  message_ok msg lparam ->
  sat (inv this p) (FlutterWindow_MessageHandler this hwnd msg wparam lparam) (fun _ => inv this p).
Proof using HG Hn.
  intros Hok. unfold FlutterWindow_MessageHandler. apply sat_self. intros w _.
  apply sat_seq; [sat_run|]. intros [r|]; [apply sat_keep|].
  apply sat_seq; [|intros ?; by apply sat_Win32Window_MessageHandler].
  destruct (Z.eqb_spec msg WM_FONTCHANGE) as [->|_]; [|apply sat_keep].
  apply sat_seq; [apply sat_controller; by apply Hok|intros c]. sat_run.
Qed.

Lemma sat_MessageHandler hwnd msg wparam lparam :
  message_ok msg lparam ->
  sat (inv this p) (MessageHandler this hwnd msg wparam lparam) (fun _ => inv this p).
Proof using HG Hn.
  intros Hok. unfold MessageHandler. apply sat_self. intros w _. destruct (dynamic_type w).
  - by apply sat_Win32Window_MessageHandler.
  - by apply sat_FlutterWindow_MessageHandler.
Qed.

(** The user data of a window is read without a callback. *)
Lemma sat_GetThisFromHandle {B} window (f : Z -> R B) Q :
  sat (inv this p) (f 0) Q -> sat (inv this p) (f this) Q ->
  sat (inv this p) (let* that := GetThisFromHandle window in f that) Q.
Proof using HD HG Hn.
  intros H0 H1 s Hs. unfold bind, GetThisFromHandle.
  rewrite gs_quiet; [|pose proof (inv_length _ _ _ Hs); lia|intros l; apply os_userdata_quiet].
  rewrite os_userdata. cbn [userdata]. set (c := GetWindowLongPtr window GWLP_USERDATA).
  assert (Hs' : inv this p (with_log (EReturn c :: ECall c :: log s) s)).
  { apply (inv_event this p (EReturn c) (with_log (ECall c :: log s) s)); [by repeat split|].
    apply inv_event; [by repeat split|done]. }
  destruct (userdata_address this window (log s)) as [-> | ->]; [by apply (inv_addresses _ _ _ Hs)|..]; auto.
Qed.

Lemma sat_WndProc window msg wparam lparam :
  msg <> WM_NCCREATE -> message_ok msg lparam ->
  sat (inv this p) (WndProc window msg wparam lparam) (fun _ => inv this p).
Proof using HD HG Hn.
  intros Hm Hok. unfold WndProc. apply Z.eqb_neq in Hm as ->.
  apply sat_GetThisFromHandle; [cbn; sat_run|].
  destruct (this =? 0); [sat_run|by apply sat_MessageHandler].
Qed.

(** WM_NCCREATE stores the address of the object and the handle. *)
Lemma sat_nccreate window wparam :
  window <> 0 -> window ∈ ph_created p -> ph_no_handle p = false ->
  sat (inv this p) (WndProc window WM_NCCREATE wparam (Lcreatestruct this))
    (fun _ => inv this (with_handle false false p)).
Proof using HG Hn.
  intros Hw Hc Hh. unfold WndProc. rewrite Z.eqb_refl.
  apply sat_seq; [auto with sat|intros _]. apply sat_seq; [eauto with sat|intros _].
  eapply sat_bind; [apply (sat_assign this p (with_handle false false p)); [|done]|].
  { intros w s Hs [? ? ? ? ? ? ?]. split; cbn; auto; try done. intros _. by apply (inv_created _ _ _ Hs). }
  intros ?. refine (sat_call this n (with_handle false false p) Hn _ _ _ _); auto with sat.
Qed.
End Messages.

(** What the system may deliver while a call is in progress, by its
    documentation. *)
Lemma sat_deliver `{HOS : OS, HD : !DocumentedOS, HSys : System} this n p c d
    {HG : GoodSystem this n} :
  call_ok this p c ->
  sat (fun s => inv this (delivering d n p) s /\ exists l, next l c = Some d /\ log s = EDeliver d :: l)
    (deliver d) (fun _ => inv this (delivered d n p)).
Proof.
  intros Hc s [Hs (l & Hnx & El)]. set (q := delivering d n p) in *.
  assert (Hn : (n <= ph_length q)%nat) by done.
  destruct d as [m|this']; cbn [deliver].
  - destruct (Z.eqb_spec (message m) WM_NCCREATE) as [E|E].
    + destruct (os_nccreate _ _ _ Hnx E) as (?&?&?&?&?&?&?&?&?&?&?&-> & Ep).
      cbn in Hc. destruct Hc as (Hthis & Hnh & Hcl). rewrite E, Ep, Hthis. eapply ends_conseq.
      { eapply (sat_nccreate this n q Hn); [by eapply os_hwnd| |done|exact Hs].
        cbn. rewrite E. by left. }
      intros ? s'. apply inv_weaken. split; cbn; rewrite ?E; cbn; auto; try congruence.
      intros h Hh. by right.
    + eapply ends_conseq; [eapply (sat_WndProc this n q Hn); [done|split; [|split]|exact Hs]|].
      * intros Em. cbn. rewrite Em. cbn. split; [by destruct (ph_mode p)|done].
      * intros Em. by eapply os_dpichanged.
      * intros Em. right. exists m. split; [by left|done].
      * intros ? s'. apply Z.eqb_neq in E. apply inv_weaken. split; cbn; rewrite ?E; cbn; auto.
        -- intros c' l'. destruct (message m =? WM_DESTROY), (ph_mode p); cbn; tauto.
        -- intros ->. by rewrite orb_true_r.
  - destruct (os_nextframe _ _ _ Hnx) as [e He]. pose proof (inv_addresses _ _ _ Hs) as Ha.
    rewrite El in Ha. eapply Forall_in in Ha; [|right; exact He]. cbn in Ha. subst this'.
    eapply ends_conseq; [eapply (sat_bind (inv this q)); [by eapply (sat_Show this n q)| |exact Hs]|].
    { intros b. apply sat_keep. }
    intros ? s'. apply inv_weaken. by split.
Qed.

(** * The callback loop implements the interface *)

Section PumpCorrect.
Context `{HOS : OS, HD : !DocumentedOS} (N : nat) {HF : FiniteOS N} (this : Z).

Definition pump_ok (fuel : nat) : Prop := forall p c s,
  (N < ph_length p + fuel)%nat -> call_ok this p c -> inv this p s ->
  comes_back this p c (pump fuel c s).

Lemma system_good fuel n :
  (0 < fuel)%nat -> (N < n + fuel)%nat -> pump_ok fuel ->
  @GoodSystem _ (system fuel) this n.
Proof using.
  intros Hf HN Hp. split.
  - intros p c s Hn Hc Hs. apply (Hp p c (with_log (ECall c :: log s) s)); [lia|done..].
  - intros c s Hn Hq. unfold call, system, bind, emit, modify.
    destruct fuel as [|fuel]; [lia|]. cbn. by rewrite Hq.
Qed.

Lemma pump_correct fuel : (0 < fuel)%nat -> pump_ok fuel.
Proof using HD HF.
  induction fuel as [|fuel IH]; intros Hf p c s HN Hc Hs; [lia|].
  cbn [pump]. destruct (next (log s) c) as [d|] eqn:Hnx; [|by apply ends_Ok; exists s].
  set (n := S (length (log s))).
  assert (Hlen : (length (log s) < N)%nat).
  { destruct (decide (N <= length (log s))%nat); [|lia]. by rewrite os_next_finite in Hnx. }
  pose proof (inv_length _ _ _ Hs) as Hl. specialize (IH ltac:(lia)).
  pose proof (system_good fuel n ltac:(lia) ltac:(lia) IH) as HG.
  apply (ends_bind (emit (EDeliver d)) _ s
    (fun _ s1 => s1 = with_log (EDeliver d :: log s) s)); [by apply ends_Ok|].
  intros _ s1 ->. eapply ends_bind.
  { apply (sat_deliver (HSys := system fuel) this n p c d Hc). split; [by apply inv_deliver|].
    by exists (log s). }
  intros r s2 Hs2. apply (inv_result this p d n r) in Hs2; [|lia].
  apply (ends_bind (emit (EResult r)) _ s2
    (fun _ s3 => s3 = with_log (EResult r :: log s2) s2)); [by apply ends_Ok|].
  intros _ s3 ->. eapply ends_conseq; [apply (IH (at_length n p)); [cbn; lia|by destruct c|done]|].
  intros x s3 (s0 & Hs0 & Hx). exists s0. split; [|done].
  apply (inv_lower this p n); [done|lia].
Qed.

Lemma system_correct fuel n :
  (0 < fuel)%nat -> (N < n + fuel)%nat -> @GoodSystem _ (system fuel) this n.
Proof using HD HF. intros. apply system_good; [done..|]. by apply pump_correct. Qed.
End PumpCorrect.
