(* ===== verification/RunnerMain.v ===== *)
(** The whole program of the Windows runner: [wWinMain] from start to exit. *)
From stdpp Require Import strings.
From Stdlib Require Import SpecFloat.
From S2P Require Import Prelude Win32Api RunnerUtils Runner RunnerSpec.
Open Scope Z_scope.

Lemma sat_assoc {A B C} P (c : R A) (f : A -> R B) (g : B -> R C) Q :
  sat P (let* x := c in (let* y := f x in g y)) Q -> sat P (let* y := (let* x := c in f x) in g y) Q.
Proof.
  intros H s Hs. specialize (H s Hs). unfold bind in *. by destruct (c s).
Qed.

(** * Phases *)

Definition with_resource (c : Win32Api.call) (p : phase) : phase :=
  mkPhase (ph_project p) (ph_dynamic p) (ph_count p) (ph_instance p) (c :: ph_resources p) (ph_mode p)
    (ph_no_handle p) (ph_closed p) (ph_creating p) (ph_created p) (ph_active p) (ph_length p).
Definition in_mode (m : mode) (p : phase) : phase :=
  mkPhase (ph_project p) (ph_dynamic p) (ph_count p) (ph_instance p) (ph_resources p) m
    (ph_no_handle p) (ph_closed p) (ph_creating p) (ph_created p) (ph_active p) (ph_length p).

Lemma inv_running this p s : inv this p s -> inv this (in_mode Running p) s.
Proof. apply inv_weaken. by split. Qed.

(** An event of a resource. *)
Lemma inv_resource this p c s :
  resource (ECall c) = Some c -> addresses_ok this (ECall c) ->
  inv this p s -> inv this (with_resource c p) (with_log (ECall c :: log s) s).
Proof.
  intros Hr Ha [(w & Ho & [Hp Hd Hlv Hm Hh Hc Hcl]) ? ? Hre ? ? ? ? ?].
  assert (E : controller_live (ECall c :: log s) = controller_live (log s) /\
              in_setup (ECall c :: log s) = in_setup (log s) /\
              destroyed_in_setup (ECall c :: log s) = destroyed_in_setup (log s)) by (by destruct c).
  destruct E as (E1 & E2 & E3).
  split; cbn -[controller_live in_setup destroyed_in_setup resource]; auto with sat.
  - exists w. split; [done|].
    split; cbn -[controller_live in_setup destroyed_in_setup]; auto with sat; [by rewrite E1|..].
    + destruct (ph_mode p); cbn -[controller_live in_setup destroyed_in_setup] in *;
        by rewrite ?E1, ?E2, ?E3.
    + intros H1 H2. destruct (Hcl H1 H2) as [?|[h ?]]; [by left|right]. exists h. by right.
  - unfold resources in *. cbn -[resource]. rewrite Hr. cbn. by rewrite Hre.
Qed.

(** An event that ends the set-up or releases the controller. *)
Lemma inv_mode this p m c s :
  resource (ECall c) = None -> addresses_ok this (ECall c) ->
  (forall l, controller_live (ECall c :: l) = true -> controller_live l = true) ->
  (forall w, mode_holds m w (ECall c :: log s)) ->
  inv this p s -> inv this (in_mode m p) (with_log (ECall c :: log s) s).
Proof.
  intros Hr Ha Hl Hm [(w & Ho & [? ? ? _ ? ? ?]) ? ? Hre ? ? ? ? ?].
  split; cbn -[controller_live resource]; auto with sat.
  - exists w. split; [done|]. split; cbn -[controller_live]; auto with sat.
  - unfold resources in *. cbn -[resource]. by rewrite Hr.
Qed.

Section Steps.
Context `{HOS : OS, HD : !DocumentedOS, HSys : System} (this : Z) {HG : GoodSystem this 0}
  (project : DartProject).

(** A call that begins a new phase. *)
Lemma sat_phase p p' c :
  (forall s, inv this p s -> inv this p' (with_log (ECall c :: log s) s)) ->
  neutral this (EReturn c) -> call_ok this p' c ->
  sat (inv this p) (call c) (fun _ => inv this p').
Proof using HG.
  intros Hp Hn Hc s Hs. eapply ends_conseq; [apply (gs_call p'); auto; lia|].
  intros ? ? (s0 & Hs0 & _ & ->). by apply inv_event.
Qed.

Lemma sat_resource p c :
  resource (ECall c) = Some c -> addresses_ok this (ECall c) -> neutral this (EReturn c) ->
  call_ok this p c ->
  sat (inv this p) (call c) (fun _ => inv this (with_resource c p)).
Proof using HG.
  intros Hr Ha Hn Hc. apply sat_phase; [by intros; apply inv_resource|done|by destruct c].
Qed.

Lemma sat_inner p c :
  neutral this (ECall c) -> neutral this (EReturn c) -> call_ok this p c ->
  sat (inv this p) (call c) (fun _ => inv this p).
Proof using HG. apply (sat_call this 0). lia. Qed.
Hint Extern 0 (sat _ (call ?c) _) => refine (sat_inner _ c _ _ _) : sat.

Ltac sat_resource :=
  lazymatch goal with
  | |- sat (inv _ ?p) (call ?c) _ =>
    refine (sat_resource p c _ _ _ _); solve [auto with sat | cbn; auto]
  end.

(** ** Creation *)

(** The window exists, with its registrar, resources and mode. *)
Definition alive (i : option bool) (l : list Win32Api.call) (m : mode) (no_handle : bool) :=
  mkPhase project dFlutterWindow 1 i l m no_handle false false [] [] 0.

Lemma sat_registered j i l m b :
  sat (inv this (alive j l m b)) (modify (with_instance i)) (fun _ => inv this (alive i l m b)).
Proof.
  apply sat_modify. intros s [(w & Ho & [? ? ? ? ? ? ?]) ? ? ? ? ? ? ? ?].
  split; cbn; auto. exists w. by repeat split.
Qed.

Lemma sat_GetWindowClass l m b :
  sat (inv this (alive None l m b)) GetWindowClass (fun x s => x = kWindowClassName /\
    exists class, lpszClassName class = kWindowClassName /\
      inv this (alive (Some true) (RegisterClass class :: l) m b) s).
Proof using HG.
  unfold GetWindowClass. eapply sat_bind.
  { unfold GetInstance. apply sat_get. intros s Hs.
    rewrite (inv_instance _ _ _ Hs) by done. cbn [alive ph_instance].
    eapply sat_bind; [apply sat_registered|]. intros ?.
    apply (sat_ret _ false (fun x s => inv this (alive (Some false) l m b) s /\ x = false)).
    by intros. }
  intros x. apply sat_pure. intros ->.
  eapply (sat_bind _ _ (fun _ s => exists class, lpszClassName class = kWindowClassName /\
      inv this (alive (Some true) (RegisterClass class :: l) m b) s)).
  - apply sat_seq; [auto with sat|intros cursor]. apply sat_seq; [auto with sat|intros inst].
    apply sat_seq; [auto with sat|intros icon].
    eapply sat_bind; [sat_resource|]. intros ?.
    eapply sat_conseq; [apply sat_registered|by intros s Hs|].
    intros ? s Hs. eexists. split; [|exact Hs]. done.
  - intros ?. apply sat_ret. eauto.
Qed.

(** The arguments of the window that [wWinMain] creates, for a resolution. *)
Definition scaled (v dpi : Z) : Z :=
  Scale v (SFdiv 53 1024 (double_of_int dpi) (double_of_int 96)).
Definition main_window (dpi inst : Z) : Win32Api.call :=
  CreateWindow kWindowClassName "BOUSSELHA CARS" WS_OVERLAPPEDWINDOW
    (scaled 10 dpi) (scaled 10 dpi) (scaled 1280 dpi) (scaled 720 dpi) 0 0 inst this.

Lemma sat_make_controller {A} i l b w h (k : R A) Q :
  sat (inv this (alive i (ControllerNew w h project :: l) Setup b)) k Q ->
  sat (inv this (alive i l NoController b))
    (let* p := call (ControllerNew w h project) in reset_controller this p ;;; k) Q.
Proof using HD HG.
  intros Hk s Hs. set (new := ControllerNew w h project).
  pose proof (inv_resource this _ new s eq_refl I Hs) as Hs1.
  eapply ends_bind; [exact (gs_call _ new s (Nat.le_0_l _) I Hs1)|].
  intros c s' (s0 & Hs0 & Hc & ->). pose proof (os_controller (log s0) w h project) as Hne.
  fold new in Hne. cbn [ans new] in c, Hc, Hne. rewrite <- Hc in Hne.
  destruct Hs0 as [(w0 & Ho & [? ? ? Hm ? ? ?]) ? ? ? ? ? ? ? ?]. cbn in Hm.
  assert (Hr : reset_controller this c (with_log (EReturn new :: log s0) s0) =
    Ok tt (mkState (g_active_window_count s0) (instance_ s0) {[this := set_controller c w0]}
             (EReturn new :: log s0))).
  { unfold reset_controller, bind, self, assign. cbn. rewrite !Ho, !lookup_singleton_eq. cbn.
    by rewrite Ho, lookup_singleton_eq, Hm, insert_singleton_eq. }
  unfold bind. rewrite Hr. apply Hk. split; cbn in *; auto with sat; [|by constructor].
  eexists. split; [done|]. split; cbn; auto with sat.
Qed.

Lemma sat_setup_controller i l b :
  sat (inv this (alive i l Setup b)) (controller this) (fun _ => inv this (alive i l Setup b)).
Proof. apply sat_controller. by left. Qed.
Hint Resolve sat_setup_controller : sat.

(** The outcomes of the creation of the view. *)
Definition view_created (l : list Win32Api.call) (b : bool) (s : state) : Prop :=
  exists w h, inv this (alive (Some true) (ControllerNew w h project :: l)
                     (if b then Running else Setup) false) s.

Lemma sat_ForceRedraw l w h c :
  sat (inv this (alive (Some true) (ControllerNew w h project :: l) Setup false))
    (call (ControllerForceRedraw c) ;;; ret true) (view_created l).
Proof using HG.
  eapply sat_bind.
  { apply (sat_phase _ (in_mode Running (alive (Some true) (ControllerNew w h project :: l) Setup false)));
      [intros s; by apply inv_mode|auto with sat..]. }
  intros ?. apply sat_ret. intros s' Hs'. by exists w, h.
Qed.

Lemma sat_FlutterWindow_OnCreate l :
  sat (inv this (alive (Some true) l NoController false)) (FlutterWindow_OnCreate this)
    (view_created l).
Proof using HD HG.
  unfold FlutterWindow_OnCreate, Win32Window_OnCreate. 
  eapply sat_bind; [apply (sat_ret _ true (fun b s => inv this (alive (Some true) l NoController false) s /\ b = true)); by intros|].
  intros b. apply sat_pure. intros ->. cbn [negb].
  apply sat_seq; [apply (sat_GetClientArea this 0); cbn; lia|intros frame].
  apply sat_self. intros w Hw. rewrite (wf_project _ _ Hw). cbn [ph_project alive].
  apply sat_make_controller.
  assert (Hfail : forall w h, sat (inv this (alive (Some true) (ControllerNew w h project :: l) Setup false))
    (ret false) (view_created l)).
  { intros. apply sat_ret. intros s Hs. by eexists _, _. }
  repeat first [apply Hfail | apply sat_ForceRedraw | progress sat_step].
  - apply (sat_RegisterPlugins this 0). cbn. lia.
  - apply (sat_SetChildContent this 0). cbn. lia.
Qed.

Lemma sat_Create_main :
  sat (inv this (alive None [CoInitializeEx 0 COINIT_APARTMENTTHREADED] NoController true))
    (Create this "BOUSSELHA CARS" (mkPoint 10 10) (mkSize 1280 720))
    (fun b s => exists class dpi inst, lpszClassName class = kWindowClassName /\
       let l := [main_window dpi inst; RegisterClass class;
                 CoInitializeEx 0 COINIT_APARTMENTTHREADED] in
       (b = false /\ inv this (alive (Some true) l NoController false) s) \/
       view_created l b s).
Proof using HD HG.
  unfold Create. apply sat_seq; [apply (sat_Destroy_no_handle this 0); done || (cbn; lia)|intros _].
  eapply sat_bind; [apply sat_GetWindowClass|]. intros name s [-> (class & Hclass & Hs)].
  apply (inv_weaken _ _ (alive (Some true) [RegisterClass class;
    CoInitializeEx 0 COINIT_APARTMENTTHREADED] NoController false)) in Hs; [|by split].
  eapply (sat_at _ _ _ _ Hs).
  apply sat_seq; [auto with sat|intros monitor]. apply sat_seq; [auto with sat|intros dpi].
  apply sat_seq; [auto with sat|intros inst].
  eapply sat_bind; [sat_resource|]. intros window. cbn beta.
  destruct (window =? 0).
  - apply sat_ret. intros s' Hs'. exists class, dpi, inst. split; [done|]. left. by split.
  - apply sat_seq; [apply (sat_UpdateTheme this 0); cbn; lia|intros _].
    unfold OnCreate. apply sat_self. intros w Hw. rewrite (wf_dynamic _ _ Hw). cbn.
    eapply sat_conseq; [apply sat_FlutterWindow_OnCreate|by intros s' Hs'|].
    intros b s' Hs'. exists class, dpi, inst. split; [done|]. right. exact Hs'.
Qed.

(** ** Destruction *)

(** Everything has been released. *)
Record finished (l : list Win32Api.call) (s : state) : Prop := {
  fin_objects : objects s = ∅;
  fin_count : g_active_window_count s = 0;
  fin_registrar : instance_ s = Some false;
  fin_controller : controller_live (log s) = false;
  fin_resources : resources (log s) = l }.

Definition destroyed (l : list Win32Api.call) (s : state) : Prop :=
  (finished l s /\ window_open (log s) = false) \/
  exists h, h <> 0 /\ created h (log s) /\ finished (DestroyWindow h :: l) s.

Definition dying (l : list Win32Api.call) (closed : bool) (hs : list Z) :=
  mkPhase project dWin32Window 0 None l Released false closed false hs [] 0.

Lemma sat_unregister l b hs :
  sat (inv this (dying l b hs)) (let* s := get in
     (if g_active_window_count s =? 0 then UnregisterWindowClass else ret tt))
    (fun _ s => inv this (dying l b hs) s /\ instance_ s = Some false).
Proof using HG.
  apply sat_get. intros s Hs. rewrite (inv_count _ _ _ Hs). cbn [Z.eqb dying ph_count].
  unfold UnregisterWindowClass, GetInstance.
  assert (HI : forall i, sat (inv this (dying l b hs)) (modify (with_instance i))
    (fun _ s => inv this (dying l b hs) s /\ instance_ s = i)).
  { intros i. apply sat_modify. intros s' [? ? ? ? ? ? ? ? ?]. split; [|done]. by split. }
  apply sat_seq; [|intros ?; apply sat_seq; [auto with sat|intros ?; apply HI]].
  apply sat_get. intros s' _. destruct (instance_ s'); [apply sat_keep|].
  apply sat_seq; [|intros ?; apply sat_keep].
  eapply sat_conseq; [apply HI|done|]. by intros ? ? [? _].
Qed.

Definition free_object : R unit :=
  modify (fun s => with_objects (base.delete this (objects s)) s).

(** The end of [Destroy] and of the destructor. *)
Lemma sat_release l b hs :
  sat (inv this (dying l b hs))
    ((let* s := get in (if g_active_window_count s =? 0 then UnregisterWindowClass else ret tt)) ;;;
     free_object)
    (fun _ s => finished l s /\ (b = true -> window_open (log s) = false) /\
       forall h, h ∈ hs -> created h (log s)).
Proof using HG.
  eapply sat_bind; [apply sat_unregister|intros ?].
  apply sat_modify. intros s [[(w & Ho & [? ? ? Hm ? ? ?]) Hc _ Hr _ Hcl Hcr _ _] Hi].
  split; [|done]. split; cbn; auto. by rewrite Ho, delete_singleton_eq.
Qed.

Lemma sat_Destroy_dying l : ~ destroy_called l ->
  sat (inv this (dying l false [])) (Destroy this ;;; free_object) (fun _ => destroyed l).
Proof using HG.
  intros Hnd. unfold Destroy. apply sat_assoc.
  apply sat_seq; [apply (sat_OnDestroy this 0); [cbn; lia|done]|intros ?].
  apply sat_assoc. intros s Hs. pose proof Hs as [(w & Ho & [? ? ? ? ? Hcr Hcl]) ? ? ? ? ? ? ? ?].
  unfold bind at 1, self. rewrite Ho, lookup_singleton_eq.
  destruct (Z.eqb_spec (window_handle_ w) 0) as [Hh|Hh].
  - assert (Hs' : inv this (dying l true []) s).
    { split; auto; [exists w; by split|]. intros _. by destruct (Hcl eq_refl Hh). }
    eapply ends_conseq; [exact (sat_release l true [] s Hs')|].
    intros ? s' (Hf & Hc & _). left. auto.
  - set (h := window_handle_ w) in *. assert (Hs' : inv this (dying l false [h]) s).
    { split; auto; [exists w; by split|]. intros h' Hh'. apply list_elem_of_singleton in Hh' as ->. auto. }
    apply (sat_at _ _ _ _ Hs'). apply sat_assoc.
    eapply sat_bind; [eapply sat_bind; [sat_resource|intros ?]|].
    { apply (sat_assign this _ (dying (DestroyWindow h :: l) false [h])); [|done].
      intros w' s' _ [? ? ? ? ? ? ?]. split; cbn; auto; try done. right. exists h. by left. }
    intros ?. eapply sat_conseq; [apply sat_release|done|].
    intros ? s'' (Hf & _ & Hc). right. exists h. split; [done|]. split; [|done]. apply Hc. by left.
Qed.

(** The destructor of the view controller, run by the destructor of the
    window. *)
Lemma sat_delete_controller {A} i l m b (k : R A) Q :
  sat (inv this (in_mode Released (alive i l m b))) k Q ->
  sat (inv this (alive i l m b))
    (let* w := self this in
     (if flutter_controller_ w =? 0 then ret tt
      else call (ControllerDelete (flutter_controller_ w)) ;;; ret tt) ;;; k) Q.
Proof using HG.
  intros Hk s Hs. pose proof Hs as [(w & Ho & [? ? Hl ? ? ? ?]) ? ? ? ? ? ? ? ?].
  unfold bind at 1, self. rewrite Ho, lookup_singleton_eq.
  destruct (Z.eqb_spec (flutter_controller_ w) 0) as [E|_].
  - apply Hk. split; auto. exists w. split; [done|]. split; auto. cbn.
    destruct (controller_live (log s)); [|done]. by destruct (Hl eq_refl).
  - eapply (sat_at _ _ _ _ Hs), sat_bind; [|intros ?; exact Hk].
    eapply sat_bind; [|intros ?; apply sat_keep].
    apply sat_phase; [intros s'; by apply inv_mode|auto with sat..].
Qed.

Lemma sat_FlutterWindow_delete i l m b : ~ destroy_called l ->
  sat (inv this (alive i l m b)) (FlutterWindow_delete this) (fun _ => destroyed l).
Proof using HG.
  intros Hnd. apply sat_delete_controller. unfold Win32Window_delete.
  set (q := mkPhase project dWin32Window 1 i l Released false false false [] [] 0).
  eapply sat_bind; [apply (sat_assign this _ q); [|done]|].
  { intros w s _ [? ? ? ? ? ? ?]. by split. }
  intros ?. eapply sat_bind; [|intros ?; by apply sat_Destroy_dying].
  unfold decrement_count. apply sat_get. intros s Hs. rewrite (inv_count _ _ _ Hs). cbn.
  apply sat_modify. intros s' [(w' & Ho & [? ? ? ? ? ? ?]) Hc ? ? ? ? ? ? ?]. split; cbn; auto.
  - exists w'. by repeat split.
  - by intros [].
Qed.
End Steps.

(** ** The message loop *)

Section Loop.
Context `{HOS : OS, HD : !DocumentedOS, HSys : System} (this : Z) {HG : GoodSystem this 0}
  (N : nat) {HF : FiniteOS N}.

Lemma sat_call_length p n c :
  neutral this (ECall c) -> neutral this (EReturn c) -> call_ok this p c ->
  sat (inv this (at_length n p)) (call c)
    (fun x s => inv this (at_length (S n) p) s /\ exists l, x = answer l c /\ (n < length l)%nat).
Proof using HG.
  intros Hc Hr Hok s Hs. pose proof (inv_event this _ _ s Hc Hs) as Hs1.
  pose proof (inv_length _ _ _ Hs) as Hl. cbn in Hl.
  apply inv_raise in Hs1. cbn [log with_log length] in Hs1.
  assert (Hok' : call_ok this (at_length (S (length (log s))) p) c) by (by destruct c).
  eapply ends_conseq; [exact (gs_call _ c s (Nat.le_0_l _) Hok' Hs1)|].
  intros ? ? (s0 & Hs0 & -> & ->). pose proof (inv_length _ _ _ Hs0) as Hl0. cbn in Hl0. split.
  - apply inv_event; [done|]. apply (inv_lower this (at_length (S n) p) (S (length (log s))));
      [exact Hs0|cbn; lia].
  - exists (log s0). split; [done|lia].
Qed.

Lemma sat_message_loop p : call_ok this p GetMessage -> forall fuel n,
  (N < n + fuel)%nat -> (0 < fuel)%nat ->
  sat (inv this (at_length n p)) (message_loop fuel) (fun _ s => exists n, inv this (at_length n p) s).
Proof using HG HF.
  intros _. induction fuel as [|fuel IH]; intros n HN Hf; [lia|]. cbn [message_loop].
  eapply sat_bind; [refine (sat_call_length p n GetMessage _ _ _); auto with sat|].
  intros [result msg] s [Hs (l & El & Hl)]. eapply (sat_at _ _ _ _ Hs).
  destruct (Z.eqb_spec result 0) as [_|Hr]; [apply sat_ret; eauto|].
  assert (Hlt : (length l < N)%nat).
  { destruct (decide (N <= length l)%nat) as [Hle|]; [|lia].
    apply os_quits in Hle. rewrite <- El in Hle. done. }
  apply sat_seq; [refine (sat_inner this _ (TranslateMessage msg) _ _ _); auto with sat|intros ?].
  apply sat_seq; [refine (sat_inner this _ (DispatchMessage msg) _ _ _); auto with sat|intros ?].
  apply IH; lia.
Qed.
End Loop.

(** ** Before the window exists *)

Definition start_call (c : Win32Api.call) : bool :=
  match c with
  | AttachConsole _ | IsDebuggerPresent | AllocConsole | Freopen_s _ _ _ | Fileno _
  | Dup2 _ _ | SyncWithStdio | FlutterDesktopResyncOutputStreams | CoInitializeEx _ _
  | CommandLineToArgvW | LocalFreeArgv => true
  | _ => false
  end.

Definition start_event (e : event) : Prop :=
  match e with ECall c | EReturn c => start_call c = true | _ => False end.

Record starting (l : list Win32Api.call) (s : state) : Prop := {
  st_count : g_active_window_count s = 0;
  st_instance : instance_ s = None;
  st_objects : objects s = ∅;
  st_resources : resources (log s) = l;
  st_events : Forall start_event (log s) }.

Lemma start_event_facts this e : start_event e ->
  no_window e /\ addresses_ok this e /\
  (forall l, controller_live (e :: l) = controller_live l /\ window_open (e :: l) = window_open l /\
     active (e :: l) = active l).
Proof. destruct e as [[]| | |[]]; done. Qed.

Lemma start_history this l : Forall start_event l ->
  Forall no_window l /\ Forall (addresses_ok this) l /\ controller_live l = false /\
  window_open l = false /\ active l = [].
Proof.
  induction 1 as [|e l He _ (IH1 & IH2 & IH3 & IH4 & IH5)]; [done|].
  destruct (start_event_facts this e He) as (H1 & H2 & H3). destruct (H3 l) as (-> & -> & ->). auto.
Qed.

Section Start.
Context `{HOS : OS, HD : !DocumentedOS} (fuel : nat) (Hfuel : (0 < fuel)%nat).

Lemma sat_start c l :
  start_call c = true ->
  sat (starting l) (@call (system fuel) c) (fun x s =>
    starting (option_list (resource (ECall c)) ++ l) s /\ exists h, x = answer h c).
Proof using HD Hfuel.
  intros Hc s [? ? ? Hr He]. destruct (start_history 0 _ He) as (Hw & _).
  unfold call, system, bind, emit, modify. destruct fuel as [|fuel']; [lia|]. cbn [pump log with_log].
  rewrite os_no_window by (done || by apply (start_event_facts 0 (ECall c))).
  apply ends_Ok. split; [|eauto]. split; cbn -[resource]; auto.
  unfold resources in *. cbn -[resource]. rewrite Hr. by destruct (resource (ECall c)).
Qed.

(** The steps that touch no resource. *)
Lemma sat_start_step {B} c l (f : ans c -> R B) Q :
  start_call c = true -> resource (ECall c) = None ->
  (forall h, sat (starting l) (f (answer h c)) Q) ->
  sat (starting l) (bind (@call (system fuel) c) f) Q.
Proof using HD Hfuel.
  intros Hc Hr Hf. eapply sat_bind; [by apply sat_start|]. intros x s [Hs [h ->]].
  apply Hf. by rewrite Hr in Hs.
Qed.
End Start.

Lemma increment_from_0 s : g_active_window_count s = 0 ->
  increment_count s = Ok tt (with_count 1 s).
Proof. intros E. unfold increment_count, bind, get. by rewrite E. Qed.

Lemma sat_FlutterWindow_new this project l :
  sat (starting l) (FlutterWindow_new this project)
    (fun _ => inv this (alive project None l NoController true)).
Proof.
  intros s [Hc Hi Ho Hr He]. destruct (start_history this _ He) as (_ & Ha & Hl & Hop & Hact).
  unfold FlutterWindow_new, Win32Window_new, bind, get, modify, assign.
  rewrite Ho, lookup_empty, increment_from_0 by done. cbn. rewrite lookup_insert_eq.
  apply ends_Ok. split; cbn; auto; [|by intros h ?%not_elem_of_nil|lia].
  exists (mkWindow dFlutterWindow false 0 0 project 0).
  rewrite insert_insert_eq, insert_empty. split; [done|]. split; cbn; auto; congruence.
Qed.

(** * The program *)

Section Main.
Context `{HOS : OS, HD : !DocumentedOS, HS : Strings} (N : nat) {HF : FiniteOS N}
  (fuel : nat) (Hfuel : (N < fuel)%nat).

Ltac start_step :=
  lazymatch goal with
  | |- sat _ (bind (call ?c) _) _ =>
    refine (sat_start_step fuel _ c _ _ _ _ _ _); [lia|done|done|intros ?]
  end.

Lemma sat_CreateAndAttachConsole l :
  sat (starting l) (@CreateAndAttachConsole (system fuel)) (fun _ => starting l).
Proof using HD Hfuel.
  unfold CreateAndAttachConsole. start_step.
  destruct (_ =? 0); [by apply sat_ret|].
  start_step. eapply sat_bind with (Q := fun _ => starting l).
  { destruct (_ =? 0); [by apply sat_ret|]. do 2 start_step. by apply sat_ret. }
  intros ?. start_step. eapply sat_bind with (Q := fun _ => starting l).
  { destruct (_ =? 0); [by apply sat_ret|]. do 2 start_step. by apply sat_ret. }
  intros ?. do 2 start_step. by apply sat_ret.
Qed.

(** The arguments of the command line, for some answer of the system. *)
Definition arguments_of (args : list (list Z)) : Prop :=
  exists h, match answer h CommandLineToArgvW with
            | None => args = []
            | Some argv => convert_arguments (drop 1 argv) = Some args
            end.

Definition convertible : Prop := forall h argv,
  answer h CommandLineToArgvW = Some argv -> convert_arguments (drop 1 argv) <> None.

Lemma sat_GetCommandLineArguments l : convertible ->
  sat (starting l) (@GetCommandLineArguments (system fuel) _)
    (fun args s => starting l s /\ arguments_of args).
Proof using HD Hfuel.
  intros Hcv. unfold GetCommandLineArguments. start_step.
  specialize (Hcv h). unfold arguments_of.
  destruct (answer h CommandLineToArgvW) as [argv|] eqn:E.
  - specialize (Hcv argv eq_refl). destruct (convert_arguments _) as [args|] eqn:Ea; [|done].
    start_step. apply sat_ret. intros s Hs. split; [done|]. exists h. by rewrite E.
  - apply sat_ret. intros s Hs. split; [done|]. exists h. by rewrite E.
Qed.

(** What the destructor did about the window: nothing, when the last window
    that the system announced has been destroyed (or none was), or destroy one
    that the system announced. *)
Definition window_released (h : history) (dest : list Win32Api.call) : Prop :=
  (dest = [] /\ window_open h = false) \/
  (exists hwnd, hwnd <> 0 /\ created hwnd h /\ dest = [DestroyWindow hwnd]).

(** A run: the resources obtained and released, in order. *)
Inductive run_of (this : Z) (args : list (list Z)) (hist : history) : Z -> list Win32Api.call -> Prop :=
| run_success class dpi inst w h dest :
    lpszClassName class = kWindowClassName ->
    window_released hist dest ->
    run_of this args hist EXIT_SUCCESS
      ([CoInitializeEx 0 COINIT_APARTMENTTHREADED; RegisterClass class;
        main_window this dpi inst; ControllerNew w h (mkProject "data" args);
        CoUninitialize] ++ dest)
| run_failure class dpi inst ctl dest :
    lpszClassName class = kWindowClassName ->
    ctl = [] \/ (exists w h, ctl = [ControllerNew w h (mkProject "data" args)]) ->
    window_released hist dest ->
    run_of this args hist EXIT_FAILURE
      ([CoInitializeEx 0 COINIT_APARTMENTTHREADED; RegisterClass class;
        main_window this dpi inst] ++ ctl ++ dest).

(** The end of the program. *)
Record exited (this code : Z) (s : state) : Prop := {
  ex_objects : objects s = ∅;
  ex_count : g_active_window_count s = 0;
  ex_class : instance_ s = Some false;
  ex_controller : controller_live (log s) = false;
  ex_run : exists args, arguments_of args /\ run_of this args (log s) code (rev (resources (log s))) }.

Lemma destroyed_exited this args code l s :
  arguments_of args -> destroyed l s ->
  (forall dest, window_released (log s) dest -> run_of this args (log s) code (rev l ++ dest)) ->
  exited this code s.
Proof.
  intros Ha [[[? ? ? ? Hr] Ho]|(h & Hh & Hc & [? ? ? ? Hr])] Hrun; split; auto;
    exists args; (split; [done|]); rewrite Hr.
  - rewrite <- (app_nil_r (rev l)). apply Hrun. by left.
  - cbn [rev]. apply Hrun. right. eauto.
Qed.

Lemma sat_exit this (HG : @GoodSystem _ (system fuel) this 0) args code i l m b :
  arguments_of args -> ~ destroy_called l ->
  (forall h dest, window_released h dest -> run_of this args h code (rev l ++ dest)) ->
  sat (inv this (alive (mkProject "data" args) i l m b))
    (@FlutterWindow_delete (system fuel) this ;;; ret code) (exited this).
Proof.
  intros Ha Hnd Hrun. eapply sat_bind; [by apply (sat_FlutterWindow_delete this)|]. intros ?.
  apply sat_ret. intros s Hs. by apply (destroyed_exited this args _ l); [..|apply Hrun].
Qed.

Ltac no_destroy :=
  intros [? Hd]; repeat (apply elem_of_cons in Hd as [Hd|Hd]; [done|]); by apply elem_of_nil in Hd.

Lemma sat_wWinMain this : convertible ->
  sat (starting []) (@wWinMain (system fuel) _ fuel this) (exited this).
Proof using HD HF Hfuel.
  intros Hcv. pose proof (system_correct N this fuel 0 ltac:(lia) ltac:(lia)) as HG.
  unfold wWinMain. start_step. eapply sat_bind with (Q := fun _ => starting []).
  { destruct (_ =? 0); [|by apply sat_ret]. start_step.
    destruct (_ =? 0); [by apply sat_ret|apply sat_CreateAndAttachConsole]. }
  intros ?. eapply sat_bind; [refine (sat_start fuel _ (CoInitializeEx _ _) _ _); [lia|done]|].
  intros ? s [Hs _]. eapply (sat_at _ _ _ _ Hs). clear s Hs.
  eapply sat_bind; [by apply sat_GetCommandLineArguments|].
  intros args. apply sat_pure. intros Ha.
  eapply sat_bind; [apply sat_FlutterWindow_new|]. intros ?.
  eapply sat_bind; [exact (sat_Create_main this _)|].
  intros created s (class & dpi & inst & Hcl & Hcr). cbn zeta in Hcr.
  destruct created; cbn [negb].
  - destruct Hcr as [[? _]|(vw & vh & Hs)]; [done|]. eapply (sat_at _ _ _ _ Hs). clear s Hs.
    apply sat_seq; [apply sat_assign; [intros ? ? _ [? ? ? ? ? ? ?]; by split|done]|intros ?].
    set (p := alive _ _ _ _ _). 
    eapply sat_bind; [apply (sat_message_loop this N p I fuel 0); lia|].
    intros ? s [n Hs]. apply inv_lower in Hs; [|cbn; lia]. eapply (sat_at _ _ _ _ Hs). clear s Hs.
    eapply sat_bind; [refine (sat_resource this p CoUninitialize _ _ _ _); done || auto with sat|]. intros ?.
    eapply sat_exit; [done..|no_destroy|]. intros hist dest Hd. by apply run_success.
  - destruct Hcr as [[_ Hs]|(vw & vh & Hs)];
      [eapply (sat_at _ _ _ _ Hs), (sat_exit this HG args)|eapply (sat_at _ _ _ _ Hs), (sat_exit this HG args)];
      [exact Ha|no_destroy| |exact Ha|no_destroy|]; intros hist dest Hd.
    + apply (run_failure this args hist class dpi inst [] dest); auto.
    + apply (run_failure this args hist class dpi inst [_] dest); eauto.
Qed.
End Main.


(** ** A concrete system *)

Definition WM_CLOSE : Z := 0x10.

Definition is_create (e : event) : bool :=
  match e with ECall (CreateWindow _ _ _ _ _ _ _ _ _ _ _) => true | _ => false end.

Definition close_message : MSG := mkMSG 100 WM_CLOSE 0 (Lvalue 0).
Definition destroy_message : MSG := mkMSG 100 WM_DESTROY 0 (Lvalue 0).

Definition font_message : MSG := mkMSG 100 WM_FONTCHANGE 0 (Lvalue 0).

(** It creates window 100, lets the user close it, and destroys it on
    WM_CLOSE; with [fonts], the fonts of the system change while the view
    controller is being made. *)
Definition demo_next (fonts : bool) (l : history) (c : Win32Api.call) : option delivery :=
  if (200 <=? length l)%nat then None
  else
    match l with
    | ECall _ :: l' =>
      match c with
      | CreateWindow _ _ _ _ _ _ _ _ _ _ param =>
        Some (DMessage (mkMSG 100 WM_NCCREATE 0 (Lcreatestruct param)))
      | ControllerNew _ _ _ =>
        if fonts && existsb is_create l' then Some (DMessage font_message) else None
      | DispatchMessage _ => if existsb is_create l' then Some (DMessage close_message) else None
      | DefWindowProc _ msg _ _ =>
        if (msg =? WM_CLOSE) && existsb is_create l' then Some (DMessage destroy_message) else None
      | _ => None
      end
    | _ => None
    end.

Definition demo_quit (l : history) : bool :=
  (200 <=? length l)%nat ||
  existsb (fun e => match e with ECall (PostQuitMessage _) => true | _ => false end) l.

Definition demo_answer (l : history) (c : Win32Api.call) : ans c :=
  match c with
  | GetClientRect _ => mkRECT 0 0 1264 681
  | RegGetValue _ _ => (0, 0)
  | ControllerHandleTopLevelWindowProc _ _ _ _ _ => None
  | CommandLineToArgvW => Some [[0x72]; [0x2D; 0x76]]
  | GetMessage => (if demo_quit l then 0 else 1, close_message)
  | GetWindowLongPtr h _ => userdata h l
  | FlutterDesktopGetDpiForMonitor _ => 144
  | _ => 100
  end.

Definition demo (fonts : bool) : OS := {| next := demo_next fonts; answer := demo_answer |}.

Lemma demo_next_cases fonts l c d : demo_next fonts l c = Some d ->
  (length l < 200)%nat /\
  ((exists cls t st x y w h p n i param, c = CreateWindow cls t st x y w h p n i param /\
      d = DMessage (mkMSG 100 WM_NCCREATE 0 (Lcreatestruct param))) \/
   (existsb is_create (tail l) = true /\
    exists m, m ∈ [font_message; close_message; destroy_message] /\ d = DMessage m)).
Proof.
  unfold demo_next. destruct (Nat.leb_spec 200 (length l)) as [_|Hl]; [done|].
  destruct l as [|[c'| | |] l]; try done. intros E. split; [done|]. cbn [tail].
  destruct c; try discriminate E.
  - left. injection E as <-. by eexists _, _, _, _, _, _, _, _, _, _, _.
  - right. destruct (msg =? WM_CLOSE), (existsb is_create l) eqn:Ec; try discriminate E.
    injection E as <-. split; [done|]. eexists. split; [|done]. do 2 right. by left.
  - right. destruct fonts, (existsb is_create l) eqn:Ec; try discriminate E.
    injection E as <-. split; [done|]. eexists. split; [|done]. by left.
  - right. destruct (existsb is_create l) eqn:Ec; [|done]. injection E as <-.
    split; [done|]. eexists. split; [|done]. right. by left.
Qed.

(** A message of the concrete system. *)
Lemma demo_message fonts l c m : demo_next fonts l c = Some (DMessage m) ->
  hwnd m = 100 /\
  ((exists cls t st x y w h p n i param, c = CreateWindow cls t st x y w h p n i param /\
      message m = WM_NCCREATE /\ lParam m = Lcreatestruct param) \/
   (message m ∈ [WM_FONTCHANGE; WM_CLOSE; WM_DESTROY])).
Proof.
  intros E. apply demo_next_cases in E as [_ [(?&?&?&?&?&?&?&?&?&?&?& -> & [= ->])|(_ & m' & Hm & [= ->])]].
  - split; [done|]. left. by eexists _, _, _, _, _, _, _, _, _, _, _.
  - rewrite !elem_of_cons in Hm. destruct Hm as [-> | [-> | [-> | Hm]]]; [..|by apply elem_of_nil in Hm];
      (split; [done|right; rewrite !elem_of_cons; auto]).
Qed.

Lemma no_window_create l : Forall no_window l -> existsb is_create l = false.
Proof. induction 1 as [|e l He _ IH]; [done|]. cbn. rewrite IH. by destruct e as [[]| | |]. Qed.

Lemma demo_documented fonts : @DocumentedOS (demo fonts).
Proof.
  split; try done.
  - intros l c Hl Hc. destruct (next _ c) as [d|] eqn:E; [|done].
    apply demo_next_cases in E as [_ [(?&?&?&?&?&?&?&?&?&?&?& -> & _)|[E _]]]; [done|];
      cbn in E; by rewrite no_window_create in E.
  - intros l h. cbn. unfold demo_next. repeat case_match; done.
  - intros l c m E Em. apply demo_message in E as [_ [(?&?&?&?&?&?&?&?&?&?&?& -> & _ & El)|Hm]].
    + by eexists _, _, _, _, _, _, _, _, _, _, _.
    + rewrite Em, !elem_of_cons, elem_of_nil in Hm. by destruct Hm as [? | [? | [? | ?]]].
  - intros l c m E Em. apply demo_message in E as [_ [(?&?&?&?&?&?&?&?&?&?&?& -> & Em' & El)|Hm]].
    + by rewrite Em in Em'.
    + rewrite Em, !elem_of_cons, elem_of_nil in Hm. by destruct Hm as [? | [? | [? | ?]]].
  - intros l c p E. apply demo_next_cases in E as [_ [(?&?&?&?&?&?&?&?&?&?&?& -> & E)|(_ & m & _ & E)]];
      discriminate.
  - intros l c m E. by apply demo_message in E as [-> _].
Qed.

Lemma demo_finite fonts : @FiniteOS (demo fonts) 200.
Proof.
  split.
  - intros l c Hl. cbn. unfold demo_next. destruct (Nat.leb_spec 200 (length l)); [done|lia].
  - intros l Hl. cbn. unfold demo_quit. destruct (Nat.leb_spec 200 (length l)); [done|lia].
Qed.

Lemma demo_convertible fonts : @convertible (demo fonts) _.
Proof. intros h argv [= <-]. vm_compute. discriminate. Qed.


(** A system that behaves as documented and sends WM_FONTCHANGE while the view
    controller is being made: the program is undefined. *)
Example run_main_fontchange :
  @DocumentedOS (demo true) /\ @FiniteOS (demo true) 200 /\
  exists s, @run_main (demo true) _ 201 1000 = Undefined NullController s.
Proof.
  split; [apply demo_documented|]. split; [apply demo_finite|]. vm_compute. by eexists.
Qed.

(** The run, evaluated: it succeeds, and the window is destroyed by the system
    before the destructor runs. *)
Example run_main_demo :
  match @run_main (demo false) _ 201 1000 with
  | Ok code s => code = EXIT_SUCCESS /\ last (rev (resources (log s))) = Some CoUninitialize
  | _ => False
  end.
Proof. vm_compute. split; reflexivity. Qed.
