(* ===== verification/RunnerMessages.v ===== *)
(** The window procedure of the runner, message by message: the exact calls,
    result and members after each message, in the case that no call made while
    the message is handled leads to a callback ([QuietOS]); RunnerMain.v treats
    the general case.  Also the geometry of the window [wWinMain] creates. *)
From stdpp Require Import strings.
From Stdlib Require Import SpecFloat.
From S2P Require Import Prelude Win32Api RunnerUtils Runner RunnerMain.
Open Scope Z_scope.
Open Scope cint_scope.

(** The state after a sequence of calls that change nothing else. *)
Fixpoint did (cs : list Win32Api.call) (s : state) : state :=
  match cs with
  | [] => s
  | c :: cs => did cs (with_log (EReturn c :: ECall c :: log s) s)
  end.

(** The case without callbacks; destroying a window or a view can send messages,
    so this is not a property of every system. *)
Class QuietOS `{OS} : Prop := os_quiet l c : next l c = None.

Lemma did_objects cs s : objects (did cs s) = objects s.
Proof. revert s. induction cs; intros; cbn; [done|]. by rewrite IHcs. Qed.
Lemma did_count cs s : g_active_window_count (did cs s) = g_active_window_count s.
Proof. revert s. induction cs; intros; cbn; [done|]. by rewrite IHcs. Qed.
Lemma did_app cs cs' s : did (cs ++ cs') s = did cs' (did cs s).
Proof. revert s. induction cs; intros; cbn; [done|]. by rewrite IHcs. Qed.
Lemma did_with_objects cs o s : did cs (with_objects o s) = with_objects o (did cs s).
Proof. revert s. induction cs; intros; cbn; [done|]. by rewrite <- IHcs. Qed.

Section Quiet.
Context `{HOS : OS, HQ : !QuietOS} (fuel : nat).
Local Instance quiet_system : System := system (S fuel).

Lemma call_quiet c s : call c s = Ok (answer (ECall c :: log s) c) (did [c] s).
Proof using HQ.
  unfold call, quiet_system, system, bind, emit, modify. cbn [pump log with_log].
  by rewrite os_quiet.
Qed.

Lemma bind_call {B} c (f : ans c -> R B) s :
  bind (call c) f s = f (answer (ECall c :: log s) c) (did [c] s).
Proof using HQ. unfold bind. by rewrite call_quiet. Qed.

Lemma bind_self {B} this w (f : Window -> R B) s :
  objects s !! this = Some w -> bind (self this) f s = f w s.
Proof. unfold bind, self. by intros ->. Qed.

Lemma bind_assign {B} this w g (f : unit -> R B) s :
  objects s !! this = Some w ->
  bind (assign this g) f s = f tt (with_objects (<[this := g w]> (objects s)) s).
Proof. unfold bind, assign. by intros ->. Qed.

Lemma bind_Ok {A B} (c : R A) (f : A -> R B) x s s' :
  c s = Ok x s' -> bind c f s = f x s'.
Proof. unfold bind. by intros ->. Qed.

Lemma bind_returned {A B} (x : A) (f : A -> R B) s : bind (ret x) f s = f x s.
Proof. done. Qed.

Lemma bind_nested {A B C} (c : R A) (f : A -> R B) (g : B -> R C) s :
  bind (bind c f) g s = bind c (fun x => bind (f x) g) s.
Proof. unfold bind. by destruct (c s). Qed.

(** Evaluate the tests of constants, and run one step. *)
Ltac eval_tests :=
  repeat match goal with
  | |- context [?a =? ?b] =>
    let v := eval vm_compute in (a =? b) in
    lazymatch v with true => idtac | false => idtac end; change (a =? b) with v
  end; cbv iota.
Ltac qstep :=
  first
  [ rewrite bind_nested | rewrite bind_returned
  | lazymatch goal with |- @bind _ _ (call ?c) ?f ?s = _ =>
      refine (eq_trans (bind_call c f s) _); cbv beta end
  | lazymatch goal with |- call ?c ?s = _ => refine (eq_trans (call_quiet c s) _) end
  | erewrite bind_self by (rewrite ?did_objects; eassumption)
  | erewrite bind_assign by (rewrite ?did_objects; eassumption) ].
Ltac qrun := repeat qstep.

(** ** Layout messages of a hosted view *)

(** While the window hosts a view, WM_SIZE moves the view over the whole
    client area, WM_ACTIVATE gives it the focus, WM_DPICHANGED moves the window
    to the rectangle the system suggests; all three return 0 and do nothing
    else.  Without a view WM_SIZE and WM_ACTIVATE do nothing, and a message that
    is not handled goes to [DefWindowProc] with the window's own handle. *)
Theorem layout_messages (this hwnd wparam : Z) (lparam : LPARAM) (r : RECT) (w : Window) (s : state) :
  objects s !! this = Some w -> child_content_ w <> 0 ->
  let h := window_handle_ w in
  let rect := answer (ECall (GetClientRect h) :: log s) (GetClientRect h) in
  let bare := with_objects (<[this := set_child 0 w]> (objects s)) s in
  Win32Window_MessageHandler this hwnd WM_SIZE wparam lparam s =
    Ok 0 (did [GetClientRect h; MoveWindow (child_content_ w) (left rect) (top rect)
                 (s32 (right rect - left rect)) (s32 (bottom rect - top rect)) 1] s) /\
  Win32Window_MessageHandler this hwnd WM_ACTIVATE wparam lparam s =
    Ok 0 (did [SetFocus (child_content_ w)] s) /\
  Win32Window_MessageHandler this hwnd WM_DPICHANGED wparam (Lrect r) s =
    Ok 0 (did [SetWindowPos hwnd 0 (left r) (top r) (s32 (right r - left r))
                 (s32 (bottom r - top r)) (SWP_NOZORDER .| SWP_NOACTIVATE)] s) /\
  Win32Window_MessageHandler this hwnd WM_SIZE wparam lparam bare =
    Ok 0 (did [GetClientRect h] bare) /\
  Win32Window_MessageHandler this hwnd WM_ACTIVATE wparam lparam bare = Ok 0 bare /\
  (forall msg, msg ∉ [WM_DESTROY; WM_DPICHANGED; WM_SIZE; WM_ACTIVATE;
                      WM_DWMCOLORIZATIONCOLORCHANGED] ->
   Win32Window_MessageHandler this hwnd msg wparam lparam s =
     Ok (answer (ECall (DefWindowProc h msg wparam lparam) :: log s)
           (DefWindowProc h msg wparam lparam)) (did [DefWindowProc h msg wparam lparam] s)).
Proof using HQ.
  intros Ho Hc h rect bare. apply Z.eqb_neq in Hc.
  assert (Hb : objects bare !! this = Some (set_child 0 w)) by apply lookup_insert_eq.
  unfold Win32Window_MessageHandler. eval_tests.
  repeat split.
  - unfold GetClientArea. qrun. rewrite Hc. qrun. done.
  - qrun. rewrite Hc. qrun. done.
  - qrun. done.
  - unfold GetClientArea. qrun. done.
  - qrun. done.
  - intros msg Hm. rewrite !not_elem_of_cons in Hm.
    repeat match goal with |- context [msg =? ?k] =>
      destruct (Z.eqb_spec msg k) as [->|_]; [naive_solver|] end.
    qrun. done.
Qed.

(** ** Closing *)

Lemma Destroy_closed this w s :
  objects s !! this = Some w -> dynamic_type w = dFlutterWindow -> window_handle_ w = 0 ->
  flutter_controller_ w <> 0 -> g_active_window_count s <> 0 ->
  Destroy this s = Ok tt (with_objects (<[this := set_controller 0 w]> (objects s))
                            (did [ControllerDelete (flutter_controller_ w)] s)).
Proof using HQ.
  intros Ho Hd Hh Hc Hn. apply Z.eqb_neq in Hc, Hn.
  unfold Destroy, OnDestroy. qrun. rewrite Hd.
  unfold FlutterWindow_OnDestroy, reset_controller, Win32Window_OnDestroy. qrun. rewrite Hc. qrun.
  rewrite Hc. qrun.
  erewrite bind_self by (rewrite did_objects; cbn; apply lookup_insert_eq).
  cbn [window_handle_ set_controller]. rewrite Hh. cbn [Z.eqb]. rewrite bind_returned.
  unfold bind, get. rewrite did_count. cbn [g_active_window_count with_objects]. rewrite Hn.
  unfold ret. by rewrite did_with_objects.
Qed.

(** When no callback interferes, WM_DESTROY for a window that has its view
    controller and is counted, unless the engine consumes the message, clears
    the window handle, releases the view controller, and posts the quit message
    if and only if the window was asked to quit on close; nothing else is
    called.  From then on a message the window does not handle itself is passed
    to [DefWindowProc] with a null handle in place of the window the message is
    for, and WM_FONTCHANGE goes through the null controller. *)
Theorem destroy_message_closes (this hwnd wparam : Z) (lparam : LPARAM) (w : Window) (s : state) :
  objects s !! this = Some w -> dynamic_type w = dFlutterWindow ->
  flutter_controller_ w <> 0 -> g_active_window_count s <> 0 ->
  let c := flutter_controller_ w in
  let offer := ControllerHandleTopLevelWindowProc c hwnd WM_DESTROY wparam lparam in
  answer (ECall offer :: log s) offer = None ->
  let s' := with_objects (<[this := set_controller 0 (set_handle 0 w)]> (objects s))
    (did ([offer; ControllerDelete c] ++ (if quit_on_close_ w then [PostQuitMessage 0] else [])) s) in
  MessageHandler this hwnd WM_DESTROY wparam lparam s = Ok 0 s' /\
  (forall msg wparam lparam,
     msg ∉ [WM_DESTROY; WM_DPICHANGED; WM_SIZE; WM_ACTIVATE;
            WM_DWMCOLORIZATIONCOLORCHANGED; WM_FONTCHANGE] ->
     let def := DefWindowProc 0 msg wparam lparam in
     MessageHandler this hwnd msg wparam lparam s' =
       Ok (answer (ECall def :: log s') def) (did [def] s')) /\
  (forall wparam lparam, MessageHandler this hwnd WM_FONTCHANGE wparam lparam s' =
     Undefined NullController s').
Proof using HQ.
  intros Ho Hd Hc Hn c offer Ha s'. apply Z.eqb_neq in Hc as Hc'.
  assert (Ho' : objects s' !! this = Some (set_controller 0 (set_handle 0 w)))
    by apply lookup_insert_eq.
  split; [|split].
  - unfold MessageHandler. qrun. rewrite Hd. unfold FlutterWindow_MessageHandler.
    qrun. rewrite Hc'. qrun. fold c offer. rewrite Ha.
    unfold Win32Window_MessageHandler. eval_tests. qrun.
    erewrite bind_Ok by (apply (Destroy_closed this (set_handle 0 w)); cbn; auto;
      apply lookup_insert_eq).
    erewrite bind_self by (cbn; apply lookup_insert_eq).
    cbn [quit_on_close_ set_controller set_handle]. unfold s'.
    destruct (quit_on_close_ w); qrun; cbn [objects with_objects did app];
      by rewrite insert_insert_eq, ?did_objects.
  - intros msg wp lp Hm def. rewrite !not_elem_of_cons in Hm.
    unfold MessageHandler. qrun. cbn [dynamic_type set_controller set_handle]. rewrite Hd.
    unfold FlutterWindow_MessageHandler. qrun. cbn [flutter_controller_ set_controller]. cbn [Z.eqb].
    qrun. destruct (Z.eqb_spec msg WM_FONTCHANGE) as [->|_]; [naive_solver|]. qrun.
    unfold Win32Window_MessageHandler.
    repeat match goal with |- context [msg =? ?k] =>
      destruct (Z.eqb_spec msg k) as [->|_]; [naive_solver|] end.
    qrun. done.
  - intros wp lp. unfold MessageHandler. qrun. cbn [dynamic_type set_controller set_handle].
    rewrite Hd. unfold FlutterWindow_MessageHandler. qrun.
    cbn [flutter_controller_ set_controller Z.eqb]. qrun. eval_tests. unfold controller.
    qrun. done.
Qed.
End Quiet.

(** ** Geometry *)

(** For every resolution from 1 to 1000 dots per inch the double-precision
    scaling of [Create] is exact on the coordinates and sizes of [wWinMain]: 10,
    1280 and 720 are scaled by dpi/96 and rounded down, and the window is
    created with these values. *)
Theorem main_window_geometry (this dpi inst : Z) :
  1 <= dpi <= 1000 ->
  let scale_factor := SFdiv 53 1024 (double_of_int dpi) (double_of_int 96) in
  Scale 10 scale_factor = 10 * dpi / 96 /\ Scale 1280 scale_factor = 1280 * dpi / 96 /\
  Scale 720 scale_factor = 720 * dpi / 96 /\
  main_window this dpi inst =
    CreateWindow kWindowClassName "BOUSSELHA CARS" WS_OVERLAPPEDWINDOW
      (10 * dpi / 96) (10 * dpi / 96) (1280 * dpi / 96) (720 * dpi / 96) 0 0 inst this.
Proof.
  intros Hd scale_factor.
  assert (Hall : forallb (fun n => let d := Z.of_nat n in
      (scaled 10 d =? 10 * d / 96) && (scaled 1280 d =? 1280 * d / 96) &&
      (scaled 720 d =? 720 * d / 96)) (seq 1 1000) = true) by (vm_compute; reflexivity).
  rewrite forallb_forall in Hall. specialize (Hall (Z.to_nat dpi)).
  rewrite in_seq, Z2Nat.id in Hall by lia. specialize (Hall ltac:(lia)).
  apply andb_true_iff in Hall as [[H1 H2]%andb_true_iff H3]. apply Z.eqb_eq in H1, H2, H3.
  unfold main_window. by rewrite H1, H2, H3.
Qed.

Lemma main_window_geometry_witness :
  main_window 1000 144 7 =
    CreateWindow kWindowClassName "BOUSSELHA CARS" WS_OVERLAPPEDWINDOW
      15 15 1920 1080 0 0 7 1000.
Proof. exact (proj2 (proj2 (proj2 (main_window_geometry 1000 144 7 ltac:(lia))))). Defined.

(** ** A concrete quiet system *)

Definition quiet_os : OS := {| next _ _ := None; answer := demo_answer |}.
Definition quiet_os_quiet : @QuietOS quiet_os := fun _ _ => eq_refl.

Definition hosted : Window := mkWindow dFlutterWindow true 100 200 (mkProject "data" []) 300.
Definition hosting : state := mkState 1 (Some true) {[1000 := hosted]} [].

Lemma layout_messages_witness :
  @Win32Window_MessageHandler (@quiet_system quiet_os 0) 1000 100 WM_SIZE 0 (Lvalue 0) hosting =
    Ok 0 (did [GetClientRect 100; MoveWindow 200 0 0 1264 681 1] hosting).
Proof.
  destruct (@layout_messages quiet_os quiet_os_quiet 0 1000 100 0 (Lvalue 0) (mkRECT 0 0 1 1)
    hosted hosting eq_refl ltac:(discriminate)) as [H _]. exact H.
Defined.

Lemma destroy_message_closes_witness :
  @MessageHandler (@quiet_system quiet_os 0) 1000 100 WM_DESTROY 0 (Lvalue 0) hosting =
    Ok 0 (with_objects {[1000 := set_controller 0 (set_handle 0 hosted)]}
      (did [ControllerHandleTopLevelWindowProc 300 100 WM_DESTROY 0 (Lvalue 0);
            ControllerDelete 300; PostQuitMessage 0] hosting)).
Proof.
  destruct (@destroy_message_closes quiet_os quiet_os_quiet 0 1000 100 0 (Lvalue 0) hosted hosting
    eq_refl eq_refl ltac:(discriminate) ltac:(discriminate) eq_refl) as [H _]. exact H.
Defined.
