(* ===== verification/Rental.v ===== *)
(** The data of the rental service (src/bousselha-backend): enumerations,
    entities, requests, and transactions on the database.

    A table maps ids to rows.  Entities that a service reads are managed by the
    persistence context: within a transaction there is one object per row, what
    is set on it is written to its row, and queries see it.  So an entity is its
    id, reading a property reads the row and setting one updates it.  A service
    method is a transaction: an exception undoes its writes to the tables, but
    neither the numbers taken from the id generators nor the clock.

    Transactions run one after the other.  Times are nanoseconds and dates are
    days on the local time line; amounts are numbers of cents (DECIMAL(19, 2)).
    The rounding of DATETIME columns to seconds, the lengths of VARCHAR columns
    and the audit columns of cars and clients are left out. *)
From S2P Require Import Prelude.
From stdpp Require Export strings pretty relations sorting.
Open Scope Z_scope.

(** * Enumerations *)

Module CarStatus.
Inductive t := AVAILABLE | RENTED | MAINTENANCE.
End CarStatus.

Module ContractStatus.
Inductive t := IN_PROGRESS | ACTIVE | COMPLETED | CANCELLED.
End ContractStatus.

Module MaintenanceStatus.
Inductive t := IN_PROGRESS | COMPLETED.
End MaintenanceStatus.

Module FuelType.
Inductive t := ESSENCE | DIESEL.
End FuelType.

Module IncomeSource.
Inductive t := CONTRACT | PAYMENT | OTHER.
End IncomeSource.

Module ExpenseSource.
Inductive t := MAINTENANCE | OTHER.
End ExpenseSource.

#[export] Instance CarStatus_eq_dec : EqDecision CarStatus.t.
Proof. solve_decision. Defined.
#[export] Instance ContractStatus_eq_dec : EqDecision ContractStatus.t.
Proof. solve_decision. Defined.
#[export] Instance MaintenanceStatus_eq_dec : EqDecision MaintenanceStatus.t.
Proof. solve_decision. Defined.

(** * Times *)

Definition day : Z := 24 * 60 * 60 * 10 ^ 9.
Definition toLocalDate (t : Z) : Z := t / day.
Definition atStartOfDay (d : Z) : Z := d * day.

(** [a.isBefore(b)], [a.isAfter(b)] *)
Definition isBefore (a b : Z) : bool := a <? b.
Definition isAfter (a b : Z) : bool := b <? a.

(** * Entities *)

Record Car := mkCar {
  brand : string;
  fuelType : FuelType.t;
  matricule : string;
  nextInspectionDate : option Z;
  lastOilChangeDate : option Z;
  insuranceExpiryDate : option Z;
  mileage : option Z;
  mileageUpdatedAt : option Z;
  imageUrl : option string;
  car_status : CarStatus.t }.

(** The columns of a client, which are those of a request. *)
Record Client := mkClient {
  fullName : string;
  birthDate : option Z;
  addressMorocco : option string;
  addressAbroad : option string;
  profession : option string;
  drivingLicenseNumber : option string;
  drivingLicenseIssuedAt : option string;
  cinNumber : option string;
  passportNumber : option string;
  passportIssuedAt : option Z;
  phone : option string;
  additionalDriverFullName : option string;
  additionalDriverDrivingLicenseNumber : option string;
  additionalDriverDrivingLicenseIssuedAt : option Z;
  additionalDriverPassportNumber : option string }.

(** The columns of a contract that a request carries. *)
Record ContractFields := mkFields {
  additionalDriverName : option string;
  additionalDriverLicense : option string;
  additionalDriverPassport : option string;
  departurePlace : option string;
  returnPlace : option string;
  departureDatetime : option Z;
  expectedReturnDatetime : option Z;
  actualReturnDatetime : option Z;
  durationDays : option Z;
  pricePerDay : option Z;
  pricePerWeek : option Z;
  pricePerMonth : option Z;
  pricePerHour : option Z;
  withInsurance : option bool;
  totalPrice : option Z;
  supplement : option Z;
  totalGeneral : option Z;
  paymentCash : option Z;
  paymentCheck : option Z;
  paymentDeposit : option Z;
  vehicleConditionDeparture : option string;
  vehicleConditionReturn : option string;
  damagesIdentified : option string }.

Record Contract := mkContract {
  contract_car : Z;
  contract_client : Z;
  fields : ContractFields;
  contract_status : ContractStatus.t;
  deleted : bool;
  contract_createdAt : option Z }.

Record ContractRequest := mkContractRequest {
  request_carId : Z;
  request_clientId : Z;
  request_fields : ContractFields }.

Record Maintenance := mkMaintenance {
  maintenance_car : Z;
  maintenance_type : option string;
  maintenance_description : option string;
  startDate : option Z;
  endDate : option Z;
  cost : option Z;
  maintenance_status : option MaintenanceStatus.t;
  maintenance_createdAt : option Z }.

Record MaintenanceRequest := mkMaintenanceRequest {
  mreq_carId : Z;
  mreq_type : option string;
  mreq_description : option string;
  mreq_startDate : option Z;
  mreq_endDate : option Z;
  mreq_cost : option Z;
  mreq_status : option MaintenanceStatus.t }.

Record IncomeRecord := mkIncome {
  income_amount : Z;
  income_recordedAt : Z;
  income_source : IncomeSource.t;
  income_description : option string;
  income_contractId : option Z;
  income_clientId : option Z;
  income_clientName : option string;
  income_createdBy : string }.

Record ExpenseRecord := mkExpense {
  expense_amount : Z;
  expense_recordedAt : Z;
  expense_source : ExpenseSource.t;
  expense_category : option string;
  expense_description : option string;
  expense_maintenanceId : option Z;
  expense_carName : option string;
  expense_createdBy : string }.

Record CarRequest := mkCarRequest {
  creq_brand : string;
  creq_fuelType : FuelType.t;
  creq_matricule : string;
  creq_nextInspectionDate : option Z;
  creq_lastOilChangeDate : option Z;
  creq_insuranceExpiryDate : option Z;
  creq_mileage : option Z;
  creq_status : option CarStatus.t }.

(** A response shows columns of a row and of the rows it refers to: it is those
    rows. *)
Record ContractResponse := mkContractResponse {
  response_id : Z;
  response_contract : Contract;
  response_car : Car;
  response_client : Client }.

Record MaintenanceResponse := mkMaintenanceResponse {
  mres_id : Z;
  mres_maintenance : Maintenance;
  mres_car : Car }.

(** ** Setters *)

Definition car_setStatus (s : CarStatus.t) (c : Car) : Car :=
  mkCar (brand c) (fuelType c) (matricule c) (nextInspectionDate c) (lastOilChangeDate c)
    (insuranceExpiryDate c) (mileage c) (mileageUpdatedAt c) (imageUrl c) s.

Definition setStatus (s : ContractStatus.t) (c : Contract) : Contract :=
  mkContract (contract_car c) (contract_client c) (fields c) s (deleted c) (contract_createdAt c).
Definition setDeleted (b : bool) (c : Contract) : Contract :=
  mkContract (contract_car c) (contract_client c) (fields c) (contract_status c) b (contract_createdAt c).
Definition setCarClient (car client : Z) (c : Contract) : Contract :=
  mkContract car client (fields c) (contract_status c) (deleted c) (contract_createdAt c).
Definition setFields (f : ContractFields) (c : Contract) : Contract :=
  mkContract (contract_car c) (contract_client c) f (contract_status c) (deleted c) (contract_createdAt c).

Definition setActualReturnDatetime (t : option Z) (f : ContractFields) : ContractFields :=
  mkFields (additionalDriverName f) (additionalDriverLicense f) (additionalDriverPassport f)
    (departurePlace f) (returnPlace f) (departureDatetime f) (expectedReturnDatetime f) t
    (durationDays f) (pricePerDay f) (pricePerWeek f) (pricePerMonth f) (pricePerHour f)
    (withInsurance f) (totalPrice f) (supplement f) (totalGeneral f) (paymentCash f)
    (paymentCheck f) (paymentDeposit f) (vehicleConditionDeparture f) (vehicleConditionReturn f)
    (damagesIdentified f).

(** * Database *)

Record db := mkDb {
  cars : gmap Z Car;
  clients : gmap Z Client;
  contracts : gmap Z Contract;
  maintenances : gmap Z Maintenance;
  incomes : gmap Z IncomeRecord;
  expenses : gmap Z ExpenseRecord }.

Definition with_cars f d := mkDb (f (cars d)) (clients d) (contracts d) (maintenances d) (incomes d) (expenses d).
Definition with_clients f d := mkDb (cars d) (f (clients d)) (contracts d) (maintenances d) (incomes d) (expenses d).
Definition with_contracts f d := mkDb (cars d) (clients d) (f (contracts d)) (maintenances d) (incomes d) (expenses d).
Definition with_maintenances f d := mkDb (cars d) (clients d) (contracts d) (f (maintenances d)) (incomes d) (expenses d).
Definition with_incomes f d := mkDb (cars d) (clients d) (contracts d) (maintenances d) (f (incomes d)) (expenses d).
Definition with_expenses f d := mkDb (cars d) (clients d) (contracts d) (maintenances d) (incomes d) (f (expenses d)).

(** What the database server decides: the order in which rows of a table come
    when none is asked for, the order of rows with equal keys in a descending
    one (NULL comes last), and which registrations its collation takes for
    equal. *)
Class Database := {
  scan : forall {A}, gmap Z A -> list (Z * A);
  order_by_desc : forall {A}, (A -> option Z) -> list (Z * A) -> list (Z * A);
  same_text : string -> string -> bool }.

(** In a descending order, [a] may come before [b]. *)
Definition desc (a b : option Z) : Prop :=
  match a, b with
  | _, None => True
  | None, Some _ => False
  | Some x, Some y => y <= x
  end.
Class LawfulDatabase `{Database} : Prop := {
  scan_rows : forall A (m : gmap Z A), scan m ≡ₚ map_to_list m;
  order_by_desc_rows : forall A (key : A -> option Z) l, order_by_desc key l ≡ₚ l;
  order_by_desc_sorted : forall A (key : A -> option Z) l,
    Sorted (fun p q => desc (key p.2) (key q.2)) (order_by_desc key l);
  same_text_refl : forall s, same_text s s = true }.

(** * Transactions *)

Inductive exn :=
| ResourceNotFound (message : string)
| IllegalArgument (message : string)
| NullPointer
| EntityNotFound            (* a reference to a row that is not there *)
| IncorrectResultSize       (* several rows for an Optional *)
| DataIntegrityViolation    (* a unique or foreign key *)
| UnexpectedRollback.       (* a commit after a nested call has failed *)

Inductive table := Cars | Clients | Contracts | Maintenances | Incomes | Expenses.
#[export] Instance table_eq_dec : EqDecision table.
Proof. solve_decision. Defined.

Record world := mkWorld { data : db; seq : table -> Z; tick : nat; rollback_only : bool }.

Inductive outcome (A : Type) := Ok (a : A) (w : world) | Throw (e : exn) (w : world).
Arguments Ok {A}. Arguments Throw {A}.

Definition T (A : Type) : Type := world -> outcome A.
Definition ret {A} (a : A) : T A := fun w => Ok a w.
Definition bind {A B} (c : T A) (k : A -> T B) : T B := fun w =>
  match c w with Ok a w => k a w | Throw e w => Throw e w end.
Definition throw {A} (e : exn) : T A := fun w => Throw e w.

Declare Scope rental_scope.
Delimit Scope rental_scope with rental.
Notation "'let*' x := c 'in' k" := (bind c (fun x => k))
  (at level 200, x name, c at level 100, k at level 200) : rental_scope.
Notation "c ;;; k" := (bind c (fun _ => k))
  (at level 100, k at level 200, right associativity) : rental_scope.
Open Scope rental_scope.

Definition get : T db := fun w => Ok (data w) w.
Definition modify (f : db -> db) : T unit := fun w => Ok tt (mkWorld (f (data w)) (seq w) (tick w) (rollback_only w)).
Definition or_throw {A} (e : exn) (o : option A) : T A :=
  match o with Some a => ret a | None => throw e end.
Definition when (b : bool) (c : T unit) : T unit := if b then c else ret tt.

(** The next number of a table's generator. *)
Definition new_id (t : table) : T Z := fun w =>
  Ok (seq w t) (mkWorld (data w) (fun u => if decide (u = t) then seq w t + 1 else seq w u) (tick w)
    (rollback_only w)).

(** [LocalDateTime.now()]: the next reading of the clock. *)
Class Clock := clock : nat -> Z.
Definition now `{Clock} : T Z := fun w =>
  Ok (clock (tick w)) (mkWorld (data w) (seq w) (S (tick w)) (rollback_only w)).
Definition today `{Clock} : T Z := let* t := now in ret (toLocalDate t).

(** A call of a [@Transactional] service from outside: it opens a transaction,
    and an exception that leaves it, or the mark that a nested call has left,
    undoes its writes. *)
Definition transactional {A} (c : T A) : T A := fun w =>
  let undo w' := mkWorld (data w) (seq w') (tick w') false in
  match c (mkWorld (data w) (seq w) (tick w) false) with
  | Ok a w' => if rollback_only w' then Throw UnexpectedRollback (undo w') else Ok a w'
  | Throw e w' => Throw e (undo w')
  end.

(** A call from one such service to another takes part in the transaction: an
    exception that leaves it marks the transaction. *)
Definition participating {A} (c : T A) : T A := fun w =>
  match c w with
  | Ok a w' => Ok a w'
  | Throw e w' => Throw e (mkWorld (data w') (seq w') (tick w') true)
  end.

(** [try { c } catch (Exception e) { log }] *)
Definition try_log (c : T unit) : T unit := fun w =>
  match c w with Ok _ w' | Throw _ w' => Ok tt w' end.

(** [for (x : l) body(x)], and [l.stream().anyMatch(p)] *)
Fixpoint for_each {A} (l : list A) (body : A -> T unit) : T unit :=
  match l with [] => ret tt | a :: l => body a ;;; for_each l body end.
Fixpoint anyMatch {A} (p : A -> T bool) (l : list A) : T bool :=
  match l with
  | [] => ret false
  | a :: l => let* b := p a in if (b : bool) then ret true else anyMatch p l
  end.

Fixpoint mapM {A B} (f : A -> T B) (l : list A) : T (list B) :=
  match l with
  | [] => ret []
  | a :: l => let* b := f a in let* bs := mapM f l in ret (b :: bs)
  end.

(** [l.stream().sorted(cmp)], a stable sort; [le a b] is [cmp(a, b) <= 0]. *)
Fixpoint insert_sorted {A} (le : A -> A -> bool) (a : A) (l : list A) : list A :=
  match l with
  | [] => [a]
  | b :: l' => if le a b then a :: l else b :: insert_sorted le a l'
  end.
Definition sorted {A} (le : A -> A -> bool) (l : list A) : list A := foldr (insert_sorted le) [] l.
