(* ===== verification/RentalServices.v ===== *)
(** The services of the rental backend (src/bousselha-backend/.../application/service):
    FinancialService, OrphanClientService, ClientService, MaintenanceService,
    CarService, ContractService and DashboardService, one module each.

    Entities are passed as the ids of their rows.  [save] of an entity that is
    already managed writes nothing more, and is left out. *)
From S2P Require Import Prelude Rental.
From Stdlib Require Import Ascii.
Open Scope Z_scope.

(** * Queries *)

Definition exists_row {A} (p : A -> bool) (m : gmap Z A) : bool :=
  existsb (fun r => p r.2) (map_to_list m).
Definition count_rows {A} (p : A -> bool) (m : gmap Z A) : Z :=
  Z.of_nat (length (List.filter (fun r => p r.2) (map_to_list m))).
Definition find_rows `{Database} {A} (p : A -> bool) (m : gmap Z A) : list (Z * A) :=
  List.filter (fun r => p r.2) (scan m).

Definition is_open (c : Contract) : bool :=
  bool_decide (contract_status c = ContractStatus.IN_PROGRESS)
  || bool_decide (contract_status c = ContractStatus.ACTIVE).
Definition of_car (carId : Z) (c : Contract) : bool := contract_car c =? carId.
Definition of_client (clientId : Z) (c : Contract) : bool := contract_client c =? clientId.
Definition has_status (s : ContractStatus.t) (c : Contract) : bool := bool_decide (contract_status c = s).

(** [join fetch c.client join fetch c.car] *)
Definition joined (d : db) (c : Contract) : bool :=
  bool_decide (is_Some (clients d !! contract_client c)) && bool_decide (is_Some (cars d !! contract_car c)).

(** Reading and writing the row of a managed entity. *)
Definition the_car (id : Z) : T Car := let* d := get in or_throw EntityNotFound (cars d !! id).
Definition the_client (id : Z) : T Client := let* d := get in or_throw EntityNotFound (clients d !! id).
Definition the_contract (id : Z) : T Contract := let* d := get in or_throw EntityNotFound (contracts d !! id).
Definition the_maintenance (id : Z) : T Maintenance :=
  let* d := get in or_throw EntityNotFound (maintenances d !! id).

Definition set_car_status (id : Z) (s : CarStatus.t) : T unit :=
  modify (with_cars (alter (car_setStatus s) id)).
Definition set_contract (id : Z) (f : Contract -> Contract) : T unit :=
  modify (with_contracts (alter f id)).

Definition car_status_name (s : CarStatus.t) : string :=
  match s with
  | CarStatus.AVAILABLE => "AVAILABLE" | CarStatus.RENTED => "RENTED" | CarStatus.MAINTENANCE => "MAINTENANCE"
  end.
Definition contract_status_name (s : ContractStatus.t) : string :=
  match s with
  | ContractStatus.IN_PROGRESS => "IN_PROGRESS" | ContractStatus.ACTIVE => "ACTIVE"
  | ContractStatus.COMPLETED => "COMPLETED" | ContractStatus.CANCELLED => "CANCELLED"
  end.

(** * FinancialService *)

Module FinancialService.
Section service.
Context `{Database} `{Clock}.

Definition totalIncome : T Z :=
  let* d := get in ret (foldr Z.add 0 (List.map (fun r => income_amount r.2) (scan (incomes d)))).
Definition totalExpense : T Z :=
  let* d := get in ret (foldr Z.add 0 (List.map (fun r => expense_amount r.2) (scan (expenses d)))).

Definition listAllIncome : T (list (Z * IncomeRecord)) :=
  let* d := get in ret (order_by_desc (fun r => Some (income_recordedAt r)) (scan (incomes d))).
Definition listAllExpenses : T (list (Z * ExpenseRecord)) :=
  let* d := get in ret (order_by_desc (fun r => Some (expense_recordedAt r)) (scan (expenses d))).

Definition for_contract (id : Z) (r : IncomeRecord) : bool := bool_decide (income_contractId r = Some id).
Definition for_maintenance (id : Z) (r : ExpenseRecord) : bool := bool_decide (expense_maintenanceId r = Some id).

Definition recordIncomeFromContract (id : Z) : T unit :=
  let* contract := the_contract id in
  match totalGeneral (fields contract) with
  | None => ret tt
  | Some total =>
    if total <=? 0 then ret tt else
    let* d := get in
    let found := head (find_rows (for_contract id) (incomes d)) in
    let* recordedAt := now in
    let* client := the_client (contract_client contract) in
    let record := mkIncome total recordedAt IncomeSource.CONTRACT
      (Some ("Contrat #" +:+ pretty id +:+ " — " +:+ fullName client)) (Some id)
      (Some (contract_client contract)) (Some (fullName client))
      (from_option (fun r => income_createdBy r.2) "Administrateur" found) in
    let* rid := match found with Some r => ret r.1 | None => new_id Incomes end in
    modify (with_incomes (insert rid record))
  end.

Definition ensureIncomeForContract (id : Z) : T unit :=
  let* d := get in
  if exists_row (for_contract id) (incomes d) then ret tt else recordIncomeFromContract id.

Definition recordExpenseFromMaintenance (id : Z) : T unit :=
  let* maintenance := the_maintenance id in
  match cost maintenance with
  | None => ret tt
  | Some amount =>
    let* d := get in
    let* found := match find_rows (for_maintenance id) (expenses d) with
                  | [] => ret None
                  | [r] => ret (Some r)
                  | _ => throw IncorrectResultSize
                  end in
    let* recordedAt := match maintenance_createdAt maintenance with Some t => ret t | None => now end in
    let* car := the_car (maintenance_car maintenance) in
    let record := mkExpense amount recordedAt ExpenseSource.MAINTENANCE (maintenance_type maintenance)
      (maintenance_description maintenance) (Some id)
      (Some (brand car +:+ " — " +:+ matricule car))
      (from_option (fun r => expense_createdBy r.2) "Administrateur" found) in
    let* rid := match found with Some r => ret r.1 | None => new_id Expenses end in
    modify (with_expenses (insert rid record))
  end.
End service.
End FinancialService.

(** * OrphanClientService *)

Module OrphanClientService.
Definition removeClientIfOrphan (clientId : Z) : T unit :=
  let* d := get in
  if 0 <? count_rows (fun c => negb (deleted c) && of_client clientId c) (contracts d) then ret tt else
  if negb (bool_decide (is_Some (clients d !! clientId))) then ret tt else
  if 0 <? count_rows (of_client clientId) (contracts d) then ret tt else
  modify (with_clients (delete clientId)).
End OrphanClientService.

(** * ClientService *)

Module ClientService.
Section service.
Context `{Database}.

Definition getClient (id : Z) : T Client :=
  let* d := get in or_throw (ResourceNotFound ("Client not found: " +:+ pretty id)) (clients d !! id).

Definition findAll : T (list (Z * Client)) :=
  let* d := get in
  ret (List.filter (fun r => 0 <? count_rows (fun c => negb (deleted c) && of_client r.1 c) (contracts d))
         (scan (clients d))).
Definition findById (id : Z) : T (Z * Client) := let* client := getClient id in ret (id, client).

Definition create (request : Client) : T (Z * Client) :=
  let* id := new_id Clients in
  modify (with_clients (insert id request)) ;;;
  ret (id, request).

Definition update (id : Z) (request : Client) : T (Z * Client) :=
  getClient id ;;;
  modify (with_clients (insert id request)) ;;;
  ret (id, request).

Definition delete (id : Z) : T unit :=
  getClient id ;;;
  let* d := get in
  if exists_row (fun c => of_client id c && negb (deleted c) && is_open c) (contracts d)
  then throw (IllegalArgument "Impossible de supprimer : client a des contrats en cours")
  else participating (OrphanClientService.removeClientIfOrphan id).
End service.
End ClientService.

(** * MaintenanceService *)

Module MaintenanceService.
Section service.
Context `{Database} `{Clock}.

Definition getCar (id : Z) : T Car :=
  let* d := get in or_throw (ResourceNotFound ("Car not found: " +:+ pretty id)) (cars d !! id).
Definition getMaintenance (id : Z) : T Maintenance :=
  let* d := get in or_throw (ResourceNotFound ("Maintenance not found: " +:+ pretty id)) (maintenances d !! id).

Definition isOngoing (m : Maintenance) : T bool :=
  if decide (maintenance_status m = Some MaintenanceStatus.COMPLETED) then ret false else
  let* today := today in
  if from_option (fun start => isAfter start today) false (startDate m) then ret false else
  if from_option (fun stop => isBefore stop today) false (endDate m) then ret false else
  ret true.

Definition rowsOfCar (carId : Z) (d : db) : list (Z * Maintenance) :=
  find_rows (fun m => maintenance_car m =? carId) (maintenances d).

Definition hasOngoingMaintenance (carId : Z) : T bool :=
  let* d := get in anyMatch (fun r => isOngoing r.2) (rowsOfCar carId d).

Definition reconcileCarStatus (carId : Z) : T unit :=
  let* car := the_car carId in
  if decide (car_status car = CarStatus.RENTED) then ret tt else
  let* d := get in
  let* hasOngoing := anyMatch (fun r => isOngoing r.2) (rowsOfCar carId d) in
  if (hasOngoing : bool)
  then when (bool_decide (car_status car <> CarStatus.MAINTENANCE))
         (set_car_status carId CarStatus.MAINTENANCE)
  else when (bool_decide (car_status car = CarStatus.MAINTENANCE))
         (set_car_status carId CarStatus.AVAILABLE).

Definition reconcileAllCarStatuses : T unit :=
  let* d := get in for_each (scan (cars d)) (fun r => reconcileCarStatus r.1).

Definition apply (m : Maintenance) (request : MaintenanceRequest) : Maintenance :=
  mkMaintenance (maintenance_car m) (mreq_type request) (mreq_description request)
    (mreq_startDate request) (mreq_endDate request) (mreq_cost request)
    (match mreq_status request, maintenance_status m with
     | Some s, _ => Some s
     | None, None => Some MaintenanceStatus.IN_PROGRESS
     | None, Some s => Some s
     end)
    (maintenance_createdAt m).

Definition setCar (carId : Z) (m : Maintenance) : Maintenance :=
  mkMaintenance carId (maintenance_type m) (maintenance_description m) (startDate m) (endDate m) (cost m)
    (maintenance_status m) (maintenance_createdAt m).
Definition setCreatedAt (t : Z) (m : Maintenance) : Maintenance :=
  mkMaintenance (maintenance_car m) (maintenance_type m) (maintenance_description m) (startDate m)
    (endDate m) (cost m) (maintenance_status m) (Some t).
(** [setStatus(COMPLETED)] and the end date it gets *)
Definition close (today : Z) (m : Maintenance) : Maintenance :=
  mkMaintenance (maintenance_car m) (maintenance_type m) (maintenance_description m) (startDate m)
    (Some (default today (endDate m))) (cost m) (Some MaintenanceStatus.COMPLETED) (maintenance_createdAt m).
(** [new Maintenance()] with its car *)
Definition blank (carId : Z) : Maintenance :=
  mkMaintenance carId None None None None None (Some MaintenanceStatus.IN_PROGRESS) None.

Definition toResponse (r : Z * Maintenance) : T MaintenanceResponse :=
  let* car := the_car (maintenance_car r.2) in ret (mkMaintenanceResponse r.1 r.2 car).
Definition respond (id : Z) : T MaintenanceResponse :=
  let* m := the_maintenance id in toResponse (id, m).

Definition findAll : T (list MaintenanceResponse) :=
  reconcileAllCarStatuses ;;;
  let* d := get in mapM toResponse (scan (maintenances d)).

Definition findByCarId (carId : Z) : T (list MaintenanceResponse) :=
  getCar carId ;;;
  reconcileCarStatus carId ;;;
  let* d := get in mapM toResponse (rowsOfCar carId d).

Definition create (request : MaintenanceRequest) : T MaintenanceResponse :=
  let carId := mreq_carId request in
  getCar carId ;;;
  let maintenance := apply (blank carId) request in
  let* id := new_id Maintenances in
  let* createdAt := now in
  modify (with_maintenances (insert id (setCreatedAt createdAt maintenance))) ;;;
  reconcileCarStatus carId ;;;
  participating (FinancialService.recordExpenseFromMaintenance id) ;;;
  respond id.

Definition update (id : Z) (request : MaintenanceRequest) : T MaintenanceResponse :=
  let* maintenance := getMaintenance id in
  if bool_decide (mreq_status request = Some MaintenanceStatus.COMPLETED)
     && bool_decide (maintenance_status maintenance <> Some MaintenanceStatus.COMPLETED)
  then throw (IllegalArgument "USE_COMPLETE_ENDPOINT") else
  let carId := mreq_carId request in
  getCar carId ;;;
  modify (with_maintenances (insert id (apply (setCar carId maintenance) request))) ;;;
  reconcileCarStatus carId ;;;
  participating (FinancialService.recordExpenseFromMaintenance id) ;;;
  respond id.

Definition complete (id : Z) : T MaintenanceResponse :=
  let* maintenance := getMaintenance id in
  if decide (maintenance_status maintenance = Some MaintenanceStatus.COMPLETED)
  then throw (IllegalArgument "MAINTENANCE_ALREADY_COMPLETED") else
  let* today := today in
  modify (with_maintenances (insert id (close today maintenance))) ;;;
  reconcileCarStatus (maintenance_car maintenance) ;;;
  participating (FinancialService.recordExpenseFromMaintenance id) ;;;
  respond id.

Definition delete (id : Z) : T unit :=
  let* maintenance := getMaintenance id in
  modify (with_maintenances (base.delete id)) ;;;
  reconcileCarStatus (maintenance_car maintenance).
End service.
End MaintenanceService.

(** * CarService *)

(** An uploaded file, what [UUID.randomUUID()] gives and what copying a file to
    a name of the uploads directory says (the message of an IOException). *)
Record MultipartFile := mkFile { originalFilename : option string; isEmpty : bool }.
Class Uploads := {
  randomUUID : nat -> string;
  copy : nat -> MultipartFile -> string -> option string }.

Definition to_lower (c : ascii) : ascii :=
  let n := Ascii.nat_of_ascii c in
  if (65 <=? n)%nat && (n <=? 90)%nat then Ascii.ascii_of_nat (n + 32) else c.
Fixpoint toLowerCase (s : string) : string :=
  match s with EmptyString => EmptyString | String c s => String (to_lower c) (toLowerCase s) end.

(** [s.substring(s.lastIndexOf('.'))], if there is a dot *)
Fixpoint from_last_dot (s : string) : option string :=
  match s with
  | EmptyString => None
  | String c s' =>
    match from_last_dot s' with
    | Some ext => Some ext
    | None => if Ascii.eqb c "." then Some s else None
    end
  end.

Record CarAvailabilityResponse := mkAvailability {
  av_carId : Z;
  av_car : Car;
  currentStatus : CarStatus.t;
  av_label : string }.

Record CarHistoryItemResponse := mkHistoryItem {
  item_type : string;
  item_label : option string;
  item_startDate : option Z;
  item_endDate : option Z;
  item_amount : option Z;
  item_status : string }.

Module CarService.
Definition LocalDate_MIN : Z := -365243219162.
Definition LocalDate_MAX : Z := 365241780471.

Definition maintenanceCoversDate (m : Maintenance) (date : Z) : bool :=
  let start := default LocalDate_MIN (startDate m) in
  let stop := default LocalDate_MAX (endDate m) in
  negb (isBefore date start) && negb (isAfter date stop).

Definition contractCoversDate (c : Contract) (date : Z) : bool :=
  match departureDatetime (fields c) with
  | None => false
  | Some departure =>
    let start := toLocalDate departure in
    let endDt := match actualReturnDatetime (fields c) with
                 | Some t => Some t
                 | None => expectedReturnDatetime (fields c)
                 end in
    match endDt with
    | None => negb (isBefore date start)
    | Some t =>
      let stop := toLocalDate t in
      if bool_decide (contract_status c = ContractStatus.COMPLETED) && isAfter date stop then false
      else negb (isBefore date start) && negb (isAfter date stop)
    end
  end.

Section service.
Context `{Database} `{Clock} `{Uploads}.

Definition getCar (id : Z) : T Car :=
  let* d := get in or_throw (ResourceNotFound ("Car not found: " +:+ pretty id)) (cars d !! id).

Definition storeImage (image : MultipartFile) : T string := fun w =>
  let original := default "image.jpg" (originalFilename image) in
  let ext := from_option toLowerCase EmptyString (from_last_dot original) in
  if negb (existsb (String.eqb ext) [".jpg"; ".jpeg"; ".png"])
  then Throw (IllegalArgument "Unsupported image format") w
  else
    let filename := randomUUID (tick w) +:+ ext in
    let w' := mkWorld (data w) (seq w) (S (tick w)) (rollback_only w) in
    match copy (tick w) image filename with
    | Some message => Throw (IllegalArgument ("Unable to store image: " +:+ message)) w'
    | None => Ok ("/uploads/cars/" +:+ filename) w'
    end.

(** The mileage of a car, [None] standing for one that is not saved yet. *)
Definition applyMileage (id : option Z) (car : Car) (requestedMileage : option Z) : T (option Z * option Z) :=
  match requestedMileage with
  | None => throw (IllegalArgument "MILEAGE_REQUIRED")
  | Some m =>
    if m <? 0 then throw (IllegalArgument "MILEAGE_MUST_BE_POSITIVE") else
    let current := default 0 (mileage car) in
    if bool_decide (is_Some id) && (m <? current)
    then throw (IllegalArgument "MILEAGE_CANNOT_DECREASE") else
    if bool_decide (id = None) || bool_decide (mileage car <> Some m)
    then let* t := now in ret (Some m, Some t)
    else ret (mileage car, mileageUpdatedAt car)
  end.

Definition apply (id : option Z) (car : Car) (request : CarRequest) (image : option MultipartFile)
    (allowStatusOnCreate : bool) : T Car :=
  let* reading := applyMileage id car (creq_mileage request) in
  let* url := match image with
              | Some file => if isEmpty file then ret (imageUrl car)
                             else let* u := storeImage file in ret (Some u)
              | None => ret (imageUrl car)
              end in
  ret (mkCar (creq_brand request) (creq_fuelType request) (creq_matricule request)
         (creq_nextInspectionDate request) (creq_lastOilChangeDate request)
         (creq_insuranceExpiryDate request) reading.1 reading.2 url
         (if allowStatusOnCreate then default CarStatus.AVAILABLE (creq_status request) else car_status car)).

(** Whether another car has the registration ([uk_cars_matricule]). *)
Definition taken (id : Z) (text : string) (d : db) : bool :=
  existsb (fun r => negb (r.1 =? id) && same_text (matricule r.2) text) (map_to_list (cars d)).

Definition save (id : Z) (car : Car) : T (Z * Car) :=
  let* d := get in
  if taken id (matricule car) d then throw DataIntegrityViolation else
  modify (with_cars (insert id car)) ;;;
  ret (id, car).

(** [new Car()]; [apply] sets the columns that it leaves null. *)
Definition blank : Car :=
  mkCar "" FuelType.ESSENCE "" None None None (Some 0) None None CarStatus.AVAILABLE.

Definition findAll : T (list (Z * Car)) :=
  participating MaintenanceService.reconcileAllCarStatuses ;;;
  let* d := get in ret (scan (cars d)).

Definition findById (id : Z) : T (Z * Car) :=
  getCar id ;;;
  participating (MaintenanceService.reconcileCarStatus id) ;;;
  let* car := the_car id in ret (id, car).

Definition findByStatus (s : CarStatus.t) : T (list (Z * Car)) :=
  participating MaintenanceService.reconcileAllCarStatuses ;;;
  let* d := get in ret (find_rows (fun c => bool_decide (car_status c = s)) (cars d)).

Definition create (request : CarRequest) (image : option MultipartFile) : T (Z * Car) :=
  let* car := apply None blank request image true in
  if bool_decide (car_status car <> CarStatus.AVAILABLE)
  then throw (IllegalArgument "NEW_CAR_MUST_BE_AVAILABLE") else
  let* id := new_id Cars in
  save id car.

Definition update (id : Z) (request : CarRequest) (image : option MultipartFile) : T (Z * Car) :=
  let* car := getCar id in
  let* car' := apply (Some id) car request image false in
  save id (car_setStatus (car_status car) car').

Definition markAvailable (id : Z) : T (Z * Car) :=
  let* car := getCar id in
  let current := car_status car in
  if bool_decide (current <> CarStatus.RENTED) && bool_decide (current <> CarStatus.MAINTENANCE)
  then throw (IllegalArgument "ONLY_RENTED_OR_MAINTENANCE_CAN_BECOME_AVAILABLE") else
  let* unfinished := if decide (current = CarStatus.MAINTENANCE)
                     then participating (MaintenanceService.hasOngoingMaintenance id) else ret false in
  if (unfinished : bool) then throw (IllegalArgument "MAINTENANCE_NOT_FINISHED") else
  let* d := get in
  if bool_decide (current = CarStatus.RENTED)
     && exists_row (fun c => of_car id c && negb (deleted c) && is_open c) (contracts d)
  then throw (IllegalArgument "CAR_HAS_ACTIVE_CONTRACT") else
  set_car_status id CarStatus.AVAILABLE ;;;
  ret (id, car_setStatus CarStatus.AVAILABLE car).

Definition delete (id : Z) : T unit :=
  getCar id ;;;
  let* d := get in
  if exists_row (fun c => of_car id c && negb (deleted c) && is_open c) (contracts d)
  then throw (IllegalArgument "Impossible : voiture avec contrat en cours") else
  if (0 <? count_rows (of_car id) (contracts d))
     || (0 <? count_rows (fun m => maintenance_car m =? id) (maintenances d))
  then throw (IllegalArgument "CAR_HAS_RENTAL_HISTORY") else
  modify (with_cars (base.delete id)).

Definition availabilityOfCar (contracts : list (Z * Contract)) (maintenances : list (Z * Maintenance))
    (date : Z) (car : Z * Car) : CarAvailabilityResponse :=
  if existsb (fun m => maintenanceCoversDate m.2 date)
       (List.filter (fun m => maintenance_car m.2 =? car.1) maintenances)
  then mkAvailability car.1 car.2 CarStatus.MAINTENANCE "En maintenance" else
  if existsb (fun c => contractCoversDate c.2 date)
       (List.filter (fun c => has_status ContractStatus.IN_PROGRESS c.2
                              || has_status ContractStatus.ACTIVE c.2
                              || has_status ContractStatus.COMPLETED c.2)
         (List.filter (fun c => of_car car.1 c.2) contracts))
  then mkAvailability car.1 car.2 CarStatus.RENTED "Loué"
  else mkAvailability car.1 car.2 CarStatus.AVAILABLE "Disponible".

Definition availabilityOnDate (date : Z) : T (list CarAvailabilityResponse) :=
  let* d := get in
  ret (List.map (availabilityOfCar (find_rows (fun c => negb (deleted c)) (contracts d))
                   (scan (maintenances d)) date) (scan (cars d))).

Definition availableOnDate (date : Z) : T (list CarAvailabilityResponse) :=
  let* l := availabilityOnDate date in
  ret (List.filter (fun item => bool_decide (currentStatus item = CarStatus.AVAILABLE)) l).

Definition rentalItem (r : Z * Contract) : T CarHistoryItemResponse :=
  let* client := the_client (contract_client r.2) in
  let f := fields r.2 in
  ret (mkHistoryItem "RENTAL" (Some (fullName client)) (departureDatetime f)
         (match actualReturnDatetime f with Some t => Some t | None => expectedReturnDatetime f end)
         (totalGeneral f) (contract_status_name (contract_status r.2))).

Definition maintenanceItem (r : Z * Maintenance) : T CarHistoryItemResponse :=
  let* start := or_throw NullPointer (startDate r.2) in
  ret (mkHistoryItem "MAINTENANCE" (maintenance_type r.2) (Some (atStartOfDay start))
         (option_map atStartOfDay (endDate r.2)) (cost r.2) "DONE").

(** The latest first.  Sorting two items or more compares each of them, and
    comparing needs their start dates. *)
Definition latestFirst (items : list CarHistoryItemResponse) : T (list CarHistoryItemResponse) :=
  if (2 <=? length items)%nat && existsb (fun i => bool_decide (item_startDate i = None)) items
  then throw NullPointer
  else ret (sorted (fun a b => default 0 (item_startDate b) <=? default 0 (item_startDate a)) items).

Definition history (carId : Z) : T (list CarHistoryItemResponse) :=
  getCar carId ;;;
  let* d := get in
  let* rentals := mapM rentalItem
    (order_by_desc (fun c => departureDatetime (fields c))
       (find_rows (fun c => of_car carId c && joined d c) (contracts d))) in
  let* maintenance := mapM maintenanceItem (MaintenanceService.rowsOfCar carId d) in
  latestFirst (rentals ++ maintenance).
End service.
End CarService.

(** * ContractService *)

Module ContractService.

(** The columns that [apply] sets. *)
Definition apply (r : ContractRequest) : ContractFields :=
  let f := request_fields r in
  mkFields (additionalDriverName f) (additionalDriverLicense f) (additionalDriverPassport f)
    (departurePlace f) (returnPlace f) (departureDatetime f) (expectedReturnDatetime f)
    (actualReturnDatetime f) (durationDays f) (pricePerDay f) (pricePerWeek f) (pricePerMonth f)
    (pricePerHour f) (Some (bool_decide (withInsurance f = Some true))) (totalPrice f)
    (supplement f) (totalGeneral f) (paymentCash f) (paymentCheck f) (paymentDeposit f)
    (vehicleConditionDeparture f) (vehicleConditionReturn f) (damagesIdentified f).

Definition overlaps (startProposed endProposed : Z) (c : Contract) : bool :=
  match departureDatetime (fields c), expectedReturnDatetime (fields c) with
  | Some startExisting, Some endExisting =>
    isBefore startProposed endExisting && isAfter endProposed startExisting
  | _, _ => false
  end.

(** The order of reservations: by departure, those without one last. *)
Definition earlier (c1 c2 : Z * Contract) : bool :=
  match departureDatetime (fields c1.2), departureDatetime (fields c2.2) with
  | None, None => true
  | None, Some _ => false
  | Some _, None => true
  | Some a, Some b => a <=? b
  end.

Section service.
Context `{Database} `{Clock}.

Definition hasOverlappingContract (carId : Z) (startProposed endProposed : option Z)
    (excludeContractId : option Z) (d : db) : bool :=
  match startProposed, endProposed with
  | Some s, Some e =>
    existsb (fun r => overlaps s e r.2)
      (List.filter (fun r => bool_decide (excludeContractId <> Some r.1))
        (List.filter (fun r => is_open r.2)
          (find_rows (fun c => negb (deleted c) && of_car carId c) (contracts d))))
  | _, _ => false
  end.

Definition autoActivate (id : Z) : T unit :=
  let* contract := the_contract id in
  let* car := the_car (contract_car contract) in
  if decide (car_status car = CarStatus.AVAILABLE) then
    set_car_status (contract_car contract) CarStatus.RENTED ;;;
    set_contract id (setStatus ContractStatus.ACTIVE) ;;;
    participating (FinancialService.ensureIncomeForContract id)
  else ret tt.

Definition autoActivateContracts : T unit :=
  let* now := now in
  let* d := get in
  let pendingActivation :=
    List.filter (fun r => from_option (fun departure => negb (isAfter departure now)) false
                            (departureDatetime (fields r.2)))
      (find_rows (fun c => negb (deleted c) && has_status ContractStatus.IN_PROGRESS c) (contracts d)) in
  for_each pendingActivation (fun r => try_log (autoActivate r.1)).

Definition getContract (id : Z) : T Contract :=
  let* d := get in
  or_throw (ResourceNotFound ("Contract not found: " +:+ pretty id))
    (match contracts d !! id with
     | Some c => if deleted c then None else Some c
     | None => None
     end).
Definition getCar (id : Z) : T Car :=
  let* d := get in or_throw (ResourceNotFound ("Car not found: " +:+ pretty id)) (cars d !! id).
Definition getClient (id : Z) : T Client :=
  let* d := get in or_throw (ResourceNotFound ("Client not found: " +:+ pretty id)) (clients d !! id).

Definition toResponse (r : Z * Contract) : T ContractResponse :=
  let* car := the_car (contract_car r.2) in
  let* client := the_client (contract_client r.2) in
  ret (mkContractResponse r.1 r.2 car client).
Definition respond (id : Z) : T ContractResponse :=
  let* c := the_contract id in toResponse (id, c).

Definition findInProgressFutureReservations : T (list ContractResponse) :=
  autoActivateContracts ;;;
  let* d := get in
  mapM toResponse
    (sorted earlier
       (find_rows (fun c => negb (deleted c) && has_status ContractStatus.IN_PROGRESS c) (contracts d))).

Definition findAll : T (list ContractResponse) :=
  autoActivateContracts ;;;
  let* d := get in mapM toResponse (find_rows (fun c => negb (deleted c)) (contracts d)).

Definition findAllByCarId (carId : Z) : T (list ContractResponse) :=
  autoActivateContracts ;;;
  let* d := get in mapM toResponse (find_rows (fun c => negb (deleted c) && of_car carId c) (contracts d)).

Definition findCarRentalHistory (carId : Z) : T (list ContractResponse) :=
  autoActivateContracts ;;;
  let* d := get in
  mapM toResponse
    (order_by_desc (fun c => departureDatetime (fields c))
       (find_rows (fun c => of_car carId c && joined d c) (contracts d))).

Definition findById (id : Z) : T ContractResponse :=
  autoActivateContracts ;;;
  let* c := getContract id in toResponse (id, c).

Definition findActive : T (list ContractResponse) :=
  autoActivateContracts ;;;
  let* d := get in
  mapM toResponse
    (find_rows (fun c => negb (deleted c) && has_status ContractStatus.ACTIVE c) (contracts d)).

Definition already_booked (car : Car) : exn :=
  IllegalArgument ("La voiture " +:+ matricule car +:+ " est déjà réservée ou louée sur cette période.").
Definition not_available (car : Car) : exn :=
  IllegalArgument ("La voiture n'est pas disponible pour une location immédiate (statut actuel: "
                   +:+ car_status_name (car_status car) +:+ ").").

Definition create (request : ContractRequest) : T ContractResponse :=
  let carId := request_carId request in
  let f := request_fields request in
  let* car := getCar carId in
  let* d := get in
  if hasOverlappingContract carId (departureDatetime f) (expectedReturnDatetime f) None d
  then throw (already_booked car) else
  let clientId := request_clientId request in
  getClient clientId ;;;
  let* t := now in
  let* departure := or_throw NullPointer (departureDatetime f) in
  let* status :=
    if negb (isAfter departure t) then
      if bool_decide (car_status car <> CarStatus.AVAILABLE) then throw (not_available car) else
      set_car_status carId CarStatus.RENTED ;;;
      ret ContractStatus.ACTIVE
    else ret ContractStatus.IN_PROGRESS in
  let* id := new_id Contracts in
  let* createdAt := now in
  modify (with_contracts (insert id
    (mkContract carId clientId (apply request) status false (Some createdAt)))) ;;;
  when (bool_decide (status = ContractStatus.ACTIVE))
    (participating (FinancialService.ensureIncomeForContract id)) ;;;
  respond id.

Definition updateStatus (id : Z) (newStatus : ContractStatus.t) : T ContractResponse :=
  let* contract := getContract id in
  let current := contract_status contract in
  let carId := contract_car contract in
  match newStatus with
  | ContractStatus.ACTIVE =>
    if bool_decide (current <> ContractStatus.IN_PROGRESS)
    then throw (IllegalArgument "Seul un contrat IN_PROGRESS peut passer en ACTIVE") else
    let* car := the_car carId in
    if bool_decide (car_status car <> CarStatus.AVAILABLE)
    then throw (IllegalArgument ("La voiture n'est pas disponible: " +:+ matricule car)) else
    set_car_status carId CarStatus.RENTED ;;;
    set_contract id (setStatus ContractStatus.ACTIVE) ;;;
    participating (FinancialService.ensureIncomeForContract id)
  | ContractStatus.COMPLETED =>
    if bool_decide (current <> ContractStatus.ACTIVE)
    then throw (IllegalArgument "Seul un contrat ACTIVE peut être terminé") else
    let* t := now in
    set_contract id (fun c => setStatus ContractStatus.COMPLETED
                                (setFields (setActualReturnDatetime (Some t) (fields c)) c)) ;;;
    the_car carId ;;;
    set_car_status carId CarStatus.AVAILABLE ;;;
    participating (FinancialService.ensureIncomeForContract id)
  | _ => throw (IllegalArgument ("Transition de statut non autorisée vers " +:+ contract_status_name newStatus))
  end ;;;
  respond id.

Definition registerReturn (id : Z) : T ContractResponse := updateStatus id ContractStatus.COMPLETED.

Definition update (id : Z) (request : ContractRequest) : T ContractResponse :=
  let* contract := getContract id in
  if decide (contract_status contract = ContractStatus.COMPLETED)
  then throw (IllegalArgument "Impossible de modifier un contrat déjà terminé") else
  let carId := request_carId request in
  let f := request_fields request in
  let* car := getCar carId in
  let* d := get in
  if hasOverlappingContract carId (departureDatetime f) (expectedReturnDatetime f) (Some id) d
  then throw (already_booked car) else
  let clientId := request_clientId request in
  getClient clientId ;;;
  if bool_decide (contract_status contract = ContractStatus.ACTIVE) && negb (contract_car contract =? carId)
  then throw (IllegalArgument "Cannot change assigned car while contract is active") else
  set_contract id (fun c => setFields (apply request) (setCarClient carId clientId c)) ;;;
  let* t := now in
  let* departed :=
    if decide (contract_status contract = ContractStatus.IN_PROGRESS)
    then let* departure := or_throw NullPointer (departureDatetime f) in ret (negb (isAfter departure t))
    else ret false in
  (if (departed : bool) then
     if bool_decide (car_status car <> CarStatus.AVAILABLE) then throw (not_available car) else
     set_contract id (setStatus ContractStatus.ACTIVE) ;;;
     set_car_status carId CarStatus.RENTED ;;;
     participating (FinancialService.ensureIncomeForContract id)
   else
     when (bool_decide (contract_status contract = ContractStatus.ACTIVE))
       (set_car_status carId CarStatus.RENTED)) ;;;
  respond id.

Definition softDelete (id : Z) : T unit :=
  let* contract := getContract id in
  if decide (contract_status contract = ContractStatus.ACTIVE)
  then throw (IllegalArgument "Impossible : terminez le contrat avant de le supprimer") else
  when (bool_decide (contract_status contract = ContractStatus.COMPLETED))
    (participating (FinancialService.ensureIncomeForContract id)) ;;;
  set_contract id (setDeleted true) ;;;
  participating (OrphanClientService.removeClientIfOrphan (contract_client contract)).
End service.
End ContractService.

(** * DashboardService *)

Record DashboardResponse := mkDashboard {
  totalCars : Z;
  availableCars : Z;
  rentedCars : Z;
  maintenanceCars : Z;
  dashboardIncome : Z;
  dashboardExpense : Z }.

Record DashboardAlertResponse := mkAlert {
  alert_type : string;
  alert_carId : Z;
  alert_carLabel : string;
  alert_message : string;
  alert_severity : string;
  alert_dueDate : Z;
  alert_contractId : option Z }.

Module DashboardService.
Definition hour : Z := 60 * 60 * 10 ^ 9.

Definition carAlerts (now : Z) (r : Z * Car) : list DashboardAlertResponse :=
  let car := r.2 in
  let carLabel := brand car +:+ " - " +:+ matricule car in
  let severity date := if isBefore date now then "HIGH" else "MEDIUM" in
  match insuranceExpiryDate car with
  | Some date => if negb (isAfter date (now + 30))
                 then [mkAlert "INSURANCE" r.1 carLabel "Assurance expiree ou proche d'expiration"
                         (severity date) date None] else []
  | None => []
  end ++
  match nextInspectionDate car with
  | Some date => if negb (isAfter date (now + 30))
                 then [mkAlert "INSPECTION" r.1 carLabel "Controle technique proche ou depasse"
                         (severity date) date None] else []
  | None => []
  end ++
  match lastOilChangeDate car with
  | Some date => if isBefore date (now - 180)
                 then [mkAlert "OIL_CHANGE" r.1 carLabel "Vidange en retard" "MEDIUM" date None] else []
  | None => []
  end.

Section service.
Context `{Database} `{Clock}.

Definition stats : T DashboardResponse :=
  let* income := participating FinancialService.totalIncome in
  let* expense := participating FinancialService.totalExpense in
  let* d := get in
  let counted s := count_rows (fun c => bool_decide (car_status c = s)) (cars d) in
  ret (mkDashboard (count_rows (fun _ => true) (cars d)) (counted CarStatus.AVAILABLE)
         (counted CarStatus.RENTED) (counted CarStatus.MAINTENANCE) income expense).

Definition calendar : T (list ContractResponse) := participating ContractService.findActive.
Definition getFutureReservations : T (list ContractResponse) :=
  participating ContractService.findInProgressFutureReservations.

Definition returnAlert (r : Z * Contract) : T (list DashboardAlertResponse) :=
  match expectedReturnDatetime (fields r.2) with
  | None => ret []
  | Some returnTime =>
    let carId := contract_car r.2 in
    let alert message severity :=
      let* car := the_car carId in
      let* client := the_client (contract_client r.2) in
      ret [mkAlert "RETURN" carId (brand car +:+ " - " +:+ matricule car) (message +:+ fullName client)
             severity (toLocalDate returnTime) (Some r.1)] in
    let* t := now in
    if isAfter t returnTime then alert "Retour depasse pour " "HIGH" else
    let* t' := now in
    if isAfter t' (returnTime - 24 * hour)
    then alert "Retour prevu dans moins de 24h pour " "MEDIUM" else ret []
  end.

Definition alerts : T (list DashboardAlertResponse) :=
  participating ContractService.autoActivateContracts ;;;
  let* now_ := today in
  let* d := get in
  let activeContracts := find_rows (fun c => negb (deleted c) && has_status ContractStatus.ACTIVE c && joined d c)
                           (contracts d) in
  now ;;;
  let* returns := mapM returnAlert activeContracts in
  ret (List.concat returns ++ List.concat (List.map (carAlerts now_) (scan (cars d)))).
End service.
End DashboardService.
