(* ===== verification/RentalProtocol.v ===== *)
(** The protocol of the rental service: what may happen to its rows, one rule
    for each kind of change, and what holds after any number of changes.

    [pstep] does not say how the service finds out whether a change is allowed
    or how it carries it out; RentalRefine shows that each call of the service
    is a sequence of such changes.  [inv] holds of the empty database and every
    rule keeps it; [evolves] says what no sequence of changes takes back. *)
From S2P Require Import Prelude Rental.
Open Scope Z_scope.

(** * Rules *)

Record state := mkState { rows : db; next : table -> Z }.

Definition bump (t : table) (n : table -> Z) : table -> Z :=
  fun u => if decide (u = t) then n t + 1 else n u.

(** A reservation or a rental that is not over. *)
Definition live (c : Contract) : Prop :=
  deleted c = false
  /\ (contract_status c = ContractStatus.IN_PROGRESS \/ contract_status c = ContractStatus.ACTIVE).

(** Two periods, each with a departure and an expected return, have a moment in
    common.  A contract without one of the two dates clashes with nothing: the
    overlap test of the service skips it, and the rules below require no more
    than that test (RentalExamples.open_ended_reservations). *)
Definition clash (f g : ContractFields) : Prop :=
  match departureDatetime f, expectedReturnDatetime f, departureDatetime g, expectedReturnDatetime g with
  | Some s, Some e, Some s', Some e' => s < e' /\ s' < e
  | _, _, _, _ => False
  end.

(** No live contract of the car, [except] apart, clashes with [f]. *)
Definition bookable (d : db) (car : Z) (f : ContractFields) (except : option Z) : Prop :=
  forall id c, contracts d !! id = Some c -> except <> Some id -> live c -> contract_car c = car ->
    ~ clash f (fields c).

(** No car is wanted by two live contracts at the same time. *)
Definition clash_free (m : gmap Z Contract) : Prop :=
  forall i j c c', m !! i = Some c -> m !! j = Some c' -> i <> j -> live c -> live c' ->
    contract_car c = contract_car c' -> ~ clash (fields c) (fields c').

(** Contract [id] has car [k] out. *)
Definition active (m : gmap Z Contract) (id k : Z) : Prop :=
  exists c, m !! id = Some c /\ contract_status c = ContractStatus.ACTIVE /\ contract_car c = k.

(** The income of contract [id] is recorded, or there is none. *)
Definition has_income (d : db) (id : Z) : Prop :=
  exists rid r, incomes d !! rid = Some r /\ income_contractId r = Some id.
Definition due (c : Contract) : Prop := exists a, totalGeneral (fields c) = Some a /\ 0 < a.
Definition billed (d : db) (id : Z) (c : Contract) : Prop := due c -> has_income d id.

(** [r] is the expense of maintenance [id], whose row is [m]. *)
Definition expense_for (id : Z) (m : Maintenance) (r : ExpenseRecord) : Prop :=
  cost m = Some (expense_amount r) /\ expense_maintenanceId r = Some id
  /\ expense_category r = maintenance_type m /\ expense_description r = maintenance_description m
  /\ expense_source r = ExpenseSource.MAINTENANCE.

(** [id] is that of a row, or one that the generator of [t] gives between [n]
    and [n']. *)
Definition own_id {A} (t : table) (m : gmap Z A) (n n' : table -> Z) (id : Z) : Prop :=
  is_Some (m !! id) \/ n t <= id < n' t.

Section protocol.
Context `{Database}.

(** The registration of [c] is that of no car but [id]. *)
Definition unregistered (d : db) (id : Z) (c : Car) : Prop :=
  forall k c', cars d !! k = Some c' -> k <> id -> same_text (matricule c') (matricule c) = false.

Inductive pstep : state -> state -> Prop :=
| p_skip d n n' : (forall t, n t <= n' t) -> pstep (mkState d n) (mkState d n')
| p_new_car d n c m :
    car_status c = CarStatus.AVAILABLE -> mileage c = Some m -> 0 <= m ->
    unregistered d (n Cars) c ->
    pstep (mkState d n) (mkState (with_cars (insert (n Cars) c) d) (bump Cars n))
| p_edit_car d n id c c' m :
    cars d !! id = Some c -> car_status c' = car_status c ->
    mileage c' = Some m -> 0 <= m -> default 0 (mileage c) <= m ->
    unregistered d id c' ->
    pstep (mkState d n) (mkState (with_cars (insert id c') d) n)
| p_delete_car d n id :
    (forall k c, contracts d !! k = Some c -> contract_car c <> id) ->
    (forall k m, maintenances d !! k = Some m -> maintenance_car m <> id) ->
    pstep (mkState d n) (mkState (with_cars (delete id) d) n)
| p_condition d n id c s :
    cars d !! id = Some c -> car_status c <> CarStatus.RENTED -> s <> CarStatus.RENTED ->
    pstep (mkState d n) (mkState (with_cars (insert id (car_setStatus s c)) d) n)
| p_new_client d n c :
    pstep (mkState d n) (mkState (with_clients (insert (n Clients) c) d) (bump Clients n))
| p_edit_client d n id c :
    is_Some (clients d !! id) ->
    pstep (mkState d n) (mkState (with_clients (insert id c) d) n)
| p_delete_client d n id :
    (forall k c, contracts d !! k = Some c -> contract_client c <> id) ->
    pstep (mkState d n) (mkState (with_clients (delete id) d) n)
| p_reserve d n car client f t :
    is_Some (cars d !! car) -> is_Some (clients d !! client) -> bookable d car f None ->
    pstep (mkState d n)
      (mkState (with_contracts
         (insert (n Contracts) (mkContract car client f ContractStatus.IN_PROGRESS false t)) d)
         (bump Contracts n))
| p_activate d n id c car :
    contracts d !! id = Some c -> deleted c = false ->
    contract_status c = ContractStatus.IN_PROGRESS ->
    cars d !! contract_car c = Some car -> car_status car = CarStatus.AVAILABLE ->
    pstep (mkState d n)
      (mkState (with_cars (insert (contract_car c) (car_setStatus CarStatus.RENTED car))
         (with_contracts (insert id (setStatus ContractStatus.ACTIVE c)) d)) n)
| p_bill d n id c r :
    contracts d !! id = Some c -> ~ has_income d id ->
    totalGeneral (fields c) = Some (income_amount r) -> 0 < income_amount r ->
    income_contractId r = Some id -> income_clientId r = Some (contract_client c) ->
    income_source r = IncomeSource.CONTRACT ->
    pstep (mkState d n) (mkState (with_incomes (insert (n Incomes) r) d) (bump Incomes n))
| p_return d n id c car t :
    contracts d !! id = Some c -> deleted c = false ->
    contract_status c = ContractStatus.ACTIVE -> billed d id c ->
    cars d !! contract_car c = Some car ->
    pstep (mkState d n)
      (mkState (with_cars (insert (contract_car c) (car_setStatus CarStatus.AVAILABLE car))
         (with_contracts (insert id (setStatus ContractStatus.COMPLETED
            (setFields (setActualReturnDatetime t (fields c)) c))) d)) n)
| p_amend d n id c car client f :
    contracts d !! id = Some c -> deleted c = false ->
    contract_status c <> ContractStatus.COMPLETED ->
    (contract_status c = ContractStatus.ACTIVE -> contract_car c = car) ->
    is_Some (cars d !! car) -> is_Some (clients d !! client) -> bookable d car f (Some id) ->
    pstep (mkState d n)
      (mkState (with_contracts (insert id (setFields f (setCarClient car client c))) d) n)
| p_archive d n id c :
    contracts d !! id = Some c -> deleted c = false ->
    contract_status c <> ContractStatus.ACTIVE ->
    pstep (mkState d n) (mkState (with_contracts (insert id (setDeleted true c)) d) n)
| p_maintain d n n' id m eid r :
    (forall t, n t <= n' t) ->
    own_id Maintenances (maintenances d) n n' id -> own_id Expenses (expenses d) n n' eid ->
    is_Some (cars d !! maintenance_car m) ->
    (forall e r', expenses d !! e = Some r' -> (expense_maintenanceId r' = Some id <-> e = eid)) ->
    expense_for id m r ->
    pstep (mkState d n)
      (mkState (with_maintenances (insert id m) (with_expenses (insert eid r) d)) n')
| p_maintain_free d n n' id m :
    (forall t, n t <= n' t) -> own_id Maintenances (maintenances d) n n' id ->
    is_Some (cars d !! maintenance_car m) -> cost m = None ->
    pstep (mkState d n) (mkState (with_maintenances (insert id m) d) n')
| p_drop_maintenance d n id :
    pstep (mkState d n) (mkState (with_maintenances (delete id) d) n).

(** * Invariants *)

(** Ids come from the generators: those of the rows, and those of the
    maintenances and clients that expenses and incomes mention, whose rows may
    have been deleted since. *)
Record ids_ok (s : state) : Prop := {
  cars_below : forall id c, cars (rows s) !! id = Some c -> id < next s Cars;
  clients_below : forall id c, clients (rows s) !! id = Some c -> id < next s Clients;
  contracts_below : forall id c, contracts (rows s) !! id = Some c -> id < next s Contracts;
  incomes_below : forall id r, incomes (rows s) !! id = Some r -> id < next s Incomes;
  maintenances_below : forall id m, maintenances (rows s) !! id = Some m -> id < next s Maintenances;
  expenses_below : forall id r, expenses (rows s) !! id = Some r -> id < next s Expenses;
  origins_below : forall eid r id, expenses (rows s) !! eid = Some r ->
    expense_maintenanceId r = Some id -> id < next s Maintenances;
  payers_below : forall rid r id, incomes (rows s) !! rid = Some r ->
    income_clientId r = Some id -> id < next s Clients }.

(** Contracts, maintenances and incomes refer to rows that exist (an income to
    its contract), and rows hold what their columns may hold. *)
Record rows_ok (s : state) : Prop := {
  contract_row : forall id c, contracts (rows s) !! id = Some c ->
    is_Some (cars (rows s) !! contract_car c) /\ is_Some (clients (rows s) !! contract_client c)
    /\ contract_status c <> ContractStatus.CANCELLED;
  maintenance_row : forall id m, maintenances (rows s) !! id = Some m ->
    is_Some (cars (rows s) !! maintenance_car m);
  income_row : forall rid r id, incomes (rows s) !! rid = Some r -> income_contractId r = Some id ->
    is_Some (contracts (rows s) !! id);
  car_row : forall id c, cars (rows s) !! id = Some c -> exists m, mileage c = Some m /\ 0 <= m }.

Definition registrations_ok (s : state) : Prop :=
  forall i j c c', cars (rows s) !! i = Some c -> cars (rows s) !! j = Some c' -> i <> j ->
    same_text (matricule c) (matricule c') = false \/ same_text (matricule c') (matricule c) = false.

(** A car is out exactly when one contract says so, and no two contracts want
    it at the same time. *)
Record rental_ok (s : state) : Prop := {
  rented_iff_active : forall k car, cars (rows s) !! k = Some car ->
    (car_status car = CarStatus.RENTED <-> exists id, active (contracts (rows s)) id k);
  one_active : forall i j k, active (contracts (rows s)) i k -> active (contracts (rows s)) j k -> i = j;
  active_not_deleted : forall id c, contracts (rows s) !! id = Some c ->
    contract_status c = ContractStatus.ACTIVE -> deleted c = false;
  no_clash : clash_free (contracts (rows s)) }.

(** The books: one income for each contract that is over and was not free, one
    expense for each maintenance, with its cost. *)
Record books_ok (s : state) : Prop := {
  one_income : forall i j r r' id, incomes (rows s) !! i = Some r -> incomes (rows s) !! j = Some r' ->
    income_contractId r = Some id -> income_contractId r' = Some id -> i = j;
  completed_billed : forall id c, contracts (rows s) !! id = Some c ->
    contract_status c = ContractStatus.COMPLETED -> billed (rows s) id c;
  one_expense : forall i j r r' id, expenses (rows s) !! i = Some r -> expenses (rows s) !! j = Some r' ->
    expense_maintenanceId r = Some id -> expense_maintenanceId r' = Some id -> i = j;
  expense_current : forall id m a, maintenances (rows s) !! id = Some m -> cost m = Some a ->
    exists eid r, expenses (rows s) !! eid = Some r /\ expense_for id m r }.

Record inv (s : state) : Prop := {
  inv_ids : ids_ok s;
  inv_rows : rows_ok s;
  inv_registrations : registrations_ok s;
  inv_rental : rental_ok s;
  inv_books : books_ok s }.
End protocol.

(** * Every rule keeps the invariants *)

Create HintDb rental.

Lemma is_Some_insert {A} (m : gmap Z A) k i x : is_Some (m !! k) -> is_Some (<[i := x]> m !! k).
Proof. intros. apply lookup_insert_is_Some'. auto. Qed.
Lemma is_Some_insert_eq {A} (m : gmap Z A) k x : is_Some (<[k := x]> m !! k).
Proof. rewrite lookup_insert_eq. eauto. Qed.
Lemma is_Some_delete {A} (m : gmap Z A) k i : is_Some (m !! k) -> k <> i -> is_Some (delete i m !! k).
Proof. intros. rewrite lookup_delete_ne; auto. Qed.
#[export] Hint Resolve is_Some_insert is_Some_insert_eq is_Some_delete : rental.

Lemma bump_eq t n : bump t n t = n t + 1.
Proof. unfold bump. by rewrite decide_True. Qed.
Lemma bump_le t n u : n u <= bump t n u.
Proof. unfold bump. case_decide; subst; lia. Qed.
#[export] Hint Resolve bump_le : rental.

(** Case analysis on which row a lookup in an updated table finds. *)
Ltac row_cases :=
  repeat match goal with
  | H : <[_ := _]> _ !! _ = Some _ |- _ =>
      apply lookup_insert_Some in H; destruct H as [[? ?]|[? H]]
  | H : delete _ _ !! _ = Some _ |- _ => apply lookup_delete_Some in H; destruct H as [? H]
  end; simplify_eq/=.

Section keeps.
Context `{Database}.
Implicit Types s : state.

Lemma pstep_next s s' t : pstep s s' -> next s t <= next s' t.
Proof. destruct 1; cbn [next]; auto with rental; lia. Qed.

Lemma own_id_below {A} t (m : gmap Z A) (n n' : table -> Z) id :
  (forall u, n u <= n' u) -> (forall k x, m !! k = Some x -> k < n t) ->
  own_id t m n n' id -> id < n' t.
Proof.
  intros Hn Hm [[x E]|L]; [|lia]. eapply Z.lt_le_trans; [by eapply Hm|apply Hn].
Qed.

Lemma payer_below s id c : ids_ok s -> rows_ok s -> contracts (rows s) !! id = Some c ->
  contract_client c < next s Clients.
Proof.
  intros Hi Hr E. destruct (contract_row s Hr id c E) as (_ & [x Ex] & _).
  by apply (clients_below s Hi) in Ex.
Qed.

Lemma pstep_ids s s' : pstep s s' -> rows_ok s -> ids_ok s -> ids_ok s'.
Proof.
  intros Hs Hr I. pose proof (fun t => pstep_next s s' t Hs) as Hn. pose proof (payer_below s) as P.
  destruct Hs, (I) as [I1 I0 I2 I3 I4 I5 I6 I7]; cbn [rows next] in *; constructor; cbn;
    intros; row_cases;
    try (eapply Z.lt_le_trans; [|apply Hn]; by eauto);
    rewrite ?bump_eq; try lia; try (by eapply own_id_below; eauto).
  - match goal with H : is_Some _ |- _ => destruct H; by eapply I0 end.
  - match goal with H : expense_for _ _ _ |- _ => destruct H as (? & ? & ?) end; simplify_eq/=.
    by eapply own_id_below; eauto.
Qed.

Lemma pstep_rows s s' : pstep s s' -> ids_ok s -> rows_ok s -> rows_ok s'.
Proof.
  intros Hs Hi [I1 I2 I3 I4].
  destruct Hs; cbn [rows next] in *; constructor; cbn; intros; row_cases;
    try (by eauto with rental);
    try (edestruct I1 as (? & ? & ?); [eassumption|]; eauto 6 with rental; done).
Qed.

Lemma pstep_registrations s s' : pstep s s' -> registrations_ok s -> registrations_ok s'.
Proof.
  intros Hs I; destruct Hs; cbn [rows next] in *; intros i j c1 c2; cbn; intros; row_cases;
    try (by eauto); unfold unregistered in *; eauto.
Qed.

Lemma clash_sym f g : clash f g -> clash g f.
Proof. unfold clash. repeat case_match; tauto. Qed.

Lemma clash_free_insert (m : gmap Z Contract) k c : clash_free m ->
  (live c -> forall id c', m !! id = Some c' -> Some k <> Some id -> live c' ->
     contract_car c' = contract_car c -> ~ clash (fields c) (fields c')) ->
  clash_free (<[k := c]> m).
Proof.
  intros Hm Hc i j c1 c2 E1 E2 N L1 L2 EC. row_cases.
  - intros K%clash_sym. revert K. apply (Hc L2 i); congruence.
  - apply (Hc L1 j); congruence.
  - by apply (Hm i j).
Qed.

(** What a live contract has booked stays bookable for it. *)
Lemma clash_free_self (m : gmap Z Contract) k c0 : clash_free m -> m !! k = Some c0 -> live c0 ->
  forall id c', m !! id = Some c' -> Some k <> Some id -> live c' -> contract_car c' = contract_car c0 ->
    ~ clash (fields c0) (fields c').
Proof. intros Hm E L id c' E' N L' EC. apply (Hm k id); congruence. Qed.

Lemma pstep_no_clash s s' : pstep s s' -> clash_free (contracts (rows s)) -> clash_free (contracts (rows s')).
Proof.
  intros Hs I; destruct Hs; cbn [rows] in *; try assumption; cbn; apply clash_free_insert; try assumption;
    intros L; cbn.
  - intros. eapply H2; done.
  - eapply (clash_free_self _ id c); [done..|]. by split; auto.
  - destruct L as [? [?|?]]; done.
  - intros. eapply H6; done.
  - destruct L as [? _]; done.
Qed.

Lemma active_insert m i c id k : active (<[i := c]> m) id k <->
  id = i /\ contract_status c = ContractStatus.ACTIVE /\ contract_car c = k \/ id <> i /\ active m id k.
Proof.
  unfold active. destruct (decide (id = i)) as [->|N].
  - rewrite lookup_insert_eq. naive_solver.
  - rewrite lookup_insert_ne by done. naive_solver.
Qed.

(** Replacing a contract by one that has the same cars out. *)
Lemma active_insert_same m i c k :
  (contract_status c = ContractStatus.ACTIVE /\ contract_car c = k <-> active m i k) ->
  forall id, active (<[i := c]> m) id k <-> active m id k.
Proof.
  intros Hc id. rewrite active_insert. destruct (decide (id = i)) as [->|N]; naive_solver.
Qed.
Lemma active_row m i c0 k : m !! i = Some c0 ->
  active m i k <-> contract_status c0 = ContractStatus.ACTIVE /\ contract_car c0 = k.
Proof. unfold active. naive_solver. Qed.
Lemma active_none m i k : m !! i = None -> ~ active m i k.
Proof. unfold active. naive_solver. Qed.

Lemma contracts_fresh s : ids_ok s -> contracts (rows s) !! next s Contracts = None.
Proof.
  intros Hi. apply eq_None_not_Some. intros [c E]. apply (contracts_below s Hi) in E. lia.
Qed.
Lemma cars_fresh_inactive s id : ids_ok s -> rows_ok s -> ~ active (contracts (rows s)) id (next s Cars).
Proof.
  intros Hi Hr (c & E & _ & EC). destruct (contract_row s Hr id c E) as ([car E'] & _).
  apply (cars_below s Hi) in E'. lia.
Qed.

Lemma pstep_rented s s' : pstep s s' -> ids_ok s -> rows_ok s -> rental_ok s ->
  forall k car, cars (rows s') !! k = Some car ->
    (car_status car = CarStatus.RENTED <-> exists id, active (contracts (rows s')) id k).
Proof.
  intros Hs Hi Hr [I1 I2 I3 _]; destruct Hs; cbn [rows] in *; intros k car0; cbn; intros E;
    row_cases; try (by eauto).
  - split; [congruence|]. intros [id A]. by apply (cars_fresh_inactive _ id Hi Hr) in A.
  - rewrite <- I1 by eassumption. split; congruence.
  - rewrite <- I1 by eassumption. naive_solver.
  - rewrite I1 by eassumption. f_equiv. intros id. symmetry. apply active_insert_same; cbn.
    pose proof (active_none _ _ k (contracts_fresh _ Hi)). naive_solver.
  - split; [|done]. intros _. exists id. rewrite active_insert. auto.
  - rewrite I1 by eassumption. f_equiv. intros i. symmetry. apply active_insert_same; cbn.
    rewrite active_row by eassumption. naive_solver congruence.
  - split; [done|]. intros [i A]. rewrite active_insert in A. cbn in A.
    destruct A as [(_ & ? & _)|[N A]]; [done|]. destruct N. apply (I2 i id _ A).
    by eexists.
  - rewrite I1 by eassumption. f_equiv. intros i. symmetry. apply active_insert_same; cbn.
    rewrite active_row by eassumption. naive_solver congruence.
  - rewrite I1 by eassumption. f_equiv. intros i. symmetry. apply active_insert_same; cbn.
    rewrite active_row by eassumption. naive_solver congruence.
  - rewrite I1 by eassumption. f_equiv. intros i. symmetry. apply active_insert_same; cbn.
    rewrite active_row by eassumption. naive_solver congruence.
Qed.
Lemma pstep_one_active s s' : pstep s s' -> ids_ok s -> rental_ok s ->
  forall i j k, active (contracts (rows s')) i k -> active (contracts (rows s')) j k -> i = j.
Proof.
  intros Hs Hi [I1 I2 I3 _]; destruct Hs; cbn [rows] in *; cbn; try assumption; intros i j k;
    rewrite !active_insert; cbn.
  - naive_solver.
  - pose proof (I1 (contract_car c) car ltac:(assumption)) as I.
    assert (forall i, ~ active (contracts d) i (contract_car c)) by naive_solver congruence.
    intros [(? & _ & <-)|[? A]] [(? & _ & Ek)|[? A']]; subst; naive_solver.
  - naive_solver.
  - intros [(-> & S1 & E1)|[? A]] [(-> & S2 & E2)|[? A']]; try done; [| |by eapply I2].
    + apply (I2 id j k); [|done]. rewrite active_row by eassumption. naive_solver.
    + apply (I2 i id k); [done|]. rewrite active_row by eassumption. naive_solver.
  - naive_solver.
Qed.

Lemma pstep_active_kept s s' : pstep s s' -> rental_ok s ->
  forall id c, contracts (rows s') !! id = Some c ->
    contract_status c = ContractStatus.ACTIVE -> deleted c = false.
Proof.
  intros Hs [_ _ I3 _]; destruct Hs; cbn [rows] in *; cbn; try assumption; intros; row_cases; eauto.
Qed.

Lemma pstep_rental s s' : pstep s s' -> ids_ok s -> rows_ok s -> rental_ok s -> rental_ok s'.
Proof.
  intros Hs Hi Hr I. constructor.
  - by apply (pstep_rented s s').
  - by apply (pstep_one_active s s').
  - by apply (pstep_active_kept s s').
  - apply (pstep_no_clash s s' Hs), I.
Qed.

(** ** The books *)

Lemma incomes_fresh s : ids_ok s -> incomes (rows s) !! next s Incomes = None.
Proof. intros Hi. apply eq_None_not_Some. intros [c E]. apply (incomes_below s Hi) in E. lia. Qed.

Lemma has_income_insert d k r id : incomes d !! k = None -> has_income d id ->
  has_income (with_incomes (insert k r) d) id.
Proof.
  intros N (i & r' & E & Er). exists i, r'. cbn. rewrite lookup_insert_ne by congruence. auto.
Qed.

Lemma pstep_has_income s s' id : pstep s s' -> ids_ok s -> has_income (rows s) id -> has_income (rows s') id.
Proof.
  intros Hs Hi HI; destruct Hs; try exact HI. apply has_income_insert; [|done]. by apply incomes_fresh in Hi.
Qed.

Lemma pstep_completed s s' : pstep s s' -> ids_ok s -> books_ok s ->
  forall id c, contracts (rows s') !! id = Some c ->
    contract_status c = ContractStatus.COMPLETED -> billed (rows s') id c.
Proof.
  intros Hs Hi [_ I _ _] id0 c0 E C D. apply (pstep_has_income s s' id0 Hs Hi).
  destruct Hs; cbn [rows] in *; cbn in E; row_cases; unfold billed, due in *; cbn in *; eauto.
Qed.

Lemma pstep_one_income s s' : pstep s s' -> ids_ok s -> books_ok s ->
  forall i j r r' id, incomes (rows s') !! i = Some r -> incomes (rows s') !! j = Some r' ->
    income_contractId r = Some id -> income_contractId r' = Some id -> i = j.
Proof.
  intros Hs Hi [I _ _ _]; destruct Hs; cbn [rows] in *; cbn; try assumption; intros; row_cases; eauto.
  all: exfalso; match goal with N : ~ has_income _ _ |- _ => apply N end; do 2 eexists; eauto.
Qed.

Lemma pstep_expenses s s' : pstep s s' -> books_ok s ->
  (forall i j r r' id, expenses (rows s') !! i = Some r -> expenses (rows s') !! j = Some r' ->
    expense_maintenanceId r = Some id -> expense_maintenanceId r' = Some id -> i = j)
  /\ (forall id m a, maintenances (rows s') !! id = Some m -> cost m = Some a ->
    exists eid r, expenses (rows s') !! eid = Some r /\ expense_for id m r).
Proof.
  intros Hs [_ _ I J]; destruct Hs; cbn [rows] in *; cbn; try (split; assumption);
    split; intros; row_cases; eauto.
  - destruct H5 as (_ & Er & _). simplify_eq/=. by eapply H4.
  - destruct H5 as (_ & Er & _). simplify_eq/=. symmetry. by eapply H4.
  - exists eid, r. by rewrite lookup_insert_eq.
  - destruct (J id0 m0 a) as (e & r0 & E & F); [done..|]. exists e, r0.
    rewrite lookup_insert_ne; [done|]. intros <-.
    destruct F as (_ & F & _). apply (H4 eid r0) in E as [_ E]. specialize (E eq_refl). congruence.
Qed.

Lemma pstep_books s s' : pstep s s' -> ids_ok s -> books_ok s -> books_ok s'.
Proof.
  intros Hs Hi I. pose proof (pstep_expenses s s' Hs I) as [E1 E2]. constructor; [| |done..].
  - by apply (pstep_one_income s s').
  - by apply (pstep_completed s s').
Qed.

Lemma pstep_inv s s' : pstep s s' -> inv s -> inv s'.
Proof.
  intros Hs [I1 I2 I3 I4 I5]. constructor.
  - by apply (pstep_ids s s').
  - by apply (pstep_rows s s').
  - by apply (pstep_registrations s s').
  - by apply (pstep_rental s s').
  - by apply (pstep_books s s').
Qed.

Lemma psteps_inv s s' : rtc pstep s s' -> inv s -> inv s'.
Proof. induction 1; eauto using pstep_inv. Qed.
End keeps.

(** * What no change takes back *)

Definition rank (s : ContractStatus.t) : nat :=
  match s with
  | ContractStatus.IN_PROGRESS => 0
  | ContractStatus.ACTIVE => 1
  | ContractStatus.COMPLETED => 2
  | ContractStatus.CANCELLED => 3
  end.

(** [c] may become [c']: its status advances, an archived contract stays as it
    is, and one that is over is at most archived. *)
Record contract_evolves (c c' : Contract) : Prop := {
  status_advances : (rank (contract_status c) <= rank (contract_status c'))%nat;
  archived_fixed : deleted c = true -> c' = c;
  completed_fixed : contract_status c = ContractStatus.COMPLETED -> c' = c \/ c' = setDeleted true c }.

#[export] Instance contract_evolves_preorder : PreOrder contract_evolves.
Proof.
  split.
  - intros c. split; auto.
  - intros c c' c'' [A1 A2 A3] [B1 B2 B3]. split; [lia|naive_solver|]. intros C.
    destruct (A3 C) as [->| ->]; [auto|]. right. by apply B2.
Qed.

(** No row gets an id that was given out before and is not in use: neither that
    of a row deleted since nor one that a failed call drew. *)
Definition not_reborn {A} (t : table) (rows_of : db -> gmap Z A) (s s' : state) : Prop :=
  forall id, id < next s t -> rows_of (rows s) !! id = None -> rows_of (rows s') !! id = None.

Record evolves (s s' : state) : Prop := {
  next_grows : forall t, next s t <= next s' t;
  contracts_evolve : forall id c, contracts (rows s) !! id = Some c ->
    exists c', contracts (rows s') !! id = Some c' /\ contract_evolves c c';
  incomes_stay : incomes (rows s) ⊆ incomes (rows s');
  cars_not_reborn : not_reborn Cars cars s s';
  clients_not_reborn : not_reborn Clients clients s s';
  contracts_not_reborn : not_reborn Contracts contracts s s';
  maintenances_not_reborn : not_reborn Maintenances maintenances s s';
  incomes_not_reborn : not_reborn Incomes incomes s s';
  expenses_not_reborn : not_reborn Expenses expenses s s';
  mileage_grows : forall id c c', cars (rows s) !! id = Some c -> cars (rows s') !! id = Some c' ->
    default 0 (mileage c) <= default 0 (mileage c') }.

Section history.
Context `{Database}.
Implicit Types s : state.

Lemma not_reborn_trans {A} t (f : db -> gmap Z A) s1 s2 s3 : next s1 t <= next s2 t ->
  not_reborn t f s1 s2 -> not_reborn t f s2 s3 -> not_reborn t f s1 s3.
Proof. intros L A1 A2 id Hid E. apply A2; [lia|]. by apply A1. Qed.

(** A row is inserted under its own id. *)
Lemma own_id_reborn {A} t (m : gmap Z A) (n n' : table -> Z) id x i :
  own_id t m n n' id -> i < n t -> m !! i = None -> <[id := x]> m !! i = None.
Proof.
  intros O L E. apply lookup_insert_None. split; [done|]. intros ->.
  destruct O as [[y Ey]|O]; [congruence|lia].
Qed.

Lemma evolves_trans s1 s2 s3 : ids_ok s1 -> evolves s1 s2 -> evolves s2 s3 -> evolves s1 s3.
Proof.
  intros Hi [A1 A2 A3 A4 A5 A6 A7 A8 A9 A10] [B1 B2 B3 B4 B5 B6 B7 B8 B9 B10].
  split; try (eapply not_reborn_trans; [apply A1|done..]).
  - intros t. specialize (A1 t). specialize (B1 t). lia.
  - intros id c E. destruct (A2 id c E) as (c' & E' & L). destruct (B2 id c' E') as (c'' & E'' & L').
    exists c''. split; [done|]. by etrans.
  - by etrans.
  - intros id c c'' E E''. destruct (cars (rows s2) !! id) as [c'|] eqn:E'.
    + etrans; eauto.
    + exfalso. rewrite B4 in E''; [done| |done].
      pose proof (cars_below s1 Hi id c E). specialize (A1 Cars). lia.
Qed.

Lemma pstep_contracts s s' : pstep s s' -> ids_ok s ->
  forall id c, contracts (rows s) !! id = Some c ->
    exists c', contracts (rows s') !! id = Some c' /\ contract_evolves c c'.
Proof.
  intros Hs Hi; destruct Hs; cbn [rows]; cbn; intros id0 c0 E0; try (exists c0; by split).
  all: match goal with |- context [<[?k := ?x]> _ !! _] => destruct (decide (k = id0)) as [<-|N] end;
    [rewrite lookup_insert_eq|rewrite lookup_insert_ne by done; exists c0; by split].
  1: apply contracts_fresh in Hi; cbn in Hi; congruence.
  all: eexists; split; [reflexivity|]; simplify_eq/=; split; cbn; intros; auto; try congruence.
  all: match goal with E : contract_status ?c = _ |- context [rank (contract_status ?c)] => rewrite E end;
    cbn; lia.
Qed.

Lemma pstep_not_reborn s s' : pstep s s' ->
  not_reborn Cars cars s s' /\ not_reborn Clients clients s s' /\ not_reborn Contracts contracts s s'
  /\ not_reborn Maintenances maintenances s s' /\ not_reborn Incomes incomes s s'
  /\ not_reborn Expenses expenses s s'.
Proof.
  intros Hs. unfold not_reborn. destruct Hs; cbn; repeat split; intros i L E; try done;
    rewrite ?lookup_delete_None; auto; try (by eapply own_id_reborn).
  all: apply lookup_insert_None; split; [done|]; intros ?; subst;
    (congruence || lia || (match goal with H : is_Some _ |- _ => destruct H; congruence end)).
Qed.

Lemma pstep_evolves s s' : pstep s s' -> ids_ok s -> evolves s s'.
Proof.
  intros Hs Hi. destruct (pstep_not_reborn s s' Hs) as (R1 & R2 & R3 & R4 & R5 & R6). split; try done.
  - intros t. by apply pstep_next.
  - by apply pstep_contracts.
  - destruct Hs; cbn; try done. apply insert_subseteq. by apply incomes_fresh in Hi.
  - destruct Hs; cbn; intros i c1 c2 E1 E2; row_cases; try lia.
    + apply (cars_below _ Hi) in E1. cbn in E1. lia.
    + cbn. rewrite H2. done.
Qed.

Lemma psteps_evolve s s' : rtc pstep s s' -> inv s -> evolves s s'.
Proof.
  induction 1 as [s|s s1 s' Hs _ IH]; intros I.
  - split; unfold not_reborn; auto; try lia.
    + intros id c E. exists c. by split.
    + intros. simplify_eq. lia.
  - apply (evolves_trans s s1 s'); [apply I|apply pstep_evolves; [done|apply I]|].
    apply IH. by apply (pstep_inv s).
Qed.
End history.
