(* ===== verification/RentalRefine.v ===== *)
(** Each operation of the rental services is a sequence of steps of the protocol.

    [wp E c Q w]: run from [w], [c] returns and [Q] holds of its value and of the
    world after, or it throws and [E] holds.  An operation that throws has no
    effect on the rows, so [E] is mostly [True]; it is [False] where a caller
    relies on the operation to return. *)
From S2P Require Import Prelude Rental RentalServices RentalProtocol.
Open Scope Z_scope.

Definition wp {A} (E : Prop) (c : T A) (Q : A -> world -> Prop) (w : world) : Prop :=
  match c w with Ok a w' => Q a w' | Throw _ _ => E end.

Definition view (w : world) : state := mkState (data w) (seq w).

(** ** Rules *)

Section rules.
Context {A : Type} (E : Prop).
Implicit Types (Q : A -> world -> Prop) (w : world).

Lemma wp_ret a Q w : Q a w -> wp E (ret a) Q w.
Proof. exact id. Qed.
Lemma wp_bind {B} (c : T B) (k : B -> T A) Q w :
  wp E c (fun b w' => wp E (k b) Q w') w -> wp E (bind c k) Q w.
Proof. unfold wp, bind. by destruct (c w). Qed.
Lemma wp_mono (c : T A) (Q Q' : A -> world -> Prop) w :
  wp E c Q w -> (forall a w', Q a w' -> Q' a w') -> wp E c Q' w.
Proof. unfold wp. destruct (c w); auto. Qed.
Lemma wp_weaken (E' : Prop) (c : T A) Q w : (E' -> E) -> wp E' c Q w -> wp E c Q w.
Proof. unfold wp. destruct (c w); auto. Qed.
Lemma wp_or_throw e (o : option A) Q w :
  (forall a, o = Some a -> Q a w) -> (o = None -> E) -> wp E (or_throw e o) Q w.
Proof. destruct o; cbn; auto. Qed.
Lemma wp_participating (c : T A) Q w : wp E c Q w -> wp E (participating c) Q w.
Proof. unfold wp, participating. by destruct (c w). Qed.
End rules.

Section primitives.
Context `{Clock} (E : Prop).

Lemma wp_get (Q : db -> world -> Prop) w : Q (data w) w -> wp E get Q w.
Proof. exact id. Qed.
Lemma wp_modify f (Q : unit -> world -> Prop) w :
  Q tt (mkWorld (f (data w)) (seq w) (tick w) (rollback_only w)) -> wp E (modify f) Q w.
Proof. exact id. Qed.
Lemma wp_new_id t (Q : Z -> world -> Prop) w :
  Q (seq w t) (mkWorld (data w) (bump t (seq w)) (tick w) (rollback_only w)) -> wp E (new_id t) Q w.
Proof. exact id. Qed.
Lemma wp_now (Q : Z -> world -> Prop) w :
  Q (clock (tick w)) (mkWorld (data w) (seq w) (S (tick w)) (rollback_only w)) -> wp E now Q w.
Proof. exact id. Qed.
Lemma wp_when b c (Q : unit -> world -> Prop) w :
  (b = true -> wp E c Q w) -> (b = false -> Q tt w) -> wp E (when b c) Q w.
Proof. destruct b; cbn; auto. Qed.
End primitives.

Lemma wp_try_log (c : T unit) (Q : unit -> world -> Prop) w E : wp False c Q w -> wp E (try_log c) Q w.
Proof. unfold wp, try_log. destruct (c w) as [[] w'|]; [done|intros []]. Qed.

Ltac wp_step :=
  lazymatch goal with
  | |- wp _ (bind _ _) _ _ => apply wp_bind; cbv beta
  | |- wp _ (ret _) _ _ => apply wp_ret; cbv beta
  | |- wp _ get _ _ => apply wp_get; cbv beta
  | |- wp _ (modify _) _ _ => apply wp_modify; cbv beta
  | |- wp _ (new_id _) _ _ => apply wp_new_id; cbv beta
  | |- wp _ now _ _ => apply wp_now; cbv beta
  | |- wp _ today _ _ => unfold today
  | |- wp True (throw _) _ _ => exact Logic.I
  | |- wp True (or_throw _ _) _ _ => apply wp_or_throw; [intros ? ?|done]; cbv beta
  | |- wp _ (participating _) _ _ => apply wp_participating
  | |- wp _ (when _ _) _ _ => apply wp_when; intros ?
  | |- wp _ (if ?b then _ else _) _ _ => destruct b eqn:?
  | |- wp _ (let x := _ in _) _ _ => cbv zeta
  end.
Ltac wp := repeat wp_step; cbn [data seq tick rollback_only] in *.

(** ** Operations that only read *)

Definition reads {A} (c : T A) : Prop := forall w,
  match c w with
  | Ok _ w' | Throw _ w' => data w' = data w /\ seq w' = seq w /\ rollback_only w' = rollback_only w
  end.

Section reading.
Context `{Database} `{Clock}.

Lemma wp_reads {A} (c : T A) (Q : A -> world -> Prop) w : reads c ->
  (forall a t, Q a (mkWorld (data w) (seq w) t (rollback_only w))) -> wp True c Q w.
Proof.
  intros Hc HQ. unfold wp. specialize (Hc w). destruct (c w) as [a [d n t r]|]; [|done].
  cbn in Hc. destruct Hc as (-> & -> & ->). apply HQ.
Qed.

Lemma reads_bind {A B} (c : T A) (k : A -> T B) : reads c -> (forall a, reads (k a)) -> reads (bind c k).
Proof.
  intros Hc Hk w. unfold bind. specialize (Hc w). destruct (c w) as [a w'|e w']; [|done].
  specialize (Hk a w'). destruct Hc as (<- & <- & <-). exact Hk.
Qed.
Lemma reads_ret {A} (a : A) : reads (ret a).
Proof. done. Qed.
Lemma reads_throw {A} e : reads (throw e : T A).
Proof. done. Qed.
Lemma reads_get : reads get.
Proof. done. Qed.
Lemma reads_now : reads now.
Proof. done. Qed.
Lemma reads_or_throw {A} e (o : option A) : reads (or_throw e o).
Proof. by destruct o. Qed.
Lemma reads_mapM {A B} (f : A -> T B) l : (forall a, reads (f a)) -> reads (mapM f l).
Proof.
  intros Hf. induction l as [|a l IH]; cbn; [done|].
  apply reads_bind; [auto|]. intros b. by apply reads_bind.
Qed.
Lemma reads_anyMatch {A} (p : A -> T bool) l : (forall a, reads (p a)) -> reads (anyMatch p l).
Proof.
  intros Hp. induction l as [|a l IH]; cbn; [done|].
  apply reads_bind; [auto|]. intros [|]; [done|exact IH].
Qed.

Lemma reads_isOngoing m : reads (MaintenanceService.isOngoing m).
Proof.
  unfold MaintenanceService.isOngoing. destruct (decide _); [done|]. intros w. cbn.
  destruct (from_option _ _ (startDate m)); [done|]. by destruct (from_option _ _ (endDate m)).
Qed.
Lemma reads_hasOngoing l : reads (anyMatch (fun r : Z * Maintenance => MaintenanceService.isOngoing r.2) l).
Proof. apply reads_anyMatch. intros. apply reads_isOngoing. Qed.
Lemma reads_the_contract id : reads (the_contract id).
Proof. apply reads_bind; [apply reads_get|intros; apply reads_or_throw]. Qed.
Lemma reads_the_client id : reads (the_client id).
Proof. apply reads_bind; [apply reads_get|intros; apply reads_or_throw]. Qed.
Lemma reads_the_car id : reads (the_car id).
Proof. apply reads_bind; [apply reads_get|intros; apply reads_or_throw]. Qed.
Lemma reads_the_maintenance id : reads (the_maintenance id).
Proof. apply reads_bind; [apply reads_get|intros; apply reads_or_throw]. Qed.
End reading.

Create HintDb reads.
#[export] Hint Resolve reads_bind reads_ret reads_throw reads_get reads_now reads_or_throw reads_mapM
  reads_anyMatch reads_isOngoing reads_hasOngoing reads_the_contract reads_the_client reads_the_car
  reads_the_maintenance : reads.

Section responses.
Context `{Database} `{Clock}.
Lemma reads_contract_toResponse r : reads (ContractService.toResponse r).
Proof. unfold ContractService.toResponse. eauto 8 with reads. Qed.
Lemma reads_contract_respond id : reads (ContractService.respond id).
Proof. unfold ContractService.respond. apply reads_bind; eauto using reads_contract_toResponse with reads. Qed.
Lemma reads_maintenance_toResponse r : reads (MaintenanceService.toResponse r).
Proof. unfold MaintenanceService.toResponse. eauto 8 with reads. Qed.
Lemma reads_maintenance_respond id : reads (MaintenanceService.respond id).
Proof. unfold MaintenanceService.respond. apply reads_bind; eauto using reads_maintenance_toResponse with reads. Qed.
End responses.
#[export] Hint Resolve reads_contract_toResponse reads_contract_respond reads_maintenance_toResponse
  reads_maintenance_respond : reads.

(** ** Incomes *)

(** The income [r] is that of contract [id], whose row is [c]. *)
Definition income_for (id : Z) (c : Contract) (r : IncomeRecord) : Prop :=
  totalGeneral (fields c) = Some (income_amount r) /\ 0 < income_amount r
  /\ income_contractId r = Some id /\ income_clientId r = Some (contract_client c)
  /\ income_source r = IncomeSource.CONTRACT.

(** What ensuring the income of a contract does to the incomes and to the
    generators. *)
Inductive ensured (d : db) (n : table -> Z) (id : Z) (c : Contract) : db -> (table -> Z) -> Prop :=
| ensured_nothing : billed d id c -> ensured d n id c d n
| ensured_income r : ~ has_income d id -> income_for id c r ->
    ensured d n id c (with_incomes (insert (n Incomes) r) d) (bump Incomes n).

Lemma exists_row_spec {A} (p : A -> bool) (m : gmap Z A) :
  exists_row p m = true <-> exists k x, m !! k = Some x /\ p x = true.
Proof.
  unfold exists_row. rewrite existsb_exists. split.
  - intros ([k x] & Hin & Hp). exists k, x. split; [|done].
    apply elem_of_map_to_list, list_elem_of_In, Hin.
  - intros (k & x & Hk & Hp). exists (k, x). split; [|done].
    apply list_elem_of_In, elem_of_map_to_list, Hk.
Qed.
Lemma exists_row_false {A} (p : A -> bool) (m : gmap Z A) :
  exists_row p m = false <-> forall k x, m !! k = Some x -> p x = false.
Proof.
  rewrite <- not_true_iff_false, exists_row_spec. split.
  - intros N k x Hk. destruct (p x) eqn:?; [|done]. destruct N. eauto.
  - intros N (k & x & Hk & Hp). rewrite (N k x Hk) in Hp. done.
Qed.
Lemma count_rows_zero {A} (p : A -> bool) (m : gmap Z A) :
  (0 <? count_rows p m) = false <-> forall k x, m !! k = Some x -> p x = false.
Proof.
  rewrite <- exists_row_false. unfold count_rows, exists_row.
  induction (map_to_list m) as [|r l IH]; cbn; [done|].
  destruct (p r.2); cbn; [|exact IH]. done.
Qed.

Lemma in_find_rows `{LawfulDatabase} {A} (p : A -> bool) (m : gmap Z A) k x :
  In (k, x) (find_rows p m) <-> m !! k = Some x /\ p x = true.
Proof.
  unfold find_rows. rewrite filter_In. cbn. rewrite <- list_elem_of_In, scan_rows, elem_of_map_to_list.
  done.
Qed.

Lemma find_rows_nil `{LawfulDatabase} {A} (p : A -> bool) (m : gmap Z A) :
  exists_row p m = false -> find_rows p m = [].
Proof.
  rewrite exists_row_false. intros N. destruct (find_rows p m) as [|[k x] l] eqn:F; [done|]. exfalso.
  assert (In (k, x) (find_rows p m)) as [E Hp]%in_find_rows by (rewrite F; by left).
  rewrite (N k x E) in Hp. done.
Qed.

Section incomes.
Context `{LawfulDatabase} `{Clock}.

Lemma has_income_exists d id :
  exists_row (FinancialService.for_contract id) (incomes d) = true <-> has_income d id.
Proof.
  rewrite exists_row_spec. unfold has_income, FinancialService.for_contract.
  split; intros (k & r & E & Er); exists k, r; split; try done;
    by apply (bool_decide_eq_true (income_contractId r = Some id)).
Qed.

Lemma wp_ensureIncome id c w : contracts (data w) !! id = Some c ->
  is_Some (clients (data w) !! contract_client c) ->
  wp False (FinancialService.ensureIncomeForContract id)
    (fun _ w' => ensured (data w) (seq w) id c (data w') (seq w')
                 /\ rollback_only w' = rollback_only w) w.
Proof.
  intros Ec [cl Ecl]. unfold FinancialService.ensureIncomeForContract.
  apply wp_bind, wp_get; cbv beta. destruct (exists_row _ _) eqn:EX.
  - apply wp_ret. split; [|done]. constructor. intros _. by apply has_income_exists.
  - assert (N : ~ has_income (data w) id) by (rewrite <- has_income_exists; congruence).
    unfold FinancialService.recordIncomeFromContract, the_contract, the_client.
    apply wp_bind, wp_bind, wp_get. rewrite Ec. apply wp_ret. cbv beta.
    destruct (totalGeneral (fields c)) as [a|] eqn:Ea; [destruct (Z.leb_spec a 0)|].
    + apply wp_ret. split; [|done]. constructor. intros (b & Eb & ?). exfalso. simplify_eq. lia.
    + apply wp_bind, wp_get; cbv beta zeta.
      rewrite find_rows_nil by done. cbn [head from_option]. apply wp_bind, wp_now. cbv beta.
      apply wp_bind, wp_bind, wp_get. cbn [data]. rewrite Ecl. apply wp_ret. cbv beta.
      apply wp_bind, wp_new_id. cbv beta. apply wp_modify. cbn. split; [|done].
      constructor; [done|]. by repeat split.
    + apply wp_ret. split; [|done]. constructor. intros (b & Eb & ?). congruence.
Qed.

(** Recording the income first and changing the contract and its car then
    comes to the same. *)
Lemma ensured_steps d0 d n id c0 c d' n' : ensured d n id c d' n' ->
  contracts d0 !! id = Some c0 -> incomes d0 = incomes d ->
  totalGeneral (fields c0) = totalGeneral (fields c) -> contract_client c0 = contract_client c ->
  exists f, d' = with_incomes f d /\ rtc pstep (mkState d0 n) (mkState (with_incomes f d0) n')
    /\ billed (with_incomes f d0) id c0.
Proof.
  intros He E0 EI ET EC. assert (HI : has_income d id <-> has_income d0 id) by (unfold has_income; by rewrite EI).
  destruct He as [B|r N (? & ? & ? & ? & ?)].
  - exists (fun m => m). split; [by destruct d|]. split.
    + destruct d0. apply rtc_refl.
    + intros (a & Ea & ?). apply (proj1 HI). apply B. exists a. by rewrite <- ET.
  - exists (insert (n Incomes) r). split; [done|]. split.
    + apply rtc_once, p_bill with id c0; try done; try congruence. tauto.
    + intros _. exists (n Incomes), r. cbn. by rewrite lookup_insert_eq.
Qed.
End incomes.

(** ** Conditions of cars *)

Inductive condition (cs : gmap Z Car) : gmap Z Car -> Prop :=
| condition_intro k c s : cs !! k = Some c -> car_status c <> CarStatus.RENTED -> s <> CarStatus.RENTED ->
    condition cs (<[k := car_setStatus s c]> cs).

(** [w'] is [w] with cars [cs]. *)
Definition only_cars (w : world) (cs : gmap Z Car) (w' : world) : Prop :=
  data w' = with_cars (fun _ => cs) (data w) /\ seq w' = seq w /\ rollback_only w' = rollback_only w.

Definition reconciled (w w' : world) : Prop :=
  exists cs, only_cars w cs w' /\ rtc condition (cars (data w)) cs.

Lemma reconciled_refl w t : reconciled w (mkWorld (data w) (seq w) t (rollback_only w)).
Proof. exists (cars (data w)). split; [split; [by destruct (data w)|done]|apply rtc_refl]. Qed.
Lemma reconciled_trans w1 w2 w3 : reconciled w1 w2 -> reconciled w2 w3 -> reconciled w1 w3.
Proof.
  intros (cs & (D & S & R) & C) (cs' & (D' & S' & R') & C'). exists cs'. split.
  - split; [by rewrite D', D|]. split; congruence.
  - etrans; [exact C|]. rewrite D in C'. exact C'.
Qed.

Lemma conditions_is_Some cs cs' k : rtc condition cs cs' -> is_Some (cs !! k) -> is_Some (cs' !! k).
Proof. induction 1 as [|? ? ? []]; eauto with rental. Qed.
Lemma reconciled_car w w' k : reconciled w w' -> is_Some (cars (data w) !! k) -> is_Some (cars (data w') !! k).
Proof. intros (cs & (D & _) & C). rewrite D. by apply conditions_is_Some. Qed.

Lemma alter_row {A} (m : gmap Z A) k x f : m !! k = Some x -> alter f k m = <[k := f x]> m.
Proof.
  intros E. apply map_eq. intros i. destruct (decide (k = i)) as [<-|N].
  - by rewrite lookup_alter_eq, E, lookup_insert_eq.
  - by rewrite lookup_alter_ne, lookup_insert_ne.
Qed.

(** An operation that returns and changes no row. *)
Definition returns {A} (c : T A) : Prop := forall w,
  exists a t, c w = Ok a (mkWorld (data w) (seq w) t (rollback_only w)).
Lemma wp_returns {A} E (c : T A) (Q : A -> world -> Prop) w : returns c ->
  (forall a t, Q a (mkWorld (data w) (seq w) t (rollback_only w))) -> wp E c Q w.
Proof. intros Hc HQ. destruct (Hc w) as (a & t & Ec). unfold wp. rewrite Ec. apply HQ. Qed.

Section conditions.
Context `{LawfulDatabase} `{Clock}.

Lemma conditions_steps d n cs : rtc condition (cars d) cs ->
  rtc pstep (mkState d n) (mkState (with_cars (fun _ => cs) d) n).
Proof.
  intros C. remember (cars d) as cs0 eqn:E0. revert d E0.
  induction C as [cs|cs cs1 cs2 Hc C IH]; intros d ->.
  - destruct d. apply rtc_refl.
  - destruct Hc as [k c s Ek Nc Ns]. eapply rtc_l; [by apply (p_condition d n k c s)|].
    apply (IH (with_cars (insert k (car_setStatus s c)) d) eq_refl).
Qed.

Lemma returns_isOngoing m : returns (MaintenanceService.isOngoing m).
Proof.
  intros w. unfold MaintenanceService.isOngoing. destruct (decide _).
  - exists false, (tick w). by destruct w.
  - cbn. destruct (from_option _ _ (startDate m)); [|destruct (from_option _ _ (endDate m))];
      do 2 eexists; reflexivity.
Qed.
Lemma returns_anyMatch {A} (p : A -> T bool) l : (forall a, returns (p a)) -> returns (anyMatch p l).
Proof.
  intros Hp. induction l as [|a l IH]; intros w; cbn.
  - exists false, (tick w). by destruct w.
  - destruct (Hp a w) as (b & t & Eb). unfold bind. rewrite Eb. destruct b.
    + do 2 eexists; reflexivity.
    + destruct (IH (mkWorld (data w) (seq w) t (rollback_only w))) as (b & t' & E'). rewrite E'.
      do 2 eexists; reflexivity.
Qed.

Lemma returns_hasOngoing k : returns (MaintenanceService.hasOngoingMaintenance k).
Proof.
  intros w. exact (returns_anyMatch (fun r => MaintenanceService.isOngoing r.2)
    (MaintenanceService.rowsOfCar k (data w)) (fun r => returns_isOngoing r.2) w).
Qed.
Lemma reads_participating {A} (c : T A) : returns c -> reads (participating c).
Proof. intros Hc w. unfold participating. destruct (Hc w) as (a & t & ->). done. Qed.

Lemma wp_set_condition E k c s (Q : unit -> world -> Prop) w w0 :
  reconciled w0 w -> cars (data w) !! k = Some c -> car_status c <> CarStatus.RENTED ->
  s <> CarStatus.RENTED -> (forall w', reconciled w0 w' -> Q tt w') -> wp E (set_car_status k s) Q w.
Proof.
  intros Hw Ek Nc Ns HQ. apply wp_modify, HQ. apply (reconciled_trans _ w); [done|].
  exists (<[k := car_setStatus s c]> (cars (data w))). split.
  - repeat split. cbn. unfold with_cars. by rewrite (alter_row _ _ c).
  - by apply rtc_once, condition_intro.
Qed.

Lemma wp_reconcile k w : is_Some (cars (data w) !! k) ->
  wp False (MaintenanceService.reconcileCarStatus k) (fun _ w' => reconciled w w') w.
Proof.
  intros [c Ec]. unfold MaintenanceService.reconcileCarStatus, the_car.
  apply wp_bind, wp_bind, wp_get. rewrite Ec. apply wp_ret. cbv beta.
  destruct (decide (car_status c = CarStatus.RENTED)) as [|NR].
  - apply wp_ret. destruct w. apply reconciled_refl.
  - apply wp_bind, wp_get. cbv beta. apply wp_bind, wp_returns.
    { apply returns_anyMatch. intros. apply returns_isOngoing. }
    intros b t. pose proof (reconciled_refl w t) as R. destruct b; apply wp_when; intros _;
      try exact R; eapply wp_set_condition; eauto.
Qed.

Lemma wp_reconcileAll w :
  wp False MaintenanceService.reconcileAllCarStatuses (fun _ w' => reconciled w w') w.
Proof.
  unfold MaintenanceService.reconcileAllCarStatuses. apply wp_bind, wp_get. cbv beta.
  assert (L : forall r, In r (scan (cars (data w))) -> is_Some (cars (data w) !! r.1)).
  { intros [k c]. rewrite <- list_elem_of_In, scan_rows, elem_of_map_to_list. eauto. }
  assert (R : reconciled w w) by (destruct w; apply reconciled_refl).
  assert (G : forall l w1, (forall r, In r l -> In r (scan (cars (data w)))) -> reconciled w w1 ->
    wp False (for_each l (fun r => MaintenanceService.reconcileCarStatus r.1)) (fun _ w' => reconciled w w') w1).
  { induction l as [|r l IH]; intros w1 Hl R1; cbn; [done|].
    apply wp_bind. eapply wp_mono; [apply wp_reconcile|].
    - eapply reconciled_car; [exact R1|]. apply L, Hl. by left.
    - intros ? w2 R2. apply IH; [|by eapply reconciled_trans]. intros. apply Hl. by right. }
  by apply G.
Qed.
End conditions.

(** ** Maintenances and their expenses *)

Inductive recorded (d : db) (n : table -> Z) (id : Z) (m : Maintenance) : db -> (table -> Z) -> Prop :=
| recorded_nothing : cost m = None -> recorded d n id m d n
| recorded_expense eid r n' : expense_for id m r ->
    (forall e r', expenses d !! e = Some r' -> (expense_maintenanceId r' = Some id <-> e = eid)) ->
    own_id Expenses (expenses d) n n' eid -> (n' = n \/ n' = bump Expenses n) ->
    recorded d n id m (with_expenses (insert eid r) d) n'.

Section expenses.
Context `{LawfulDatabase} `{Clock}.

Lemma for_maintenance_spec id r :
  FinancialService.for_maintenance id r = true <-> expense_maintenanceId r = Some id.
Proof. apply bool_decide_eq_true. Qed.

Lemma in_expenses_of id d e r : In (e, r) (find_rows (FinancialService.for_maintenance id) (expenses d)) <->
  expenses d !! e = Some r /\ expense_maintenanceId r = Some id.
Proof. by rewrite in_find_rows, for_maintenance_spec. Qed.

Lemma wp_recordExpense id m w : maintenances (data w) !! id = Some m ->
  (forall e r, expenses (data w) !! e = Some r -> e < seq w Expenses) ->
  (forall i j r r', expenses (data w) !! i = Some r -> expenses (data w) !! j = Some r' ->
     expense_maintenanceId r = Some id -> expense_maintenanceId r' = Some id -> i = j) ->
  wp True (FinancialService.recordExpenseFromMaintenance id)
    (fun _ w' => recorded (data w) (seq w) id m (data w') (seq w')) w.
Proof.
  intros Em Hbelow Hone. unfold FinancialService.recordExpenseFromMaintenance, the_maintenance, the_car.
  apply wp_bind, wp_bind, wp_get. rewrite Em. apply wp_ret. cbv beta.
  destruct (cost m) as [a|] eqn:Ea; [|apply wp_ret; by constructor].
  apply wp_bind, wp_get. cbv beta. apply wp_bind.
  pose proof (in_expenses_of id (data w)) as HF.
  destruct (find_rows _ _) as [|[e r] [|? ?]]; [| |exact Logic.I]; apply wp_ret; cbv beta; apply wp_bind;
    (destruct (maintenance_createdAt m); [apply wp_ret|apply wp_now]); wp; cbn;
    apply recorded_expense; try (by repeat split); auto; cbn; rewrite ?bump_eq; try lia.
  all: try (intros e' r' E'; split; [intros Er; exfalso; by apply (HF e' r')|]; intros ->;
    apply Hbelow in E'; lia).
  all: try (right; rewrite bump_eq; lia).
  all: destruct (proj1 (HF e r) (or_introl eq_refl)) as [Ee Er].
  all: try (left; by eexists).
  all: intros e' r' E'; split; [intros Er'; by eapply Hone|intros ->; cbn in *; congruence].
Qed.

Lemma own_id_mono {A} t (m : gmap Z A) (n0 n n' : table -> Z) id : n0 t <= n t ->
  own_id t m n n' id -> own_id t m n0 n' id.
Proof. unfold own_id. intros L [?|?]; [auto|right; lia]. Qed.

Lemma maintain_steps d n0 n id m cs d' n' : (forall t, n0 t <= n t) ->
  own_id Maintenances (maintenances d) n0 n id -> is_Some (cars d !! maintenance_car m) ->
  rtc condition (cars d) cs ->
  recorded (with_cars (fun _ => cs) (with_maintenances (insert id m) d)) n id m d' n' ->
  rtc pstep (mkState d n0) (mkState d' n').
Proof.
  intros Hn Hid Hcar C R. destruct R as [Hf|eid r n' Hr Hslot Ho En].
  - eapply rtc_l; [by apply (p_maintain_free d n0 n id m)|].
    apply (conditions_steps (with_maintenances (insert id m) d) n cs C).
  - assert (L : forall t, n t <= n' t) by (destruct En as [->| ->]; auto with rental; lia).
    eapply rtc_l.
    { apply (p_maintain d n0 n' id m eid r); try done.
      - intros t. specialize (Hn t). specialize (L t). lia.
      - destruct Hid as [?|?]; [by left|]. right. specialize (L Maintenances). lia.
      - by apply (own_id_mono _ _ n0 n). }
    exact (conditions_steps (with_maintenances (insert id m) (with_expenses (insert eid r) d)) n' cs C).
Qed.

(** The end of each operation that saves a maintenance. *)
Lemma wp_save_maintenance d n0 n t b id m : inv (mkState d n) -> (forall t, n0 t <= n t) ->
  own_id Maintenances (maintenances d) n0 n id -> is_Some (cars d !! maintenance_car m) ->
  wp True (bind (MaintenanceService.reconcileCarStatus (maintenance_car m)) (fun _ =>
           bind (participating (FinancialService.recordExpenseFromMaintenance id)) (fun _ =>
           MaintenanceService.respond id)))
    (fun _ w' => rtc pstep (mkState d n0) (view w')) (mkWorld (with_maintenances (insert id m) d) n t b).
Proof.
  intros I Hn Hid Hcar. apply wp_bind. eapply wp_mono.
  { eapply wp_weaken; [|apply wp_reconcile; exact Hcar]. intros []. }
  intros ? w1 (cs & (D & S & _) & C). cbn in D, S, C.
  apply wp_bind, wp_participating. eapply wp_mono.
  { apply (wp_recordExpense id m); rewrite D, ?S; cbn.
    - apply lookup_insert_eq.
    - apply (expenses_below _ (inv_ids _ I)).
    - intros. by eapply (one_expense _ (inv_books _ I)). }
  intros ? w2 R. rewrite D, S in R. apply wp_reads; [apply reads_maintenance_respond|].
  intros ? t'. by apply (maintain_steps d n0 n id m cs).
Qed.
End expenses.

(** * The services *)

Definition sound `{Database} {A} (c : T A) : Prop := forall w, inv (view w) ->
  wp True c (fun _ w' => rtc pstep (view w) (view w')) w.

Section services.
Context `{LawfulDatabase} `{Clock} `{Uploads}.

Lemma sound_reads {A} (c : T A) : reads c -> sound c.
Proof. intros Hc w _. apply wp_reads; [done|]. intros. apply rtc_refl. Qed.
Lemma sound_then {A B} (c : T A) (k : A -> T B) : sound c -> (forall a, sound (k a)) -> sound (bind c k).
Proof.
  intros Hc Hk w I. apply wp_bind. eapply wp_mono; [by apply Hc|]. intros a w1 S1. cbn in S1.
  eapply wp_mono; [apply Hk; by apply (psteps_inv (view w))|]. intros ? w2 S2. cbn in S2. by etrans.
Qed.
Lemma sound_participating {A} (c : T A) : sound c -> sound (participating c).
Proof. intros Hc w I. by apply wp_participating, Hc. Qed.

Lemma reconciled_steps w w' : reconciled w w' -> rtc pstep (view w) (view w').
Proof.
  intros (cs & (D & S & _) & C). unfold view. rewrite D, S. by apply conditions_steps.
Qed.

(** ** MaintenanceService *)

Lemma sound_reconcileAll : sound MaintenanceService.reconcileAllCarStatuses.
Proof.
  intros w _. eapply wp_mono; [eapply wp_weaken; [|apply wp_reconcileAll]; intros []|].
  intros ? w' R. by apply reconciled_steps.
Qed.

Lemma sound_reconcile k w : inv (view w) -> is_Some (cars (data w) !! k) ->
  wp True (MaintenanceService.reconcileCarStatus k) (fun _ w' => rtc pstep (view w) (view w')) w.
Proof.
  intros _ Hk. eapply wp_mono; [eapply wp_weaken; [|by apply wp_reconcile]; intros []|].
  intros ? w' R. by apply reconciled_steps.
Qed.

Lemma sound_maintenance_findAll : sound MaintenanceService.findAll.
Proof.
  apply sound_then; [apply sound_reconcileAll|]. intros ?. apply sound_reads. eauto with reads.
Qed.

Lemma sound_maintenance_findByCarId k : sound (MaintenanceService.findByCarId k).
Proof.
  intros w I. unfold MaintenanceService.findByCarId, MaintenanceService.getCar. wp.
  eapply wp_mono; [apply sound_reconcile; eauto|]. intros ? w' S. cbn in S.
  apply wp_reads; [eauto with reads|]. done.
Qed.

Lemma sound_maintenance_create r : sound (MaintenanceService.create r).
Proof.
  intros w I. unfold MaintenanceService.create, MaintenanceService.getCar. cbv zeta.
  apply wp_bind. do 2 wp_step. apply wp_or_throw; [intros car Ecar|done].
  apply wp_bind, wp_new_id. cbv beta. apply wp_bind, wp_now. cbv beta. apply wp_bind, wp_modify. cbv beta.
  assert (S : pstep (view w) (mkState (data w) (bump Maintenances (seq w))))
    by (constructor; auto with rental).
  refine (wp_save_maintenance (data w) (seq w) _ _ _ (seq w Maintenances) _ _ _ _ _).
  - by apply (pstep_inv (view w)).
  - intros u. apply bump_le.
  - right. cbn. rewrite bump_eq. lia.
  - by eexists.
Qed.

Lemma sound_maintenance_update id r : sound (MaintenanceService.update id r).
Proof.
  intros w I. unfold MaintenanceService.update, MaintenanceService.getMaintenance, MaintenanceService.getCar.
  apply wp_bind. do 2 wp_step. apply wp_or_throw; [intros m Em|done].
  destruct (_ && _); [done|]. cbv zeta.
  apply wp_bind. do 2 wp_step. apply wp_or_throw; [intros car Ecar|done].
  apply wp_bind, wp_modify. cbv beta.
  refine (wp_save_maintenance (data w) (seq w) _ _ _ id _ I _ _ _).
  - lia.
  - left. by eexists.
  - by eexists.
Qed.

Lemma sound_maintenance_complete id : sound (MaintenanceService.complete id).
Proof.
  intros w I. unfold MaintenanceService.complete, MaintenanceService.getMaintenance.
  apply wp_bind. do 2 wp_step. apply wp_or_throw; [intros m Em|done].
  destruct (decide _); [done|]. apply wp_bind, wp_bind, wp_now. cbv beta. apply wp_ret.
  apply wp_bind, wp_modify. cbv beta.
  refine (wp_save_maintenance (data w) (seq w) _ _ _ id (MaintenanceService.close _ m) I _ _ _).
  - lia.
  - left. by eexists.
  - exact (maintenance_row _ (inv_rows _ I) id m Em).
Qed.

Lemma sound_maintenance_delete id : sound (MaintenanceService.delete id).
Proof.
  intros w I. unfold MaintenanceService.delete, MaintenanceService.getMaintenance.
  apply wp_bind. do 2 wp_step. apply wp_or_throw; [intros m Em|done].
  apply wp_bind, wp_modify. cbv beta.
  assert (S : pstep (view w) (mkState (with_maintenances (base.delete id) (data w)) (seq w))) by constructor.
  eapply wp_mono; [apply sound_reconcile|].
  - by apply (pstep_inv (view w)).
  - exact (maintenance_row _ (inv_rows _ I) id m Em).
  - intros ? w' S'. by eapply rtc_l.
Qed.

(** ** Clients *)

Lemma sound_removeClient k : sound (OrphanClientService.removeClientIfOrphan k).
Proof.
  intros w _. unfold OrphanClientService.removeClientIfOrphan. wp; try apply rtc_refl.
  apply rtc_once, p_delete_client. intros id c E EC.
  match goal with X : (0 <? count_rows (of_client k) _) = false |- _ =>
    apply count_rows_zero with (k := id) (x := c) in X; [|done]; unfold of_client in X end.
  lia.
Qed.

Lemma sound_client_findById k : sound (ClientService.findById k).
Proof. apply sound_reads. unfold ClientService.findById, ClientService.getClient. eauto with reads. Qed.
Lemma sound_client_create c : sound (ClientService.create c).
Proof. intros w _. unfold ClientService.create. wp. apply rtc_once, p_new_client. Qed.
Lemma sound_client_update k c : sound (ClientService.update k c).
Proof.
  intros w _. unfold ClientService.update, ClientService.getClient. wp. apply rtc_once, p_edit_client. eauto.
Qed.
Lemma sound_client_delete k : sound (ClientService.delete k).
Proof.
  intros w I. unfold ClientService.delete, ClientService.getClient. wp. by apply sound_removeClient.
Qed.

(** ** Cars *)

Lemma reads_storeImage f : reads (CarService.storeImage f).
Proof. intros w. unfold CarService.storeImage. cbv zeta. destruct (negb _); [done|]. by destruct (copy _ _ _). Qed.
Lemma reads_applyMileage id c r : reads (CarService.applyMileage id c r).
Proof.
  unfold CarService.applyMileage. destruct r as [m|]; [|done].
  destruct (m <? 0); [done|]. cbv zeta. destruct (_ && _); [done|].
  destruct (_ || _); eauto with reads.
Qed.
Lemma reads_apply id c r f b : reads (CarService.apply id c r f b).
Proof.
  unfold CarService.apply. apply reads_bind; [apply reads_applyMileage|]. intros ?.
  apply reads_bind; [|eauto with reads]. destruct f as [f|]; [destruct (isEmpty f)|];
    eauto using reads_storeImage with reads.
Qed.

(** What the car has that [apply] makes of a request. *)
Definition applied (id : option Z) (c : Car) (r : CarRequest) (status : CarStatus.t) (c' : Car) : Prop :=
  exists m, mileage c' = Some m /\ creq_mileage r = Some m /\ 0 <= m
    /\ (is_Some id -> default 0 (mileage c) <= m)
    /\ car_status c' = status /\ matricule c' = creq_matricule r.

Lemma wp_applyMileage id c r w :
  wp True (CarService.applyMileage id c r)
    (fun p _ => exists m, p.1 = Some m /\ r = Some m /\ 0 <= m /\ (is_Some id -> default 0 (mileage c) <= m)) w.
Proof.
  unfold CarService.applyMileage. destruct r as [m|]; [|done].
  destruct (Z.ltb_spec m 0); [done|]. cbv zeta. destruct (_ && _) eqn:E1; [done|].
  assert (D : is_Some id -> default 0 (mileage c) <= m).
  { intros. rewrite bool_decide_true in E1 by done. cbn in E1. lia. }
  destruct (_ || _) eqn:E2; wp; exists m; repeat split; try done.
  apply orb_false_iff in E2 as [_ E2]. apply bool_decide_eq_false in E2. by apply dec_stable.
Qed.

Lemma wp_apply id c r f (b : bool) w (Q : Car -> world -> Prop) :
  (forall c' t, applied id c r (if b then default CarStatus.AVAILABLE (creq_status r) else car_status c) c' ->
     Q c' (mkWorld (data w) (seq w) t (rollback_only w))) ->
  wp True (CarService.apply id c r f b) Q w.
Proof.
  intros HQ. assert (P : wp True (CarService.apply id c r f b) (fun c' _ =>
    applied id c r (if b then default CarStatus.AVAILABLE (creq_status r) else car_status c) c') w).
  { unfold CarService.apply. apply wp_bind. eapply wp_mono; [apply wp_applyMileage|].
    intros p w1 (m & E1 & E2 & E3 & E4). apply wp_bind. apply wp_reads.
    { destruct f as [f|]; [destruct (isEmpty f)|]; eauto using reads_storeImage with reads. }
    intros u t. apply wp_ret. by exists m. }
  pose proof (reads_apply id c r f b w) as R. unfold wp in *.
  destruct (CarService.apply id c r f b w) as [c' [d n t rb]|]; [|done]. cbn in R.
  destruct R as (-> & -> & ->). by apply HQ.
Qed.

Lemma taken_false id text d : CarService.taken id text d = false <->
  forall k c, cars d !! k = Some c -> k <> id -> same_text (matricule c) text = false.
Proof.
  unfold CarService.taken. split.
  - intros X k c E N. destruct (same_text _ _) eqn:ES; [|done]. rewrite <- X. symmetry.
    apply existsb_exists. exists (k, c). split; [by apply list_elem_of_In, elem_of_map_to_list|].
    cbn. rewrite ES, andb_true_r. apply negb_true_iff, Z.eqb_neq, N.
  - intros X. apply not_true_iff_false. intros ([k c] & Hin & Hp)%existsb_exists. cbn in Hp.
    apply andb_true_iff in Hp as [N%negb_true_iff%Z.eqb_neq ES].
    rewrite (X k c) in ES; [done| |done]. by apply elem_of_map_to_list, list_elem_of_In.
Qed.

Lemma sound_car_findAll : sound CarService.findAll.
Proof.
  apply sound_then; [apply sound_participating, sound_reconcileAll|]. intros ?. apply sound_reads.
  eauto with reads.
Qed.
Lemma sound_car_findByStatus st : sound (CarService.findByStatus st).
Proof.
  apply sound_then; [apply sound_participating, sound_reconcileAll|]. intros ?. apply sound_reads.
  eauto with reads.
Qed.
Lemma sound_car_findById k : sound (CarService.findById k).
Proof.
  intros w I. unfold CarService.findById, CarService.getCar. wp.
  eapply wp_mono; [apply sound_reconcile; eauto|]. intros ? w' S. cbn in S.
  apply wp_reads; [eauto with reads|]. done.
Qed.

Lemma sound_car_create r f : sound (CarService.create r f).
Proof.
  intros w I. unfold CarService.create. apply wp_bind, wp_apply.
  intros c' t (m & E1 & E2 & E3 & _ & ES & EM). destruct (bool_decide _) eqn:EA; [done|].
  apply bool_decide_eq_false, dec_stable in EA. unfold CarService.save. wp.
  apply rtc_once. apply (p_new_car _ _ c' m); try done. exact (proj1 (taken_false _ _ _) Heqb).
Qed.

Lemma sound_car_update k r f : sound (CarService.update k r f).
Proof.
  intros w I. unfold CarService.update, CarService.getCar. apply wp_bind. do 2 wp_step.
  apply wp_or_throw; [intros c Ec|done]. apply wp_bind, wp_apply.
  intros c' t (m & E1 & E2 & E3 & E4 & ES & EM). unfold CarService.save. wp.
  apply rtc_once, (p_edit_car _ _ k c _ m); try done; [apply E4; eauto|]. exact (proj1 (taken_false _ _ _) Heqb).
Qed.

Lemma sound_car_markAvailable k : sound (CarService.markAvailable k).
Proof.
  intros w I. unfold CarService.markAvailable, CarService.getCar. apply wp_bind. do 2 wp_step.
  apply wp_or_throw; [intros c Ec|done]. cbv zeta.
  destruct (_ && _) eqn:E1; [done|]. apply wp_bind. apply wp_reads.
  { destruct (decide (car_status c = CarStatus.MAINTENANCE)); [|eauto with reads]. apply reads_participating, returns_hasOngoing. }
  intros b t. destruct b; [done|]. apply wp_bind, wp_get. cbn [data].
  destruct (bool_decide (car_status c = CarStatus.RENTED)) eqn:ER.
  - apply bool_decide_eq_true in ER. destruct (exists_row _ _) eqn:EX; [done|]. exfalso.
    destruct (proj1 (rented_iff_active _ (inv_rental _ I) k c Ec) ER) as (id & c0 & E0 & EA & EK).
    rewrite exists_row_false in EX. specialize (EX id c0 E0).
    unfold of_car, is_open in EX. rewrite EK, EA, Z.eqb_refl in EX.
    rewrite (active_not_deleted _ (inv_rental _ I) id c0 E0 EA) in EX. done.
  - apply bool_decide_eq_false in ER. wp. unfold view; cbn. unfold with_cars at 1.
    rewrite (alter_row _ _ c) by done. by apply rtc_once, p_condition.
Qed.

Lemma sound_car_delete k : sound (CarService.delete k).
Proof.
  intros w I. unfold CarService.delete, CarService.getCar. wp.
  match goal with X : (_ || _) = false |- _ => apply orb_false_iff in X as [X1 X2] end.
  rewrite count_rows_zero in X1. rewrite count_rows_zero in X2. apply rtc_once, p_delete_car.
  - intros id c E EC. specialize (X1 id c E). unfold of_car in X1. lia.
  - intros id m E EC. specialize (X2 id m E). cbn in X2. lia.
Qed.
End services.
