(* ===== verification/RentalContracts.v ===== *)
(** Contracts: the test for overlapping contracts, and that the operations of
    ContractService and DashboardService are sequences of protocol steps. *)
From S2P Require Import Prelude Rental RentalServices RentalProtocol RentalRefine.
Open Scope Z_scope.

(** ** Overlaps *)

Section overlaps.
Context `{LawfulDatabase}.

Lemma is_open_live c : negb (deleted c) = true -> is_open c = true <-> live c.
Proof.
  intros D%negb_true_iff. unfold is_open, live. rewrite orb_true_iff, !bool_decide_eq_true. naive_solver.
Qed.

Lemma overlaps_clash f s e c : departureDatetime f = Some s -> expectedReturnDatetime f = Some e ->
  ContractService.overlaps s e c = true <-> clash f (fields c).
Proof.
  intros Es Ee. unfold ContractService.overlaps, clash, isBefore, isAfter. rewrite Es, Ee.
  destruct (departureDatetime (fields c)); [|done].
  destruct (expectedReturnDatetime (fields c)); [|done].
  rewrite andb_true_iff, !Z.ltb_lt. done.
Qed.

(** The contracts that the test looks at. *)
Definition rivals (d : db) (car : Z) (except : option Z) : list (Z * Contract) :=
  List.filter (fun r => bool_decide (except <> Some r.1))
    (List.filter (fun r => is_open r.2)
      (find_rows (fun c => negb (deleted c) && of_car car c) (contracts d))).

Lemma in_rivals d car except id c : In (id, c) (rivals d car except) <->
  contracts d !! id = Some c /\ except <> Some id /\ live c /\ contract_car c = car.
Proof.
  unfold rivals. rewrite !filter_In, in_find_rows, andb_true_iff, bool_decide_eq_true. cbn.
  unfold of_car. rewrite Z.eqb_eq. split.
  - intros [[[? [D ?]] O] ?]. rewrite is_open_live in O by done. done.
  - intros (? & ? & L & ?). assert (D : negb (deleted c) = true) by (destruct L as [-> _]; done).
    by rewrite is_open_live.
Qed.

Lemma overlapping_false d car f except :
  ContractService.hasOverlappingContract car (departureDatetime f) (expectedReturnDatetime f) except d = false
  <-> bookable d car f except.
Proof.
  unfold ContractService.hasOverlappingContract, bookable. fold (rivals d car except).
  destruct (departureDatetime f) as [s|] eqn:Es;
    [destruct (expectedReturnDatetime f) as [e|] eqn:Ee|].
  - rewrite <- not_true_iff_false, existsb_exists. split.
    + intros N id c Ec Nx L EC K. apply N. exists (id, c). split; [by apply in_rivals|].
      by apply (overlaps_clash f).
    + intros N ([id c] & (? & ? & ? & ?)%in_rivals & K). apply (overlaps_clash f) in K; [|done..].
      by eapply N.
  - split; [|done]. intros _ id c _ _ _ _ K. unfold clash in K. by rewrite Es, Ee in K.
  - split; [|done]. intros _ id c _ _ _ _ K. unfold clash in K. by rewrite Es in K.
Qed.
End overlaps.

(** ** Setting columns *)

Lemma wp_set_contract E id f c (Q : unit -> world -> Prop) w : contracts (data w) !! id = Some c ->
  Q tt (mkWorld (with_contracts (insert id (f c)) (data w)) (seq w) (tick w) (rollback_only w)) ->
  wp E (set_contract id f) Q w.
Proof. intros Ec HQ. apply wp_modify. unfold with_contracts in *. by rewrite (alter_row _ _ c). Qed.
Lemma wp_set_car E id s c (Q : unit -> world -> Prop) w : cars (data w) !! id = Some c ->
  Q tt (mkWorld (with_cars (insert id (car_setStatus s c)) (data w)) (seq w) (tick w) (rollback_only w)) ->
  wp E (set_car_status id s) Q w.
Proof. intros Ec HQ. apply wp_modify. unfold with_cars in *. by rewrite (alter_row _ _ c). Qed.

Section contracts.
Context `{LawfulDatabase} `{Clock}.

(** ** Activation *)

(** Contract [id], whose row is [c], and its car, whose row is [car], put out. *)
Definition put_out (d : db) (id : Z) (c : Contract) (car : Car) : db :=
  with_cars (insert (contract_car c) (car_setStatus CarStatus.RENTED car))
    (with_contracts (insert id (setStatus ContractStatus.ACTIVE c)) d).

Lemma put_out_steps d n id c car d' n' :
  contracts d !! id = Some c -> deleted c = false -> contract_status c = ContractStatus.IN_PROGRESS ->
  cars d !! contract_car c = Some car -> car_status car = CarStatus.AVAILABLE ->
  ensured (put_out d id c car) n id (setStatus ContractStatus.ACTIVE c) d' n' ->
  rtc pstep (mkState d n) (mkState d' n').
Proof.
  intros Ec Hd Hs Ecar Ha He.
  destruct (ensured_steps d _ n id c _ d' n' He Ec) as (f & -> & S & _); [done..|].
  etrans; [exact S|]. apply rtc_once.
  exact (p_activate (with_incomes f d) n' id c car Ec Hd Hs Ecar Ha).
Qed.

Lemma wp_ensure id c w : contracts (data w) !! id = Some c ->
  is_Some (clients (data w) !! contract_client c) ->
  wp False (participating (FinancialService.ensureIncomeForContract id))
    (fun _ w' => ensured (data w) (seq w) id c (data w') (seq w')) w.
Proof.
  intros Ec Ecl. apply wp_participating. eapply wp_mono; [by apply wp_ensureIncome|]. by intros ? ? [? _].
Qed.


(** What activating contract [id], whose row is [c], does to contracts and cars. *)
Inductive activation (id : Z) (c : Contract) (d : db) : db -> Prop :=
| activation_refused car : cars d !! contract_car c = Some car -> car_status car <> CarStatus.AVAILABLE ->
    activation id c d d
| activation_done car d' : cars d !! contract_car c = Some car ->
    contracts d' = <[id := setStatus ContractStatus.ACTIVE c]> (contracts d) ->
    cars d' = <[contract_car c := car_setStatus CarStatus.RENTED car]> (cars d) -> activation id c d d'.

Lemma wp_autoActivate id c w : inv (view w) -> contracts (data w) !! id = Some c ->
  deleted c = false -> contract_status c = ContractStatus.IN_PROGRESS ->
  wp False (ContractService.autoActivate id)
    (fun _ w' => rtc pstep (view w) (view w') /\ activation id c (data w) (data w')
                 /\ rollback_only w' = rollback_only w) w.
Proof.
  intros I Ec Hd Hs. destruct (contract_row _ (inv_rows _ I) id c Ec) as ([car Ecar] & Hcl & _).
  unfold ContractService.autoActivate, the_contract, the_car.
  apply wp_bind, wp_bind, wp_get. rewrite Ec. apply wp_ret. cbv beta.
  apply wp_bind, wp_bind, wp_get. cbn in Ecar. rewrite Ecar. apply wp_ret. cbv beta.
  destruct (decide _) as [Ha|].
  - apply wp_bind, (wp_set_car _ _ _ car); [done|]. cbv beta.
    apply wp_bind, (wp_set_contract _ _ _ c); [done|]. cbv beta. apply wp_participating.
    eapply wp_mono; [apply (wp_ensureIncome id (setStatus ContractStatus.ACTIVE c)); cbn|].
    + apply lookup_insert_eq.
    + exact Hcl.
    + intros ? w' [He Hr]. cbn in He. split; [by apply (put_out_steps (data w) (seq w) id c car)|].
      split; [|exact Hr]. destruct He; by apply (activation_done _ _ _ car).
  - apply wp_ret. split; [apply rtc_refl|]. split; [|done]. by apply (activation_refused _ _ _ car).
Qed.

Lemma NoDup_scan {A} (m : gmap Z A) : NoDup (List.map fst (scan m)).
Proof. rewrite scan_rows. apply NoDup_fst_map_to_list. Qed.
Lemma NoDup_map_filter {A B} (g : A -> B) (p : A -> bool) (l : list A) :
  NoDup (List.map g l) -> NoDup (List.map g (List.filter p l)).
Proof.
  induction l as [|a l IH]; cbn; [done|]. intros [N D]%Prelude.NoDup_cons_iff. destruct (p a); [|by apply IH].
  cbn. apply Prelude.NoDup_cons_iff. split; [|by apply IH]. rewrite list_elem_of_In, in_map_iff in *.
  intros (x & E & [Hx _]%filter_In). apply N. eauto.
Qed.

Definition pending (d : db) (r : Z * Contract) : Prop :=
  contracts d !! r.1 = Some r.2 /\ deleted r.2 = false
  /\ contract_status r.2 = ContractStatus.IN_PROGRESS.
(** Car [k] cannot be put out. *)
Definition unavailable (d : db) (k : Z) : Prop :=
  forall car, cars d !! k = Some car -> car_status car <> CarStatus.AVAILABLE.

Lemma activation_pending id c d d' r : activation id c d d' ->
  (r.1 <> id -> pending d r -> pending d' r) /\ (pending d' r -> pending d r).
Proof.
  intros [|car d1 _ EC _]; [done|]. unfold pending. rewrite EC. split.
  - intros N P. by rewrite lookup_insert_ne.
  - intros (E & P). apply lookup_insert_Some in E as [[<- Er]|[N E]]; [|done].
    rewrite <- Er in P. by destruct P.
Qed.
Lemma activation_unavailable id c d d' : activation id c d d' ->
  unavailable d' (contract_car c) /\ forall k, unavailable d k -> unavailable d' k.
Proof.
  unfold unavailable. intros [car E N|car d1 E _ EC].
  - split; [|done]. intros car' E'. by simplify_eq.
  - rewrite EC. split; [intros car'; rewrite lookup_insert_eq; by intros [= <-]|].
    intros k Hk car' [[<- <-]|[N E']]%lookup_insert_Some; [done|]. by apply Hk.
Qed.

Lemma wp_activateAll l : forall w, inv (view w) -> NoDup (List.map fst l) -> Forall (pending (data w)) l ->
  wp False (for_each l (fun r => try_log (ContractService.autoActivate r.1)))
    (fun _ w' => rtc pstep (view w) (view w') /\ rollback_only w' = rollback_only w
       /\ (forall r, pending (data w') r -> pending (data w) r)
       /\ (forall k, unavailable (data w) k -> unavailable (data w') k)
       /\ (forall r, r ∈ l -> unavailable (data w') (contract_car r.2))) w.
Proof.
  induction l as [|r l IH]; intros w I D P; cbn.
  { split; [apply rtc_refl|]. do 3 (split; [done|]). intros r Hr. by apply not_elem_of_nil in Hr. }
  inversion_clear P as [|? ? (Ec & Hd & Hs) P']. cbn in D. apply Prelude.NoDup_cons_iff in D as [N D].
  apply wp_bind, wp_try_log. eapply wp_mono; [by apply (wp_autoActivate r.1 r.2)|].
  intros ? w1 (S1 & A & R1). cbn in S1. destruct (activation_unavailable _ _ _ _ A) as [U1 U2].
  eapply wp_mono; [apply IH; [|done|]|].
  - by apply (psteps_inv (view w)).
  - apply Forall_by. intros r' Hr'. apply (activation_pending _ _ _ _ r' A); [|by apply (Forall_in _ _ _ P')].
    intros EE. apply N. rewrite <- EE. rewrite list_elem_of_In, in_map_iff. exists r'.
    by rewrite <- list_elem_of_In.
  - intros ? w2 (S2 & R2 & P2 & K2 & L2). cbn in S2. split; [by etrans|]. split; [congruence|]. split; [|split].
    + intros r1 Hr1. by apply (activation_pending _ _ _ _ r1 A), P2.
    + auto.
    + intros r1 [->|Hr1]%elem_of_cons; auto.
Qed.

(** The reservations whose departure is not after [t]. *)
Definition departed (t : Z) (r : Z * Contract) : Prop :=
  exists departure, departureDatetime (fields r.2) = Some departure /\ departure <= t.

Lemma wp_autoActivateContracts w : inv (view w) ->
  wp False ContractService.autoActivateContracts
    (fun _ w' => rtc pstep (view w) (view w') /\ rollback_only w' = rollback_only w
       /\ forall r, pending (data w') r -> departed (clock (tick w)) r ->
            unavailable (data w') (contract_car r.2)) w.
Proof.
  intros I. unfold ContractService.autoActivateContracts. apply wp_bind, wp_now. cbv beta.
  apply wp_bind, wp_get. cbn [data]. cbv zeta.
  eapply wp_mono; [refine (wp_activateAll _ (mkWorld (data w) (seq w) (S (tick w)) (rollback_only w)) I _ _)|].
  - apply NoDup_map_filter, NoDup_map_filter, NoDup_scan.
  - apply Forall_by. intros [id c] [[E P]%in_find_rows _]%list_elem_of_In%filter_In. cbn in E.
    apply andb_true_iff in P as [D%negb_true_iff S]. apply bool_decide_eq_true in S. done.
  - intros ? w' (S & R & P & _ & L). split; [exact S|]. split; [exact R|].
    intros [id c] Hp (dep & Ed & Hd). apply (L (id, c)). destruct (P _ Hp) as (E1 & E2 & E3).
    cbn in *. apply list_elem_of_In, filter_In. split.
    + apply in_find_rows. rewrite E2. split; [done|]. by apply bool_decide_eq_true.
    + cbn. rewrite Ed. cbn. unfold isAfter. apply negb_true_iff, Z.ltb_ge, Hd.
Qed.

Lemma sound_autoActivate : sound ContractService.autoActivateContracts.
Proof.
  intros w I. eapply wp_mono; [eapply (wp_weaken _ False); [intros []|by apply wp_autoActivateContracts]|].
  by intros ? w' [S _].
Qed.

(** ** Readers *)

Lemma sound_autoActivate_reads {A} (c : T A) : reads c ->
  sound (bind ContractService.autoActivateContracts (fun _ => c)).
Proof. intros Hc. apply sound_then; [apply sound_autoActivate|]. intros ?. by apply sound_reads. Qed.

Lemma reads_getContract id : reads (ContractService.getContract id).
Proof. apply reads_bind; eauto with reads. Qed.

Lemma sound_futureReservations : sound ContractService.findInProgressFutureReservations.
Proof. apply sound_autoActivate_reads. eauto with reads. Qed.
Lemma sound_contract_findAll : sound ContractService.findAll.
Proof. apply sound_autoActivate_reads. eauto with reads. Qed.
Lemma sound_contract_findAllByCarId k : sound (ContractService.findAllByCarId k).
Proof. apply sound_autoActivate_reads. eauto with reads. Qed.
Lemma sound_contract_history k : sound (ContractService.findCarRentalHistory k).
Proof. apply sound_autoActivate_reads. eauto with reads. Qed.
Lemma sound_contract_findById id : sound (ContractService.findById id).
Proof. apply sound_autoActivate_reads. eauto using reads_getContract with reads. Qed.
Lemma sound_contract_findActive : sound ContractService.findActive.
Proof. apply sound_autoActivate_reads. eauto with reads. Qed.

(** ** Writers *)

Lemma wp_getContract id (Q : Contract -> world -> Prop) w :
  (forall c, contracts (data w) !! id = Some c -> deleted c = false -> Q c w) ->
  wp True (ContractService.getContract id) Q w.
Proof.
  intros HQ. apply wp_bind, wp_get, wp_or_throw; [|done]. intros c.
  destruct (contracts (data w) !! id) as [c'|]; [|done]. destruct (deleted c') eqn:D; [done|].
  intros [= <-]. by apply HQ.
Qed.

Lemma wp_ensure_respond id c w (Q : ContractResponse -> world -> Prop) :
  contracts (data w) !! id = Some c -> is_Some (clients (data w) !! contract_client c) ->
  (forall a w', ensured (data w) (seq w) id c (data w') (seq w') -> Q a w') ->
  wp True (bind (participating (FinancialService.ensureIncomeForContract id))
             (fun _ => ContractService.respond id)) Q w.
Proof.
  intros Ec Hcl HQ. apply wp_bind. eapply wp_mono.
  { eapply (wp_weaken _ False); [intros []|]. by apply (wp_ensure id c). }
  intros ? w1 He. apply wp_reads; [eauto with reads|]. intros a1 t. by apply HQ.
Qed.

Lemma insert_contract_twice d id c c' :
  with_contracts (insert id c') (with_contracts (insert id c) d) = with_contracts (insert id c') d.
Proof. unfold with_contracts; cbn. by rewrite insert_insert_eq. Qed.

Lemma sound_contract_create r : sound (ContractService.create r).
Proof.
  intros w I. unfold ContractService.create, ContractService.getCar, ContractService.getClient. cbv zeta.
  apply wp_bind. do 2 wp_step. apply wp_or_throw; [intros car Ecar|done].
  apply wp_bind, wp_get. cbv beta. destruct (ContractService.hasOverlappingContract _ _ _ _ _) eqn:Ho; [done|].
  apply overlapping_false in Ho.
  apply wp_bind. do 2 wp_step. apply wp_or_throw; [intros cl Ecl|done].
  apply wp_bind, wp_now. cbv beta. apply wp_bind, wp_or_throw; [intros dep Edep|done].
  set (reserved := fun t => mkContract (request_carId r) (request_clientId r) (ContractService.apply r)
    ContractStatus.IN_PROGRESS false t).
  assert (Hres : forall t, pstep (view w) (mkState (with_contracts (insert (seq w Contracts) (reserved t)) (data w))
    (bump Contracts (seq w)))).
  { intros t. apply p_reserve; eauto. }
  apply wp_bind. destruct (negb _).
  - destruct (bool_decide _) eqn:Ha; [done|]. apply bool_decide_eq_false, dec_stable in Ha.
    apply wp_bind, (wp_set_car _ _ _ car); [done|]. apply wp_ret.
    apply wp_bind, wp_new_id. cbv beta. apply wp_bind, wp_now. cbv beta. apply wp_bind, wp_modify. cbv beta.
    eapply (wp_ensure_respond (seq w Contracts)); [apply lookup_insert_eq|by eexists|].
    intros ? w' He. eapply rtc_l; [apply Hres|].
    eapply (put_out_steps _ _ (seq w Contracts) (reserved (Some (clock (S (tick w))))) car); try done.
    + apply lookup_insert_eq.
    + unfold put_out. rewrite insert_contract_twice. exact He.
  - apply wp_ret. apply wp_bind, wp_new_id. cbv beta. apply wp_bind, wp_now. cbv beta.
    apply wp_bind, wp_modify. cbv beta. apply wp_bind. cbn [when]. apply wp_ret.
    apply wp_reads; [eauto with reads|]. intros ? t. apply rtc_once, Hres.
Qed.

Lemma sound_contract_updateStatus id s : sound (ContractService.updateStatus id s).
Proof.
  intros w I. unfold ContractService.updateStatus, the_car. apply wp_bind, wp_getContract. intros c Ec Hd.
  destruct (contract_row _ (inv_rows _ I) id c Ec) as ([car Ecar] & Hcl & _). cbn in Ecar, Hcl.
  destruct s; try done.
  - apply wp_bind. destruct (bool_decide _) eqn:Hs; [done|]. apply bool_decide_eq_false, dec_stable in Hs.
    apply wp_bind, wp_bind, wp_get. rewrite Ecar. apply wp_ret.
    destruct (bool_decide _) eqn:Ha; [done|]. apply bool_decide_eq_false, dec_stable in Ha.
    apply wp_bind, (wp_set_car _ _ _ car); [done|]. apply wp_bind, (wp_set_contract _ _ _ c); [done|].
    eapply wp_mono; [eapply (wp_weaken _ False); [intros []|]; eapply (wp_ensure id)|];
      [apply lookup_insert_eq|done|].
    intros ? w1 He. apply wp_reads; [eauto with reads|]. intros ? t.
    by apply (put_out_steps (data w) (seq w) id c car).
  - apply wp_bind. destruct (bool_decide _) eqn:Hs; [done|]. apply bool_decide_eq_false, dec_stable in Hs.
    apply wp_bind, wp_now. cbv beta. apply wp_bind, (wp_set_contract _ _ _ c); [done|].
    apply wp_bind, wp_bind, wp_get. cbn. rewrite Ecar. apply wp_ret.
    apply wp_bind, (wp_set_car _ _ _ car); [done|].
    eapply wp_mono; [eapply (wp_weaken _ False); [intros []|]; eapply (wp_ensure id)|];
      [apply lookup_insert_eq|done|].
    intros ? w1 He. apply wp_reads; [eauto with reads|]. intros ? t.
    destruct (ensured_steps (data w) _ _ id c _ _ _ He Ec) as (f & Ef & S & B); [done..|].
    etrans; [exact S|]. apply rtc_once. unfold view. cbn [data seq]. rewrite Ef.
    exact (p_return (with_incomes f (data w)) _ id c car _ Ec Hd Hs B Ecar).
Qed.

Lemma set_same_status d k car : cars d !! k = Some car ->
  with_cars (insert k (car_setStatus (car_status car) car)) d = d.
Proof.
  intros Ek. unfold with_cars. rewrite insert_id; [by destruct d|]. rewrite Ek. by destruct car.
Qed.

Lemma active_car_rented d n id c car : inv (mkState d n) -> contracts d !! id = Some c ->
  contract_status c = ContractStatus.ACTIVE -> cars d !! contract_car c = Some car ->
  car_status car = CarStatus.RENTED.
Proof.
  intros I Ec Ha Ecar. apply (rented_iff_active _ (inv_rental _ I) (contract_car c)); [done|].
  exists id, c. done.
Qed.

Lemma sound_contract_update id r : sound (ContractService.update id r).
Proof.
  intros w I. unfold ContractService.update, ContractService.getCar, ContractService.getClient.
  apply wp_bind, wp_getContract. intros c Ec Hd. destruct (decide _) as [|NC]; [done|]. cbv zeta.
  apply wp_bind. do 2 wp_step. apply wp_or_throw; [intros car Ecar|done].
  apply wp_bind, wp_get. cbv beta. destruct (ContractService.hasOverlappingContract _ _ _ _ _) eqn:Ho; [done|].
  apply overlapping_false in Ho.
  apply wp_bind. do 2 wp_step. apply wp_or_throw; [intros cl Ecl|done].
  destruct (_ && _) eqn:Hcar; [done|].
  assert (Hsame : contract_status c = ContractStatus.ACTIVE -> contract_car c = request_carId r).
  { intros A. rewrite bool_decide_true in Hcar by done. cbn in Hcar. by apply negb_false_iff, Z.eqb_eq in Hcar. }
  apply wp_bind, (wp_set_contract _ _ _ c); [done|]. cbv beta. apply wp_bind, wp_now. cbv beta.
  set (c' := setFields (ContractService.apply r) (setCarClient (request_carId r) (request_clientId r) c)).
  set (d' := with_contracts (insert id c') (data w)).
  assert (Ham : pstep (view w) (mkState d' (seq w))).
  { apply p_amend; eauto. }
  assert (Ec' : contracts d' !! id = Some c') by apply lookup_insert_eq.
  apply wp_bind. destruct (decide (contract_status c = ContractStatus.IN_PROGRESS)) as [Hp|Np].
  - apply wp_bind, wp_or_throw; [intros dep Edep|done]. apply wp_ret. cbv beta. apply wp_bind.
    destruct (isAfter dep _); cbn [negb]; swap 1 2.
    + destruct (bool_decide (car_status car <> _)) eqn:Ha; [done|]. apply bool_decide_eq_false, dec_stable in Ha.
      apply wp_bind, (wp_set_contract _ _ _ c'); [done|]. apply wp_bind, (wp_set_car _ _ _ car); [done|].
      eapply wp_mono; [eapply (wp_weaken _ False); [intros []|]; eapply (wp_ensure id)|];
        [apply lookup_insert_eq|by eexists|].
      intros ? w1 He. apply wp_reads; [eauto with reads|]. intros ? t.
      eapply rtc_l; [exact Ham|]. by apply (put_out_steps d' (seq w) id c' car).
    + apply wp_when; [intros A%bool_decide_eq_true; congruence|]. intros _.
      apply wp_reads; [eauto with reads|]. intros ? t. by apply rtc_once.
  - apply wp_ret. apply wp_bind, wp_when.
    + intros A%bool_decide_eq_true. apply (wp_set_car _ _ _ car); [done|].
      apply wp_reads; [eauto with reads|]. intros ? t. apply rtc_once. unfold view; cbn [data seq].
      rewrite <- (active_car_rented (data w) (seq w) id c car); [|done..|by rewrite Hsame].
      rewrite set_same_status by done. exact Ham.
    + intros _. apply wp_reads; [eauto with reads|]. intros ? t. by apply rtc_once.
Qed.

Lemma sound_contract_softDelete id : sound (ContractService.softDelete id).
Proof.
  intros w I. unfold ContractService.softDelete. apply wp_bind, wp_getContract. intros c Ec Hd.
  destruct (decide _) as [|NA]; [done|].
  destruct (contract_row _ (inv_rows _ I) id c Ec) as (_ & Hcl & _).
  assert (G : forall w1, rtc pstep (view w) (view w1) -> contracts (data w1) !! id = Some c ->
    wp True (bind (set_contract id (setDeleted true)) (fun _ =>
      participating (OrphanClientService.removeClientIfOrphan (contract_client c))))
      (fun _ w' => rtc pstep (view w) (view w')) w1).
  { intros w1 S1 Ec1. apply wp_bind, (wp_set_contract _ _ _ c); [done|]. apply wp_participating.
    assert (S2 : rtc pstep (view w) (mkState (with_contracts (insert id (setDeleted true c)) (data w1)) (seq w1))).
    { eapply rtc_r; [exact S1|]. by apply p_archive. }
    eapply wp_mono; [apply sound_removeClient, (psteps_inv (view w)); [exact S2|done]|].
    intros ? w' S3. cbn in S3. by etrans; [exact S2|]. }
  apply wp_bind, wp_when; intros _.
  - eapply wp_mono; [eapply (wp_weaken _ False); [intros []|]; by apply (wp_ensure id c)|].
    intros ? w1 He. destruct (ensured_steps (data w) _ _ id c _ _ _ He Ec) as (f & Ef & S & _); [done..|].
    apply G; unfold view; rewrite Ef; done.
  - apply G; [apply rtc_refl|done].
Qed.

(** ** DashboardService *)

Lemma sound_calendar : sound DashboardService.calendar.
Proof. apply sound_participating, sound_contract_findActive. Qed.
Lemma sound_getFutureReservations : sound DashboardService.getFutureReservations.
Proof. apply sound_participating, sound_futureReservations. Qed.
Lemma sound_stats : sound DashboardService.stats.
Proof.
  unfold DashboardService.stats. apply sound_then; [apply sound_participating, sound_reads; eauto with reads|].
  intros ?. apply sound_then; [apply sound_participating, sound_reads; eauto with reads|].
  intros ?. apply sound_reads. eauto with reads.
Qed.

Lemma reads_returnAlert r : reads (DashboardService.returnAlert r).
Proof.
  unfold DashboardService.returnAlert. destruct (expectedReturnDatetime _); [|done]. cbv zeta.
  apply reads_bind; [done|]. intros t. destruct (isAfter _ _); [eauto with reads|].
  apply reads_bind; [done|]. intros t'. destruct (isAfter _ _); eauto with reads.
Qed.
Lemma sound_alerts : sound DashboardService.alerts.
Proof.
  apply sound_then; [apply sound_participating, sound_autoActivate|]. intros ?. apply sound_reads.
  unfold today. eauto 10 using reads_returnAlert with reads.
Qed.
End contracts.
