(* ===== verification/RentalApi.v ===== *)
(** The rental service as its clients see it: the calls of its controllers, one
    transaction each, and what holds after any sequence of them. *)
From S2P Require Import Prelude Rental RentalServices RentalProtocol RentalRefine RentalContracts.
Open Scope Z_scope.

(** * Calls *)

(** The endpoints of CarController, ClientController, ContractController,
    MaintenanceController, DashboardController and FinancialController, and the
    scheduled task. *)
Inductive call :=
| CarFindAll | CarFindByStatus (s : CarStatus.t) | CarFindById (id : Z)
| CarAvailability (date : Z) | CarAvailableOnDate (date : Z) | CarHistory (id : Z)
| CarCreate (r : CarRequest) (image : option MultipartFile)
| CarUpdate (id : Z) (r : CarRequest) (image : option MultipartFile)
| CarMarkAvailable (id : Z) | CarDelete (id : Z)
| ClientFindAll | ClientFindById (id : Z) | ClientCreate (r : Client) | ClientUpdate (id : Z) (r : Client)
| ClientDelete (id : Z)
| ContractFindAll (carId : option Z) (history : bool) | ContractFindById (id : Z) | ContractFindActive
| ContractCreate (r : ContractRequest) | ContractReturn (id : Z)
| ContractUpdateStatus (id : Z) (s : ContractStatus.t)
| ContractUpdate (id : Z) (r : ContractRequest) | ContractSoftDelete (id : Z)
| MaintenanceFindAll | MaintenanceFindByCarId (carId : Z)
| MaintenanceCreate (r : MaintenanceRequest) | MaintenanceUpdate (id : Z) (r : MaintenanceRequest)
| MaintenanceComplete (id : Z) | MaintenanceDelete (id : Z)
| DashboardStats | DashboardCalendar | DashboardAlerts | DashboardFutureReservations
| FinancialIncome | FinancialExpenses
| ScheduledAutoActivate.

Definition ignore {A} (c : T A) : T unit := bind c (fun _ => ret tt).

Section api.
Context `{Database} `{Clock} `{Uploads}.

Definition exec (c : call) : T unit :=
  match c with
  | CarFindAll => ignore CarService.findAll
  | CarFindByStatus s => ignore (CarService.findByStatus s)
  | CarFindById id => ignore (CarService.findById id)
  | CarAvailability date => ignore (CarService.availabilityOnDate date)
  | CarAvailableOnDate date => ignore (CarService.availableOnDate date)
  | CarHistory id => ignore (CarService.history id)
  | CarCreate r image => ignore (CarService.create r image)
  | CarUpdate id r image => ignore (CarService.update id r image)
  | CarMarkAvailable id => ignore (CarService.markAvailable id)
  | CarDelete id => CarService.delete id
  | ClientFindAll => ignore ClientService.findAll
  | ClientFindById id => ignore (ClientService.findById id)
  | ClientCreate r => ignore (ClientService.create r)
  | ClientUpdate id r => ignore (ClientService.update id r)
  | ClientDelete id => ClientService.delete id
  | ContractFindAll None _ => ignore ContractService.findAll
  | ContractFindAll (Some k) true => ignore (ContractService.findCarRentalHistory k)
  | ContractFindAll (Some k) false => ignore (ContractService.findAllByCarId k)
  | ContractFindById id => ignore (ContractService.findById id)
  | ContractFindActive => ignore ContractService.findActive
  | ContractCreate r => ignore (ContractService.create r)
  | ContractReturn id => ignore (ContractService.registerReturn id)
  | ContractUpdateStatus id s => ignore (ContractService.updateStatus id s)
  | ContractUpdate id r => ignore (ContractService.update id r)
  | ContractSoftDelete id => ContractService.softDelete id
  | MaintenanceFindAll => ignore MaintenanceService.findAll
  | MaintenanceFindByCarId k => ignore (MaintenanceService.findByCarId k)
  | MaintenanceCreate r => ignore (MaintenanceService.create r)
  | MaintenanceUpdate id r => ignore (MaintenanceService.update id r)
  | MaintenanceComplete id => ignore (MaintenanceService.complete id)
  | MaintenanceDelete id => MaintenanceService.delete id
  | DashboardStats => ignore DashboardService.stats
  | DashboardCalendar => ignore DashboardService.calendar
  | DashboardAlerts => ignore DashboardService.alerts
  | DashboardFutureReservations => ignore DashboardService.getFutureReservations
  | FinancialIncome => ignore FinancialService.listAllIncome
  | FinancialExpenses => ignore FinancialService.listAllExpenses
  | ScheduledAutoActivate => ContractService.autoActivateContracts
  end.

Definition after {A} (o : outcome A) : world := match o with Ok _ w | Throw _ w => w end.
Definition serve (w : world) (c : call) : world := after (transactional (exec c) w).
Definition serve_all (w : world) (cs : list call) : world := fold_left serve cs w.
End api.

(** A new installation: no rows, and ids start at 1. *)
Definition start : world := mkWorld (mkDb ∅ ∅ ∅ ∅ ∅ ∅) (fun _ => 1) 0 false.

(** * The generators only go forward *)

Definition grows {A} (c : T A) : Prop := forall w t, seq w t <= seq (after (c w)) t.

Section growing.
Context `{Database} `{Clock} `{Uploads}.

Lemma grows_reads {A} (c : T A) : reads c -> grows c.
Proof. intros Hc w t. specialize (Hc w). destruct (c w); cbn; destruct Hc as (_ & -> & _); lia. Qed.
Lemma grows_bind {A B} (c : T A) (k : A -> T B) : grows c -> (forall a, grows (k a)) -> grows (bind c k).
Proof.
  intros Hc Hk w t. specialize (Hc w t). unfold bind. destruct (c w) as [a w'|]; [|done].
  etrans; [exact Hc|]. apply Hk.
Qed.
Lemma grows_modify f : grows (modify f).
Proof. intros w t. cbn. lia. Qed.
Lemma grows_new_id u : grows (new_id u).
Proof. intros w t. cbn. case_decide; subst; lia. Qed.
Lemma grows_participating {A} (c : T A) : grows c -> grows (participating c).
Proof. intros Hc w t. specialize (Hc w t). unfold participating. by destruct (c w). Qed.
Lemma grows_try_log c : grows c -> grows (try_log c).
Proof. intros Hc w t. specialize (Hc w t). unfold try_log. by destruct (c w). Qed.
Lemma grows_when b c : grows c -> grows (when b c).
Proof. intros Hc. destruct b; [exact Hc|]. apply grows_reads, reads_ret. Qed.
Lemma grows_for_each {A} (l : list A) f : (forall a, grows (f a)) -> grows (for_each l f).
Proof.
  intros Hf. induction l as [|a l IH]; cbn; [apply grows_reads, reads_ret|]. by apply grows_bind.
Qed.
Lemma grows_ignore {A} (c : T A) : grows c -> grows (ignore c).
Proof. intros. apply grows_bind; [done|]. intros. apply grows_reads, reads_ret. Qed.

Ltac grows := repeat first
  [ apply grows_ignore | apply grows_bind; [|intros ?] | apply grows_modify | apply grows_new_id
  | apply grows_participating | apply grows_try_log | apply grows_when | apply grows_for_each; intros ?
  | apply grows_reads; solve [eauto with reads]
  | match goal with
    | |- grows (if ?b then _ else _) => destruct b
    | |- grows (match ?x with _ => _ end) => destruct x
    | |- grows (let x := _ in _) => cbv zeta
    end ].

Lemma reads_latestFirst l : reads (CarService.latestFirst l).
Proof. unfold CarService.latestFirst. destruct (_ && _); eauto with reads. Qed.
Lemma reads_history k : reads (CarService.history k).
Proof.
  unfold CarService.history, CarService.getCar, CarService.rentalItem, CarService.maintenanceItem.
  repeat (apply reads_bind; [eauto 8 with reads|intros ?]). apply reads_latestFirst.
Qed.

Lemma grows_exec c : grows (exec c).
Proof.
  destruct c; cbn [exec]; grows;
    eauto using grows_reads, reads_getContract, reads_latestFirst, reads_storeImage, reads_applyMileage,
      reads_returnAlert with reads.
Qed.
End growing.

(** * Refinement *)

Section refinement.
Context `{LawfulDatabase} `{Clock} `{Uploads}.

Lemma sound_ignore {A} (c : T A) : sound c -> sound (ignore c).
Proof. intros. apply sound_then; [done|]. intros ?. apply sound_reads, reads_ret. Qed.

Lemma sound_exec c : sound (exec c).
Proof.
  destruct c as [| | | | | | | | | | | | | | |carId history| | | | | | | | | | | | | | | | | | | |]; cbn [exec];
    try (destruct carId as [k|]; [destruct history|]); try apply sound_ignore;
    auto using sound_car_findAll, sound_car_findByStatus, sound_car_findById, sound_car_create,
      sound_car_update, sound_car_markAvailable, sound_car_delete, sound_client_findById,
      sound_client_create, sound_client_update, sound_client_delete, sound_contract_findAll,
      sound_contract_history, sound_contract_findAllByCarId, sound_contract_findById,
      sound_contract_findActive, sound_contract_create, sound_contract_updateStatus,
      sound_contract_update, sound_contract_softDelete, sound_maintenance_findAll,
      sound_maintenance_findByCarId, sound_maintenance_create, sound_maintenance_update,
      sound_maintenance_complete, sound_maintenance_delete, sound_stats, sound_calendar, sound_alerts,
      sound_getFutureReservations, sound_autoActivate, sound_reads, reads_history;
    try (apply sound_reads; eauto with reads; fail).
  apply sound_contract_updateStatus.
Qed.

Lemma serve_steps w c : inv (view w) -> rtc pstep (view w) (view (serve w c)).
Proof.
  intros I. pose (w0 := mkWorld (data w) (seq w) (tick w) false).
  pose proof (sound_exec c w0 I) as S. pose proof (grows_exec c w0) as G.
  unfold serve, transactional, wp in *. subst w0. destruct (exec c _) as [a w'|e w']; cbn in *.
  - destruct (rollback_only w'); [|exact S]. apply rtc_once. by constructor.
  - apply rtc_once. by constructor.
Qed.

Lemma clash_free_empty : clash_free ∅.
Proof. intros i j c c' E. by rewrite lookup_empty in E. Qed.

Lemma inv_start : inv (view start).
Proof.
  assert (N : forall A k (x : A), (∅ : gmap Z A) !! k = Some x -> False) by (intros ? ? ?; by rewrite lookup_empty).
  constructor; [constructor|constructor|hnf|constructor|constructor]; cbn; try apply clash_free_empty;
    try (intros; match goal with E : _ !! _ = Some _ |- _ => destruct (N _ _ _ E) end).
  intros i j k (c & E & _). destruct (N _ _ _ E).
Qed.

Lemma serve_all_steps cs : forall w, inv (view w) -> rtc pstep (view w) (view (serve_all w cs)).
Proof.
  induction cs as [|c cs IH]; intros w I; cbn; [apply rtc_refl|].
  pose proof (serve_steps w c I) as S. etrans; [exact S|]. apply IH. by apply (psteps_inv (view w)).
Qed.

Lemma reached_inv cs : inv (view (serve_all start cs)).
Proof. apply (psteps_inv (view start)); [apply serve_all_steps|]; apply inv_start. Qed.

Lemma serve_all_app w cs cs' : serve_all w (cs ++ cs') = serve_all (serve_all w cs) cs'.
Proof. apply fold_left_app. Qed.

Lemma transactional_throw {A} (c : T A) w e w' : transactional c w = Throw e w' -> data w' = data w.
Proof.
  unfold transactional. destruct (c _) as [a w1|e1 w1].
  - by destruct (rollback_only w1); intros [=]; subst.
  - by intros [=]; subst.
Qed.
End refinement.
