(* ===== verification/RentalProps.v ===== *)
(** What the rental service guarantees: the theorems on sequences of calls, the
    exact outcomes of renting a car, and the conditions of cars. *)
From S2P Require Import Prelude Rental RentalServices RentalProtocol RentalRefine RentalContracts RentalApi.
Open Scope Z_scope.

(** * A database *)

(** Rows in the order of their ids, a stable sort, and exact comparison. *)
Definition desc_le {A} (key : A -> option Z) (p q : Z * A) : bool :=
  match key p.2, key q.2 with
  | _, None => true
  | None, Some _ => false
  | Some x, Some y => y <=? x
  end.
Definition plain_database : Database := {|
  scan := fun A m => map_to_list m;
  order_by_desc := fun A key l => sorted (desc_le key) l;
  same_text := String.eqb |}.

Section sorting.
Context {A : Type} (le : A -> A -> bool).
Hypothesis le_total : forall a b, le a b = true \/ le b a = true.

Lemma insert_sorted_perm a l : insert_sorted le a l ≡ₚ a :: l.
Proof.
  induction l as [|b l IH]; cbn; [done|]. destruct (le a b); [done|]. rewrite IH. constructor.
Qed.
Lemma sorted_perm l : sorted le l ≡ₚ l.
Proof. induction l as [|a l IH]; cbn; [done|]. by rewrite insert_sorted_perm, IH. Qed.
Lemma insert_sorted_sorted a l : Sorted (fun x y => le x y = true) l ->
  Sorted (fun x y => le x y = true) (insert_sorted le a l).
Proof.
  induction 1 as [|b l HS IH HR]; cbn; [by repeat constructor|]. destruct (le a b) eqn:E.
  - repeat constructor; done.
  - constructor; [exact IH|]. assert (le b a = true) by (destruct (le_total a b); congruence).
    destruct l as [|b' l]; cbn; [by constructor|]. destruct (le a b'); constructor; [done|].
    by inversion HR.
Qed.
Lemma sorted_sorted l : Sorted (fun x y => le x y = true) (sorted le l).
Proof. induction l; cbn; [constructor|]. by apply insert_sorted_sorted. Qed.
End sorting.

Lemma plain_database_lawful : @LawfulDatabase plain_database.
Proof.
  constructor; cbn.
  - done.
  - intros. apply sorted_perm.
  - intros A key l. assert (S : Sorted (fun x y => desc_le key x y = true) (sorted (desc_le key) l)).
    { apply sorted_sorted. intros a b. unfold desc_le.
      destruct (key a.2), (key b.2); auto. rewrite !Z.leb_le. lia. }
    induction S as [|a l' HS IH HR]; constructor; [done|].
    destruct HR as [|b l' E]; constructor. unfold desc_le in E. unfold desc.
    destruct (key a.2), (key b.2); try done. by apply Z.leb_le.
  - intros s. apply String.eqb_refl.
Qed.

(** The clock of the examples: one minute from a reading to the next. *)
Definition minute : Z := 60 * 10 ^ 9.
Definition minutes : Clock := fun n => Z.of_nat n * minute.
Definition no_uploads : Uploads := {|
  randomUUID := fun _ => ""; copy := fun _ _ _ => Some "no uploads" |}.

(** * Sequences of calls *)

Section calls.
Context `{LawfulDatabase} `{Clock} `{Uploads}.

(** C1: Every call that the service answers, from any state that it can reach,
    changes the rows by steps of the protocol; a call that fails changes no row. *)
Theorem rental_calls_follow_protocol (cs : list call) (c : call) :
  let w := serve_all start cs in
  rtc pstep (view w) (view (serve w c))
  /\ forall e w', transactional (exec c) w = Throw e w' -> data w' = data w.
Proof.
  cbv zeta. split; [apply serve_steps, reached_inv|]. intros e w'. apply transactional_throw.
Qed.

(** C2: Whatever calls were made, a car is RENTED exactly when a contract that is
    not deleted is ACTIVE for it, there is one such contract at most, and of two
    open contracts of a car that both have a departure and an expected return,
    one ends before the other starts.  Nothing is said of open contracts without
    one of these dates: the service lets them overlap. *)
Theorem cars_are_never_double_booked (cs : list call) :
  let d := data (serve_all start cs) in
  (forall k car, cars d !! k = Some car ->
     (car_status car = CarStatus.RENTED <->
      exists id c, contracts d !! id = Some c /\ deleted c = false
        /\ contract_status c = ContractStatus.ACTIVE /\ contract_car c = k))
  /\ (forall i j c c', contracts d !! i = Some c -> contracts d !! j = Some c' -> i <> j ->
       contract_car c = contract_car c' ->
       ~ (contract_status c = ContractStatus.ACTIVE /\ contract_status c' = ContractStatus.ACTIVE)
       /\ (live c -> live c' -> forall s e s' e',
            departureDatetime (fields c) = Some s -> expectedReturnDatetime (fields c) = Some e ->
            departureDatetime (fields c') = Some s' -> expectedReturnDatetime (fields c') = Some e' ->
            e <= s' \/ e' <= s)).
Proof.
  cbv zeta. destruct (inv_rental _ (reached_inv cs)) as [R O D N]. cbn [rows view] in *. split.
  - intros k car E. rewrite (R k car E). split.
    + intros (id & c & Ec & Ea & Ek). exists id, c. split; [done|]. split; [by apply (D id)|done].
    + intros (id & c & Ec & _ & Ea & Ek). by exists id, c.
  - intros i j c c' E E' Nij EC. split.
    + intros [A A']. apply Nij, (O i j (contract_car c')); [by exists c|by exists c'].
    + intros L L' s e s' e' Es Ee Es' Ee'. pose proof (N i j c c' E E' Nij L L' EC) as K.
      unfold clash in K. rewrite Es, Ee, Es', Ee' in K. lia.
Qed.

(** C28: Whatever calls were made, every contract refers to a car and a client
    that exist, every maintenance to a car that exists and every income to a
    contract that exists; no contract is CANCELLED, mileages are not negative and
    no two cars have the same registration.  Ids of rows come from the
    generators, and so do the maintenance of an expense and the client of an
    income, whose own rows may have been deleted. *)
Theorem rows_are_well_formed (cs : list call) :
  let s := view (serve_all start cs) in rows_ok s /\ registrations_ok s /\ ids_ok s.
Proof. cbv zeta. destruct (reached_inv cs). auto. Qed.

(** C8: Whatever calls were made, a contract that is over and was not free has
    exactly one income, and no contract has two; a maintenance with a cost has
    exactly one expense, with its present cost, type and description. *)
Theorem books_balance (cs : list call) :
  let d := data (serve_all start cs) in
  (forall id c, contracts d !! id = Some c -> contract_status c = ContractStatus.COMPLETED -> due c ->
     exists i r, incomes d !! i = Some r /\ income_contractId r = Some id)
  /\ (forall i j r r' id, incomes d !! i = Some r -> incomes d !! j = Some r' ->
        income_contractId r = Some id -> income_contractId r' = Some id -> i = j)
  /\ (forall id m a, maintenances d !! id = Some m -> cost m = Some a ->
        exists i r, expenses d !! i = Some r /\ expense_for id m r
          /\ forall j r', expenses d !! j = Some r' -> expense_maintenanceId r' = Some id -> j = i).
Proof.
  cbv zeta. destruct (inv_books _ (reached_inv cs)) as [I C E X]. cbn [rows view] in *.
  split; [|split].
  - intros id c Ec Hs Hd. by apply (C id c).
  - exact I.
  - intros id m a Em Ea. destruct (X id m a Em Ea) as (i & r & Er & F). exists i, r.
    split; [done|]. split; [done|]. intros j r' Ej Ej'. by apply (E j i r' r id); try done; apply F.
Qed.

(** C26: Later calls never take back what earlier ones did: the status of a
    contract only advances, an archived contract stays as it is and one that is
    over is at most archived; incomes are neither changed nor removed; in each of
    the six tables an id that was given out is not used again once its row is
    gone, and mileages do not decrease. *)
Theorem calls_only_move_forward (cs cs' : list call) :
  evolves (view (serve_all start cs)) (view (serve_all start (cs ++ cs'))).
Proof.
  rewrite serve_all_app. apply psteps_evolve; [apply serve_all_steps|]; apply reached_inv.
Qed.

(** C27: The scheduled task always completes, and after it no reservation whose
    departure has come waits for a car that is AVAILABLE: it is ACTIVE, or its
    car is out for another contract or in maintenance. *)
Theorem due_reservations_are_activated (cs : list call) :
  let w := serve_all start cs in
  exists w', transactional ContractService.autoActivateContracts w = Ok tt w'
    /\ forall id c car departure, contracts (data w') !! id = Some c -> deleted c = false ->
         contract_status c = ContractStatus.IN_PROGRESS ->
         departureDatetime (fields c) = Some departure -> departure <= clock (tick w) ->
         cars (data w') !! contract_car c = Some car -> car_status car <> CarStatus.AVAILABLE.
Proof.
  cbv zeta. pose proof (reached_inv cs) as I. set (w := serve_all start cs) in *.
  pose proof (wp_autoActivateContracts (mkWorld (data w) (seq w) (tick w) false) I) as S.
  unfold wp, transactional in *. destruct (ContractService.autoActivateContracts _) as [[] w'|]; [|done].
  destruct S as (_ & R & U). rewrite R. exists w'. split; [done|].
  intros id c car dep E1 E2 E3 E4 E5. apply (U (id, c)); [done|]. by exists dep.
Qed.

(** In every state that calls lead to, making a car available by hand fails
    when it is rented. *)
Theorem rented_car_cannot_be_marked_available (cs : list call) (k : Z) (car : Car) :
  let w := serve_all start cs in
  cars (data w) !! k = Some car -> car_status car = CarStatus.RENTED ->
  exists w', transactional (CarService.markAvailable k) w = Throw (IllegalArgument "CAR_HAS_ACTIVE_CONTRACT") w'
    /\ data w' = data w.
Proof.
  cbv zeta. intros E R. pose proof (reached_inv cs) as I. set (w := serve_all start cs) in *.
  destruct (proj1 (rented_iff_active _ (inv_rental _ I) k car E) R) as (id & c & Ec & Ea & Ek).
  assert (X : exists_row (fun c => of_car k c && negb (deleted c) && is_open c) (contracts (data w)) = true).
  { apply exists_row_spec. exists id, c. split; [done|]. unfold of_car, is_open.
    rewrite Ek, Ea, Z.eqb_refl, (active_not_deleted _ (inv_rental _ I) id c Ec Ea). done. }
  unfold transactional, CarService.markAvailable, CarService.getCar, bind, get, or_throw.
  cbn [data]. rewrite E. cbn [ret]. rewrite R.
  rewrite (bool_decide_false (CarStatus.RENTED <> CarStatus.RENTED)) by (intros N; by apply N).
  cbn [andb]. rewrite decide_False by done. cbn [ret]. rewrite bool_decide_true by done. cbn [andb data].
  rewrite X. by eexists.
Qed.
End calls.

(** * Renting a car *)

(** C30: The test for overlapping contracts says yes exactly when another
    contract of the car, neither deleted nor over, and with both dates, has a
    moment in common with the period asked for, in whatever order the database
    returns the contracts. *)
Theorem overlap_test_is_exact `{LawfulDatabase} (d : db) (car : Z) (departure back except : option Z) :
  ContractService.hasOverlappingContract car departure back except d = true <->
  exists id c s e s' e', contracts d !! id = Some c /\ except <> Some id
    /\ deleted c = false
    /\ (contract_status c = ContractStatus.IN_PROGRESS \/ contract_status c = ContractStatus.ACTIVE)
    /\ contract_car c = car
    /\ departure = Some s /\ back = Some e
    /\ departureDatetime (fields c) = Some s' /\ expectedReturnDatetime (fields c) = Some e'
    /\ s < e' /\ s' < e.
Proof.
  unfold ContractService.hasOverlappingContract. fold (rivals d car except).
  destruct departure as [s|]; [destruct back as [e|]|]; [|naive_solver..].
  rewrite existsb_exists. split.
  - intros ([id c] & (E1 & E2 & [E3 E4] & E5)%in_rivals & O). cbn in O. unfold ContractService.overlaps in O.
    destruct (departureDatetime (fields c)) as [s'|] eqn:Es; [|done].
    destruct (expectedReturnDatetime (fields c)) as [e'|] eqn:Ee; [|done].
    unfold isBefore, isAfter in O. apply andb_true_iff in O as [O1%Z.ltb_lt O2%Z.ltb_lt].
    exists id, c, s, e, s', e'. repeat split; done.
  - intros (id & c & s1 & e1 & s' & e' & E1 & E2 & E3 & E4 & E5 & [= <-] & [= <-] & Es & Ee & L1 & L2).
    exists (id, c). split; [by apply in_rivals|]. cbn. unfold ContractService.overlaps, isBefore, isAfter.
    rewrite Es, Ee. apply andb_true_iff. rewrite !Z.ltb_lt. done.
Qed.

Lemma bind_ok {A B} (c : T A) (k : A -> T B) w a w' : c w = Ok a w' -> bind c k w = k a w'.
Proof. unfold bind. by intros ->. Qed.
Lemma bind_throw {A B} (c : T A) (k : A -> T B) w e w' : c w = Throw e w' -> bind c k w = Throw e w'.
Proof. unfold bind. by intros ->. Qed.
Lemma the_car_ok k car w : cars (data w) !! k = Some car -> the_car k w = Ok car w.
Proof. unfold the_car, bind, get. by intros ->. Qed.
Lemma the_client_ok k cl w : clients (data w) !! k = Some cl -> the_client k w = Ok cl w.
Proof. unfold the_client, bind, get. by intros ->. Qed.
Lemma the_contract_ok k c w : contracts (data w) !! k = Some c -> the_contract k w = Ok c w.
Proof. unfold the_contract, bind, get. by intros ->. Qed.

Lemma set_car_status_ok k s car w : cars (data w) !! k = Some car -> set_car_status k s w =
  Ok tt (mkWorld (with_cars (insert k (car_setStatus s car)) (data w)) (seq w) (tick w) (rollback_only w)).
Proof. intros E. unfold set_car_status, modify, with_cars. by rewrite (alter_row _ _ car). Qed.

Section renting.
Context `{LawfulDatabase} `{Clock}.

(** The income of a new contract [id], recorded at [t]. *)
Definition first_income (id : Z) (c : Contract) (client : Client) (total t : Z) : IncomeRecord :=
  mkIncome total t IncomeSource.CONTRACT
    (Some ("Contrat #" +:+ pretty id +:+ " — " +:+ fullName client)) (Some id)
    (Some (contract_client c)) (Some (fullName client)) "Administrateur".

(** The incomes after those of contract [id] are ensured, when it has none. *)
Definition with_first_income (id : Z) (c : Contract) (client : Client) (t k : Z) (d : db) : db :=
  match totalGeneral (fields c) with
  | Some total => if total <=? 0 then d else with_incomes (insert k (first_income id c client total t)) d
  | None => d
  end.

Lemma ensureIncome_first id c client w : contracts (data w) !! id = Some c ->
  clients (data w) !! contract_client c = Some client -> ~ has_income (data w) id ->
  exists w', participating (FinancialService.ensureIncomeForContract id) w = Ok tt w'
    /\ data w' = with_first_income id c client (clock (tick w)) (seq w Incomes) (data w)
    /\ rollback_only w' = rollback_only w.
Proof.
  intros Ec Ecl N. unfold participating, FinancialService.ensureIncomeForContract, with_first_income.
  rewrite (bind_ok get _ w (data w) w) by done.
  assert (EX : exists_row (FinancialService.for_contract id) (incomes (data w)) = false)
    by (apply not_true_iff_false; by rewrite has_income_exists).
  rewrite EX. unfold FinancialService.recordIncomeFromContract.
  rewrite (bind_ok _ _ _ _ _ (the_contract_ok id c w Ec)).
  destruct (totalGeneral (fields c)) as [total|]; [destruct (total <=? 0)|]; try (by exists w).
  rewrite (bind_ok get _ w (data w) w) by done. rewrite find_rows_nil by done. cbv zeta. cbn [head from_option].
  erewrite (bind_ok now) by reflexivity. erewrite (bind_ok (the_client _)) by (apply the_client_ok; exact Ecl).
  by eexists.
Qed.

Lemma transactional_fails {A} (c : T A) w e :
  (exists w', c (mkWorld (data w) (seq w) (tick w) false) = Throw e w') ->
  exists w', transactional c w = Throw e w' /\ data w' = data w.
Proof. intros [w' E]. unfold transactional. rewrite E. by eexists. Qed.
Lemma transactional_ok {A} (c : T A) w a w' :
  c (mkWorld (data w) (seq w) (tick w) false) = Ok a w' -> rollback_only w' = false ->
  transactional c w = Ok a w'.
Proof. intros E R. unfold transactional. by rewrite E, R. Qed.

Section create.
Variables (r : ContractRequest) (w : world) (car : Car) (client : Client) (departure : Z).
Let d := data w.
Let f := request_fields r.
Let id := seq w Contracts.
Let row s := mkContract (request_carId r) (request_clientId r) (ContractService.apply r) s false
               (Some (clock (S (tick w)))).
Let w1 := mkWorld d (seq w) (S (tick w)) (rollback_only w).
Hypothesis Ecar : cars d !! request_carId r = Some car.

Lemma getCar_ok : ContractService.getCar (request_carId r) w = Ok car w.
Proof. unfold ContractService.getCar, bind, get. fold d. by rewrite Ecar. Qed.

Lemma create_booked : ~ bookable d (request_carId r) f None ->
  ContractService.create r w = Throw (ContractService.already_booked car) w.
Proof.
  intros NB. unfold ContractService.create. cbv zeta. rewrite (bind_ok _ _ _ _ _ getCar_ok).
  rewrite (bind_ok get _ w d w) by done.
  destruct (ContractService.hasOverlappingContract _ _ _ _ _) eqn:Ho; [done|].
  destruct NB. by apply overlapping_false.
Qed.

Hypothesis Hb : bookable d (request_carId r) f None.

Lemma not_overlapping : ContractService.hasOverlappingContract (request_carId r) (departureDatetime f)
  (expectedReturnDatetime f) None d = false.
Proof. by apply overlapping_false. Qed.

Lemma create_no_client : clients d !! request_clientId r = None ->
  ContractService.create r w = Throw (ResourceNotFound ("Client not found: " +:+ pretty (request_clientId r))) w.
Proof.
  intros N. unfold ContractService.create. cbv zeta. rewrite (bind_ok _ _ _ _ _ getCar_ok).
  rewrite (bind_ok get _ w d w) by done. fold f. rewrite not_overlapping. apply bind_throw.
  unfold ContractService.getClient, bind, get. fold d. by rewrite N.
Qed.

Hypothesis Ecl : clients d !! request_clientId r = Some client.

Lemma getClient_ok : ContractService.getClient (request_clientId r) w = Ok client w.
Proof. unfold ContractService.getClient, bind, get. fold d. by rewrite Ecl. Qed.

(** The checks before the clock is read succeed. *)
Ltac checks :=
  unfold ContractService.create; cbv zeta; rewrite (bind_ok _ _ _ _ _ getCar_ok);
  rewrite (bind_ok get _ w d w) by done; fold f; rewrite not_overlapping;
  rewrite (bind_ok _ _ _ _ _ getClient_ok); rewrite (bind_ok now _ w (clock (tick w)) w1) by done.

Lemma create_no_departure : departureDatetime f = None -> ContractService.create r w = Throw NullPointer w1.
Proof. intros N. checks. apply bind_throw. by rewrite N. Qed.

Hypothesis Edep : departureDatetime f = Some departure.

Lemma respond_ok k c car' w' : contracts (data w') !! k = Some c ->
  cars (data w') !! contract_car c = Some car' -> clients (data w') !! contract_client c = Some client ->
  ContractService.respond k w' = Ok (mkContractResponse k c car' client) w'.
Proof.
  intros E1 E2 E3. unfold ContractService.respond, ContractService.toResponse.
  rewrite (bind_ok _ _ _ _ _ (the_contract_ok k c w' E1)). cbn [fst snd].
  rewrite (bind_ok _ _ _ _ _ (the_car_ok _ car' w' E2)).
  by rewrite (bind_ok _ _ _ _ _ (the_client_ok _ client w' E3)).
Qed.

Lemma create_later : (clock (tick w) <? departure) = true ->
  exists w', ContractService.create r w = Ok (mkContractResponse id (row ContractStatus.IN_PROGRESS) car client) w'
    /\ data w' = with_contracts (insert id (row ContractStatus.IN_PROGRESS)) d
    /\ rollback_only w' = rollback_only w.
Proof.
  intros L. checks. rewrite Edep. rewrite (bind_ok _ _ w1 departure w1) by done.
  unfold isAfter. rewrite L. cbn [negb]. erewrite bind_ok by reflexivity.
  erewrite (bind_ok (new_id Contracts)) by reflexivity. erewrite (bind_ok now) by reflexivity.
  erewrite (bind_ok (modify _)) by reflexivity. rewrite bool_decide_false by done.
  erewrite (bind_ok (when _ _)) by reflexivity.
  eexists. split; [apply respond_ok; try done; apply lookup_insert_eq|done].
Qed.

Lemma create_unavailable : (clock (tick w) <? departure) = false -> car_status car <> CarStatus.AVAILABLE ->
  ContractService.create r w = Throw (ContractService.not_available car) w1.
Proof.
  intros L N. checks. rewrite Edep. rewrite (bind_ok _ _ w1 departure w1) by done.
  apply bind_throw. unfold isAfter. rewrite L. cbn [negb]. by rewrite bool_decide_true.
Qed.

Lemma create_now : inv (view w) -> (clock (tick w) <? departure) = false -> car_status car = CarStatus.AVAILABLE ->
  exists w', ContractService.create r w = Ok (mkContractResponse id (row ContractStatus.ACTIVE)
                                              (car_setStatus CarStatus.RENTED car) client) w'
    /\ data w' = with_first_income id (row ContractStatus.ACTIVE) client (clock (S (S (tick w)))) (seq w Incomes)
                   (put_out d id (row ContractStatus.IN_PROGRESS) car)
    /\ rollback_only w' = rollback_only w.
Proof.
  intros I L A. checks. rewrite Edep. rewrite (bind_ok _ _ w1 departure w1) by done.
  unfold isAfter. rewrite L. cbn [negb]. rewrite bool_decide_false by (intros N; by apply N).
  erewrite (bind_ok (bind (set_car_status _ _) _)) by reflexivity.
  erewrite (bind_ok (new_id Contracts)) by reflexivity. erewrite (bind_ok now) by reflexivity.
  erewrite (bind_ok (modify _)) by reflexivity. rewrite bool_decide_true by done. cbn [when].
  match goal with |- context [bind (participating _) _ ?x] => set (w2 := x) end.
  destruct (ensureIncome_first id (row ContractStatus.ACTIVE) client w2) as (w' & E1 & E2 & E3).
  - apply lookup_insert_eq.
  - exact Ecl.
  - intros (i & x & Ei & Ex). destruct (income_row _ (inv_rows _ I) i x id Ei Ex) as [c Ec].
    apply (contracts_below _ (inv_ids _ I)) in Ec. cbn in Ec. unfold id in Ec. lia.
  - assert (D2 : data w2 = put_out d id (row ContractStatus.IN_PROGRESS) car).
    { unfold w2, put_out, with_cars, with_contracts; cbn. by rewrite (alter_row _ _ car). }
    rewrite (bind_ok _ _ _ _ _ E1). exists w'. rewrite E2, D2, E3. split; [|done].
    assert (D' : cars (data w') = cars (data w2) /\ contracts (data w') = contracts (data w2)
      /\ clients (data w') = clients (data w2)).
    { rewrite E2. unfold with_first_income. repeat case_match; done. }
    destruct D' as (D1 & D3 & D4). apply respond_ok; rewrite ?D1, ?D3, ?D4, D2; cbn; try done;
      apply lookup_insert_eq.
Qed.
End create.

(** C21: What creating a contract does, from every state that satisfies the
    invariants: it fails without an existing car, when the car is booked for an
    overlapping period, without an existing client or a departure, and when the
    departure is not in the future but the car is not AVAILABLE; else it adds
    one contract, a reservation when the departure is in the future, and else
    an ACTIVE contract whose car is then RENTED and whose income is recorded. *)
Theorem contract_create_outcomes (r : ContractRequest) (w : world) : inv (view w) ->
  let d := data w in
  let f := request_fields r in
  let o := transactional (ContractService.create r) w in
  let fails e := exists w', o = Throw e w' /\ data w' = d in
  let id := seq w Contracts in
  let row s := mkContract (request_carId r) (request_clientId r) (ContractService.apply r) s false
                 (Some (clock (S (tick w)))) in
  match cars d !! request_carId r with
  | None => fails (ResourceNotFound ("Car not found: " +:+ pretty (request_carId r)))
  | Some car =>
    (~ bookable d (request_carId r) f None -> fails (ContractService.already_booked car))
    /\ (bookable d (request_carId r) f None ->
        match clients d !! request_clientId r, departureDatetime f with
        | None, _ => fails (ResourceNotFound ("Client not found: " +:+ pretty (request_clientId r)))
        | Some _, None => fails NullPointer
        | Some client, Some departure =>
          if clock (tick w) <? departure then
            exists w', o = Ok (mkContractResponse id (row ContractStatus.IN_PROGRESS) car client) w'
              /\ data w' = with_contracts (insert id (row ContractStatus.IN_PROGRESS)) d
          else if decide (car_status car = CarStatus.AVAILABLE) then
            exists w', o = Ok (mkContractResponse id (row ContractStatus.ACTIVE)
                                (car_setStatus CarStatus.RENTED car) client) w'
              /\ data w' = with_first_income id (row ContractStatus.ACTIVE) client
                             (clock (S (S (tick w)))) (seq w Incomes)
                             (put_out d id (row ContractStatus.IN_PROGRESS) car)
          else fails (ContractService.not_available car)
        end)
  end.
Proof.
  intros I. cbv zeta. set (w0 := mkWorld (data w) (seq w) (tick w) false).
  destruct (cars (data w) !! request_carId r) as [car|] eqn:Ecar.
  2: { apply transactional_fails. exists w0. unfold ContractService.create. apply bind_throw.
       unfold ContractService.getCar, bind, get. cbn. by rewrite Ecar. }
  split.
  - intros NB. apply transactional_fails. exists w0. by apply (create_booked r w0 car).
  - intros B. destruct (clients (data w) !! request_clientId r) as [client|] eqn:Ecl.
    2: { apply transactional_fails. exists w0. by apply (create_no_client r w0 car). }
    destruct (departureDatetime (request_fields r)) as [departure|] eqn:Edep.
    2: { apply transactional_fails. eexists. by apply (create_no_departure r w0 car client). }
    destruct (clock (tick w) <? departure) eqn:Et; [|destruct (decide _) as [Ha|Na]].
    + destruct (create_later r w0 car client departure) as (w' & E1 & E2 & E3); try done.
      exists w'. split; [|done]. by apply transactional_ok.
    + destruct (create_now r w0 car client departure) as (w' & E1 & E2 & E3); try done.
      exists w'. split; [|done]. by apply transactional_ok.
    + apply transactional_fails. eexists. by apply (create_unavailable r w0 car client departure).
Qed.
End renting.

(** * The conditions of cars *)

(** Maintenance [m] is under way on day [today]. *)
Definition ongoing_on (today : Z) (m : Maintenance) : bool :=
  negb (bool_decide (maintenance_status m = Some MaintenanceStatus.COMPLETED))
  && from_option (fun start => start <=? today) true (startDate m)
  && from_option (fun stop => today <=? stop) true (endDate m).

(** The status of car [k] that fits the maintenances of [d] on day [today]. *)
Definition fitting_status (today : Z) (d : db) (k : Z) (car : Car) : CarStatus.t :=
  if decide (car_status car = CarStatus.RENTED) then CarStatus.RENTED else
  if exists_row (fun m => (maintenance_car m =? k) && ongoing_on today m) (maintenances d)
  then CarStatus.MAINTENANCE else CarStatus.AVAILABLE.

Section fitting.
Context `{LawfulDatabase} `{Clock}.
Variable day : Z.
Hypothesis same_day : forall n, toLocalDate (clock n) = day.

Lemma isOngoing_day m w : exists t,
  MaintenanceService.isOngoing m w = Ok (ongoing_on day m) (mkWorld (data w) (seq w) t (rollback_only w)).
Proof.
  unfold MaintenanceService.isOngoing, ongoing_on. destruct (decide _) as [E|N].
  - rewrite bool_decide_true by done. exists (tick w). by destruct w.
  - rewrite bool_decide_false by done. cbn [negb andb]. exists (S (tick w)).
    unfold today. erewrite bind_ok by reflexivity. rewrite same_day.
    destruct (startDate m) as [a|]; cbn; unfold isAfter, isBefore.
    + rewrite (Z.leb_antisym day a). destruct (day <? a); cbn; [done|].
      destruct (endDate m) as [b|]; cbn; [|done]. rewrite (Z.leb_antisym b day). by destruct (b <? day).
    + destruct (endDate m) as [b|]; cbn; [|done]. rewrite (Z.leb_antisym b day). by destruct (b <? day).
Qed.

Lemma anyOngoing_day (l : list (Z * Maintenance)) : forall w, exists t,
  anyMatch (fun r => MaintenanceService.isOngoing r.2) l w =
    Ok (existsb (fun r => ongoing_on day r.2) l) (mkWorld (data w) (seq w) t (rollback_only w)).
Proof.
  induction l as [|r l IH]; intros w; cbn.
  - exists (tick w). by destruct w.
  - destruct (isOngoing_day r.2 w) as [t E]. rewrite (bind_ok _ _ _ _ _ E).
    destruct (ongoing_on day r.2); cbn; [by exists t|].
    destruct (IH (mkWorld (data w) (seq w) t (rollback_only w))) as [t' ->]. by exists t'.
Qed.

Lemma rowsOfCar_ongoing k d : existsb (fun r => ongoing_on day r.2) (MaintenanceService.rowsOfCar k d) =
  exists_row (fun m => (maintenance_car m =? k) && ongoing_on day m) (maintenances d).
Proof.
  apply eq_true_iff_eq. rewrite existsb_exists, exists_row_spec. unfold MaintenanceService.rowsOfCar. split.
  - intros ([i m] & [E1 E2]%in_find_rows & E3). exists i, m. split; [done|]. by rewrite E2.
  - intros (i & m & E1 & [E2 E3]%andb_true_iff). exists (i, m). by rewrite in_find_rows.
Qed.

Definition refit (k : Z) (d : db) (car : Car) : Car := car_setStatus (fitting_status day d k car) car.

Lemma reconcile_day k car w : cars (data w) !! k = Some car -> exists t,
  MaintenanceService.reconcileCarStatus k w =
    Ok tt (mkWorld (with_cars (insert k (refit k (data w) car)) (data w)) (seq w) t (rollback_only w)).
Proof.
  intros E. unfold MaintenanceService.reconcileCarStatus, refit, fitting_status.
  rewrite (bind_ok _ _ _ _ _ (the_car_ok k car w E)).
  pose proof (set_same_status (data w) k car E) as Same.
  destruct (decide (car_status car = CarStatus.RENTED)) as [R|R].
  - exists (tick w). rewrite <- R, Same. by destruct w.
  - rewrite (bind_ok get _ w (data w) w) by done.
    destruct (anyOngoing_day (MaintenanceService.rowsOfCar k (data w)) w) as [t Et].
    rewrite (bind_ok _ _ _ _ _ Et), rowsOfCar_ongoing. exists t. destruct (exists_row _ _).
    + case_bool_decide as N.
      * cbn [when]. by rewrite (set_car_status_ok _ _ car).
      * rewrite <- N, Same. done.
    + case_bool_decide as N.
      * cbn [when]. by rewrite (set_car_status_ok _ _ car).
      * assert (A : car_status car = CarStatus.AVAILABLE) by (destruct (car_status car); done).
        rewrite <- A, Same. done.
Qed.

(** Refitting does not change what fits. *)
Lemma refit_idem k d d' car : maintenances d' = maintenances d -> refit k d' (refit k d car) = refit k d car.
Proof.
  intros E. unfold refit, fitting_status. rewrite E. cbn. destruct (decide (car_status car = _)); cbn.
  - by rewrite decide_True.
  - by destruct (exists_row _ _).
Qed.

Definition refit_all (d : db) : gmap Z Car := map_imap (fun k car => Some (refit k d car)) (cars d).

(** The keys of [l] are refitted, and the others are as in [d]. *)
Lemma reconcile_loop d (l : list (Z * Car)) : forall w,
  (forall r, In r l -> is_Some (cars d !! r.1)) ->
  data w = with_cars (fun _ => cars (data w)) d ->
  (forall k, cars (data w) !! k = cars d !! k \/ cars (data w) !! k = refit_all d !! k) ->
  exists w', for_each l (fun r => MaintenanceService.reconcileCarStatus r.1) w = Ok tt w'
    /\ data w' = with_cars (fun _ => cars (data w')) d /\ rollback_only w' = rollback_only w
    /\ (forall k, In k (List.map fst l) -> cars (data w') !! k = refit_all d !! k)
    /\ (forall k, cars (data w') !! k = cars (data w) !! k \/ cars (data w') !! k = refit_all d !! k).
Proof.
  induction l as [|r l IH]; intros w Hl D Hk; cbn [for_each].
  - exists w. repeat split; auto. intros k [].
  - destruct (Hl r (or_introl eq_refl)) as [car0 E0].
    assert (ER : refit_all d !! r.1 = Some (refit r.1 d car0))
      by (unfold refit_all; rewrite map_lookup_imap, E0; done).
    assert (M : maintenances (data w) = maintenances d) by (rewrite D; done).
    assert (E1 : exists car, cars (data w) !! r.1 = Some car /\ refit r.1 (data w) car = refit r.1 d car0).
    { destruct (Hk r.1) as [E|E]; rewrite E, ?E0, ?ER; eexists; (split; [done|]).
      - unfold refit, fitting_status. by rewrite M.
      - by apply refit_idem. }
    destruct E1 as (car & E1 & E2). destruct (reconcile_day r.1 car w E1) as [t Et].
    rewrite (bind_ok _ _ _ _ _ Et), E2.
    destruct (IH (mkWorld (with_cars (insert r.1 (refit r.1 d car0)) (data w)) (seq w) t (rollback_only w)))
      as (w' & F1 & F2 & F3 & F4 & F5).
    + intros x Hx. apply Hl. by right.
    + cbn. rewrite D at 1. done.
    + cbn. intros k. destruct (decide (k = r.1)) as [->|N].
      * rewrite lookup_insert_eq. auto.
      * rewrite lookup_insert_ne by done. apply Hk.
    + exists w'. rewrite F1. split; [done|]. split; [done|]. split; [done|]. cbn in F5. split.
      * intros k [<-|Hin]; [|by apply F4]. destruct (F5 r.1) as [->|]; [|done]. by rewrite lookup_insert_eq.
      * intros k. destruct (F5 k) as [->|]; [|auto]. destruct (decide (k = r.1)) as [->|N].
        -- rewrite lookup_insert_eq. auto.
        -- rewrite lookup_insert_ne by done. auto.
Qed.

(** C29: On any day, reading the list of cars leaves every car with the status
    that fits: RENTED if it was, else MAINTENANCE if one of its maintenances is
    under way that day and AVAILABLE if none is; nothing else changes, and the
    list is that of all cars with these statuses. *)
Theorem car_list_is_reconciled (w : world) :
  exists w' l, transactional CarService.findAll w = Ok l w'
    /\ data w' = with_cars (fun _ => refit_all (data w)) (data w)
    /\ l ≡ₚ map_to_list (refit_all (data w)).
Proof.
  set (w0 := mkWorld (data w) (seq w) (tick w) false).
  destruct (reconcile_loop (data w) (scan (cars (data w))) w0) as (w' & E1 & E2 & E3 & E4 & E5).
  - intros [k c] Hin%list_elem_of_In. rewrite scan_rows, elem_of_map_to_list in Hin. by eexists.
  - unfold w0. cbn. by destruct (data w).
  - auto.
  - assert (EC : cars (data w') = refit_all (data w)).
    { apply map_eq. intros k. destruct (refit_all (data w) !! k) as [c|] eqn:Ek.
      - rewrite E4; [done|]. unfold refit_all in Ek. rewrite map_lookup_imap in Ek.
        destruct (cars (data w) !! k) as [c'|] eqn:E'; [|done].
        rewrite in_map_iff. exists (k, c'). split; [done|].
        by rewrite <- list_elem_of_In, scan_rows, elem_of_map_to_list.
      - destruct (E5 k) as [->|E]; [|by rewrite E]. unfold refit_all in Ek. rewrite map_lookup_imap in Ek.
        cbn. by destruct (cars (data w) !! k). }
    exists w', (scan (cars (data w'))). rewrite EC in E2. split; [|split; [done|]].
    + apply transactional_ok; [|by rewrite E3]. unfold CarService.findAll.
      rewrite (bind_ok (participating _) _ w0 tt w'); [done|]. unfold participating.
      unfold MaintenanceService.reconcileAllCarStatuses. rewrite (bind_ok get _ w0 (data w) w0) by done.
      by rewrite E1.
    + rewrite EC. apply scan_rows.
Qed.
End fitting.
