(* ===== verification/RentalExamples.v ===== *)
(** The rental service at work: sequences of calls on a small database, on which
    the theorems of RentalProps are applied, and three that show what the
    service does not prevent. *)
From S2P Require Import Prelude Rental RentalServices RentalProtocol RentalRefine RentalContracts RentalApi RentalProps.
Open Scope Z_scope.

#[local] Existing Instance plain_database.
#[local] Existing Instance plain_database_lawful.
#[local] Existing Instance minutes.
#[local] Existing Instance no_uploads.

Definition a_car : CarRequest :=
  mkCarRequest "Dacia" FuelType.DIESEL "12345-A-40" None None None (Some 15000) None.
Definition a_client : Client :=
  mkClient "Salma" None None None None None None None None None (Some "0600000000") None None None None.
Definition a_period (departure : Z) (back total : option Z) : ContractRequest :=
  mkContractRequest 1 1 (mkFields None None None None None (Some departure) back None None None None None None
    None None None total None None None None None None).
Definition a_repair : MaintenanceRequest :=
  mkMaintenanceRequest 1 (Some "Brakes") None (Some 0) None (Some 90000) None.

(** A car is rented at once, reserved for later, repaired and returned; renting
    it twice for the same days fails. *)
Definition a_week : list call :=
  [CarCreate a_car None; ClientCreate a_client;
   ContractCreate (a_period 0 (Some day) (Some 30000));
   ContractCreate (a_period (2 * day) (Some (3 * day)) (Some 40000));
   ContractCreate (a_period (2 * day) (Some (4 * day)) (Some 60000));
   MaintenanceCreate a_repair; MaintenanceUpdate 1 a_repair].
Definition its_end : list call := [ContractReturn 1; ContractSoftDelete 1; CarFindAll].

Lemma a_week_rows : let d := data (serve_all start a_week) in
  (contract_status <$> contracts d) = {[1 := ContractStatus.ACTIVE; 2 := ContractStatus.IN_PROGRESS]}
  /\ (car_status <$> cars d) = {[1 := CarStatus.RENTED]}
  /\ (income_amount <$> incomes d) = {[1 := 30000]} /\ (expense_amount <$> expenses d) = {[1 := 90000]}.
Proof. vm_compute. auto. Qed.

Lemma calls_follow_protocol_witness :
  let w := serve_all start a_week in
  (rtc pstep (view w) (view (serve w (ContractReturn 1)))
   /\ forall e w', transactional (exec (ContractReturn 1)) w = Throw e w' -> data w' = data w)
  /\ size (contracts (data w)) = 2%nat.
Proof. split; [apply (rental_calls_follow_protocol a_week (ContractReturn 1))|]. reflexivity. Defined.

Lemma never_double_booked_witness :
  let d := data (serve_all start a_week) in
  exists c c', contracts d !! 1 = Some c /\ contracts d !! 2 = Some c' /\ live c /\ live c'
    /\ contract_car c = contract_car c' /\ (day <= 2 * day \/ 3 * day <= 0).
Proof.
  cbv zeta. pose proof (cars_are_never_double_booked a_week) as [_ P]. cbv zeta in P.
  destruct (contracts (data (serve_all start a_week)) !! 1) as [c|] eqn:E; [|vm_compute in E; discriminate E].
  destruct (contracts (data (serve_all start a_week)) !! 2) as [c'|] eqn:E'; [|vm_compute in E'; discriminate E'].
  assert (F : live c /\ contract_car c = 1 /\ departureDatetime (fields c) = Some 0
    /\ expectedReturnDatetime (fields c) = Some day)
    by (vm_compute in E; injection E as <-; split; [split; [reflexivity|right; reflexivity]|repeat split]).
  assert (F' : live c' /\ contract_car c' = 1 /\ departureDatetime (fields c') = Some (2 * day)
    /\ expectedReturnDatetime (fields c') = Some (3 * day))
    by (vm_compute in E'; injection E' as <-; split; [split; [reflexivity|left; reflexivity]|repeat split]).
  destruct F as (L & K & D & R), F' as (L' & K' & D' & R').
  assert (EC : contract_car c = contract_car c') by congruence.
  exists c, c'. do 5 (split; [assumption || reflexivity|]).
  destruct (P 1 2 c c' E E' ltac:(discriminate) EC) as [_ Q].
  exact (Q L L' 0 day (2 * day) (3 * day) D R D' R').
Defined.

Lemma rows_well_formed_witness :
  (let s := view (serve_all start a_week) in rows_ok s /\ registrations_ok s /\ ids_ok s)
  /\ size (maintenances (data (serve_all start a_week))) = 1%nat.
Proof. split; [exact (rows_are_well_formed a_week)|]. reflexivity. Defined.

Lemma books_balance_witness :
  let d := data (serve_all start (a_week ++ its_end)) in
  (contract_status <$> contracts d !! 1) = Some ContractStatus.COMPLETED
  /\ (exists i r, expenses d !! i = Some r /\ expense_maintenanceId r = Some 1).
Proof.
  pose proof (books_balance (a_week ++ its_end)) as (_ & _ & B). cbv zeta in *. split; [reflexivity|].
  destruct (maintenances (data (serve_all start (a_week ++ its_end))) !! 1) as [m|] eqn:E.
  - assert (C : cost m = Some 90000) by (vm_compute in E; by injection E as <-).
    destruct (B 1 m 90000 E C) as (i & r & Er & F & _). exists i, r. split; [done|apply F].
  - vm_compute in E. discriminate E.
Defined.

Lemma only_move_forward_witness :
  evolves (view (serve_all start a_week)) (view (serve_all start (a_week ++ its_end)))
  /\ (deleted <$> contracts (data (serve_all start (a_week ++ its_end))) !! 1) = Some true.
Proof. split; [exact (calls_only_move_forward a_week its_end)|]. reflexivity. Defined.

Definition later : list call :=
  [CarCreate a_car None; ClientCreate a_client; ContractCreate (a_period (4 * minute) (Some day) (Some 30000));
   ClientFindAll].
Lemma due_reservations_witness :
  exists w', transactional ContractService.autoActivateContracts (serve_all start later) = Ok tt w'
    /\ (contract_status <$> contracts (data (serve_all start later)) !! 1) = Some ContractStatus.IN_PROGRESS.
Proof.
  destruct (due_reservations_are_activated later) as (w' & E & _). exists w'. split; [exact E|]. reflexivity.
Defined.

Lemma marked_available_witness :
  exists w', transactional (CarService.markAvailable 1) (serve_all start a_week)
    = Throw (IllegalArgument "CAR_HAS_ACTIVE_CONTRACT") w' /\ data w' = data (serve_all start a_week).
Proof.
  destruct (cars (data (serve_all start a_week)) !! 1) as [car|] eqn:E.
  - apply (rented_car_cannot_be_marked_available a_week 1 car E). vm_compute in E. by injection E as <-.
  - vm_compute in E. discriminate E.
Defined.

Lemma overlap_test_witness :
  ContractService.hasOverlappingContract 1 (Some (5 * day / 2)) (Some (5 * day)) None
    (data (serve_all start a_week)) = true.
Proof.
  destruct (contracts (data (serve_all start a_week)) !! 2) as [c|] eqn:E.
  - apply overlap_test_is_exact. exists 2, c, (5 * day / 2), (5 * day), (2 * day), (3 * day).
    assert (F : contract_car c = 1 /\ contract_status c = ContractStatus.IN_PROGRESS /\ deleted c = false
      /\ departureDatetime (fields c) = Some (2 * day) /\ expectedReturnDatetime (fields c) = Some (3 * day))
      by (vm_compute in E; injection E as <-; repeat split).
    destruct F as (F1 & F2 & F3 & F4 & F5). repeat split; auto; try done; vm_compute; reflexivity.
  - vm_compute in E. discriminate E.
Defined.

Lemma create_outcomes_witness :
  exists w', transactional (ContractService.create (a_period (2 * day) (Some (4 * day)) None))
               (serve_all start a_week)
    = Throw (IllegalArgument "La voiture 12345-A-40 est déjà réservée ou louée sur cette période.") w'.
Proof.
  pose proof (contract_create_outcomes (a_period (2 * day) (Some (4 * day)) None) (serve_all start a_week)
    (reached_inv a_week)) as O. cbv zeta in O. cbn [request_carId a_period] in O.
  destruct (cars (data (serve_all start a_week)) !! 1) as [car|] eqn:E; [|vm_compute in E; discriminate E].
  destruct O as [O _]. destruct O as (w' & Ew & _).
  - intros B. apply overlapping_false in B. vm_compute in B. discriminate B.
  - exists w'. rewrite Ew. vm_compute in E. by injection E as <-.
Defined.

(** A clock that stands still. *)
Definition noon : Clock := fun _ => day / 2.
Lemma car_list_reconciled_witness :
  exists w' l, @transactional _ (@CarService.findAll _ noon) (serve_all start (a_week ++ its_end)) = Ok l w'
    /\ l ≡ₚ map_to_list (refit_all 0 (data (serve_all start (a_week ++ its_end)))).
Proof.
  destruct (@car_list_is_reconciled _ _ noon 0 (fun _ => eq_refl) (serve_all start (a_week ++ its_end)))
    as (w' & l & E & _ & P). exists w', l. auto.
Defined.

(** * What the service does not prevent *)

(** A car that comes back during its maintenance is AVAILABLE at once, and can
    be rented again before the maintenance is over. *)
Definition repaired_while_out : list call :=
  [CarCreate a_car None; ClientCreate a_client; ContractCreate (a_period 0 (Some minute) None);
   MaintenanceCreate a_repair; ContractReturn 1; ContractCreate (a_period (5 * minute) (Some day) None)].
Lemma rented_during_maintenance : let d := data (serve_all start repaired_while_out) in
  (contract_status <$> contracts d) = {[1 := ContractStatus.COMPLETED; 2 := ContractStatus.ACTIVE]}
  /\ (ongoing_on 0 <$> maintenances d) = {[1 := true]}.
Proof. vm_compute. auto. Qed.

(** Reservations without a return date are not compared. *)
Lemma open_ended_reservations :
  size (contracts (data (serve_all start
    [CarCreate a_car None; ClientCreate a_client; ContractCreate (a_period day None None);
     ContractCreate (a_period day None None); ContractCreate (a_period day (Some (2 * day)) None)]))) = 3%nat.
Proof. reflexivity. Qed.

(** The income of a contract whose total changes while it is ACTIVE stays what
    it was. *)
Lemma income_of_first_total : let d := data (serve_all start
    [CarCreate a_car None; ClientCreate a_client; ContractCreate (a_period 0 (Some day) (Some 30000));
     ContractUpdate 1 (a_period 0 (Some day) (Some 50000)); ContractReturn 1]) in
  ((fun c => totalGeneral (fields c)) <$> contracts d) = {[1 := Some 50000]}
  /\ (income_amount <$> incomes d) = {[1 := 30000]}.
Proof. vm_compute. auto. Qed.

(** The expense of a maintenance outlives it. *)
Lemma expense_of_deleted_maintenance : let d := data (serve_all start
    [CarCreate a_car None; MaintenanceCreate a_repair; MaintenanceDelete 1]) in
  maintenances d = ∅ /\ (expense_amount <$> expenses d) = {[1 := 90000]}.
Proof. vm_compute. auto. Qed.
