(* ===== verification/RentalRace.v ===== *)
(** Two calls at the same time.

    The other files take transactions one after the other.  The database runs
    them at its default isolation level, REPEATABLE READ: a transaction reads
    the rows as they were when it began, and its writes are rows that replace
    what is there when it commits.  Two calls that begin together therefore end
    in the rows of the first, replaced by those that the second has changed. *)
From S2P Require Import Prelude Rental RentalServices RentalProtocol RentalRefine RentalApi RentalProps RentalExamples.
Open Scope Z_scope.

#[export] Instance FuelType_eq_dec : EqDecision FuelType.t.
Proof. solve_decision. Defined.
#[export] Instance IncomeSource_eq_dec : EqDecision IncomeSource.t.
Proof. solve_decision. Defined.
#[export] Instance ExpenseSource_eq_dec : EqDecision ExpenseSource.t.
Proof. solve_decision. Defined.
#[export] Instance Car_eq_dec : EqDecision Car.
Proof. solve_decision. Defined.
#[export] Instance Client_eq_dec : EqDecision Client.
Proof. solve_decision. Defined.
#[export] Instance ContractFields_eq_dec : EqDecision ContractFields.
Proof. solve_decision. Defined.
#[export] Instance Contract_eq_dec : EqDecision Contract.
Proof. solve_decision. Defined.
#[export] Instance Maintenance_eq_dec : EqDecision Maintenance.
Proof. solve_decision. Defined.
#[export] Instance IncomeRecord_eq_dec : EqDecision IncomeRecord.
Proof. solve_decision. Defined.
#[export] Instance ExpenseRecord_eq_dec : EqDecision ExpenseRecord.
Proof. solve_decision. Defined.

(** [current] with the changes from [snapshot] to [written]. *)
Definition written_over {A} `{EqDecision A} (snapshot written current : gmap Z A) : gmap Z A :=
  filter (fun r => snapshot !! r.1 = written !! r.1) current
  ∪ filter (fun r => snapshot !! r.1 <> Some r.2) written.

Definition commit_over (snapshot written current : db) : db :=
  mkDb (written_over (cars snapshot) (cars written) (cars current))
    (written_over (clients snapshot) (clients written) (clients current))
    (written_over (contracts snapshot) (contracts written) (contracts current))
    (written_over (maintenances snapshot) (maintenances written) (maintenances current))
    (written_over (incomes snapshot) (incomes written) (incomes current))
    (written_over (expenses snapshot) (expenses written) (expenses current)).

Section together.
Context `{Database} `{Clock} `{Uploads}.

(** Both calls read the rows of [w]; the second takes the ids and the readings
    of the clock that the first has left. *)
Definition serve_together (w : world) (c1 c2 : call) : world :=
  let w1 := serve w c1 in
  let w2 := serve (mkWorld (data w) (seq w1) (tick w1) false) c2 in
  mkWorld (commit_over (data w) (data w2) (data w1)) (seq w2) (tick w2) false.

Lemma written_over_lookup {A} `{EqDecision A} (snapshot written current : gmap Z A) k :
  written_over snapshot written current !! k =
    if decide (snapshot !! k = written !! k) then current !! k else written !! k.
Proof.
  unfold written_over. rewrite lookup_union, !map_lookup_filter. cbn.
  destruct (decide (snapshot !! k = written !! k)) as [E|N], (current !! k), (written !! k); cbn;
    repeat case_guard; cbn; congruence.
Qed.
End together.

(** A transaction that has changed nothing leaves what the other wrote, and one
    that began after the other ended leaves its own rows. *)
Lemma written_over_unchanged {A} `{EqDecision A} (snapshot current : gmap Z A) :
  written_over snapshot snapshot current = current.
Proof. apply map_eq. intros k. rewrite written_over_lookup. by case_decide. Qed.
Lemma written_over_snapshot {A} `{EqDecision A} (snapshot written : gmap Z A) :
  written_over snapshot written snapshot = written.
Proof. apply map_eq. intros k. rewrite written_over_lookup. by case_decide. Qed.

Lemma commit_over_unchanged d current : commit_over d d current = current.
Proof. unfold commit_over. rewrite !written_over_unchanged. by destruct current. Qed.
Lemma commit_over_snapshot d written : commit_over d written d = written.
Proof. unfold commit_over. rewrite !written_over_snapshot. by destruct written. Qed.

(** A call that only reads can run beside any other. *)
Lemma reader_is_harmless `{Database} `{Clock} `{Uploads} w c1 c2 :
  reads (exec c2) -> data (serve_together w c1 c2) = data (serve w c1).
Proof.
  intros R. unfold serve_together. cbn. set (w1 := serve w c1). set (w0 := mkWorld _ _ _ _).
  assert (E : data (serve w0 c2) = data w0).
  { unfold serve, transactional. specialize (R (mkWorld (data w0) (seq w0) (tick w0) false)). cbn zeta.
    destruct (exec c2 _) as [a w'|e w']; cbn; [|done].
    destruct R as (Ed & _ & Er). rewrite Er. exact Ed. }
  rewrite E. apply commit_over_unchanged.
Qed.

(** Two reservations of one car for the same days, each accepted because
    neither sees the other, and nothing in the schema refuses the second. *)
Section race.
#[local] Existing Instance plain_database.
#[local] Existing Instance minutes.
#[local] Existing Instance no_uploads.

Definition ready : world := serve_all start [CarCreate a_car None; ClientCreate a_client].
Definition reservation : call := ContractCreate (a_period (2 * day) (Some (3 * day)) None).

Lemma reserved_twice :
  size (contracts (data (serve_all ready [reservation; reservation]))) = 1%nat
  /\ ~ clash_free (contracts (data (serve_together ready reservation reservation))).
Proof.
  split; [reflexivity|]. intros F.
  destruct (contracts (data (serve_together ready reservation reservation)) !! 1) as [c|] eqn:E;
    [|vm_compute in E; discriminate E].
  destruct (contracts (data (serve_together ready reservation reservation)) !! 2) as [c'|] eqn:E';
    [|vm_compute in E'; discriminate E'].
  specialize (F 1 2 c c' E E' ltac:(done)). vm_compute in E, E'. injection E as <-. injection E' as <-.
  apply F; vm_compute; auto.
Qed.
End race.
