(* ===== verification/Accounts.v ===== *)
(** Administrators and the reset of their passwords (src/bousselha-backend:
    PasswordResetService, AdminService, AdminController, AuthController).

    Rows live in the database and are undone when a transaction fails; the table
    of request times is a map in memory, which is not, and which a restart empties.  Hashing, the password
    encoder, the random generator and the delivery of mail are parameters.
    Passwords are sequences of UTF-16 units. *)
From S2P Require Import Prelude Rental RentalServices.
From Stdlib Require Import Ascii.
Open Scope Z_scope.

(** * Data *)

Record Admin := mkAdmin {
  admin_fullName : string;
  email : string;
  admin_phone : option string;
  passwordHash : string;
  admin_status : option string;
  admin_createdAt : option Z;
  lastLogin : option Z }.

Record PasswordResetToken := mkToken {
  token_admin : Z;
  requestedEmail : string;
  codeHash : string;
  token_createdAt : Z;
  expiresAt : Z;
  usedAt : option Z;
  failedAttempts : Z }.

Record accounts := mkAccounts {
  admins : gmap Z Admin;
  tokens : gmap Z PasswordResetToken;
  requestAttemptsByEmail : gmap string (list Z);
  next_admin : Z;
  next_token : Z;
  ticks : nat }.

Definition with_admins f s := mkAccounts (f (admins s)) (tokens s) (requestAttemptsByEmail s) (next_admin s) (next_token s) (ticks s).
Definition with_tokens f s := mkAccounts (admins s) (f (tokens s)) (requestAttemptsByEmail s) (next_admin s) (next_token s) (ticks s).
Definition with_attempts f s := mkAccounts (admins s) (tokens s) (f (requestAttemptsByEmail s)) (next_admin s) (next_token s) (ticks s).

Definition setFailedAttempts (n : Z) (t : PasswordResetToken) : PasswordResetToken :=
  mkToken (token_admin t) (requestedEmail t) (codeHash t) (token_createdAt t) (expiresAt t) (usedAt t) n.
Definition setUsedAt (u : option Z) (t : PasswordResetToken) : PasswordResetToken :=
  mkToken (token_admin t) (requestedEmail t) (codeHash t) (token_createdAt t) (expiresAt t) u (failedAttempts t).
Definition setPasswordHash (h : string) (a : Admin) : Admin :=
  mkAdmin (admin_fullName a) (email a) (admin_phone a) h (admin_status a) (admin_createdAt a) (lastLogin a).
Definition setAdminStatus (st : string) (a : Admin) : Admin :=
  mkAdmin (admin_fullName a) (email a) (admin_phone a) (passwordHash a) (Some st) (admin_createdAt a) (lastLogin a).
Definition setLastLogin (t : Z) (a : Admin) : Admin :=
  mkAdmin (admin_fullName a) (email a) (admin_phone a) (passwordHash a) (admin_status a) (admin_createdAt a) (Some t).

(** * Effects *)

Inductive failure :=
| BadRequest (message : string)      (* IllegalArgumentException *)
| NotUnique                          (* several rows for an Optional *)
| Duplicate                          (* a unique key *)
| MailFailed (message : string)      (* MailException *)
| RuntimeError (message : string).   (* RuntimeException *)

Inductive result (A : Type) :=
| Done (a : A) (s : accounts)
| Failed (f : failure) (s : accounts)
| Looping (s : accounts).            (* no answer within the fuel *)
Arguments Done {A}. Arguments Failed {A}. Arguments Looping {A}.

Definition M (A : Type) : Type := accounts -> result A.
Definition mret {A} (a : A) : M A := fun s => Done a s.
Definition mfail {A} (f : failure) : M A := fun s => Failed f s.
Definition mbind {A B} (c : M A) (k : A -> M B) : M B := fun s =>
  match c s with Done a s' => k a s' | Failed f s' => Failed f s' | Looping s' => Looping s' end.

Declare Scope accounts_scope.
Delimit Scope accounts_scope with accounts.
Notation "'do' x <- c ; k" := (mbind c (fun x => k))
  (at level 200, x name, c at level 100, k at level 200) : accounts_scope.
Notation "c >>> k" := (mbind c (fun _ => k))
  (at level 100, k at level 200, right associativity) : accounts_scope.
Open Scope accounts_scope.

Definition mget : M accounts := fun s => Done s s.
Definition mmodify (f : accounts -> accounts) : M unit := fun s => Done tt (f s).
(** A number that counts the readings of the clock and of the other sources. *)
Definition tick_now : M nat := fun s =>
  Done (ticks s) (mkAccounts (admins s) (tokens s) (requestAttemptsByEmail s) (next_admin s) (next_token s) (S (ticks s))).
Definition time `{Clock} : M Z := do n <- tick_now; mret (clock n).

(** [@Transactional]: the writes to the tables of a call that fails, or does not
    come to its end, are not kept. *)
Definition undone (s s' : accounts) : accounts :=
  mkAccounts (admins s) (tokens s) (requestAttemptsByEmail s') (next_admin s') (next_token s') (ticks s').
Definition mtransactional {A} (c : M A) : M A := fun s =>
  match c s with
  | Done a s' => Done a s'
  | Failed f s' => Failed f (undone s s')
  | Looping s' => Looping (undone s s')
  end.

(** What the other libraries decide. *)
Class Secrets := {
  sha256 : string -> string;                               (* hex of the digest *)
  encode : nat -> list Z -> string;                        (* BCryptPasswordEncoder.encode *)
  matches : list Z -> string -> bool;                      (* BCryptPasswordEncoder.matches *)
  nextInt : nat -> Z;                                      (* SecureRandom.nextInt(1_000_000) *)
  deliver : nat -> string -> string -> option string }.    (* EmailService: the message of a failure *)

(** * Strings *)

(** [String.trim]: without the characters up to U+0020 at both ends. *)
Fixpoint trim_left (s : string) : string :=
  match s with
  | EmptyString => EmptyString
  | String c s' => if (nat_of_ascii c <=? 32)%nat then trim_left s' else s
  end.
Fixpoint trim_right (s : string) : string :=
  match s with
  | EmptyString => EmptyString
  | String c s' =>
    match trim_right s' with
    | EmptyString => if (nat_of_ascii c <=? 32)%nat then EmptyString else String c EmptyString
    | t => String c t
    end
  end.
Definition trim (s : string) : string := trim_right (trim_left s).

Definition equalsIgnoreCase (a b : string) : bool := String.eqb (toLowerCase a) (toLowerCase b).
Definition to_upper (c : ascii) : ascii :=
  let n := nat_of_ascii c in
  if (97 <=? n)%nat && (n <=? 122)%nat then ascii_of_nat (n - 32) else c.
Fixpoint toUpperCase (s : string) : string :=
  match s with EmptyString => EmptyString | String c s => String (to_upper c) (toUpperCase s) end.

Definition digit (n : Z) : ascii := ascii_of_nat (48 + Z.to_nat (n mod 10)).
(** [String.format("%06d", n)] for [0 <= n < 1_000_000] *)
Definition format06d (n : Z) : string :=
  String (digit (n / 100000)) (String (digit (n / 10000)) (String (digit (n / 1000))
    (String (digit (n / 100)) (String (digit (n / 10)) (String (digit n) EmptyString))))).

(** ** Regular expressions on passwords *)

Definition between (a b u : Z) : bool := (a <=? u) && (u <=? b).
Definition is_lower (u : Z) : bool := between 97 122 u.
Definition is_upper (u : Z) : bool := between 65 90 u.
Definition is_digit (u : Z) : bool := between 48 57 u.
Definition is_special (u : Z) : bool := negb (is_lower u || is_upper u || is_digit u).
(** What [.] does not match. *)
Definition line_end (u : Z) : bool := existsb (Z.eqb u) [10; 13; 133; 8232; 8233].

(** [s.matches(".*[p].*")] *)
Fixpoint has_matching (p : Z -> bool) (s : list Z) : bool :=
  match s with
  | [] => false
  | u :: s' => (p u && forallb (fun v => negb (line_end v)) s') || (negb (line_end u) && has_matching p s')
  end.

Module PasswordResetService.
Definition CODE_TTL_MINUTES : Z := 10.
Definition MAX_REQUESTS_PER_HOUR : Z := 3.
Definition MAX_FAILED_ATTEMPTS : Z := 5.
Definition minute : Z := 60 * 10 ^ 9.
Definition hour : Z := 60 * minute.

Definition isStrongPassword (password : list Z) : bool :=
  (8 <=? length password)%nat && has_matching is_lower password && has_matching is_upper password
  && has_matching is_digit password && has_matching is_special password.

Definition normalizeEmail (e : option string) : string :=
  match e with None => EmptyString | Some e => toLowerCase (trim e) end.

Definition is_active (a : Admin) : bool := from_option (equalsIgnoreCase "ACTIVE") false (admin_status a).

Section service.
Context `{Database} `{Clock} `{Secrets}.

Definition findByEmail (e : string) : M (option (Z * Admin)) :=
  do s <- mget;
  match find_rows (fun a => same_text (email a) e) (admins s) with
  | [] => mret None
  | [r] => mret (Some r)
  | _ => mfail NotUnique
  end.

Definition cleanupExpiredTokens : M unit :=
  do t <- time;
  mmodify (with_tokens (filter (fun r => ~ expiresAt r.2 < t - minute))).

Definition registerRequestAttempt (e : string) : M unit :=
  do t <- time;
  let oneHourAgo := t - hour in
  do s <- mget;
  let kept := List.filter (fun x => negb (isBefore x oneHourAgo)) (default [] (requestAttemptsByEmail s !! e)) in
  mmodify (with_attempts (insert e kept)) >>>
  if MAX_REQUESTS_PER_HOUR <=? Z.of_nat (length kept)
  then mfail (BadRequest "RESET_REQUEST_LIMIT_REACHED")
  else
    do now <- time;
    mmodify (with_attempts (insert e (kept ++ [now]))).

Fixpoint generateUniqueCode (fuel : nat) : M string :=
  match fuel with
  | O => fun s => Looping s
  | S fuel =>
    do n <- tick_now;
    let code := format06d (nextInt n) in
    do s <- mget;
    if exists_row (fun t => String.eqb (codeHash t) (sha256 code)) (tokens s)
    then generateUniqueCode fuel else mret code
  end.

Definition save_token (t : PasswordResetToken) : M unit :=
  do s <- mget;
  if exists_row (fun t' => String.eqb (codeHash t') (codeHash t)) (tokens s) then mfail Duplicate else
  mmodify (fun s => mkAccounts (admins s) (<[next_token s := t]> (tokens s)) (requestAttemptsByEmail s)
                      (next_admin s) (next_token s + 1) (ticks s)).

Definition sendPasswordResetCode (to code : string) : M unit :=
  do n <- tick_now;
  match deliver n to code with None => mret tt | Some message => mfail (MailFailed message) end.

Definition requestReset (fuel : nat) (e : option string) : M unit := mtransactional (
  let normalizedEmail := normalizeEmail e in
  cleanupExpiredTokens >>>
  registerRequestAttempt normalizedEmail >>>
  do s <- mget;
  do t <- time;
  if MAX_REQUESTS_PER_HOUR <=?
       count_rows (fun x => same_text (requestedEmail x) normalizedEmail && isAfter (token_createdAt x) (t - hour))
         (tokens s)
  then mfail (BadRequest "RESET_REQUEST_LIMIT_REACHED") else
  do admin <- findByEmail normalizedEmail;
  match admin with
  | Some (id, a) =>
    if negb (is_active a) then mret tt else
    do code <- generateUniqueCode fuel;
    do createdAt <- time;
    do now <- time;
    save_token (mkToken id normalizedEmail (sha256 code) createdAt (now + CODE_TTL_MINUTES * minute) None 0) >>>
    sendPasswordResetCode (email a) code
  | None => mret tt
  end).

Definition findValidToken (e : option string) (code : string) : M (Z * PasswordResetToken) :=
  let normalizedEmail := normalizeEmail e in
  do found <- findByEmail normalizedEmail;
  do admin <- match found with
              | Some r => if is_active r.2 then mret r else mfail (BadRequest "INVALID_RESET_CODE")
              | None => mfail (BadRequest "INVALID_RESET_CODE")
              end;
  do s <- mget;
  do token <- match find_rows (fun t => (token_admin t =? admin.1) && String.eqb (codeHash t) (sha256 code)) (tokens s) with
              | [] => mret None
              | [r] => mret (Some r)
              | _ => mfail NotUnique
              end;
  match token with
  | None =>
    (match head (order_by_desc (fun t => Some (token_createdAt t))
                   (find_rows (fun t => (token_admin t =? admin.1) && bool_decide (usedAt t = None)) (tokens s))) with
     | Some (k, latestToken) =>
       mmodify (with_tokens (insert k (setFailedAttempts (failedAttempts latestToken + 1) latestToken)))
     | None => mret tt
     end) >>>
    mfail (BadRequest "INVALID_RESET_CODE")
  | Some (k, token) =>
    do now <- time;
    if bool_decide (usedAt token <> None) then mfail (BadRequest "RESET_CODE_ALREADY_USED") else
    if isBefore (expiresAt token) now then mfail (BadRequest "RESET_CODE_EXPIRED") else
    if MAX_FAILED_ATTEMPTS <=? failedAttempts token then mfail (BadRequest "RESET_CODE_BLOCKED") else
    mret (k, token)
  end.

Definition verifyCode (e : option string) (code : string) : M unit := mtransactional (
  findValidToken e code >>> mret tt).

Definition resetPassword (e : option string) (code : string) (newPassword confirmNewPassword : list Z) : M unit :=
  mtransactional (
  if negb (bool_decide (newPassword = confirmNewPassword))
  then mfail (BadRequest "PASSWORD_CONFIRMATION_MISMATCH") else
  if negb (isStrongPassword newPassword) then mfail (BadRequest "WEAK_PASSWORD") else
  do r <- findValidToken e code;
  do n <- tick_now;
  mmodify (with_admins (alter (setPasswordHash (encode n newPassword)) (token_admin r.2))) >>>
  do now <- time;
  mmodify (with_tokens (alter (setUsedAt (Some now)) r.1)) >>>
  cleanupExpiredTokens).
End service.
End PasswordResetService.

(** * AdminService and the controllers *)

Module AdminService.
Section service.
Context `{Database} `{Clock} `{Secrets}.

(** [save] of a new row and of one that exists; [uk_admins_email] *)
Definition taken (id : Z) (e : string) (s : accounts) : bool :=
  existsb (fun r => negb (r.1 =? id) && same_text (email r.2) e) (map_to_list (admins s)).
Definition insert_admin (a : Admin) : M (Z * Admin) :=
  do s <- mget;
  let id := next_admin s in
  mmodify (fun s => mkAccounts (admins s) (tokens s) (requestAttemptsByEmail s) (id + 1) (next_token s) (ticks s)) >>>
  if taken id (email a) s then mfail Duplicate else
  mmodify (with_admins (insert id a)) >>> mret (id, a).
Definition save (id : Z) (a : Admin) : M Admin :=
  do s <- mget;
  if taken id (email a) s then mfail Duplicate else
  mmodify (with_admins (insert id a)) >>> mret a.

Definition createAdmin (fullName e : string) (phone : option string) (rawPassword : list Z) : M (Z * Admin) :=
  do n <- tick_now;
  do createdAt <- time;
  insert_admin (mkAdmin fullName (toLowerCase e) phone (encode n rawPassword) (Some "ACTIVE") (Some createdAt) None).

Definition findByEmail (e : string) : M (option (Z * Admin)) :=
  PasswordResetService.findByEmail (toLowerCase e).
Definition findById (id : Z) : M (option Admin) := do s <- mget; mret (admins s !! id).

Definition updateLastLogin (id : Z) (a : Admin) : M Admin := do t <- time; save id (setLastLogin t a).
Definition checkPassword (a : Admin) (rawPassword : list Z) : bool := matches rawPassword (passwordHash a).
Definition changePassword (id : Z) (a : Admin) (rawPassword : list Z) : M Admin :=
  do n <- tick_now; save id (setPasswordHash (encode n rawPassword) a).
Definition setStatus (id : Z) (a : Admin) (st : string) : M Admin := save id (setAdminStatus st a).

Definition updateAdmin (id : Z) (fullName e : string) (phone : option string) : M Admin :=
  do found <- findById id;
  match found with
  | None => mfail (RuntimeError "Administrateur non trouvé")
  | Some a => save id (mkAdmin fullName (toLowerCase e) phone (passwordHash a) (admin_status a)
                         (admin_createdAt a) (lastLogin a))
  end.
End service.
End AdminService.

(** AdminInitializer: the first administrator, from the environment or a
    default one.  The list is "Admin@2026". *)
Definition admin_initializer `{Database} `{Clock} `{Secrets} (allowFallbackAdmin : bool)
    (env_email : option string) (env_password : option (list Z)) (env_name : option string) : M unit :=
  do s <- mget;
  if negb (count_rows (fun _ => true) (admins s) =? 0) then mret tt else
  match env_email, env_password with
  | Some e, Some password =>
    AdminService.createAdmin (default "Administrateur" env_name) e (Some "") password >>> mret tt
  | _, _ =>
    if allowFallbackAdmin
    then AdminService.createAdmin "Administrateur Principal" "admin@bousselha.ma" (Some "0689124889")
           [65; 100; 109; 105; 110; 64; 50; 48; 50; 54] >>> mret tt
    else mret tt
  end.

(** What a controller answers: the status and, when it refuses, why. *)
Record Reply := mkReply { status_code : Z; reason : string }.
Definition ok : Reply := mkReply 200 "".

Module AdminController.
Section controller.
Context `{Database} `{Clock} `{Secrets}.

Definition create (fullName e : string) (phone : option string) (password confirmPassword : list Z) : M Reply :=
  if negb (bool_decide (password = confirmPassword))
  then mret (mkReply 400 "La confirmation du mot de passe ne correspond pas.") else
  do found <- AdminService.findByEmail e;
  if bool_decide (is_Some found) then mret (mkReply 400 "Email déjà utilisé.") else
  AdminService.createAdmin fullName e phone password >>> mret ok.

Definition update (id : Z) (fullName e : string) (phone : option string) : M Reply :=
  do existing <- AdminService.findById id;
  match existing with
  | None => mret (mkReply 404 "")
  | Some a =>
    do clash <- if negb (equalsIgnoreCase (email a) e)
                then do found <- AdminService.findByEmail e; mret (bool_decide (is_Some found))
                else mret false;
    if (clash : bool) then mret (mkReply 400 "Email déjà utilisé par un autre compte.") else
    AdminService.updateAdmin id fullName e phone >>> mret ok
  end.

Definition toggleStatus (id : Z) (st : option string) : M Reply :=
  do existing <- AdminService.findById id;
  match existing with
  | None => mret (mkReply 404 "")
  | Some a =>
    match st with
    | Some st =>
      if negb (equalsIgnoreCase "ACTIVE" st) && negb (equalsIgnoreCase "DISABLED" st)
      then mret (mkReply 400 "Statut invalide. Utilisez ACTIVE ou DISABLED.")
      else AdminService.setStatus id a (toUpperCase st) >>> mret ok
    | None => mret (mkReply 400 "Statut invalide. Utilisez ACTIVE ou DISABLED.")
    end
  end.

Definition changePassword (id : Z) (currentPassword newPassword confirmNewPassword : list Z) : M Reply :=
  do existing <- AdminService.findById id;
  match existing with
  | None => mret (mkReply 404 "")
  | Some a =>
    if negb (AdminService.checkPassword a currentPassword)
    then mret (mkReply 400 "Le mot de passe actuel est incorrect.") else
    if negb (bool_decide (newPassword = confirmNewPassword))
    then mret (mkReply 400 "Le nouveau mot de passe et sa confirmation ne correspondent pas.") else
    AdminService.changePassword id a newPassword >>> mret ok
  end.
End controller.
End AdminController.

Module AuthController.
Section controller.
Context `{Database} `{Clock} `{Secrets}.

Definition login (e : string) (password : list Z) : M Reply :=
  do found <- AdminService.findByEmail e;
  match found with
  | None => mret (mkReply 401 "Identifiants invalides")
  | Some (id, a) =>
    if negb (PasswordResetService.is_active a) then mret (mkReply 403 "Compte désactivé") else
    if negb (AdminService.checkPassword a password) then mret (mkReply 401 "Identifiants invalides") else
    AdminService.updateLastLogin id a >>> mret ok
  end.
End controller.
End AuthController.

(** * Calls *)

Inductive account_call :=
| RequestReset (e : option string)
| VerifyCode (e : option string) (code : string)
| ResetPassword (e : option string) (code : string) (newPassword confirmNewPassword : list Z)
| CreateAdmin (fullName e : string) (phone : option string) (password confirmPassword : list Z)
| UpdateAdmin (id : Z) (fullName e : string) (phone : option string)
| ToggleStatus (id : Z) (st : option string)
| ChangePassword (id : Z) (currentPassword newPassword confirmNewPassword : list Z)
| Login (e : string) (password : list Z)
| Startup (allowFallbackAdmin : bool) (env_email : option string) (env_password : option (list Z))
    (env_name : option string).

Definition ended {A} (r : result A) : accounts := match r with Done _ s | Failed _ s | Looping s => s end.

Section calls.
Context `{Database} `{Clock} `{Secrets}.
Variable fuel : nat.

(** A restart makes a new PasswordResetService, whose map of requests is empty,
    before the initializer runs; the rows stay in the database. *)
Definition restart : M unit := mmodify (with_attempts (fun _ => ∅)).

Definition perform (c : account_call) : M unit :=
  match c with
  | RequestReset e => PasswordResetService.requestReset fuel e
  | VerifyCode e code => PasswordResetService.verifyCode e code
  | ResetPassword e code p q => PasswordResetService.resetPassword e code p q
  | CreateAdmin n e ph p q => AdminController.create n e ph p q >>> mret tt
  | UpdateAdmin id n e ph => AdminController.update id n e ph >>> mret tt
  | ToggleStatus id st => AdminController.toggleStatus id st >>> mret tt
  | ChangePassword id p q r => AdminController.changePassword id p q r >>> mret tt
  | Login e p => AuthController.login e p >>> mret tt
  | Startup b e p n => restart >>> admin_initializer b e p n
  end.
Definition answer (s : accounts) (c : account_call) : accounts := ended (perform c s).
Definition answer_all (s : accounts) (cs : list account_call) : accounts := fold_left answer cs s.
End calls.

Definition no_accounts : accounts := mkAccounts ∅ ∅ ∅ 1 1 0.
