(* ===== verification/AccountsProps.v ===== *)
(** What the accounts guarantee: tokens are used once, requests are limited, and
    what becomes of failed attempts. *)
From S2P Require Import Prelude Rental RentalServices RentalRefine Accounts.
Import PasswordResetService.
Open Scope Z_scope.

(** * Steps that leave the table of attempts alone *)

Definition calm {A} (c : M A) : Prop := forall s, let s' := ended (c s) in
  requestAttemptsByEmail s' = requestAttemptsByEmail s
  /\ next_token s <= next_token s' /\ (ticks s <= ticks s')%nat.

Section calm.
Context `{Database} `{Clock} `{Secrets}.

Lemma calm_ret {A} (a : A) : calm (mret a).
Proof. intros s. cbn. repeat split; lia. Qed.
Lemma calm_fail {A} f : calm (mfail f : M A).
Proof. intros s. cbn. repeat split; lia. Qed.
Lemma calm_loop {A} : calm ((fun s => Looping s) : M A).
Proof. intros s. cbn. repeat split; lia. Qed.
Lemma calm_get : calm mget.
Proof. intros s. cbn. repeat split; lia. Qed.
Lemma calm_tick : calm tick_now.
Proof. intros s. cbn. repeat split; lia. Qed.
Lemma calm_bind {A B} (c : M A) (k : A -> M B) : calm c -> (forall a, calm (k a)) -> calm (mbind c k).
Proof.
  intros Hc Hk s. specialize (Hc s). unfold mbind. destruct (c s) as [a s'| |]; try exact Hc.
  cbn in Hc. destruct Hc as (E & N & T). destruct (Hk a s') as (E' & N' & T'). cbn.
  split; [congruence|]. lia.
Qed.
Lemma calm_modify f :
  (forall s, requestAttemptsByEmail (f s) = requestAttemptsByEmail s
     /\ next_token s <= next_token (f s) /\ ticks (f s) = ticks s) -> calm (mmodify f).
Proof. intros Hf s. cbn. destruct (Hf s) as (? & ? & ->). auto. Qed.
Lemma calm_undone {A} (c : M A) : calm c -> calm (mtransactional c).
Proof. intros Hc s. specialize (Hc s). unfold mtransactional. by destruct (c s). Qed.
Lemma calm_generate fuel : calm (generateUniqueCode fuel).
Proof.
  induction fuel as [|fuel IH]; cbn; [apply calm_loop|].
  apply calm_bind; [apply calm_tick|]. intros n. cbv zeta. apply calm_bind; [apply calm_get|]. intros s.
  destruct (exists_row _ _); [exact IH|apply calm_ret].
Qed.
End calm.

Ltac calm := repeat first
  [ apply calm_bind; [|intros ?] | apply calm_ret | apply calm_fail | apply calm_get | apply calm_tick
  | apply calm_generate | apply calm_undone
  | apply calm_modify; intros; cbn; repeat split; lia
  | match goal with
    | |- calm (if ?b then _ else _) => destruct b
    | |- calm (match ?x with _ => _ end) => destruct x
    | |- calm (let x := _ in _) => cbv zeta
    end ].

Section calmness.
Context `{Database} `{Clock} `{Secrets}.
Variable fuel : nat.

Definition is_request (c : account_call) : bool := match c with RequestReset _ => true | _ => false end.

Definition is_startup (c : account_call) : bool := match c with Startup _ _ _ _ => true | _ => false end.

Lemma calm_perform c : is_request c = false -> is_startup c = false -> calm (perform fuel c).
Proof.
  destruct c; cbn [perform is_request is_startup]; intros; try done; unfold AdminController.create; calm.
Qed.

(** The part of [requestReset] after the attempt is registered. *)
Definition after_attempt (normalizedEmail : string) : M unit :=
  do s <- mget;
  do t <- time;
  if MAX_REQUESTS_PER_HOUR <=?
       count_rows (fun x => same_text (requestedEmail x) normalizedEmail && isAfter (token_createdAt x) (t - hour))
         (tokens s)
  then mfail (BadRequest "RESET_REQUEST_LIMIT_REACHED") else
  do admin <- findByEmail normalizedEmail;
  match admin with
  | Some (id, a) =>
    if negb (is_active a) then mret tt else
    do code <- generateUniqueCode fuel;
    do createdAt <- time;
    do now <- time;
    save_token (mkToken id normalizedEmail (sha256 code) createdAt (now + CODE_TTL_MINUTES * minute) None 0) >>>
    sendPasswordResetCode (email a) code
  | None => mret tt
  end.
Lemma calm_after_attempt e : calm (after_attempt e).
Proof. unfold after_attempt. calm. Qed.

(** The attempts of the last hour before the reading [n]. *)
Definition recent (n : nat) (l : list Z) : list Z := List.filter (fun x => negb (isBefore x (clock n - hour))) l.

(** [s] at the reading [n], with attempts [a]. *)
Definition at_reading (n : nat) (a : gmap string (list Z)) (s : accounts) : accounts :=
  mkAccounts (admins s) (tokens s) a (next_admin s) (next_token s) n.

Lemma register_run k s :
  let a := requestAttemptsByEmail s in
  let kept := recent (ticks s) (default [] (a !! k)) in
  registerRequestAttempt k s =
    if (3 <=? length kept)%nat
    then Failed (BadRequest "RESET_REQUEST_LIMIT_REACHED") (at_reading (S (ticks s)) (<[k := kept]> a) s)
    else Done tt (at_reading (S (S (ticks s))) (<[k := kept ++ [clock (S (ticks s))]]> a) s).
Proof.
  cbv zeta. unfold registerRequestAttempt, MAX_REQUESTS_PER_HOUR, time, mbind, tick_now, mret, mget, mmodify, mfail.
  cbn [ticks requestAttemptsByEmail]. fold (recent (ticks s) (default [] (requestAttemptsByEmail s !! k))).
  set (kept := recent _ _). destruct (Nat.leb_spec 3 (length kept)) as [L|L].
  - replace (3 <=? Z.of_nat (length kept)) with true by (symmetry; apply Z.leb_le; lia). done.
  - replace (3 <=? Z.of_nat (length kept)) with false by (symmetry; apply Z.leb_gt; lia).
    cbn. unfold with_attempts, at_reading; cbn. by rewrite insert_insert_eq.
Qed.

(** What a request does to the attempts, whatever comes of it, and that it
    fails when there are too many. *)
Lemma request_attempts e s :
  let k := normalizeEmail e in
  let kept := recent (S (ticks s)) (default [] (requestAttemptsByEmail s !! k)) in
  let s' := ended (requestReset fuel e s) in
  (ticks s < ticks s')%nat /\ next_token s <= next_token s'
  /\ if (3 <=? length kept)%nat
     then requestAttemptsByEmail s' = <[k := kept]> (requestAttemptsByEmail s)
          /\ exists s1, requestReset fuel e s = Failed (BadRequest "RESET_REQUEST_LIMIT_REACHED") s1
     else requestAttemptsByEmail s' = <[k := kept ++ [clock (S (S (ticks s)))]]> (requestAttemptsByEmail s)
          /\ (S (S (ticks s)) <= ticks s')%nat.
Proof.
  cbv zeta. set (k := normalizeEmail e).
  set (s1 := with_tokens (filter (fun r => ~ expiresAt r.2 < clock (ticks s) - minute))
    (at_reading (S (ticks s)) (requestAttemptsByEmail s) s)).
  assert (R : requestReset fuel e s = mtransactional (fun _ =>
    mbind (registerRequestAttempt k) (fun _ => after_attempt k) s1) s) by reflexivity.
  rewrite R. unfold mtransactional, mbind. rewrite register_run. cbn [ticks requestAttemptsByEmail s1 with_tokens at_reading].
  set (kept := recent _ _). destruct (3 <=? length kept)%nat.
  - cbn. split; [lia|]. split; [lia|]. split; [done|]. by eexists.
  - set (s2 := at_reading _ _ _). pose proof (calm_after_attempt k s2) as (E & N & T).
    destruct (after_attempt k s2); cbn in *; (split; [lia|]); (split; [lia|]); (split; [exact E|lia]).
Qed.
End calmness.

(** * The limit on requests *)

(** The moments at which requests for the address [k] were let through. *)
Definition limit_reached {A} (r : result A) : bool :=
  match r with
  | Failed (BadRequest m) _ => String.eqb m "RESET_REQUEST_LIMIT_REACHED"
  | _ => false
  end.

Section limit.
Context `{Database} `{Clock} `{Secrets}.
Variable fuel : nat.

Definition let_through (k : string) (s : accounts) (c : account_call) : list Z :=
  match c with
  | RequestReset e =>
    if bool_decide (normalizeEmail e = k) && negb (limit_reached (perform fuel c s))
    then [clock (S (S (ticks s)))] else []
  | _ => []
  end.
Fixpoint all_let_through (k : string) (s : accounts) (cs : list account_call) : list Z :=
  match cs with
  | [] => []
  | c :: cs => let_through k s c ++ all_let_through k (answer fuel s c) cs
  end.

(** More than an hour lies between an entry and the third after it. *)
Definition spaced (l : list Z) : Prop := forall i x y, l !! i = Some x -> l !! (i + 3)%nat = Some y -> x + hour < y.

Hypothesis clock_mono : forall m n, (m <= n)%nat -> clock m <= clock n.

(** [B], the moments so far, against the attempts [l] that are remembered at
    reading [n]: those that are forgotten are over an hour old. *)
Record limited (n : nat) (l B : list Z) : Prop := {
  remembered : exists old new, B = old ++ new /\ sublist new l /\ Forall (fun x => x < clock n - hour) old;
  in_order : StronglySorted Z.le B;
  in_past : Forall (fun x => x <= clock n) B;
  well_spaced : spaced B }.

Lemma limited_later n n' l B : (n <= n')%nat -> limited n l B -> limited n' l B.
Proof.
  intros L [(old & new & E & S & O) I P W]. pose proof (clock_mono n n' L). split; auto.
  - exists old, new. split; [done|]. split; [done|]. eapply Forall_impl; [exact O|]. cbn. intros. lia.
  - eapply Forall_impl; [exact P|]. cbn. intros. lia.
Qed.

Lemma sublist_filter_bool {A} (p : A -> bool) (l l' : list A) :
  sublist l l' -> sublist (List.filter p l) (List.filter p l').
Proof.
  induction 1 as [|a l l' _ IH|a l l' _ IH]; cbn; [constructor| |]; destruct (p a); try done; by constructor.
Qed.

(** A sorted list is its entries below a bound followed by the others. *)
Lemma sorted_split t (l : list Z) : StronglySorted Z.le l ->
  exists old, l = old ++ List.filter (fun x => negb (isBefore x t)) l /\ Forall (fun x => x < t) old.
Proof.
  induction 1 as [|x l S (old & E & O) L]; [by exists []|]. cbn. unfold isBefore.
  destruct (Z.ltb_spec x t); cbn.
  - exists (x :: old). split; [cbn; by f_equal|]. by constructor.
  - exists []. split; [|constructor]. cbn. f_equal. symmetry. rewrite E at 2.
    destruct old as [|y old]; [done|]. exfalso.
    inversion_clear O. rewrite E in L. inversion_clear L. lia.
Qed.

Lemma limited_purge n l B : limited n l B -> limited n (recent n l) B.
Proof.
  intros [(old & new & E & S & O) I P W]. split; auto.
  assert (In : StronglySorted Z.le new) by (rewrite E in I; by apply StronglySorted_app in I as (_ & _ & I)).
  destruct (sorted_split (clock n - hour) new In) as (older & E' & O'). exists (old ++ older), (recent n new).
  split; [rewrite E, <- app_assoc; by f_equal|]. split; [by apply sublist_filter_bool|].
  apply Forall_app. auto.
Qed.

Lemma limited_add n n' l B : (n <= n')%nat -> (length l < 3)%nat -> limited n l B ->
  limited n' (l ++ [clock n']) (B ++ [clock n']).
Proof.
  intros L Hl [(old & new & E & S & O) I P W]. pose proof (clock_mono n n' L) as C. split.
  - exists old, (new ++ [clock n']). split; [by rewrite E, <- app_assoc|]. split; [by apply sublist_app|].
    eapply Forall_impl; [exact O|]. cbn. intros. lia.
  - apply StronglySorted_app. split; [|split; [done|repeat constructor]].
    intros x1 x2 H1' ->%list_elem_of_singleton. apply (Forall_in _ _ _ P) in H1'. lia.
  - apply Forall_app. split; [eapply Forall_impl; [exact P|]; cbn; intros; lia|]. repeat constructor. lia.
  - intros i x y Ex Ey. apply lookup_app_Some in Ey as [Ey|[Hi Ey]].
    + apply (W i x y); [|done]. rewrite lookup_app_l in Ex; [done|]. apply lookup_lt_Some in Ey. lia.
    + apply list_lookup_singleton_Some in Ey as [Hi' <-].
      rewrite lookup_app_l in Ex by lia. rewrite E in Ex, Hi, Hi'. rewrite length_app in Hi, Hi'.
      apply sublist_length in S. rewrite lookup_app_l in Ex by lia.
      apply (Forall_lookup_1 _ _ _ _ O) in Ex. lia.
Qed.

Lemma limited_more n l t B : limited n l B -> limited n (l ++ [t]) B.
Proof.
  intros [(old & new & E & S & O) I P W]. split; auto. exists old, new.
  split; [done|]. split; [by apply sublist_inserts_r|done].
Qed.

Lemma limited_answer k s c B : is_startup c = false -> limited (ticks s) (default [] (requestAttemptsByEmail s !! k)) B ->
  let s' := answer fuel s c in
  limited (ticks s') (default [] (requestAttemptsByEmail s' !! k)) (B ++ let_through k s c).
Proof.
  intros Hs HB. cbv zeta. destruct (is_request c) eqn:Hc.
  - destruct c as [e| | | | | | | |]; try done. unfold answer. cbn [perform let_through].
    pose proof (request_attempts fuel e s) as (T & _ & R). set (s' := ended (requestReset fuel e s)) in *.
    destruct (decide (normalizeEmail e = k)) as [<-|N].
    + apply (limited_later _ (S (ticks s))), limited_purge in HB; [|lia].
      rewrite bool_decide_true by done. cbn [andb].
      set (kept := recent _ _) in *. destruct (Nat.leb_spec 3 (length kept)) as [L|L].
      * destruct R as [-> [s1 ->]]. cbn. rewrite app_nil_r, lookup_insert_eq. by apply (limited_later (S (ticks s))).
      * destruct R as [-> T']. rewrite lookup_insert_eq. cbn [default]. destruct (negb _).
        -- apply (limited_later (S (S (ticks s)))); [done|]. by apply (limited_add (S (ticks s))); [lia|..].
        -- rewrite app_nil_r. apply limited_more. by apply (limited_later (S (ticks s))).
    + rewrite bool_decide_false by done. cbn. rewrite app_nil_r.
      assert (E : requestAttemptsByEmail s' !! k = requestAttemptsByEmail s !! k).
      { destruct (3 <=? _)%nat; destruct R as [-> _]; by rewrite lookup_insert_ne. }
      rewrite E. apply (limited_later (ticks s)); [lia|done].
  - destruct (calm_perform fuel c Hc Hs s) as (E & _ & T).
    assert (EN : let_through k s c = []) by (by destruct c). rewrite EN, app_nil_r.
    unfold answer. rewrite E. by apply (limited_later (ticks s)).
Qed.

Lemma limited_all k cs : Forall (fun c => is_startup c = false) cs -> forall s B, limited (ticks s) (default [] (requestAttemptsByEmail s !! k)) B ->
  spaced (B ++ all_let_through k s cs).
Proof.
  induction 1 as [|c cs Hc _ IH]; intros s B HB; cbn.
  - rewrite app_nil_r. apply HB.
  - rewrite app_assoc. by apply IH, limited_answer.
Qed.

(** C20: When the clock does not go back, among the requests for an address that
    are not refused with RESET_REQUEST_LIMIT_REACHED between two restarts of the
    service, more than an hour lies between any one and the third after it: no
    more than three in an hour.  Here [pre] are the calls before, restarts among
    them, and [cs] calls without a restart. *)
Theorem three_requests_per_hour (k : string) (pre cs : list account_call) :
  Forall (fun c => is_startup c = false) cs ->
  spaced (all_let_through k (answer_all fuel no_accounts pre) cs).
Proof.
  intros Hcs. apply (limited_all k cs Hcs _ []).
  split; [exists [], []; split; [done|]; split; [apply sublist_nil_l|constructor]|constructor..|].
  intros i x y E. by rewrite lookup_nil in E.
Qed.
End limit.

(** * Tokens *)

(** [t'] is [t], or [t] used. *)
Definition token_evolves (t t' : PasswordResetToken) : Prop :=
  t' = t \/ usedAt t = None /\ exists u, t' = setUsedAt (Some u) t.

(** A token of [s'] is one of [s], as it was or used in between, or a new one
    without failed attempts. *)
Record tokens_evolve (s s' : accounts) : Prop := {
  tokens_counted : next_token s <= next_token s';
  tokens_from : forall k t', tokens s' !! k = Some t' ->
    (exists t, tokens s !! k = Some t /\ token_evolves t t')
    \/ (next_token s <= k < next_token s' /\ failedAttempts t' = 0) }.

Lemma token_evolves_trans t1 t2 t3 : token_evolves t1 t2 -> token_evolves t2 t3 -> token_evolves t1 t3.
Proof.
  intros [->|[U1 [u1 ->]]] H2; [done|]. destruct H2 as [->|[U2 _]]; [right; eauto|done].
Qed.
Lemma token_evolves_failed t t' : token_evolves t t' -> failedAttempts t' = failedAttempts t.
Proof. by intros [->|[_ [u ->]]]. Qed.

Lemma tokens_evolve_trans s1 s2 s3 : tokens_evolve s1 s2 -> tokens_evolve s2 s3 -> tokens_evolve s1 s3.
Proof.
  intros [N1 F1] [N2 F2]. split; [lia|]. intros k t3 E3.
  destruct (F2 k t3 E3) as [(t2 & E2 & T2)|[? ?]]; [|right; split; [lia|done]].
  destruct (F1 k t2 E2) as [(t1 & E1 & T1)|[? ?]].
  - left. exists t1. split; [done|]. by eapply token_evolves_trans.
  - right. split; [lia|]. by rewrite (token_evolves_failed t2 t3).
Qed.
Lemma tokens_evolve_sub s s' : next_token s <= next_token s' -> tokens s' ⊆ tokens s -> tokens_evolve s s'.
Proof.
  intros N S. split; [done|]. intros k t E. left. exists t. split; [by eapply lookup_weaken|by left].
Qed.
#[export] Instance tokens_evolve_preorder : PreOrder tokens_evolve.
Proof.
  split; [intros s; by apply tokens_evolve_sub|]. intros ? ? ?. apply tokens_evolve_trans.
Qed.

(** What holds of a call that comes to its end. *)
Definition mwp {A} (c : M A) (Q : A -> accounts -> Prop) (s : accounts) : Prop :=
  match c s with Done a s' => Q a s' | _ => True end.
Lemma mwp_bind {A B} (c : M A) (k : A -> M B) Q s : mwp c (fun a s' => mwp (k a) Q s') s -> mwp (mbind c k) Q s.
Proof. unfold mwp, mbind. by destruct (c s). Qed.
Lemma mwp_mono {A} (c : M A) (Q Q' : A -> accounts -> Prop) s :
  mwp c Q s -> (forall a s', Q a s' -> Q' a s') -> mwp c Q' s.
Proof. unfold mwp. destruct (c s); auto. Qed.
Lemma mwp_transactional {A} (c : M A) Q s : mwp c Q s -> mwp (mtransactional c) Q s.
Proof. unfold mwp, mtransactional. by destruct (c s). Qed.

(** A computation after which the tokens have evolved, if it comes to its end. *)
Definition evolving {A} (c : M A) : Prop := forall s, mwp c (fun _ s' => tokens_evolve s s') s.

Section tokens.
Context `{Database} `{Clock} `{Secrets}.
Variable fuel : nat.

Lemma evolving_bind {A B} (c : M A) (k : A -> M B) : evolving c -> (forall a, evolving (k a)) -> evolving (mbind c k).
Proof.
  intros Hc Hk s. apply mwp_bind. eapply mwp_mono; [apply Hc|]. intros a s1 T1. cbn in T1.
  eapply mwp_mono; [apply Hk|]. intros b s2 T2. cbn in T2. by etrans.
Qed.
Lemma evolving_same {A} (c : M A) :
  (forall s, mwp c (fun _ s' => tokens s' = tokens s /\ next_token s' = next_token s) s) -> evolving c.
Proof.
  intros Hc s. eapply mwp_mono; [apply Hc|]. intros a s' [E N]. apply tokens_evolve_sub; [lia|by rewrite E].
Qed.
Lemma evolving_ret {A} (a : A) : evolving (mret a).
Proof. by apply evolving_same. Qed.
Lemma evolving_fail {A} f : evolving (mfail f : M A).
Proof. done. Qed.
Lemma evolving_get : evolving mget.
Proof. by apply evolving_same. Qed.
Lemma evolving_tick : evolving tick_now.
Proof. by apply evolving_same. Qed.
Lemma evolving_admins f : evolving (mmodify (with_admins f)).
Proof. by apply evolving_same. Qed.
Lemma evolving_attempts f : evolving (mmodify (with_attempts f)).
Proof. by apply evolving_same. Qed.
Lemma evolving_next_admin g : evolving (mmodify (fun s =>
  mkAccounts (admins s) (tokens s) (requestAttemptsByEmail s) (g s) (next_token s) (ticks s))).
Proof. by apply evolving_same. Qed.
Lemma evolving_transactional {A} (c : M A) : evolving c -> evolving (mtransactional c).
Proof. intros Hc s. apply mwp_transactional, Hc. Qed.
Lemma evolving_cleanup : evolving cleanupExpiredTokens.
Proof. intros s. cbn. apply tokens_evolve_sub; [done|]. apply map_filter_subseteq. Qed.
Lemma evolving_generate : evolving (generateUniqueCode fuel).
Proof.
  induction fuel as [|n IH]; cbn; [done|]. apply evolving_bind; [apply evolving_tick|]. intros i.
  apply evolving_bind; [apply evolving_get|]. intros s. destruct (exists_row _ _); [exact IH|apply evolving_ret].
Qed.
Lemma evolving_save_token t : failedAttempts t = 0 -> evolving (save_token t).
Proof.
  intros F s. unfold save_token, mwp, mbind, mget. destruct (exists_row _ _); [done|]. split; [cbn; lia|]. cbn.
  intros k t' [[<- <-]|[N E]]%lookup_insert_Some.
  - right. split; [lia|done].
  - left. exists t'. split; [done|by left].
Qed.
End tokens.

Ltac evolving := repeat first
  [ apply evolving_cleanup | apply evolving_generate | apply evolving_save_token; done
  | apply evolving_bind; [|intros ?] | apply evolving_ret | apply evolving_fail | apply evolving_get
  | apply evolving_tick | apply evolving_admins | apply evolving_attempts | apply evolving_next_admin
  | apply evolving_transactional
  | match goal with
    | |- evolving (if ?b then _ else _) => destruct b
    | |- evolving (match ?x with _ => _ end) => destruct x
    | |- evolving (let x := _ in _) => cbv zeta
    end ].

Section validity.
Context `{LawfulDatabase} `{Clock} `{Secrets}.
Variable fuel : nat.

(** Token [k] lets the administrator of address [e] use [code]. *)
Record valid_token (e : option string) (code : string) (s : accounts) (k : Z) (t : PasswordResetToken) : Prop := {
  valid_row : tokens s !! k = Some t;
  valid_admin : exists a, admins s !! token_admin t = Some a /\ is_active a = true
    /\ same_text (email a) (normalizeEmail e) = true;
  valid_code : codeHash t = sha256 code;
  valid_unused : usedAt t = None;
  valid_fresh : exists n, (ticks s <= n)%nat /\ clock n <= expiresAt t;
  valid_attempts : failedAttempts t < MAX_FAILED_ATTEMPTS }.

Lemma mwp_findByEmail e s : mwp (findByEmail e)
  (fun r s' => s' = s /\ forall id a, r = Some (id, a) -> admins s !! id = Some a /\ same_text (email a) e = true) s.
Proof.
  unfold findByEmail, mwp, mbind, mget.
  pose proof (fun k a => in_find_rows (fun a => same_text (email a) e) (admins s) k a) as F.
  destruct (find_rows _ _) as [|[k a] [|]]; cbn; [by split| |done].
  split; [done|]. intros id a' [= <- <-]. apply F. by left.
Qed.

Lemma mwp_findValidToken e code s : mwp (findValidToken e code)
  (fun r s' => tokens s' = tokens s /\ admins s' = admins s /\ next_token s' = next_token s
     /\ (ticks s <= ticks s')%nat /\ valid_token e code s r.1 r.2) s.
Proof.
  unfold findValidToken. cbv zeta. apply mwp_bind. eapply mwp_mono; [apply mwp_findByEmail|].
  intros r s1 [-> Hr]. apply mwp_bind. destruct r as [[id a]|]; [|done]. cbn [snd].
  destruct (Hr id a eq_refl) as [Ea Em]. destruct (is_active a) eqn:Act; [|done]. unfold mwp at 1. cbn [mret fst].
  apply mwp_bind. unfold mwp at 1. cbn [mget]. apply mwp_bind.
  set (p := fun t => (token_admin t =? id) && String.eqb (codeHash t) (sha256 code)).
  pose proof (fun k t => in_find_rows p (tokens s) k t) as F.
  destruct (find_rows p (tokens s)) as [|[k t] [|]]; [|unfold mwp at 1; cbn [mret]|done].
  - unfold mwp at 1. cbn [mret]. destruct (head _) as [[? ?]|]; done.
  - destruct (proj1 (F k t) (or_introl eq_refl)) as [Et [Ead Ec]%andb_true_iff].
    apply Z.eqb_eq in Ead. apply String.eqb_eq in Ec.
    unfold mwp, mbind, time, tick_now. cbn [mbind mret].
    destruct (bool_decide _) eqn:EU; [done|]. apply bool_decide_eq_false, dec_stable in EU.
    unfold isBefore. destruct (Z.ltb_spec (expiresAt t) (clock (ticks s))); [done|].
    destruct (Z.leb_spec MAX_FAILED_ATTEMPTS (failedAttempts t)); [done|]. cbn.
    do 3 (split; [done|]). split; [lia|]. split; try done.
    + exists a. by rewrite Ead.
    + exists (ticks s). split; [lia|done].
Qed.

Lemma evolving_findValidToken e code : evolving (findValidToken e code).
Proof.
  apply evolving_same. intros s. eapply mwp_mono; [apply mwp_findValidToken|]. by intros ? ? (? & _ & ? & _).
Qed.

(** Using a token, and cleaning up. *)
Lemma evolving_use k t u s s1 : tokens s !! k = Some t -> usedAt t = None -> tokens s1 = tokens s ->
  next_token s1 = next_token s -> tokens_evolve s (with_tokens (alter (setUsedAt (Some u)) k) s1).
Proof.
  intros Et U E N. split; [cbn; lia|]. cbn. rewrite E. intros k' t' E'. left.
  destruct (decide (k = k')) as [<-|Nk].
  - rewrite lookup_alter_eq, Et in E'. injection E' as <-. exists t. split; [done|]. right. eauto.
  - rewrite lookup_alter_ne in E' by done. exists t'. split; [done|by left].
Qed.

Lemma evolving_reset e code p q : evolving (resetPassword e code p q).
Proof.
  apply evolving_transactional. destruct (bool_decide (p = q)); [|done]. destruct (isStrongPassword p); [|done].
  cbn [negb]. intros s. apply mwp_bind. eapply mwp_mono; [apply mwp_findValidToken|].
  intros [k t] s1 (E1 & _ & E2 & _ & V). cbn [fst snd] in *.
  do 2 (apply mwp_bind; unfold mwp at 1; cbn [tick_now mmodify]).
  apply mwp_bind. unfold mwp at 1, time. cbn [mbind tick_now mret]. apply mwp_bind. unfold mwp at 1. cbn [mmodify].
  eapply mwp_mono; [apply evolving_cleanup|]. intros ? s2 T2. cbn in T2. etrans; [|exact T2].
  apply (evolving_use k t); [apply V|apply V|done|done].
Qed.

(** Calls that leave the tokens alone. *)
Definition tokenless {A} (c : M A) : Prop := forall s,
  tokens (ended (c s)) = tokens s /\ next_token (ended (c s)) = next_token s.
Lemma tokenless_bind {A B} (c : M A) (k : A -> M B) : tokenless c -> (forall a, tokenless (k a)) -> tokenless (mbind c k).
Proof.
  intros Hc Hk s. specialize (Hc s). unfold mbind. destruct (c s) as [a s'| |]; try exact Hc.
  cbn in Hc. destruct Hc as [<- <-]. apply Hk.
Qed.
Lemma tokenless_modify f : (forall s, tokens (f s) = tokens s /\ next_token (f s) = next_token s) -> tokenless (mmodify f).
Proof. intros Hf s. apply Hf. Qed.
Lemma tokenless_step {A} (c : M A) : (forall s, exists r, c s = r /\ tokens (ended r) = tokens s
  /\ next_token (ended r) = next_token s) -> tokenless c.
Proof. intros Hc s. by destruct (Hc s) as (r & -> & ?). Qed.
Ltac tokenless := repeat first
  [ apply tokenless_bind; [|intros ?] | apply tokenless_modify; by intros
  | apply tokenless_step; intros; eexists; by repeat split
  | match goal with
    | |- tokenless (if ?b then _ else _) => destruct b
    | |- tokenless (match ?x with _ => _ end) => destruct x
    | |- tokenless (let x := _ in _) => cbv zeta
    end ].

Definition on_tokens (c : account_call) : bool :=
  match c with RequestReset _ | VerifyCode _ _ | ResetPassword _ _ _ _ => true | _ => false end.
Lemma tokenless_perform c : on_tokens c = false -> tokenless (perform fuel c).
Proof. destruct c; cbn [perform on_tokens]; intros; try done; unfold AdminController.create; tokenless. Qed.

Lemma evolving_transaction {A} (c : M A) s : evolving c ->
  next_token s <= next_token (ended (mtransactional c s)) -> tokens_evolve s (ended (mtransactional c s)).
Proof.
  intros Hc N. specialize (Hc s). unfold mwp in Hc. unfold mtransactional in *.
  destruct (c s); cbn in *; [done|by apply tokens_evolve_sub..].
Qed.

Lemma answer_evolves s c : tokens_evolve s (answer fuel s c).
Proof.
  unfold answer. destruct (on_tokens c) eqn:Hc.
  - destruct c as [e|e code|e code p q| | | | | |]; try done; cbn [perform].
    + apply evolving_transaction; [evolving|]. apply (request_attempts fuel e s).
    + apply evolving_transaction; [|by apply (calm_perform fuel (VerifyCode e code) eq_refl eq_refl)].
      apply evolving_bind; [apply evolving_findValidToken|intros ?; apply evolving_ret].
    + pose proof (evolving_reset e code p q s) as E. unfold mwp in E.
      pose proof (calm_perform fuel (ResetPassword e code p q) eq_refl eq_refl s) as (_ & N & _). cbn [perform] in N.
      unfold resetPassword, mtransactional in *. destruct (_ s); cbn in *; [done|by apply tokens_evolve_sub..].
  - destruct (tokenless_perform c Hc s) as [E N]. apply tokens_evolve_sub; [lia|by rewrite E].
Qed.

Lemma answer_all_evolves cs : forall s, tokens_evolve s (answer_all fuel s cs).
Proof.
  induction cs as [|c cs IH]; intros s; cbn; [done|]. etrans; [apply answer_evolves|apply IH].
Qed.

Lemma reached_token cs k t : tokens (answer_all fuel no_accounts cs) !! k = Some t ->
  k < next_token (answer_all fuel no_accounts cs) /\ failedAttempts t = 0.
Proof.
  intros E. destruct (tokens_from _ _ (answer_all_evolves cs no_accounts) k t E) as [(t0 & E0 & _)|[? ?]].
  - cbn in E0. by rewrite lookup_empty in E0.
  - split; [lia|done].
Qed.

Lemma findValidToken_blocked e code s s' :
  findValidToken e code s = Failed (BadRequest "RESET_CODE_BLOCKED") s' ->
  exists k t, tokens s !! k = Some t /\ MAX_FAILED_ATTEMPTS <= failedAttempts t.
Proof.
  unfold findValidToken, findByEmail, mbind, mget. cbv zeta.
  destruct (find_rows _ _) as [|[id a] [|]]; [done| |done]. cbn [mret snd].
  destruct (is_active a); [|done]. cbn [mret fst].
  set (p := fun t => (token_admin t =? id) && String.eqb (codeHash t) (sha256 code)).
  pose proof (fun k t => in_find_rows p (tokens s) k t) as F.
  destruct (find_rows p (tokens s)) as [|[k t] [|]]; [|cbn [mret]|done].
  - cbn [mret]. by destruct (head _) as [[? ?]|].
  - unfold time, mbind, tick_now, mret. destruct (bool_decide _); [done|]. destruct (isBefore _ _); [done|].
    destruct (Z.leb_spec MAX_FAILED_ATTEMPTS (failedAttempts t)); [|done]. intros _.
    exists k, t. split; [|done]. by apply (F k t); left.
Qed.

(** C22: Whatever calls were made, no token counts a failed attempt, since the
    exception that reports a wrong code also undoes the count: no code is ever
    blocked, after however many wrong ones. *)
Theorem failed_attempts_are_never_counted (cs : list account_call) :
  let s := answer_all fuel no_accounts cs in
  (forall k t, tokens s !! k = Some t -> failedAttempts t = 0)
  /\ forall e code p s', verifyCode e code s <> Failed (BadRequest "RESET_CODE_BLOCKED") s'
       /\ resetPassword e code p p s <> Failed (BadRequest "RESET_CODE_BLOCKED") s'.
Proof.
  cbv zeta. split; [intros k t E; by apply (reached_token cs k)|].
  set (s := answer_all fuel no_accounts cs).
  assert (B : forall e code s1, findValidToken e code s <> Failed (BadRequest "RESET_CODE_BLOCKED") s1).
  { intros e code s1 F. apply findValidToken_blocked in F as (k & t & E & L).
    destruct (reached_token cs k t E) as [_ Z0]. unfold MAX_FAILED_ATTEMPTS in L. lia. }
  intros e code p s'. split; intros F.
  - unfold verifyCode, mtransactional, mbind in F.
    destruct (findValidToken e code s) as [?|f s1|] eqn:Ef; [done| |done].
    injection F as -> _. by apply (B e code s1).
  - unfold resetPassword, mtransactional in F. rewrite bool_decide_true in F by done. cbn [negb] in F.
    destruct (isStrongPassword p); [|done]. cbn [negb] in F. unfold mbind at 1 in F.
    destruct (findValidToken e code s) as [?|f s1|] eqn:Ef; [done| |done].
    injection F as -> _. by apply (B e code s1).
Qed.

Lemma reset_done e code p q s s' : resetPassword e code p q s = Done tt s' ->
  exists k t n u, p = q /\ isStrongPassword p = true /\ valid_token e code s k t
    /\ admins s' = alter (setPasswordHash (encode n p)) (token_admin t) (admins s)
    /\ tokens s' ⊆ alter (setUsedAt (Some u)) k (tokens s) /\ next_token s' = next_token s.
Proof.
  unfold resetPassword, mtransactional. destruct (bool_decide (p = q)) eqn:Epq; [|done].
  apply bool_decide_eq_true in Epq. destruct (isStrongPassword p) eqn:St; [|done]. cbn [negb].
  pose proof (mwp_findValidToken e code s) as V. unfold mwp in V. unfold mbind at 1.
  destruct (findValidToken e code s) as [[k t] s1| |]; [|done..]. cbn [fst snd] in V.
  destruct V as (E1 & E2 & E3 & _ & V). cbn. intros [= <-].
  exists k, t, (ticks s1), (clock (S (ticks s1))). do 3 (split; [done|]). cbn. rewrite E1, E2, E3.
  split; [done|]. split; [|done]. apply map_filter_subseteq.
Qed.

(** C3: Whatever calls were made, a reset that succeeds has the same strong
    password twice and a code that was sent to the active administrator of the
    address, not used and not expired; it sets the password of that
    administrator alone; and whatever calls follow, the token of the code is
    never valid again. *)
Theorem reset_codes_work_once (cs cs' : list account_call) (e : option string) (code : string)
    (p q : list Z) (s' : accounts) :
  let s := answer_all fuel no_accounts cs in
  resetPassword e code p q s = Done tt s' ->
  exists k t n, p = q /\ isStrongPassword p = true /\ valid_token e code s k t
    /\ admins s' = alter (setPasswordHash (encode n p)) (token_admin t) (admins s)
    /\ forall e2 code2 t2, ~ valid_token e2 code2 (answer_all fuel s' cs') k t2.
Proof.
  cbv zeta. intros (k & t & n & u & Epq & St & V & Ea & Et & En)%reset_done. exists k, t, n.
  do 4 (split; [done|]). intros e2 code2 t2 V2.
  destruct (reached_token cs k t (valid_row _ _ _ _ _ V)) as [Lk _].
  destruct (tokens_from _ _ (answer_all_evolves cs' s') k t2 (valid_row _ _ _ _ _ V2)) as [(t1 & E1 & T)|[? _]]; [|lia].
  eapply lookup_weaken in E1; [|exact Et]. rewrite lookup_alter_eq, (valid_row _ _ _ _ _ V) in E1.
  injection E1 as <-. pose proof (valid_unused _ _ _ _ _ V2) as U. destruct T as [->|[U' _]]; done.
Qed.
End validity.

(** * Strong passwords *)

Lemma has_matching_spec p s : (forall u, p u = true -> line_end u = false) ->
  has_matching p s = true <-> (exists u, In u s /\ p u = true) /\ forall u, In u s -> line_end u = false.
Proof.
  intros Hp. induction s as [|u s IH]; cbn.
  - split; [done|]. by intros [(? & [] & _) _].
  - rewrite orb_true_iff, !andb_true_iff, negb_true_iff, IH, forallb_forall.
    setoid_rewrite negb_true_iff. naive_solver.
Qed.

Lemma has_matching_clean p s : (forall u, In u s -> line_end u = false) ->
  has_matching p s = true <-> exists u, In u s /\ p u = true.
Proof.
  induction s as [|u s IH]; cbn; intros C.
  - split; [done|]. by intros (? & [] & _).
  - assert (C' : forall v, In v s -> line_end v = false) by (intros; apply C; by right).
    rewrite orb_true_iff, !andb_true_iff, negb_true_iff, forallb_forall, (IH C').
    setoid_rewrite negb_true_iff. naive_solver.
Qed.

(** A password is strong exactly when it has eight units or more, none of
    them a line end, and a lower case letter, an upper case letter, a digit and
    some other character. *)
Theorem strong_passwords (s : list Z) :
  isStrongPassword s = true <->
  (8 <= length s)%nat /\ (forall u, In u s -> line_end u = false)
  /\ (exists u, In u s /\ is_lower u = true) /\ (exists u, In u s /\ is_upper u = true)
  /\ (exists u, In u s /\ is_digit u = true) /\ (exists u, In u s /\ is_special u = true).
Proof.
  assert (R : forall a b u, (a, b) ∈ [(97, 122); (65, 90); (48, 57)] -> between a b u = true -> line_end u = false).
  { intros a b u Hab Hu. apply andb_true_iff in Hu as [L%Z.leb_le G%Z.leb_le].
    apply not_true_iff_false. intros (v & Hv & ->%Z.eqb_eq)%existsb_exists.
    rewrite !elem_of_cons in Hab. cbn in Hv. destruct Hab as [[= -> ->]|[[= -> ->]|[[= -> ->]|[]%not_elem_of_nil]]]; lia. }
  unfold isStrongPassword. rewrite !andb_true_iff, Nat.leb_le.
  rewrite !(has_matching_spec is_lower), !(has_matching_spec is_upper), !(has_matching_spec is_digit)
    by (intros u; apply R; set_solver).
  pose proof (has_matching_clean is_special s). naive_solver.
Qed.
