(* ===== verification/AccountsExamples.v ===== *)
(** Accounts at work: an administrator asks for a code and sets a new password;
    wrong codes are not counted. *)
From S2P Require Import Prelude Rental RentalServices RentalProps Accounts AccountsProps.
Import PasswordResetService.
Open Scope Z_scope.

#[local] Existing Instance plain_database.
#[local] Existing Instance plain_database_lawful.
#[local] Existing Instance minutes.

(** Codes in a row, and nothing hidden. *)
#[local] Instance open_secrets : Secrets := {|
  sha256 := fun code => code; encode := fun _ _ => "encoded"; matches := fun _ _ => true;
  nextInt := Z.of_nat; deliver := fun _ _ _ => None |}.

(** "Abcdef1!" *)
Definition a_password : list Z := [65; 98; 99; 100; 101; 102; 49; 33].
Definition asked : list account_call :=
  [CreateAdmin "Salma" "Salma@Cars.ma" None a_password a_password; RequestReset (Some " SALMA@cars.ma ")].
Definition wrong_codes : list account_call :=
  repeat (VerifyCode (Some "salma@cars.ma") "999999") 7.

Lemma asked_rows : let s := answer_all 10 no_accounts asked in
  (codeHash <$> tokens s) = {[1 := "000006"]} /\ (email <$> admins s) = {[1 := "salma@cars.ma"]}.
Proof. vm_compute. auto. Qed.

Lemma never_counted_witness : let s := answer_all 10 no_accounts (asked ++ wrong_codes) in
  (failedAttempts <$> tokens s !! 1) = Some 0
  /\ forall s', verifyCode (Some "salma@cars.ma") "000006" s <> Failed (BadRequest "RESET_CODE_BLOCKED") s'.
Proof.
  split; [reflexivity|]. intros s'.
  exact (proj1 (proj2 (failed_attempts_are_never_counted 10 (asked ++ wrong_codes))
    (Some "salma@cars.ma") "000006" a_password s')).
Defined.

Lemma works_once_witness :
  let s := answer_all 10 no_accounts (asked ++ wrong_codes) in
  exists k t, valid_token (Some "salma@cars.ma") "000006" s k t
    /\ forall e2 code2 t2, ~ valid_token e2 code2
         (answer_all 10 (ended (resetPassword (Some "salma@cars.ma") "000006" a_password a_password s)) asked) k t2.
Proof.
  cbv zeta.
  destruct (resetPassword (Some "salma@cars.ma") "000006" a_password a_password
    (answer_all 10 no_accounts (asked ++ wrong_codes))) as [[] s'|f s'|s'] eqn:E.
  - destruct (reset_codes_work_once 10 (asked ++ wrong_codes) asked _ _ _ _ s' E) as (k & t & n & _ & _ & V & _ & N).
    exists k, t. auto.
  - exfalso. vm_compute in E. discriminate E.
  - exfalso. vm_compute in E. discriminate E.
Defined.

(** Four requests in a row: the last one is refused. *)
Definition again : list account_call := repeat (RequestReset (Some "salma@cars.ma")) 3.
Lemma three_per_hour_witness :
  spaced (all_let_through 10 "salma@cars.ma" (answer_all 10 no_accounts []) (asked ++ again))
  /\ length (all_let_through 10 "salma@cars.ma" no_accounts (asked ++ again)) = 3%nat.
Proof.
  split; [|reflexivity].
  apply three_requests_per_hour; [|repeat constructor].
  intros m n L. unfold clock, minutes, RentalProps.minute. lia.
Defined.

(** A restart forgets the requests: an address without an account, whose requests
    leave no token either, gets three more. *)
Lemma restart_forgets_requests :
  let nobody := repeat (RequestReset (Some "nobody@cars.ma")) 4 in
  length (all_let_through 10 "nobody@cars.ma" no_accounts nobody) = 3%nat
  /\ length (all_let_through 10 "nobody@cars.ma" no_accounts
       (nobody ++ Startup false None None None :: nobody)) = 6%nat.
Proof. split; reflexivity. Qed.
